(* ===== verification/_CoqProject ===== *)
-Q . S2P
Prelude.v
Errors.v
SortedMap.v
Types.v
Host.v
Events.v
Reentrancy.v
Validation.v
Interfaces.v
AuditLog.v
Moves.v
Succeeds.v
AccessControl.v
PriceOracle.v
RiskRegistry.v
Treasury.v
InvoiceNft.v
FinancingPool.v
Marketplace.v
World.v
System.v
Lifetimes.v
Protocol.v
Custody.v
Progress.v
Scenario.v
Witnesses.v
