(* ===== verification/Prelude.v ===== *)
(** * The Kora invoice-financing contracts, verified

    A development beside the Soroban contracts of src/contracts/. An SME mints an
    invoice as an NFT, lists it at a discount in the marketplace, investors fund the
    listing, the financing pool takes the repayment from the SME and pays the
    investors; a treasury keeps the protocol fees, a risk registry keeps staked
    verifiers and scores, an oracle converts currencies, and an access control
    contract keeps the pause, the roles, the multisig and the governed parameters.

    ** The parts and their files

    - Prelude: machine integers (a [Z] with the bounds of its width; [checked_*],
      [saturating_*] and [as] written out), sums over lists, shared tactics.
    - Errors, Types, Events, Validation, Reentrancy: src/contracts/shared/src/errors.rs,
      types.rs with audit.rs, events.rs, validation.rs and reentrancy.rs.
    - Host: what the contracts see of Soroban. A handler is a function [M W A] from a
      context [Ctx] (running contract, calling contracts, signatures, ledger time) and a
      world to [Ret] (Ok), [Fail] (Err) or [Trap] (panic). [require_auth], [env_now],
      storage reads and writes, [publish], [call] (an error of the callee panics the
      caller; re-entry is refused by the host), [try_call] (a failed callee is rolled
      back) and [run_tx] (a transaction keeps its state only when it returns Ok). The
      storage of a contract maps the source's [DataKey]s to optional values whose type
      depends on the key; the instance and the persistent tier are separate maps. Every
      persistent entry has a life time, its last ledger: [persistent_set] gives a new
      entry the minimum of the network, [extend_ttl] lengthens it.
    - SortedMap: the SDK's ordered [Map<Address, V>].
    - Interfaces: the clients the contracts call each other through, as type classes,
      with the laws the callers rely on; the token contract is the class [TokenClient],
      with the documented behaviour of SEP-41 as [TokenLaws].
    - AuditLog: the admin audit ring, the same code in three contracts, over the
      interface [AuditStore].
    - AccessControl, PriceOracle, RiskRegistry, Treasury, InvoiceNft, FinancingPool,
      Marketplace: one file per contract, src/contracts/<name>/src/lib.rs. Each has its
      [DataKey], one definition per entry point and helper under the source's name, the
      type [Call] of its calls, [exec], which runs one, and [step], a transaction of the
      contract or anything else on the ledger that cannot write its storage.
    - World: the seven contracts at their addresses over one ledger; each client method
      is the body of the contract it calls, tokens are a reference ledger that checks
      authorization, sign and balance. The laws of Interfaces are proved of it, so none
      of them is vacuous.
    - Moves: a program logic for "every successful run of this handler takes the world
      along the preorder [R]", closed under the monad and decided by the tactic [moves].
    - System: transactions of the whole protocol, [sys_step], with every call between
      contracts they make. Whatever each contract's calls respect, the system respects
      ([covered]).
    - Protocol: invariants over the marketplace, the pool and the invoice registry
      together.
    - Succeeds: a program logic for "this handler returns Ok here", with a rule per
      construct of the monad and the tactics [run_walk] and [walk]; Progress uses it to
      show that the transactions the protocol exists for do succeed.
    - Lifetimes: which entries each contract's calls leave without an extension, and
      scripts/ttl_keeper.sh, which is to extend them.
    - Custody: which transactions can take tokens out of the pool, the treasury and the
      registry, and whom they pay.
    - Scenario, Witnesses: a deployment run by evaluation from nothing to a repaid
      invoice, and each theorem applied to its states.

    ** What the theorems show

    - Per contract, functional behaviour of the operations that move money or status
      (fund_invoice, list_invoice, repay, accept_early_settlement, buy_position,
      withdraw, record_default, mint_invoice, convert), with every guard that a success
      implies and the frame of what does not change.
    - Invariants of the reachable states: listings and pools are well formed, stored
      invoices are well formed, stakes are backed by tokens, the cap on positions holds.
    - Safety over histories: the invoice lifecycle, permanence of pools and listings,
      exact refunds, the withdrawal limit over any window of 24 hours, quorum and
      timelocks of governance, at-most-once execution, score cooldowns.
    - Liveness: in a reachable state with the contracts wired to one another, under
      conditions the records [can_fund], [can_repay] and [can_settle] list, an open
      listing can be filled, a pool can be repaid in part or in full, and two
      transactions take a listed invoice to Repaid ([open_listing_can_be_settled]).
      Among the conditions: the invoice is not frozen, nor funded early or defaulted,
      amounts are at most [SHARE_SAFE] and tokens have at most 7 decimals, so that no
      share overflows.
    - Life times: what each call writes lives on for a month, but for the exemptions the
      theorem lists; the pools' records are never extended, nor is anything by the keeper.
    - Arithmetic: shares are the floor of the exact share and never more than it,
      normalization of decimals round-trips, distributions never pay out more than is
      distributed, overflow is an error or a panic and never a wrong value.
    - Refinement: the audit ring represents the history of admin actions; the system
      refines each contract; the status of an invoice is the state of its pool.
    - Where the code does not do what it means to, the theorem states what it does:
      see [premature_release_blocks_funding], [refunds_are_never_paid],
      [defaulted_pools_are_stranded], [sold_share_accepts_twice],
      [contracts_pay_only_whom_they_owe], [cancel_listing_locks_refunds], [legacy_deployment_can_be_taken_over],
      [migrate_panics_after_minting], [exposure_is_never_positive],
      [pool_records_are_never_extended], [ttl_keeper_extends_nothing],
      [list_invoice_correct] (the seller need not be the SME of the invoice),
      [convert_correct] (the direction of a price), [record_default_slashes] (rates above
      100%).

    ** Bounds and fuel

    No definition runs on arbitrary fuel. [migrate_loop] runs exactly the
    [next_id - 1] rounds of the source's range, [audit_page_loop] at most the page size
    (clamped to 50, as in the source), [positions_page_loop] at most 100; every other
    loop is structural recursion over the stored list or map. Integers are unbounded [Z]
    with their width checked where the source checks it, saturated where it saturates,
    and trapping where the release profile's overflow checks panic.

    ** Not modelled

    - What the host does to an entry whose life time has run out (archival and
      restoring), the network's cap on life times, and the life time of the instance
      entry; a read of the model never meets an archived entry.
    - The soroban SDK, the host and the token contracts: outside the repository. They
      are the definitions of Host, which state the documented interface, and the class
      [TokenClient]. [update_current_contract_wasm] is the recorded code hash; what new
      code does is outside the model.
    - Metering, and the size limits of ledger entries.
    - ProtocolConfig of types.rs, which no contract uses; the tests, the client SDK, the
      scripts and the documentation, which carry no contract logic. *)

From Stdlib Require Export ZArith Lia String.
From Stdlib Require Import Eqdep_dec.
From Stdlib Require Export Init.Byte Strings.Byte.
From stdpp Require Export prelude strings list gmap.

#[export] Set Default Goal Selector "!".
Open Scope Z_scope.

(** ** Machine integers

    A Rust integer is a [Z]; the width of each type is a pair of bounds, and
    the operations that can leave the range say so, the way the source's
    [checked_*], [saturating_*], casts and plain (overflow-checked) operators do. *)

Abbreviation u8 := Z (only parsing).
Abbreviation u32 := Z (only parsing).
Abbreviation u64 := Z (only parsing).
Abbreviation u128 := Z (only parsing).
Abbreviation i128 := Z (only parsing).

Definition u32_max : Z := 4294967295.
Definition u64_max : Z := 18446744073709551615.
Definition u128_max : Z := 340282366920938463463374607431768211455.
Definition i128_max : Z := 170141183460469231731687303715884105727.
Definition i128_min : Z := -170141183460469231731687303715884105728.

Definition in_i128 (z : Z) : bool := (i128_min <=? z) && (z <=? i128_max).
Definition in_u32 (z : Z) : bool := (0 <=? z) && (z <=? u32_max).
Definition in_u64 (z : Z) : bool := (0 <=? z) && (z <=? u64_max).
Definition in_u128 (z : Z) : bool := (0 <=? z) && (z <=? u128_max).

(** [z] when it fits, [None] when the checked operation reports overflow. *)
Definition fit_i128 (z : Z) : option i128 := if in_i128 z then Some z else None.
Definition fit_u32 (z : Z) : option u32 := if in_u32 z then Some z else None.
Definition fit_u64 (z : Z) : option u64 := if in_u64 z then Some z else None.
Definition fit_u128 (z : Z) : option u128 := if in_u128 z then Some z else None.

Definition checked_add (a b : i128) : option i128 := fit_i128 (a + b).
Definition checked_sub (a b : i128) : option i128 := fit_i128 (a - b).
Definition checked_mul (a b : i128) : option i128 := fit_i128 (a * b).
(** Rust's integer division truncates towards zero: [Z.quot]. *)
Definition checked_div (a b : i128) : option i128 :=
  if b =? 0 then None else fit_i128 (Z.quot a b).
Definition checked_pow (a : i128) (e : u32) : option i128 := fit_i128 (a ^ e).

Definition clamp (lo hi z : Z) : Z := Z.max lo (Z.min hi z).
Definition saturating_add (a b : i128) : i128 := clamp i128_min i128_max (a + b).
Definition saturating_sub (a b : i128) : i128 := clamp i128_min i128_max (a - b).
Definition u64_saturating_sub (a b : u64) : u64 := clamp 0 u64_max (a - b).
Definition u64_saturating_mul (a b : u64) : u64 := clamp 0 u64_max (a * b).
Definition u32_saturating_sub (a b : u32) : u32 := clamp 0 u32_max (a - b).

(** The [as] casts: two's complement wrap-around. *)
Definition as_u32 (z : Z) : u32 := z mod 2 ^ 32.
Definition as_u128 (z : Z) : u128 := z mod 2 ^ 128.
Definition as_i128 (z : Z) : i128 :=
  let m := z mod 2 ^ 128 in if m <? 2 ^ 127 then m else m - 2 ^ 128.

Ltac unfold_int :=
  unfold checked_add, checked_sub, checked_mul, checked_div, checked_pow,
    fit_i128, fit_u32, fit_u64, fit_u128, in_i128, in_u32, in_u64, in_u128,
    saturating_add, saturating_sub, u64_saturating_sub, u64_saturating_mul,
    u32_saturating_sub, clamp,
    u32_max, u64_max, u128_max, i128_max, i128_min in *.

(** ** Boolean reflection: turn the source's conditions into propositions. *)

Lemma fit_i128_Some z v : fit_i128 z = Some v <-> v = z /\ i128_min <= z <= i128_max.
Proof.
  unfold fit_i128, in_i128. destruct (_ <=? _) eqn:E1, (z <=? _) eqn:E2;
    simpl; split; intros H; try (simplify_eq; lia).
  destruct H as [-> ?]. done.
Qed.

Lemma fit_i128_None z : fit_i128 z = None <-> ~ (i128_min <= z <= i128_max).
Proof.
  unfold fit_i128, in_i128. destruct (_ <=? _) eqn:E1, (z <=? _) eqn:E2;
    simpl; split; intros H; try done; lia.
Qed.

Lemma fit_u64_Some z v : fit_u64 z = Some v <-> v = z /\ 0 <= z <= u64_max.
Proof.
  unfold fit_u64, in_u64. destruct (_ <=? _) eqn:E1, (z <=? _) eqn:E2;
    simpl; split; intros H; try (simplify_eq; lia).
  destruct H as [-> ?]. done.
Qed.

Lemma fit_u32_Some z v : fit_u32 z = Some v <-> v = z /\ 0 <= z <= u32_max.
Proof.
  unfold fit_u32, in_u32. destruct (_ <=? _) eqn:E1, (z <=? _) eqn:E2;
    simpl; split; intros H; try (simplify_eq; lia).
  destruct H as [-> ?]. done.
Qed.

Lemma fit_u128_Some z v : fit_u128 z = Some v <-> v = z /\ 0 <= z <= u128_max.
Proof.
  unfold fit_u128, in_u128. destruct (_ <=? _) eqn:E1, (z <=? _) eqn:E2;
    simpl; split; intros H; try (simplify_eq; lia).
  destruct H as [-> ?]. done.
Qed.

Lemma fit_i128_in z : i128_min <= z <= i128_max -> fit_i128 z = Some z.
Proof. intros. by apply fit_i128_Some. Qed.

Lemma fit_u64_in z : 0 <= z <= u64_max -> fit_u64 z = Some z.
Proof. intros. by apply fit_u64_Some. Qed.

Lemma checked_div_Some a b v :
  b <> 0 -> checked_div a b = Some v -> v = Z.quot a b.
Proof.
  unfold checked_div. intros Hb. destruct (b =? 0) eqn:E; [done|].
  intros H. by apply fit_i128_Some in H as [-> _].
Qed.

Lemma checked_div_pos a b :
  0 <= a <= i128_max -> 0 < b -> checked_div a b = Some (a / b).
Proof.
  intros Ha Hb. unfold checked_div. destruct (b =? 0) eqn:E; [lia|].
  rewrite Z.quot_div_nonneg by lia. apply fit_i128_in.
  pose proof (Z.div_pos a b). pose proof (Z.div_le_upper_bound a b i128_max).
  unfold i128_min, i128_max in *. nia.
Qed.

(** ** Lists *)

(** Sum of a measure over a list. *)
Definition sum_of {A} (f : A -> Z) (l : list A) : Z := foldr (fun a acc => f a + acc) 0 l.

Lemma sum_of_nil {A} (f : A -> Z) : sum_of f [] = 0.
Proof. done. Qed.

Lemma sum_of_cons {A} (f : A -> Z) a l : sum_of f (a :: l) = f a + sum_of f l.
Proof. done. Qed.

Lemma sum_of_app {A} (f : A -> Z) l k : sum_of f (l ++ k) = sum_of f l + sum_of f k.
Proof. induction l as [|a l IH]; simpl; [done|]. rewrite IH. lia. Qed.

Lemma sum_of_ext {A} (f g : A -> Z) l :
  (forall a, a ∈ l -> f a = g a) -> sum_of f l = sum_of g l.
Proof.
  induction l as [|a l IH]; intros H; [done|]. simpl. rewrite (H a) by by left.
  rewrite IH; [done|]. intros b Hb. apply H. by right.
Qed.

Lemma sum_of_nonneg {A} (f : A -> Z) l :
  Forall (fun a => 0 <= f a) l -> 0 <= sum_of f l.
Proof. induction 1; simpl; lia. Qed.

Lemma sum_of_le {A} (f g : A -> Z) l :
  Forall (fun a => f a <= g a) l -> sum_of f l <= sum_of g l.
Proof. induction 1; simpl; lia. Qed.

Definition len {A} (l : list A) : Z := Z.of_nat (length l).

Lemma len_nonneg {A} (l : list A) : 0 <= len l.
Proof. unfold len. lia. Qed.
#[export] Hint Resolve len_nonneg : core.

(** Does the list hold [a]?  (The source's scans over a [Vec<Address>].) *)
Definition list_mem {A} `{EqDecision A} (a : A) (l : list A) : bool := bool_decide (a ∈ l).

Lemma list_mem_true {A} `{EqDecision A} (a : A) l : list_mem a l = true <-> a ∈ l.
Proof. unfold list_mem. apply bool_decide_eq_true. Qed.
Lemma list_mem_false {A} `{EqDecision A} (a : A) l : list_mem a l = false <-> a ∉ l.
Proof. unfold list_mem. apply bool_decide_eq_false. Qed.
