(* ===== verification/Errors.v ===== *)
(** * Errors: the shared error enum (src/contracts/shared/src/errors.rs)

    [KoraError] has the source's variants; [error_code] is the [repr(u32)]
    discriminant each one carries across the contract boundary. *)

From S2P Require Import Prelude.

Inductive KoraError :=
  | Unauthorized | NotAdmin | NotVerifier | ProtocolPaused | AlreadyPaused
  | NotPaused | RoleNotAssigned | InvoiceNotFound | InvoiceAlreadyExists
  | InvalidInvoiceStatus | InvoiceExpired | InvalidAmount | InvalidDueDate
  | InvalidRiskScore | InvalidCid | InvoiceFrozen | ListingNotFound
  | ListingAlreadyCancelled | ListingExpired | FundingDeadlinePassed
  | InsufficientFunds | ExceedsFundingTarget | AlreadyFullyFunded
  | ListingFullyFunded | FundingNotExpired | RefundAlreadyClaimed
  | NoContribution | PoolNotFound | PoolAlreadyClosed | RepaymentAlreadyMade
  | InsufficientPoolBalance | PositionNotFound | SaleAlreadyListed
  | SaleNotFound | InvalidFeeRate | WithdrawalFailed | TokenNotWhitelisted
  | WithdrawalRateLimitExceeded | WithdrawalCapTimelockNotElapsed
  | NoCapChangeProposed | SMENotRegistered | DebtorNotRegistered
  | RiskScoreOutOfRange | ComplianceNotAttested | ArithmeticOverflow
  | ArithmeticUnderflow | InvalidAddress | EmptyString | AlreadyInitialized
  | NotInitialized | EmptyBytes | FieldTooLong | Reentrancy | InvalidLength
  | NoUpgradeProposed | UpgradeTimelockNotElapsed | ParameterProposalNotFound
  | ParameterProposalExecuted | NotMultisigSigner | AlreadyVoted
  | GovernanceThresholdNotMet | GovernanceTimelockNotElapsed
  | InvalidParameterValue | ScoreUpdateCooldownNotElapsed
  | CancellationPending | NoCancellationPending | InvalidThreshold
  | ProposalNotFound | ProposalAlreadyExecuted | ProposalExpired
  | AlreadyApproved | ThresholdNotMet | MultisigNotConfigured
  | SignerNotFound | CreditLimitExceeded | NotInvoiceOwner
  | CurrencyNotAllowed.

#[export] Instance KoraError_eq_dec : EqDecision KoraError.
Proof. solve_decision. Defined.

(** The [repr(u32)] discriminants. *)
Definition error_code (e : KoraError) : u32 :=
  match e with
  | Unauthorized => 1 | NotAdmin => 2 | NotVerifier => 3
  | ProtocolPaused => 4 | AlreadyPaused => 5 | NotPaused => 6
  | RoleNotAssigned => 7 | InvoiceNotFound => 10 | InvoiceAlreadyExists => 11
  | InvalidInvoiceStatus => 12 | InvoiceExpired => 13 | InvalidAmount => 14
  | InvalidDueDate => 15 | InvalidRiskScore => 16 | InvalidCid => 17
  | InvoiceFrozen => 18 | ListingNotFound => 20
  | ListingAlreadyCancelled => 21 | ListingExpired => 22
  | FundingDeadlinePassed => 23 | InsufficientFunds => 24
  | ExceedsFundingTarget => 25 | AlreadyFullyFunded => 26
  | ListingFullyFunded => 27 | FundingNotExpired => 28
  | RefundAlreadyClaimed => 29 | NoContribution => 95 | PoolNotFound => 30
  | PoolAlreadyClosed => 31 | RepaymentAlreadyMade => 32
  | InsufficientPoolBalance => 33 | PositionNotFound => 34
  | SaleAlreadyListed => 35 | SaleNotFound => 36 | InvalidFeeRate => 40
  | WithdrawalFailed => 41 | TokenNotWhitelisted => 42
  | WithdrawalRateLimitExceeded => 43 | WithdrawalCapTimelockNotElapsed => 44
  | NoCapChangeProposed => 45 | SMENotRegistered => 50
  | DebtorNotRegistered => 51 | RiskScoreOutOfRange => 52
  | ComplianceNotAttested => 53 | ArithmeticOverflow => 90
  | ArithmeticUnderflow => 91 | InvalidAddress => 92 | EmptyString => 93
  | AlreadyInitialized => 94 | NotInitialized => 96 | EmptyBytes => 97
  | FieldTooLong => 103 | Reentrancy => 98 | InvalidLength => 99
  | NoUpgradeProposed => 100 | UpgradeTimelockNotElapsed => 101
  | ParameterProposalNotFound => 110 | ParameterProposalExecuted => 111
  | NotMultisigSigner => 112 | AlreadyVoted => 113
  | GovernanceThresholdNotMet => 114 | GovernanceTimelockNotElapsed => 115
  | InvalidParameterValue => 116 | ScoreUpdateCooldownNotElapsed => 117
  | CancellationPending => 118 | NoCancellationPending => 119
  | InvalidThreshold => 120 | ProposalNotFound => 121
  | ProposalAlreadyExecuted => 122 | ProposalExpired => 123
  | AlreadyApproved => 124 | ThresholdNotMet => 125
  | MultisigNotConfigured => 126 | SignerNotFound => 127
  | CreditLimitExceeded => 128 | NotInvoiceOwner => 129
  | CurrencyNotAllowed => 130
  end.
