(* ===== verification/SortedMap.v ===== *)
(** * SortedMap: the SDK's [Map<Address, V>]

    A [Map] is an ordered dictionary: its iteration order is the key order.
    It is a list of pairs sorted strictly by key, the sortedness carried by the
    type, so that no theorem about a stored map needs it as a hypothesis. *)

From S2P Require Import Prelude.

Section Raw.
Context {V : Type}.
Implicit Types (l : list (N * V)) (k : N) (v : V).

Fixpoint raw_sorted l : bool :=
  match l with
  | [] => true
  | (k, _) :: l' =>
      match l' with
      | [] => true
      | (k', _) :: _ => (k <? k')%N && raw_sorted l'
      end
  end.

Fixpoint raw_get k l : option V :=
  match l with
  | [] => None
  | (k', v) :: l' => if (k =? k')%N then Some v else raw_get k l'
  end.

Fixpoint raw_set k v l : list (N * V) :=
  match l with
  | [] => [(k, v)]
  | (k', v') :: l' =>
      if (k <? k')%N then (k, v) :: l
      else if (k =? k')%N then (k, v) :: l'
      else (k', v') :: raw_set k v l'
  end.

Fixpoint raw_remove k l : list (N * V) :=
  match l with
  | [] => []
  | (k', v') :: l' => if (k =? k')%N then l' else (k', v') :: raw_remove k l'
  end.

(** Every key of [l] is above [k]. *)
Definition above k l : Prop := Forall (fun p => (k < p.1)%N) l.

Lemma raw_sorted_cons k v l :
  raw_sorted ((k, v) :: l) = true <-> above k l /\ raw_sorted l = true.
Proof.
  revert k v. induction l as [|[k' v'] l IH]; intros k v.
  - simpl. split; [intros _; split; [constructor|done] | done].
  - change (raw_sorted ((k, v) :: (k', v') :: l))
      with ((k <? k')%N && raw_sorted ((k', v') :: l)).
    rewrite andb_true_iff, N.ltb_lt, (IH k' v'). split.
    + intros [Hlt [Ha Hs]]. split; [|done]. constructor; [done|].
      eapply Forall_impl; [exact Ha|]. intros [??]; simpl. lia.
    + intros [Ha [Ha' Hs]]. split; [|done]. by inversion Ha.
Qed.

Lemma above_raw_get k l : above k l -> raw_get k l = None.
Proof.
  induction 1 as [|[k' v'] l Hk Hl IH]; simpl in *; [done|].
  destruct (N.eqb_spec k k'); [lia|done].
Qed.

Lemma above_raw_set j k v l : (j < k)%N -> above j l -> above j (raw_set k v l).
Proof.
  intros Hjk. induction 1 as [|[k' v'] l Hk Hl IH]; simpl.
  - by repeat constructor.
  - destruct (k <? k')%N; [by repeat constructor|].
    destruct (k =? k')%N; by repeat constructor.
Qed.

Lemma above_raw_remove j k l : above j l -> above j (raw_remove k l).
Proof.
  induction 1 as [|[k' v'] l Hk Hl IH]; simpl; [by constructor|].
  destruct (k =? k')%N; [done|]. by constructor.
Qed.

Lemma raw_set_sorted k v l : raw_sorted l = true -> raw_sorted (raw_set k v l) = true.
Proof.
  induction l as [|[k' v'] l IH]; [done|]. intros Hs.
  pose proof (proj1 (raw_sorted_cons k' v' l) Hs) as [Ha Hl]. cbn [raw_set].
  destruct (N.ltb_spec k k').
  - apply raw_sorted_cons. split; [|done]. constructor; [done|].
    eapply Forall_impl; [exact Ha|]. intros [??]; simpl. lia.
  - destruct (N.eqb_spec k k') as [->|].
    + by apply raw_sorted_cons.
    + apply raw_sorted_cons. split; [|by apply IH]. apply above_raw_set; [lia|done].
Qed.

Lemma raw_remove_sorted k l : raw_sorted l = true -> raw_sorted (raw_remove k l) = true.
Proof.
  induction l as [|[k' v'] l IH]; [done|]. intros Hs.
  pose proof (proj1 (raw_sorted_cons k' v' l) Hs) as [Ha Hl]. cbn [raw_remove].
  destruct (k =? k')%N; [done|].
  apply raw_sorted_cons. split; [by apply above_raw_remove | by apply IH].
Qed.

Lemma raw_get_set k j v l :
  raw_get j (raw_set k v l) = if (j =? k)%N then Some v else raw_get j l.
Proof.
  induction l as [|[k' v'] l IH]; simpl; [done|].
  destruct (N.ltb_spec k k'); simpl; [done|].
  destruct (N.eqb_spec k k') as [->|]; simpl.
  - by destruct (N.eqb_spec j k').
  - rewrite IH. destruct (N.eqb_spec j k'), (N.eqb_spec j k); subst; done.
Qed.

Lemma raw_get_remove k j l :
  raw_sorted l = true ->
  raw_get j (raw_remove k l) = if (j =? k)%N then None else raw_get j l.
Proof.
  induction l as [|[k' v'] l IH]; intros Hs; [by destruct (j =? k)%N|].
  apply raw_sorted_cons in Hs as [Ha Hl]. simpl.
  destruct (N.eqb_spec k k') as [->|]; simpl.
  - destruct (N.eqb_spec j k') as [->|]; [by apply above_raw_get|done].
  - rewrite IH by done. destruct (N.eqb_spec j k'), (N.eqb_spec j k); subst; done.
Qed.

(** The weight a measure [f] gives the entry of [k], [0] when there is none. *)
Definition weight (f : V -> Z) (o : option V) : Z := from_option f 0 o.

Lemma raw_sum_set f k v l :
  raw_sorted l = true ->
  sum_of (fun p => f p.2) (raw_set k v l) =
  sum_of (fun p => f p.2) l - weight f (raw_get k l) + f v.
Proof.
  induction l as [|[k' v'] l IH]; intros Hs; [simpl; lia|].
  apply raw_sorted_cons in Hs as [Ha Hl]. cbn [raw_set raw_get].
  destruct (N.ltb_spec k k').
  - destruct (N.eqb_spec k k'); [lia|]. rewrite above_raw_get; [simpl; lia|].
    eapply Forall_impl; [exact Ha|]. intros [??]; simpl. lia.
  - destruct (N.eqb_spec k k'); simpl; [lia|]. rewrite IH by done. lia.
Qed.

Lemma raw_sum_remove f k l :
  raw_sorted l = true ->
  sum_of (fun p => f p.2) (raw_remove k l) =
  sum_of (fun p => f p.2) l - weight f (raw_get k l).
Proof.
  induction l as [|[k' v'] l IH]; intros Hs; [simpl; lia|].
  apply raw_sorted_cons in Hs as [Ha Hl]. cbn [raw_remove raw_get].
  destruct (N.eqb_spec k k'); simpl; [lia|]. rewrite IH by done. lia.
Qed.

Lemma raw_Forall_set (P : V -> Prop) k v l :
  P v -> Forall (fun p => P p.2) l -> Forall (fun p => P p.2) (raw_set k v l).
Proof.
  intros Hv. induction 1 as [|[k' v'] l Hk Hl IH]; simpl; [by repeat constructor|].
  destruct (k <? k')%N; [by repeat constructor|].
  destruct (k =? k')%N; by repeat constructor.
Qed.

Lemma raw_Forall_remove (P : V -> Prop) k l :
  Forall (fun p => P p.2) l -> Forall (fun p => P p.2) (raw_remove k l).
Proof.
  induction 1 as [|[k' v'] l Hk Hl IH]; simpl; [done|].
  destruct (k =? k')%N; [done|]. by constructor.
Qed.

Lemma raw_get_Forall (P : V -> Prop) k v l :
  Forall (fun p => P p.2) l -> raw_get k l = Some v -> P v.
Proof.
  induction 1 as [|[k' v'] l Hk Hl IH]; simpl; [done|].
  destruct (k =? k')%N; [by intros [= <-] | done].
Qed.
End Raw.

Record SMap (V : Type) := mkSMap {
  entries : list (N * V);
  entries_sorted : raw_sorted entries = true }.
Arguments mkSMap {V}.
Arguments entries {V}.
Arguments entries_sorted {V}.

Section SMap.
Context {V : Type}.
Implicit Types (m : SMap V) (k j : N) (v : V).

Definition map_new : SMap V := mkSMap [] eq_refl.
Definition map_get k m : option V := raw_get k (entries m).
Definition map_set k v m : SMap V :=
  mkSMap (raw_set k v (entries m)) (raw_set_sorted k v _ (entries_sorted m)).
Definition map_remove k m : SMap V :=
  mkSMap (raw_remove k (entries m)) (raw_remove_sorted k _ (entries_sorted m)).
Definition map_contains k m : bool := if map_get k m is Some _ then true else false.
Definition map_values m : list V := map snd (entries m).
Definition map_len m : u32 := len (entries m).
(** Sum of a measure over the values. *)
Definition map_sum (f : V -> Z) m : Z := sum_of (fun p => f p.2) (entries m).
Definition map_all (P : V -> Prop) m : Prop := Forall (fun p => P p.2) (entries m).

Lemma map_get_set k j v m :
  map_get j (map_set k v m) = if (j =? k)%N then Some v else map_get j m.
Proof. apply raw_get_set. Qed.

Lemma map_get_set_eq k v m : map_get k (map_set k v m) = Some v.
Proof. by rewrite map_get_set, N.eqb_refl. Qed.

Lemma map_get_set_ne k j v m : j <> k -> map_get j (map_set k v m) = map_get j m.
Proof. intros. rewrite map_get_set. by destruct (N.eqb_spec j k). Qed.

Lemma map_get_remove k j m :
  map_get j (map_remove k m) = if (j =? k)%N then None else map_get j m.
Proof. apply raw_get_remove, entries_sorted. Qed.

Lemma map_sum_set f k v m :
  map_sum f (map_set k v m) = map_sum f m - weight f (map_get k m) + f v.
Proof. apply raw_sum_set, entries_sorted. Qed.

Lemma map_sum_remove f k m :
  map_sum f (map_remove k m) = map_sum f m - weight f (map_get k m).
Proof. apply raw_sum_remove, entries_sorted. Qed.

Lemma map_all_set (P : V -> Prop) k v m : P v -> map_all P m -> map_all P (map_set k v m).
Proof. apply raw_Forall_set. Qed.

Lemma map_all_remove (P : V -> Prop) k m : map_all P m -> map_all P (map_remove k m).
Proof. apply raw_Forall_remove. Qed.

Lemma map_all_get (P : V -> Prop) k v m : map_all P m -> map_get k m = Some v -> P v.
Proof. apply raw_get_Forall. Qed.

Lemma map_sum_values f m : map_sum f m = sum_of f (map_values m).
Proof.
  unfold map_sum, map_values. induction (entries m) as [|[??] l IH]; simpl; [done|].
  by rewrite IH.
Qed.

Lemma map_sum_nonneg f m : map_all (fun v => 0 <= f v) m -> 0 <= map_sum f m.
Proof. apply sum_of_nonneg. Qed.
End SMap.
