(* ===== verification/Types.v ===== *)
(** * Types: the shared data (src/contracts/shared/src/types.rs, audit.rs)

    Rust structs are records with the source's field names, enums are inductive
    types with the source's variants. An [Address] is an opaque, totally ordered
    identity (a number), a [Symbol] and a [String] are Stdlib strings, [Bytes] a
    list of bytes and [Vec<T>] a list. *)

From S2P Require Import Prelude Errors.

Abbreviation Address := N (only parsing).
Abbreviation Symbol := string (only parsing).
Abbreviation Bytes := (list byte) (only parsing).
Abbreviation BytesN32 := (list byte) (only parsing).
Abbreviation Vec := list (only parsing).

(** Equality of bytes is decided through their bits, so that the equality of two
    keys evaluates to [eq_refl]. *)
Lemma byte_of_to_bits b : Byte.of_bits (Byte.to_bits b) = b.
Proof. by destruct b. Defined.

#[export] Instance byte_eq_decision : EqDecision byte := fun a b =>
  match decide (Byte.to_bits a = Byte.to_bits b) with
  | left e => left (eq_trans (eq_sym (byte_of_to_bits a))
                      (eq_trans (f_equal Byte.of_bits e) (byte_of_to_bits b)))
  | right n => right (fun e => n (f_equal Byte.to_bits e))
  end.

(** ** types.rs *)

Inductive InvoiceStatus := Created | Listed | Funded | Repaid | Defaulted.

#[export] Instance InvoiceStatus_eq_dec : EqDecision InvoiceStatus.
Proof. solve_decision. Defined.

Inductive RiskTier := TierAAA | TierAA | TierA | TierB | TierC.

#[export] Instance RiskTier_eq_dec : EqDecision RiskTier.
Proof. solve_decision. Defined.

(** [RiskTier::from_score]: the range patterns of the source, in order. *)
Definition from_score (score : u32) : RiskTier :=
  if (0 <=? score) && (score <=? 20) then TierAAA
  else if (21 <=? score) && (score <=? 40) then TierAA
  else if (41 <=? score) && (score <=? 60) then TierA
  else if (61 <=? score) && (score <=? 80) then TierB
  else TierC.

Record Invoice := mkInvoice {
  inv_id : u64;
  inv_sme : Address;
  inv_debtor_hash : Bytes;
  inv_amount : i128;
  inv_currency : Symbol;
  inv_due_date : u64;
  inv_ipfs_cid : string;
  inv_metadata_hash : Bytes;
  inv_risk_score : u32;
  inv_risk_tier : RiskTier;
  inv_status : InvoiceStatus;
  inv_created_at : u64;
  inv_funded_at : option u64;
  inv_repaid_at : option u64;
  inv_notes : option string }.

Record Listing := mkListing {
  l_invoice_id : u64;
  l_seller : Address;
  l_asking_price : i128;
  l_face_value : i128;
  l_token : Address;
  l_funded_amount : i128;
  l_funding_deadline : u64;
  l_is_active : bool }.

Record Position := mkPosition {
  pos_investor : Address;
  pos_invoice_id : u64;
  pos_contributed : i128;
  pos_share_bps : u32;
  pos_yield_claimed : i128 }.

Record Pool := mkPool {
  p_invoice_id : u64;
  p_token : Address;
  p_total_funded : i128;
  p_face_value : i128;
  p_repaid_amount : i128;
  p_is_closed : bool;
  p_late_penalty_bps : u32;
  p_total_owed : i128;
  p_penalty_applied : bool }.

Record PositionSaleOffer := mkPositionSaleOffer {
  so_seller : Address;
  so_invoice_id : u64;
  so_token : Address;
  so_price : i128 }.

Record EarlySettlementOffer := mkEarlySettlementOffer {
  es_invoice_id : u64;
  es_amount : i128;
  es_accepted_bps : u32;
  es_accepted : Vec Address }.

Record SmeProfile := mkSmeProfile {
  sp_address : Address;
  sp_verified : bool;
  sp_verifier : Address;
  sp_risk_score : u32;
  sp_total_invoices : u32;
  sp_defaults : u32;
  sp_registered_at : u64;
  sp_compliance_attested : bool;
  sp_credit_limit : i128 }.

Inductive AdminAction :=
  | Pause
  | Unpause
  | GrantRole (target : Address) (role : u32)
  | RevokeRole (target : Address)
  | TransferAdmin (new_admin : Address).

Record Proposal := mkProposal {
  pr_id : u64;
  pr_action : AdminAction;
  pr_proposer : Address;
  pr_approvals : Vec Address;
  pr_executed : bool;
  pr_created_at : u64;
  pr_expires_at : u64 }.

Record MultisigConfig := mkMultisigConfig {
  ms_threshold : u32;
  ms_signers : Vec Address }.

Inductive ParameterKey := FeeBps | LatePenaltyBps | MaxRiskScore.

#[export] Instance ParameterKey_eq_dec : EqDecision ParameterKey.
Proof. solve_decision. Defined.

Record ParameterProposal := mkParameterProposal {
  pp_id : u64;
  pp_key : ParameterKey;
  pp_new_value : u32;
  pp_proposer : Address;
  pp_approvals : Vec Address;
  pp_created_at : u64;
  pp_executed : bool }.

(** ** audit.rs *)

Definition MAX_AUDIT_LOG_SIZE : u64 := 500.

Inductive AuditSource := SrcAccessControl | SrcTreasury | SrcRiskRegistry.

Inductive AdminActionType :=
  | ActPause | ActUnpause | ActGrantRole | ActRevokeRole | ActTransferAdmin
  | ActConfigureMultisig | ActProposeUpgrade | ActExecuteUpgrade
  | ActMultisigExecuteAction | ActProposeParameter | ActExecuteParameter
  | ActSetFeeBps | ActWhitelistToken | ActWithdraw | ActEmergencyWithdraw
  | ActProposeWithdrawalCap | ActExecuteWithdrawalCap
  | ActTreasuryProposeUpgrade | ActTreasuryExecuteUpgrade
  | ActAddVerifier | ActRemoveVerifier | ActRecordDefault
  | ActRegistryTransferAdmin | ActRegistryProposeUpgrade
  | ActRegistryExecuteUpgrade.

Record AdminAuditEntry := mkAdminAuditEntry {
  ae_sequence : u64;
  ae_timestamp : u64;
  ae_actor : Address;
  ae_act : AdminActionType;
  ae_source : AuditSource }.

(** ** Functional updates of the records the handlers mutate in place *)

Definition with_status (s : InvoiceStatus) (i : Invoice) : Invoice :=
  mkInvoice (inv_id i) (inv_sme i) (inv_debtor_hash i) (inv_amount i) (inv_currency i) (inv_due_date i)
    (inv_ipfs_cid i) (inv_metadata_hash i) (inv_risk_score i) (inv_risk_tier i) s (inv_created_at i)
    (inv_funded_at i) (inv_repaid_at i) (inv_notes i).

Definition with_funded_at (t : option u64) (i : Invoice) : Invoice :=
  mkInvoice (inv_id i) (inv_sme i) (inv_debtor_hash i) (inv_amount i) (inv_currency i) (inv_due_date i)
    (inv_ipfs_cid i) (inv_metadata_hash i) (inv_risk_score i) (inv_risk_tier i) (inv_status i) (inv_created_at i)
    t (inv_repaid_at i) (inv_notes i).

Definition with_repaid_at (t : option u64) (i : Invoice) : Invoice :=
  mkInvoice (inv_id i) (inv_sme i) (inv_debtor_hash i) (inv_amount i) (inv_currency i) (inv_due_date i)
    (inv_ipfs_cid i) (inv_metadata_hash i) (inv_risk_score i) (inv_risk_tier i) (inv_status i) (inv_created_at i)
    (inv_funded_at i) t (inv_notes i).

Definition with_metadata_hash (h : Bytes) (i : Invoice) : Invoice :=
  mkInvoice (inv_id i) (inv_sme i) (inv_debtor_hash i) (inv_amount i) (inv_currency i) (inv_due_date i)
    (inv_ipfs_cid i) h (inv_risk_score i) (inv_risk_tier i) (inv_status i) (inv_created_at i)
    (inv_funded_at i) (inv_repaid_at i) (inv_notes i).

Definition with_funded_amount (v : i128) (l : Listing) : Listing :=
  mkListing (l_invoice_id l) (l_seller l) (l_asking_price l) (l_face_value l) (l_token l)
    v (l_funding_deadline l) (l_is_active l).

Definition with_is_active (b : bool) (l : Listing) : Listing :=
  mkListing (l_invoice_id l) (l_seller l) (l_asking_price l) (l_face_value l) (l_token l)
    (l_funded_amount l) (l_funding_deadline l) b.

Definition with_repaid_amount (v : i128) (p : Pool) : Pool :=
  mkPool (p_invoice_id p) (p_token p) (p_total_funded p) (p_face_value p) v (p_is_closed p)
    (p_late_penalty_bps p) (p_total_owed p) (p_penalty_applied p).

Definition with_is_closed (b : bool) (p : Pool) : Pool :=
  mkPool (p_invoice_id p) (p_token p) (p_total_funded p) (p_face_value p) (p_repaid_amount p) b
    (p_late_penalty_bps p) (p_total_owed p) (p_penalty_applied p).

Definition with_penalty (owed : i128) (p : Pool) : Pool :=
  mkPool (p_invoice_id p) (p_token p) (p_total_funded p) (p_face_value p) (p_repaid_amount p)
    (p_is_closed p) (p_late_penalty_bps p) owed true.

Definition with_accepted (bps : u32) (l : Vec Address) (o : EarlySettlementOffer) :=
  mkEarlySettlementOffer (es_invoice_id o) (es_amount o) bps l.

Definition with_approvals (l : Vec Address) (p : Proposal) : Proposal :=
  mkProposal (pr_id p) (pr_action p) (pr_proposer p) l (pr_executed p) (pr_created_at p) (pr_expires_at p).

Definition with_executed (b : bool) (p : Proposal) : Proposal :=
  mkProposal (pr_id p) (pr_action p) (pr_proposer p) (pr_approvals p) b (pr_created_at p) (pr_expires_at p).

Definition with_pp_approvals (l : Vec Address) (p : ParameterProposal) : ParameterProposal :=
  mkParameterProposal (pp_id p) (pp_key p) (pp_new_value p) (pp_proposer p) l
    (pp_created_at p) (pp_executed p).

Definition with_pp_executed (b : bool) (p : ParameterProposal) : ParameterProposal :=
  mkParameterProposal (pp_id p) (pp_key p) (pp_new_value p) (pp_proposer p) (pp_approvals p)
    (pp_created_at p) b.

Definition with_risk_score (s : u32) (p : SmeProfile) : SmeProfile :=
  mkSmeProfile (sp_address p) (sp_verified p) (sp_verifier p) s (sp_total_invoices p) (sp_defaults p)
    (sp_registered_at p) (sp_compliance_attested p) (sp_credit_limit p).

Definition with_total_invoices (n : u32) (p : SmeProfile) : SmeProfile :=
  mkSmeProfile (sp_address p) (sp_verified p) (sp_verifier p) (sp_risk_score p) n (sp_defaults p)
    (sp_registered_at p) (sp_compliance_attested p) (sp_credit_limit p).

Definition with_defaults (n : u32) (p : SmeProfile) : SmeProfile :=
  mkSmeProfile (sp_address p) (sp_verified p) (sp_verifier p) (sp_risk_score p) (sp_total_invoices p)
    n (sp_registered_at p) (sp_compliance_attested p) (sp_credit_limit p).

Definition with_credit_limit (v : i128) (p : SmeProfile) : SmeProfile :=
  mkSmeProfile (sp_address p) (sp_verified p) (sp_verifier p) (sp_risk_score p) (sp_total_invoices p)
    (sp_defaults p) (sp_registered_at p) (sp_compliance_attested p) v.
