(* ===== verification/Host.v ===== *)
(** * Host: the contract environment

    What the contracts see of the ledger: who runs and who signed ([Ctx]), the
    outcome of an invocation ([Res]), the contract's own storage as a map from
    the source's [DataKey]s to typed values, the event log, and calls to other
    contracts. A handler is a value of [M W A], where [W] is any world that
    carries the storages and the log ([HasStorage], [HasEvents]). *)

From S2P Require Import Prelude Errors Types.
From Stdlib Require Import Eqdep_dec.

(** ** Outcomes *)

(** [cx_stack] is the chain of calling contracts, innermost first;
    [cx_signed a] holds when the transaction carries [a]'s authorization;
    [cx_ledger] is the sequence number of the ledger it runs in, [cx_min_ttl] the
    network's life time of a new persistent entry, in ledgers. *)
Record Ctx := mkCtx {
  cx_self : Address;
  cx_stack : list Address;
  cx_signed : Address -> bool;
  cx_now : u64;
  cx_ledger : u32;
  cx_min_ttl : u32 }.

(** [Ret]: [Ok(a)]. [Fail]: [Err(e)], with the state at the point of return,
    which the host then throws away ([call], [run_tx]). [Trap]: a panic. *)
Inductive Res (W A : Type) :=
  | Ret (a : A) (w : W)
  | Fail (e : KoraError) (w : W)
  | Trap.
Arguments Ret {W A}.
Arguments Fail {W A}.
Arguments Trap {W A}.

Definition M (W A : Type) : Type := Ctx -> W -> Res W A.

(** [Result<A, KoraError>], of the helpers that touch no state. *)
Inductive Result (A : Type) := Ok (a : A) | Err (e : KoraError).
Arguments Ok {A}.
Arguments Err {A}.

Definition ok_or {A} (o : option A) (e : KoraError) : Result A :=
  match o with Some a => Ok a | None => Err e end.

#[export] Instance Result_ret : MRet Result := fun A a => Ok a.
#[export] Instance Result_bind : MBind Result := fun A B k m =>
  match m with Ok a => k a | Err e => Err e end.

#[export] Instance M_ret W : MRet (M W) := fun A a cx w => Ret a w.
#[export] Instance M_bind W : MBind (M W) := fun A B k m cx w =>
  match m cx w with
  | Ret a w1 => k a cx w1
  | Fail e w1 => Fail e w1
  | Trap => Trap
  end.

Section Control.
Context {W : Type}.

Definition fail {A} (e : KoraError) : M W A := fun cx w => Fail e w.
Definition trap {A} : M W A := fun cx w => Trap.
(** The [?] operator on a pure [Result]. *)
Definition lift {A} (r : Result A) : M W A := fun cx w =>
  match r with Ok a => Ret a w | Err e => Fail e w end.
(** [if c { return Err(e) }]. *)
Definition fail_if (c : bool) (e : KoraError) : M W unit := fun cx w =>
  if c then Fail e w else Ret tt w.
(** A value the source unwraps, or an arithmetic operator the release profile
    compiles with overflow checks: [None] panics. *)
Definition or_trap {A} (o : option A) : M W A := fun cx w =>
  match o with Some a => Ret a w | None => Trap end.

(** [if c { m }]. *)
Definition when (c : bool) (m : M W unit) : M W unit := fun cx w =>
  if c then m cx w else Ret tt w.

Definition env_now : M W u64 := fun cx w => Ret (cx_now cx) w.
Definition env_self : M W Address := fun cx w => Ret (cx_self cx) w.

(** [a.require_auth()]: the direct caller, when it is a contract, and the
    signers of the transaction have authorized; anyone else panics. *)
Definition authorized (cx : Ctx) (a : Address) : bool :=
  match cx_stack cx with
  | caller :: _ => (a =? caller)%N || cx_signed cx a
  | [] => cx_signed cx a
  end.
Definition require_auth (a : Address) : M W unit := fun cx w =>
  if authorized cx a then Ret tt w else Trap.

(** The context of a contract called by the running one. *)
Definition callee_ctx (a : Address) (cx : Ctx) : Ctx :=
  mkCtx a (cx_self cx :: cx_stack cx) (cx_signed cx) (cx_now cx) (cx_ledger cx) (cx_min_ttl cx).

(** [client.method(..)]: runs the callee; an error of the callee panics the
    caller, and so does a call into a contract already on the stack. *)
Definition call {A} (a : Address) (m : M W A) : M W A := fun cx w =>
  if list_mem a (cx_self cx :: cx_stack cx) then Trap
  else match m (callee_ctx a cx) w with
       | Ret r w1 => Ret r w1
       | Fail _ _ | Trap => Trap
       end.

(** [client.try_method(..)]: [None] when the callee failed, whose effects the
    host has rolled back. *)
Definition try_call {A} (a : Address) (m : M W A) : M W (option A) := fun cx w =>
  match call a m cx w with
  | Ret r w1 => Ret (Some r) w1
  | Fail _ _ | Trap => Ret None w
  end.

(** A transaction: its state is kept only when the invocation returns [Ok]. *)
Definition run_tx {A} (m : M W A) (cx : Ctx) (w : W) : W :=
  match m cx w with Ret _ w1 => w1 | Fail _ _ | Trap => w end.

(** Did the invocation return [Ok]; the state it ended in. *)
Definition is_ret {A} (r : Res W A) : bool := if r is Ret _ _ then true else false.
Definition state_of {A} (w : W) (r : Res W A) : W := if r is Ret _ w' then w' else w.

Lemma is_ret_unit (r : Res W unit) w : is_ret r = true -> r = Ret tt (state_of w r).
Proof. by destruct r as [[]| |]. Qed.

Lemma is_ret_ex {A} (r : Res W A) w : is_ret r = true -> exists a, r = Ret a (state_of w r).
Proof. destruct r; [by eexists|done|done]. Qed.
End Control.

(** ** Events *)

Inductive Val :=
  | VAddr (a : Address) | VU32 (n : u32) | VU64 (n : u64) | VI128 (n : i128)
  | VBytes (b : Bytes) | VAction (a : AdminActionType) | VSource (s : AuditSource).

Record Event := mkEvent {
  ev_contract : Address;
  ev_topic : Symbol;
  ev_data : list Val }.

Class HasEvents (W : Type) := {
  w_events : W -> list Event;
  w_emit : Event -> W -> W }.

Definition publish {W} `{HasEvents W} (topic : Symbol) (data : list Val) : M W unit :=
  fun cx w => Ret tt (w_emit (mkEvent (cx_self cx) topic data) w).

(** ** Storage *)

(** The [DataKey] enum of a contract, with the type stored under each key. *)
Class StorageKey (K : Type) := {
  sk_eq_dec :: EqDecision K;
  sk_val : K -> Type }.

Definition Entries (K : Type) `{StorageKey K} : Type := forall k : K, option (sk_val k).

(** One contract's ledger entries: the instance and persistent tiers, the
    reentrancy lock ([GuardKey::Lock], instance tier), the code to run next. *)
Record Storage (K : Type) `{StorageKey K} := mkStorage {
  st_instance : Entries K;
  st_persistent : Entries K;
  st_lock : bool;
  st_wasm : option BytesN32 }.
Arguments mkStorage {K _}.
Arguments st_instance {K _}.
Arguments st_persistent {K _}.
Arguments st_lock {K _}.
Arguments st_wasm {K _}.

Section Entries.
Context {K : Type} `{StorageKey K}.

Definition entries_empty : Entries K := fun _ => None.
Definition entries_set (k : K) (v : sk_val k) (m : Entries K) : Entries K := fun k' =>
  match decide (k = k') with
  | left e => Some (eq_rect k sk_val v k' e)
  | right _ => m k'
  end.
Definition entries_remove (k : K) (m : Entries K) : Entries K := fun k' =>
  if decide (k = k') then None else m k'.

Lemma entries_set_eq k v m : entries_set k v m k = Some v.
Proof.
  unfold entries_set. destruct (decide (k = k)) as [e|]; [|done].
  by rewrite (proof_irrel e eq_refl).
Qed.
Lemma entries_set_ne k k' v m : k <> k' -> entries_set k v m k' = m k'.
Proof. intros. unfold entries_set. by destruct (decide (k = k')). Qed.
Lemma entries_remove_eq k m : entries_remove k m k = None.
Proof. unfold entries_remove. by rewrite decide_True. Qed.
Lemma entries_remove_ne k k' m : k <> k' -> entries_remove k m k' = m k'.
Proof. intros. unfold entries_remove. by rewrite decide_False. Qed.

Definition empty_storage : Storage K := mkStorage entries_empty entries_empty false None.

Definition iget (s : Storage K) (k : K) : option (sk_val k) := st_instance s k.
Definition pget (s : Storage K) (k : K) : option (sk_val k) := st_persistent s k.
Definition iset (k : K) (v : sk_val k) (s : Storage K) : Storage K :=
  mkStorage (entries_set k v (st_instance s)) (st_persistent s) (st_lock s) (st_wasm s).
Definition irem (k : K) (s : Storage K) : Storage K :=
  mkStorage (entries_remove k (st_instance s)) (st_persistent s) (st_lock s) (st_wasm s).
Definition pset (k : K) (v : sk_val k) (s : Storage K) : Storage K :=
  mkStorage (st_instance s) (entries_set k v (st_persistent s)) (st_lock s) (st_wasm s).
Definition prem (k : K) (s : Storage K) : Storage K :=
  mkStorage (st_instance s) (entries_remove k (st_persistent s)) (st_lock s) (st_wasm s).
Definition set_lock (b : bool) (s : Storage K) : Storage K :=
  mkStorage (st_instance s) (st_persistent s) b (st_wasm s).
Definition set_wasm (h : BytesN32) (s : Storage K) : Storage K :=
  mkStorage (st_instance s) (st_persistent s) (st_lock s) (Some h).

Implicit Types (s : Storage K) (k : K).

Lemma iget_iset k v s : iget (iset k v s) k = Some v.
Proof. apply entries_set_eq. Qed.
Lemma iget_iset_ne k k' v s : k <> k' -> iget (iset k v s) k' = iget s k'.
Proof. apply entries_set_ne. Qed.
Lemma iget_irem k s : iget (irem k s) k = None.
Proof. apply entries_remove_eq. Qed.
Lemma iget_irem_ne k k' s : k <> k' -> iget (irem k s) k' = iget s k'.
Proof. apply entries_remove_ne. Qed.
Lemma iget_pset k k' v s : iget (pset k v s) k' = iget s k'.
Proof. done. Qed.
Lemma iget_prem k k' s : iget (prem k s) k' = iget s k'.
Proof. done. Qed.
Lemma iget_lock b k s : iget (set_lock b s) k = iget s k.
Proof. done. Qed.
Lemma iget_wasm h k s : iget (set_wasm h s) k = iget s k.
Proof. done. Qed.
Lemma pget_pset k v s : pget (pset k v s) k = Some v.
Proof. apply entries_set_eq. Qed.
Lemma pget_pset_ne k k' v s : k <> k' -> pget (pset k v s) k' = pget s k'.
Proof. apply entries_set_ne. Qed.
Lemma pget_prem k s : pget (prem k s) k = None.
Proof. apply entries_remove_eq. Qed.
Lemma pget_prem_ne k k' s : k <> k' -> pget (prem k s) k' = pget s k'.
Proof. apply entries_remove_ne. Qed.
Lemma pget_iset k k' v s : pget (iset k v s) k' = pget s k'.
Proof. done. Qed.
Lemma pget_irem k k' s : pget (irem k s) k' = pget s k'.
Proof. done. Qed.
Lemma pget_lock b k s : pget (set_lock b s) k = pget s k.
Proof. done. Qed.
Lemma pget_wasm h k s : pget (set_wasm h s) k = pget s k.
Proof. done. Qed.
Lemma lock_iset k v s : st_lock (iset k v s) = st_lock s.
Proof. done. Qed.
Lemma lock_irem k s : st_lock (irem k s) = st_lock s.
Proof. done. Qed.
Lemma lock_pset k v s : st_lock (pset k v s) = st_lock s.
Proof. done. Qed.
Lemma lock_prem k s : st_lock (prem k s) = st_lock s.
Proof. done. Qed.
Lemma lock_lock b s : st_lock (set_lock b s) = b.
Proof. done. Qed.
Lemma lock_wasm h s : st_lock (set_wasm h s) = st_lock s.
Proof. done. Qed.
Lemma wasm_iset k v s : st_wasm (iset k v s) = st_wasm s.
Proof. done. Qed.
Lemma wasm_irem k s : st_wasm (irem k s) = st_wasm s.
Proof. done. Qed.
Lemma wasm_pset k v s : st_wasm (pset k v s) = st_wasm s.
Proof. done. Qed.
Lemma wasm_prem k s : st_wasm (prem k s) = st_wasm s.
Proof. done. Qed.
Lemma wasm_lock b s : st_wasm (set_lock b s) = st_wasm s.
Proof. done. Qed.
Lemma wasm_wasm h s : st_wasm (set_wasm h s) = Some h.
Proof. done. Qed.
End Entries.

#[global] Arguments iget : simpl never.
#[global] Arguments pget : simpl never.
#[global] Arguments iset : simpl never.
#[global] Arguments pset : simpl never.
#[global] Arguments irem : simpl never.
#[global] Arguments prem : simpl never.
#[global] Arguments set_lock : simpl never.
#[global] Arguments set_wasm : simpl never.

(** A world holds the storage of the contract with keys [K], and for each persistent
    entry the last ledger it lives in ([st_live], of the keys that are set). *)
Class HasStorage (W K : Type) `{StorageKey K} := {
  st_get : W -> Storage K;
  st_put : Storage K -> W -> W;
  st_live : W -> K -> u32;
  st_keep : (K -> u32) -> W -> W }.

Class StorageLaws (W K : Type) `{StorageKey K} `{!HasStorage W K} `{!HasEvents W} : Prop := {
  st_get_put : forall s w, st_get (st_put s w) = s;
  st_get_emit : forall e w, st_get (w_emit e w) = st_get w;
  events_put : forall s w, w_events (st_put s w) = w_events w;
  events_emit : forall e w, w_events (w_emit e w) = w_events w ++ [e];
  st_get_keep : forall f w, st_get (st_keep f w) = st_get w;
  st_live_keep : forall f w, st_live (st_keep f w) = f;
  st_live_put : forall s w, st_live (st_put s w) = st_live w;
  st_live_emit : forall e w, st_live (w_emit e w) = st_live w;
  events_keep : forall f w, w_events (st_keep f w) = w_events w }.

(** ** Writing and extending persistent entries *)

Section Lifetimes.
Context {W K : Type} `{StorageKey K} `{!HasStorage W K}.

(** A new entry lives for the network's minimum, an old one as long as before. *)
Definition created_live (cx : Ctx) (k : K) (w : W) : K -> u32 := fun k' =>
  if decide (k = k')
  then if pget (st_get w) k is Some _ then st_live w k else cx_ledger cx + cx_min_ttl cx - 1
  else st_live w k'.

(** [extend_ttl]: an entry with less than [threshold] ledgers to live gets
    [extend_to] from now on. *)
Definition extended_live (cx : Ctx) (k : K) (threshold extend_to : u32) (w : W) : K -> u32 :=
  fun k' =>
  if decide (k = k')
  then if st_live w k - cx_ledger cx <? threshold then cx_ledger cx + extend_to else st_live w k
  else st_live w k'.

Definition wset (cx : Ctx) (k : K) (v : sk_val k) (w : W) : W :=
  st_put (pset k v (st_get w)) (st_keep (created_live cx k w) w).
Definition wextend (cx : Ctx) (k : K) (threshold extend_to : u32) (w : W) : W :=
  st_keep (extended_live cx k threshold extend_to w) w.
End Lifetimes.

Section StorageOps.
Context {W K : Type} `{StorageKey K} `{!HasStorage W K}.

Definition instance_get (k : K) : M W (option (sk_val k)) := fun cx w =>
  Ret (iget (st_get w) k) w.
Definition instance_set (k : K) (v : sk_val k) : M W unit := fun cx w =>
  Ret tt (st_put (iset k v (st_get w)) w).
Definition instance_has (k : K) : M W bool := fun cx w =>
  Ret (if iget (st_get w) k is Some _ then true else false) w.
Definition instance_remove (k : K) : M W unit := fun cx w =>
  Ret tt (st_put (irem k (st_get w)) w).
Definition persistent_get (k : K) : M W (option (sk_val k)) := fun cx w =>
  Ret (pget (st_get w) k) w.
Definition persistent_set (k : K) (v : sk_val k) : M W unit := fun cx w =>
  Ret tt (wset cx k v w).
(** [env.storage().persistent().extend_ttl(key, threshold, extend_to)], which fails on
    an entry that does not exist. *)
Definition extend_ttl (k : K) (threshold extend_to : u32) : M W unit := fun cx w =>
  if pget (st_get w) k is Some _ then Ret tt (wextend cx k threshold extend_to w) else Trap.
Definition persistent_has (k : K) : M W bool := fun cx w =>
  Ret (if pget (st_get w) k is Some _ then true else false) w.
Definition persistent_remove (k : K) : M W unit := fun cx w =>
  Ret tt (st_put (prem k (st_get w)) w).

(** [.get(&k).ok_or(e)?] and [.get(&k).unwrap_or(d)]. *)
Definition instance_get_or (k : K) (e : KoraError) : M W (sk_val k) := fun cx w =>
  match iget (st_get w) k with Some v => Ret v w | None => Fail e w end.
Definition persistent_get_or (k : K) (e : KoraError) : M W (sk_val k) := fun cx w =>
  match pget (st_get w) k with Some v => Ret v w | None => Fail e w end.
Definition instance_get_default (k : K) (d : sk_val k) : M W (sk_val k) := fun cx w =>
  Ret (default d (iget (st_get w) k)) w.
Definition persistent_get_default (k : K) (d : sk_val k) : M W (sk_val k) := fun cx w =>
  Ret (default d (pget (st_get w) k)) w.

(** [env.deployer().update_current_contract_wasm(hash)]. *)
Definition update_current_contract_wasm (h : BytesN32) : M W unit := fun cx w =>
  Ret tt (st_put (set_wasm h (st_get w)) w).
End StorageOps.

Section LifetimeLaws.
Context {W K : Type} `{StorageKey K} `{!HasStorage W K} `{!HasEvents W} `{!StorageLaws W K}.
Implicit Types (cx : Ctx) (w : W) (k : K).

Lemma st_get_wset cx k v w : st_get (wset cx k v w) = pset k v (st_get w).
Proof. apply st_get_put. Qed.
Lemma st_get_wextend cx k t b w : st_get (wextend cx k t b w) = st_get w.
Proof. apply st_get_keep. Qed.
Lemma events_wset cx k v w : w_events (wset cx k v w) = w_events w.
Proof. unfold wset. by rewrite events_put, events_keep. Qed.
Lemma events_wextend cx k t b w : w_events (wextend cx k t b w) = w_events w.
Proof. apply events_keep. Qed.
Lemma st_live_wset cx k v w : st_live (wset cx k v w) = created_live cx k w.
Proof. unfold wset. by rewrite st_live_put, st_live_keep. Qed.
Lemma st_live_wextend cx k t b w : st_live (wextend cx k t b w) = extended_live cx k t b w.
Proof. apply st_live_keep. Qed.

(** Writing shortens no life, and neither does extending, which leaves at least the
    threshold. *)
Lemma created_live_ge cx k k' w :
  (k = k' -> is_Some (pget (st_get w) k)) -> st_live w k' <= created_live cx k w k'.
Proof.
  intros Hk. unfold created_live. destruct (decide _) as [<-|]; [|lia].
  destruct (Hk eq_refl) as [v ->]. lia.
Qed.
Lemma extended_live_grows cx k t b w k' :
  t <= b -> st_live w k' <= extended_live cx k t b w k'.
Proof.
  intros Hb. unfold extended_live. destruct (decide _) as [<-|]; [|lia]. destruct (_ <? _) eqn:E; lia.
Qed.
Lemma extended_live_ge cx k t b w : t <= b -> cx_ledger cx + t <= extended_live cx k t b w k.
Proof.
  intros Hb. unfold extended_live. rewrite decide_True by done. destruct (_ <? _) eqn:E; lia.
Qed.
End LifetimeLaws.

(** [m] leaves the storage with keys [K] alone. *)
Class Frames {W A : Type} (K : Type) `{StorageKey K} `{!HasStorage W K} (m : M W A) : Prop :=
  frames : forall cx w a w', m cx w = Ret a w' -> st_get w' = st_get w.

(** [m] leaves the whole world alone. *)
Class ReadOnly {W A : Type} (m : M W A) : Prop :=
  read_only : forall cx w a w', m cx w = Ret a w' -> w' = w.

#[export] Instance read_only_frames {W A K} `{StorageKey K} `{!HasStorage W K}
  (m : M W A) : ReadOnly m -> Frames K m.
Proof. intros Hm cx w a w' E. by rewrite (Hm _ _ _ _ E). Qed.
