(* ===== verification/Events.v ===== *)
(** * Events: the protocol's events (src/contracts/shared/src/events.rs)

    One definition per emitter, with the source's topic and data tuple. An event
    is published by the running contract and ends with the ledger timestamp. *)

From S2P Require Import Prelude Errors Types Host.

Module events.
Section Events.
Context {W : Type} `{!HasEvents W}.
Local Open Scope string_scope.

(** [emit], with [env.ledger().timestamp()] appended as every emitter does. *)
Definition emit (topic : Symbol) (data : list Val) : M W unit :=
  now ← env_now;
  publish topic (data ++ [VU64 now]).

Definition invoice_created (invoice_id : u64) (sme : Address) (amount : i128) : M W unit :=
  emit "INV_CRT" [VAddr sme; VU64 invoice_id; VI128 amount].

Definition invoice_listed (invoice_id : u64) (seller : Address) (asking_price : i128) :
    M W unit :=
  emit "INV_LST" [VAddr seller; VU64 invoice_id; VI128 asking_price].

Definition invoice_funded (invoice_id : u64) (investor : Address) (amount : i128) : M W unit :=
  emit "INV_FND" [VAddr investor; VU64 invoice_id; VI128 amount].

Definition invoice_repaid (invoice_id : u64) (sme : Address) (amount : i128) : M W unit :=
  emit "INV_RPD" [VAddr sme; VU64 invoice_id; VI128 amount].

Definition invoice_defaulted (invoice_id : u64) (actor : Address) : M W unit :=
  emit "INV_DFT" [VAddr actor; VU64 invoice_id].

Definition invoice_amended (invoice_id : u64) (sme : Address) : M W unit :=
  emit "INV_AMD" [VU64 invoice_id; VAddr sme].

Definition invoice_withdrawn (invoice_id : u64) (sme : Address) : M W unit :=
  emit "INV_WTH" [VU64 invoice_id; VAddr sme].

Definition repayment_made (invoice_id : u64) (payer : Address) (amount : i128) : M W unit :=
  emit "REPAY" [VAddr payer; VU64 invoice_id; VI128 amount].

Definition yield_distributed (invoice_id : u64) (investor : Address)
    (yield_amount : i128) : M W unit :=
  emit "YIELD" [VAddr investor; VU64 invoice_id; VI128 yield_amount].

Definition late_penalty_applied (invoice_id : u64) (penalty_amount : i128)
    (total_owed : i128) : M W unit :=
  emit "LATE_PEN" [VU64 invoice_id; VI128 penalty_amount; VI128 total_owed].

Definition listing_cancelled (invoice_id : u64) (seller : Address) : M W unit :=
  emit "LST_CXL" [VAddr seller; VU64 invoice_id].

Definition listing_expired (invoice_id : u64) (seller : Address) : M W unit :=
  emit "LST_EXP" [VAddr seller; VU64 invoice_id].

Definition fee_collected (investor : Address) (invoice_id : u64) (fee_amount : i128)
    (token : Address) : M W unit :=
  emit "FEE_COLL" [VAddr investor; VU64 invoice_id; VI128 fee_amount; VAddr token].

Definition fee_withdrawn (actor : Address) (token : Address) (amount : i128) : M W unit :=
  emit "FEE_WTH" [VAddr actor; VAddr token; VI128 amount].

Definition emergency_withdrawn (by_ : Address) (token : Address) (amount : i128) : M W unit :=
  emit "EMRG_WTH" [VAddr by_; VAddr token; VI128 amount].

Definition fee_rate_updated (by_ : Address) (old_bps : u32) (new_bps : u32) : M W unit :=
  emit "FEE_UPD" [VAddr by_; VU32 old_bps; VU32 new_bps].

Definition treasury_initialized (admin : Address) (fee_bps : u32) : M W unit :=
  emit "TRES_INI" [VAddr admin; VU32 fee_bps].

Definition protocol_paused (by_ : Address) : M W unit :=
  emit "AC_PAUSED" [VAddr by_].

Definition protocol_unpaused (by_ : Address) : M W unit :=
  emit "AC_UNPA" [VAddr by_].

Definition token_whitelisted (actor : Address) (token : Address) : M W unit :=
  emit "TOK_WL" [VAddr actor; VAddr token].

Definition admin_transferred (actor : Address) (new_admin : Address) : M W unit :=
  emit "ADM_TRF" [VAddr actor; VAddr new_admin].

Definition role_granted (admin : Address) (target : Address) : M W unit :=
  emit "ROL_GRT" [VAddr admin; VAddr target].

Definition role_revoked (admin : Address) (target : Address) : M W unit :=
  emit "ROL_RVK" [VAddr admin; VAddr target].

Definition pool_opened (marketplace : Address) (invoice_id : u64) (token : Address)
    (face_value : i128) : M W unit :=
  emit "POOL_OPEN" [VAddr marketplace; VU64 invoice_id; VAddr token; VI128 face_value].

Definition position_recorded (admin : Address) (invoice_id : u64)
    (investor : Address) (contributed : i128) (share_bps : u32) : M W unit :=
  emit "POS_REC" [VAddr admin; VU64 invoice_id; VAddr investor; VI128 contributed;
    VU32 share_bps].

Definition verifier_added (admin : Address) (verifier : Address) : M W unit :=
  emit "RV_ADD" [VAddr admin; VAddr verifier].

Definition verifier_removed (admin : Address) (verifier : Address) : M W unit :=
  emit "RV_REM" [VAddr admin; VAddr verifier].

Definition sme_registered (verifier : Address) (sme : Address) (risk_score : u32) : M W unit :=
  emit "SME_REG" [VAddr verifier; VAddr sme; VU32 risk_score].

Definition sme_score_updated (verifier : Address) (sme : Address) (new_score : u32) :
    M W unit :=
  emit "SME_UPD" [VAddr verifier; VAddr sme; VU32 new_score].

Definition sme_default_recorded (admin : Address) (sme : Address)
    (total_defaults : u32) : M W unit :=
  emit "SME_DFT" [VAddr admin; VAddr sme; VU32 total_defaults].

Definition sme_invoice_count_incremented (sme : Address) (new_total : u32) : M W unit :=
  emit "INV_CNT" [VAddr sme; VU32 new_total].

Definition debtor_score_set (verifier : Address) (debtor_hash : Bytes) (score : u32) :
    M W unit :=
  emit "RISK_DEBT" [VAddr verifier; VBytes debtor_hash; VU32 score].

Definition registry_initialized (admin : Address) (invoice_nft : Address) : M W unit :=
  emit "REG_INI" [VAddr admin; VAddr invoice_nft].

Definition upgrade_proposed (admin : Address) (wasm_hash : BytesN32) : M W unit :=
  emit "UPG_PROP" [VAddr admin; VBytes wasm_hash].

Definition upgrade_executed (admin : Address) (wasm_hash : BytesN32) : M W unit :=
  emit "UPG_EXEC" [VAddr admin; VBytes wasm_hash].

Definition multisig_configured (threshold : u32) (signer_count : u32) : M W unit :=
  emit "AC_MS_CFG" [VU32 threshold; VU32 signer_count].

Definition action_proposed (proposal_id : u64) (proposer : Address) : M W unit :=
  emit "ACT_PROP" [VU64 proposal_id; VAddr proposer].

Definition action_approved (proposal_id : u64) (approver : Address)
    (approval_count : u32) : M W unit :=
  emit "ACT_APPR" [VU64 proposal_id; VAddr approver; VU32 approval_count].

Definition action_executed (proposal_id : u64) (executor : Address) : M W unit :=
  emit "ACT_EXEC" [VU64 proposal_id; VAddr executor].

Definition refund_claimed (invoice_id : u64) (investor : Address) (amount : i128) : M W unit :=
  emit "REFUND" [VAddr investor; VU64 invoice_id; VI128 amount].

Definition position_listed_for_sale (invoice_id : u64) (seller : Address)
    (price : i128) : M W unit :=
  emit "POS_SALE" [VU64 invoice_id; VAddr seller; VI128 price].

Definition position_sold (invoice_id : u64) (seller : Address) (buyer : Address)
    (price : i128) : M W unit :=
  emit "POS_SOLD" [VU64 invoice_id; VAddr seller; VAddr buyer; VI128 price].

Definition withdrawal_cap_proposed (admin : Address) (new_cap : i128) : M W unit :=
  emit "WTH_CAP_P" [VAddr admin; VI128 new_cap].

Definition withdrawal_cap_updated (admin : Address) (old_cap : i128) (new_cap : i128) :
    M W unit :=
  emit "WTH_CAP_U" [VAddr admin; VI128 old_cap; VI128 new_cap].

Definition sme_credit_limit_set (verifier : Address) (sme : Address)
    (credit_limit : i128) : M W unit :=
  emit "SME_CR" [VAddr verifier; VAddr sme; VI128 credit_limit].

Definition invoice_frozen (invoice_id : u64) (admin : Address) : M W unit :=
  emit "INV_FRZ" [VAddr admin; VU64 invoice_id].

Definition invoice_unfrozen (invoice_id : u64) (admin : Address) : M W unit :=
  emit "INV_UFRZ" [VAddr admin; VU64 invoice_id].

Definition cancellation_requested (invoice_id : u64) (caller : Address) : M W unit :=
  emit "CXL_REQ" [VAddr caller; VU64 invoice_id].

Definition admin_action_audited (entry : AdminAuditEntry) : M W unit :=
  publish "ADM_AUDIT"
    [VU64 (ae_sequence entry); VAddr (ae_actor entry); VAction (ae_act entry);
     VSource (ae_source entry); VU64 (ae_timestamp entry)].

End Events.
End events.

Lemma emit_Ret {W} `{!HasEvents W} topic data u cx w w' :
  events.emit topic data cx w = Ret u w' ->
  w' = w_emit (mkEvent (cx_self cx) topic (data ++ [VU64 (cx_now cx)])) w.
Proof. by intros [= _ ->]. Qed.

Create HintDb kora_events.
#[export] Hint Unfold
  events.invoice_created events.invoice_listed events.invoice_funded
  events.invoice_repaid events.invoice_defaulted events.invoice_amended
  events.invoice_withdrawn events.repayment_made events.yield_distributed
  events.late_penalty_applied events.listing_cancelled events.listing_expired
  events.fee_collected events.fee_withdrawn events.emergency_withdrawn
  events.fee_rate_updated events.treasury_initialized events.protocol_paused
  events.protocol_unpaused events.token_whitelisted events.admin_transferred
  events.role_granted events.role_revoked events.pool_opened events.position_recorded
  events.verifier_added events.verifier_removed events.sme_registered
  events.sme_score_updated events.sme_default_recorded
  events.sme_invoice_count_incremented events.debtor_score_set
  events.registry_initialized events.upgrade_proposed events.upgrade_executed
  events.multisig_configured events.action_proposed events.action_approved
  events.action_executed events.refund_claimed events.position_listed_for_sale
  events.position_sold events.withdrawal_cap_proposed events.withdrawal_cap_updated
  events.sme_credit_limit_set events.invoice_frozen events.invoice_unfrozen
  events.cancellation_requested events.admin_action_audited : kora_events.
