(* ===== verification/Reentrancy.v ===== *)
(** * Reentrancy: the reentrancy lock (src/contracts/shared/src/reentrancy.rs)
    and the inversion lemmas and tactics of the host monad.

    [with_guard body] is [let _guard = ReentrancyGuard::new(&env)?; body]: the
    guard's [Drop] runs when the body returns, with [Ok] or with [Err]. *)

From S2P Require Import Prelude Errors Types Host Events.

Section Guard.
Context {W : Type} (K : Type) `{StorageKey K} `{!HasStorage W K}.

Definition is_locked : M W bool := fun cx w => Ret (st_lock (st_get (K:=K) w)) w.

Definition acquire_guard : M W unit := fun cx w =>
  if st_lock (st_get (K:=K) w) then Fail Reentrancy w
  else Ret tt (st_put (set_lock true (st_get (K:=K) w)) w).

Definition release_guard : M W unit := fun cx w =>
  Ret tt (st_put (set_lock false (st_get (K:=K) w)) w).

Definition released (w : W) : W := st_put (set_lock false (st_get (K:=K) w)) w.

Definition with_guard {A} (body : M W A) : M W A := fun cx w =>
  match acquire_guard cx w with
  | Ret _ w1 =>
      match body cx w1 with
      | Ret a w2 => Ret a (released w2)
      | Fail e w2 => Fail e (released w2)
      | Trap => Trap
      end
  | Fail e w1 => Fail e w1
  | Trap => Trap
  end.
End Guard.
Arguments released {W} K {_ _} w.

(** ** Inversion of successful runs *)

Section Inversion.
Context {W : Type}.
Implicit Types (cx : Ctx) (w : W).

Lemma bind_Ret {A B} (m : M W A) (k : A -> M W B) cx w b w' :
  (m ≫= k) cx w = Ret b w' ->
  exists a w1, m cx w = Ret a w1 /\ k a cx w1 = Ret b w'.
Proof. unfold mbind, M_bind. destruct (m cx w) as [a w1| |]; [eauto|done|done]. Qed.

Lemma bind_run {A B} (m : M W A) (k : A -> M W B) cx w a w1 :
  m cx w = Ret a w1 -> (m ≫= k) cx w = k a cx w1.
Proof. unfold mbind, M_bind. by intros ->. Qed.

Lemma bind_fail {A B} (m : M W A) (k : A -> M W B) cx w e w1 :
  m cx w = Fail e w1 -> (m ≫= k) cx w = Fail e w1.
Proof. unfold mbind, M_bind. by intros ->. Qed.

Lemma bind_trap {A B} (m : M W A) (k : A -> M W B) cx w :
  m cx w = Trap -> (m ≫= k) cx w = Trap.
Proof. unfold mbind, M_bind. by intros ->. Qed.

Lemma mret_Ret {A} (a b : A) cx w w' :
  (mret a : M W A) cx w = Ret b w' -> b = a /\ w' = w.
Proof. by intros [= -> ->]. Qed.

Lemma lift_Ret {A} (r : Result A) a cx w w' :
  lift r cx w = Ret a w' -> r = Ok a /\ w' = w.
Proof. unfold lift. destruct r; [by intros [= -> ->]|done]. Qed.

Lemma fail_if_Ret c e u cx w w' :
  fail_if c e cx w = Ret u w' -> c = false /\ w' = w.
Proof. unfold fail_if. destruct c; [done|]. by intros [= _ ->]. Qed.

Lemma when_Ret c m u cx w w' :
  when c m cx w = Ret u w' -> (c = false /\ w' = w) \/ (c = true /\ m cx w = Ret u w').
Proof. unfold when. destruct c; [auto|]. intros [= _ ->]. auto. Qed.

Lemma or_trap_Ret {A} (o : option A) a cx w w' :
  or_trap o cx w = Ret a w' -> o = Some a /\ w' = w.
Proof. unfold or_trap. destruct o; [by intros [= -> ->]|done]. Qed.

Lemma env_now_Ret a cx w w' : env_now cx w = Ret a w' -> a = cx_now cx /\ w' = w.
Proof. by intros [= -> ->]. Qed.

Lemma env_self_Ret a cx w w' : env_self cx w = Ret a w' -> a = cx_self cx /\ w' = w.
Proof. by intros [= -> ->]. Qed.

Lemma require_auth_Ret a u cx w w' :
  require_auth a cx w = Ret u w' -> authorized cx a = true /\ w' = w.
Proof. unfold require_auth. destruct (authorized cx a); [by intros [= _ ->]|done]. Qed.

Lemma publish_Ret `{HasEvents W} t d u cx w w' :
  publish t d cx w = Ret u w' -> w' = w_emit (mkEvent (cx_self cx) t d) w.
Proof. by intros [= _ ->]. Qed.

Lemma call_Ret {A} c (m : M W A) a cx w w' :
  call c m cx w = Ret a w' ->
  m (callee_ctx c cx) w = Ret a w' /\ list_mem c (cx_self cx :: cx_stack cx) = false.
Proof.
  unfold call. destruct (list_mem _ _); [done|].
  by destruct (m _ w); [intros [= -> ->]|..].
Qed.

(** An invocation the host runs leaves nothing behind unless it returns [Ok]. *)
Lemma run_tx_cases {A} (m : M W A) cx w :
  run_tx m cx w = w \/ exists a w', m cx w = Ret a w' /\ run_tx m cx w = w'.
Proof. unfold run_tx. destruct (m cx w); eauto. Qed.
End Inversion.

Section StorageInversion.
Context {W K : Type} `{StorageKey K} `{!HasStorage W K}.
Implicit Types (cx : Ctx) (w : W) (k : K).

Lemma instance_get_Ret k a cx w w' :
  instance_get k cx w = Ret a w' -> a = iget (st_get w) k /\ w' = w.
Proof. by intros [= -> ->]. Qed.
Lemma persistent_get_Ret k a cx w w' :
  persistent_get k cx w = Ret a w' -> a = pget (st_get w) k /\ w' = w.
Proof. by intros [= -> ->]. Qed.
Lemma instance_set_Ret k v u cx w w' :
  instance_set k v cx w = Ret u w' -> w' = st_put (iset k v (st_get w)) w.
Proof. by intros [= _ ->]. Qed.
Lemma persistent_set_Ret k v u cx w w' :
  persistent_set k v cx w = Ret u w' -> w' = wset cx k v w.
Proof. by intros [= _ ->]. Qed.
Lemma extend_ttl_Ret k t b u cx w w' :
  extend_ttl k t b cx w = Ret u w' -> (exists v, pget (st_get w) k = Some v) /\ w' = wextend cx k t b w.
Proof. unfold extend_ttl. destruct (pget _ k) as [v|]; [|done]. intros [= _ ->]. by split; [exists v|]. Qed.
Lemma instance_remove_Ret k u cx w w' :
  instance_remove k cx w = Ret u w' -> w' = st_put (irem k (st_get w)) w.
Proof. by intros [= _ ->]. Qed.
Lemma persistent_remove_Ret k u cx w w' :
  persistent_remove k cx w = Ret u w' -> w' = st_put (prem k (st_get w)) w.
Proof. by intros [= _ ->]. Qed.
Lemma instance_get_or_Ret k e a cx w w' :
  instance_get_or k e cx w = Ret a w' -> iget (st_get w) k = Some a /\ w' = w.
Proof. unfold instance_get_or. destruct (iget _ k); [by intros [= -> ->]|done]. Qed.
Lemma persistent_get_or_Ret k e a cx w w' :
  persistent_get_or k e cx w = Ret a w' -> pget (st_get w) k = Some a /\ w' = w.
Proof. unfold persistent_get_or. destruct (pget _ k); [by intros [= -> ->]|done]. Qed.
Lemma instance_get_default_Ret k d a cx w w' :
  instance_get_default k d cx w = Ret a w' -> a = default d (iget (st_get w) k) /\ w' = w.
Proof. by intros [= -> ->]. Qed.
Lemma persistent_get_default_Ret k d a cx w w' :
  persistent_get_default k d cx w = Ret a w' -> a = default d (pget (st_get w) k) /\ w' = w.
Proof. by intros [= -> ->]. Qed.
Lemma instance_has_Ret k b cx w w' :
  instance_has k cx w = Ret b w' ->
  b = (if iget (st_get w) k is Some _ then true else false) /\ w' = w.
Proof. by intros [= -> ->]. Qed.
Lemma persistent_has_Ret k b cx w w' :
  persistent_has k cx w = Ret b w' ->
  b = (if pget (st_get w) k is Some _ then true else false) /\ w' = w.
Proof. by intros [= -> ->]. Qed.
Lemma update_wasm_Ret h u cx w w' :
  update_current_contract_wasm (K:=K) h cx w = Ret u w' ->
  w' = st_put (set_wasm h (st_get w)) w.
Proof. by intros [= _ ->]. Qed.

Lemma with_guard_Ret {A} (body : M W A) a cx w w' :
  with_guard K body cx w = Ret a w' ->
  st_lock (st_get w) = false /\
  exists w2, body cx (st_put (set_lock true (st_get w)) w) = Ret a w2 /\
             w' = released K w2.
Proof.
  unfold with_guard, acquire_guard. destruct (st_lock _); [done|]. intros E. split; [done|].
  destruct (body _ _) as [b w2| |]; [|done|done]. injection E as -> <-. eauto.
Qed.

Lemma with_guard_locked {A} (body : M W A) cx w :
  st_lock (st_get w) = true -> with_guard K body cx w = Fail Reentrancy w.
Proof. unfold with_guard, acquire_guard. by intros ->. Qed.
End StorageInversion.

(** Runs a hypothesis [H : m cx w = Ret a w'] backwards through [m], leaving the
    facts each step gives; stops at calls it does not know. *)
Ltac minv_step H :=
  lazymatch type of H with
  | mbind _ _ _ _ = Ret _ _ =>
      let a := fresh "x" in let w := fresh "w" in let H1 := fresh "E" in
      apply bind_Ret in H; destruct H as (a & w & H1 & H); cbv beta in H;
      minv_step H1; minv_step H
  | mret _ _ _ = Ret _ _ => apply mret_Ret in H; destruct H; subst
  | fail _ _ _ = Ret _ _ => discriminate H
  | trap _ _ = Ret _ _ => discriminate H
  | lift _ _ _ = Ret _ _ => apply lift_Ret in H; destruct H as [H ?]; subst
  | fail_if _ _ _ _ = Ret _ _ => apply fail_if_Ret in H; destruct H as [H ?]; subst
  | when _ _ _ _ = Ret _ _ =>
      apply when_Ret in H; destruct H as [[? ?]|[? H]]; [subst | minv_step H]
  | or_trap _ _ _ = Ret _ _ => apply or_trap_Ret in H; destruct H as [H ?]; subst
  | env_now _ _ = Ret _ _ => apply env_now_Ret in H; destruct H; subst
  | env_self _ _ = Ret _ _ => apply env_self_Ret in H; destruct H; subst
  | require_auth _ _ _ = Ret _ _ => apply require_auth_Ret in H; destruct H as [H ?]; subst
  | publish _ _ _ _ = Ret _ _ => apply publish_Ret in H; subst
  | events.emit _ _ _ _ = Ret _ _ => apply emit_Ret in H; subst
  | @instance_get ?W ?K ?SK ?HS ?k ?cx ?w = Ret ?a ?w' =>
      apply (@instance_get_Ret W K SK HS k a cx w w') in H; destruct H; subst
  | @persistent_get ?W ?K ?SK ?HS ?k ?cx ?w = Ret ?a ?w' =>
      apply (@persistent_get_Ret W K SK HS k a cx w w') in H; destruct H; subst
  | @instance_set ?W ?K ?SK ?HS ?k ?v ?cx ?w = Ret ?u ?w' => apply (@instance_set_Ret W K SK HS k v u cx w w') in H; subst
  | @persistent_set ?W ?K ?SK ?HS ?k ?v ?cx ?w = Ret ?u ?w' => apply (@persistent_set_Ret W K SK HS k v u cx w w') in H; subst
  | @extend_ttl ?W ?K ?SK ?HS ?k ?t ?b ?cx ?w = Ret ?u ?w' =>
      apply (@extend_ttl_Ret W K SK HS k t b u cx w w') in H; destruct H as [_ H]; subst
  | instance_remove _ _ _ = Ret _ _ => apply instance_remove_Ret in H; subst
  | persistent_remove _ _ _ = Ret _ _ => apply persistent_remove_Ret in H; subst
  | @instance_get_or ?W ?K ?SK ?HS ?k ?e ?cx ?w = Ret ?a ?w' =>
      apply (@instance_get_or_Ret W K SK HS k e a cx w w') in H; destruct H as [H ?]; subst
  | @persistent_get_or ?W ?K ?SK ?HS ?k ?e ?cx ?w = Ret ?a ?w' =>
      apply (@persistent_get_or_Ret W K SK HS k e a cx w w') in H; destruct H as [H ?]; subst
  | @instance_get_default ?W ?K ?SK ?HS ?k ?d ?cx ?w = Ret ?a ?w' =>
      apply (@instance_get_default_Ret W K SK HS k d a cx w w') in H; destruct H; subst
  | @persistent_get_default ?W ?K ?SK ?HS ?k ?d ?cx ?w = Ret ?a ?w' =>
      apply (@persistent_get_default_Ret W K SK HS k d a cx w w') in H; destruct H; subst
  | instance_has _ _ _ = Ret _ _ => apply instance_has_Ret in H; destruct H; subst
  | persistent_has _ _ _ = Ret _ _ => apply persistent_has_Ret in H; destruct H; subst
  | update_current_contract_wasm _ _ _ = Ret _ _ => apply update_wasm_Ret in H; subst
  | with_guard _ _ _ _ = Ret _ _ =>
      let w := fresh "w" in let L := fresh "Hlock" in
      apply with_guard_Ret in H; destruct H as (L & w & H & ?); subst; minv_step H
  | (match ?b with _ => _ end) _ _ = Ret _ _ =>
      let Hb := fresh "Hif" in destruct b eqn:Hb; minv_step H
  | _ => idtac
  end.

Tactic Notation "minv" hyp(H) :=
  autounfold with kora_events in H; cbv beta zeta in H; minv_step H; simplify_eq/=.

(** ** Rewriting of storage reads *)

Ltac key_ne := first [discriminate | congruence | (intros ?; simplify_eq)].

Ltac store_rw :=
  first
    [ rewrite st_get_put | rewrite st_get_emit | rewrite st_get_wset | rewrite st_get_wextend
    | rewrite iget_iset | rewrite iget_irem | rewrite iget_pset | rewrite iget_prem
    | rewrite iget_lock | rewrite iget_wasm
    | rewrite pget_pset | rewrite pget_prem | rewrite pget_iset | rewrite pget_irem
    | rewrite pget_lock | rewrite pget_wasm
    | rewrite lock_iset | rewrite lock_irem | rewrite lock_pset | rewrite lock_prem
    | rewrite lock_lock | rewrite lock_wasm
    | rewrite wasm_iset | rewrite wasm_irem | rewrite wasm_pset | rewrite wasm_prem
    | rewrite wasm_lock | rewrite wasm_wasm
    | rewrite iget_iset_ne by key_ne | rewrite iget_irem_ne by key_ne
    | rewrite pget_pset_ne by key_ne | rewrite pget_prem_ne by key_ne ].

Ltac store_rw_in H :=
  first
    [ rewrite st_get_put in H | rewrite st_get_emit in H
    | rewrite st_get_wset in H | rewrite st_get_wextend in H
    | rewrite iget_iset in H | rewrite iget_irem in H | rewrite iget_pset in H
    | rewrite iget_prem in H | rewrite iget_lock in H | rewrite iget_wasm in H
    | rewrite pget_pset in H | rewrite pget_prem in H | rewrite pget_iset in H
    | rewrite pget_irem in H | rewrite pget_lock in H | rewrite pget_wasm in H
    | rewrite lock_iset in H | rewrite lock_irem in H | rewrite lock_pset in H
    | rewrite lock_prem in H | rewrite lock_lock in H | rewrite lock_wasm in H
    | rewrite iget_iset_ne in H by key_ne | rewrite iget_irem_ne in H by key_ne
    | rewrite pget_pset_ne in H by key_ne | rewrite pget_prem_ne in H by key_ne ].

(** Uses what is known of the storage a call left behind. *)
Ltac store_known :=
  match goal with
  | F : st_get ?w' = _ |- context [st_get ?w'] => rewrite F
  end.

Ltac store_simpl := unfold released in *; repeat first [store_rw | store_known].
Tactic Notation "store_simpl" "in" hyp(H) := unfold released in *; repeat store_rw_in H.

(** Simplifies the storage reads in the facts a run has left behind. *)
Ltac store_facts :=
  unfold released in *;
  repeat match goal with
  | H : context [st_get (st_put _ _)] |- _ => rewrite st_get_put in H
  | H : context [st_get (w_emit _ _)] |- _ => rewrite st_get_emit in H
  | H : context [st_get (wset _ _ _ _)] |- _ => rewrite st_get_wset in H
  | H : context [st_get (wextend _ _ _ _ _)] |- _ => rewrite st_get_wextend in H
  | H : context [pget (pset _ _ _) _] |- _ => store_rw_in H
  | H : context [pget (prem _ _) _] |- _ => store_rw_in H
  | H : context [pget (iset _ _ _) _] |- _ => store_rw_in H
  | H : context [pget (irem _ _) _] |- _ => store_rw_in H
  | H : context [pget (set_lock _ _) _] |- _ => store_rw_in H
  | H : context [iget (pset _ _ _) _] |- _ => store_rw_in H
  | H : context [iget (prem _ _) _] |- _ => store_rw_in H
  | H : context [iget (iset _ _ _) _] |- _ => store_rw_in H
  | H : context [iget (irem _ _) _] |- _ => store_rw_in H
  | H : context [iget (set_lock _ _) _] |- _ => store_rw_in H
  end.

(** ** Properties *)

Section Properties.
Context {W K : Type} `{StorageKey K} `{!HasStorage W K} `{!HasEvents W} `{!StorageLaws W K}.
Implicit Types (cx : Ctx) (w : W).

(** The reentrancy guard: a section entered while the lock is held is refused
    with [Reentrancy] and changes nothing; entered when the lock is free, its body
    runs once with the lock held, so that a nested section of the same contract is
    refused, and the lock is free again whether the body ends in [Ok] or in [Err]. *)
Theorem guard_is_exclusive_and_released {A} (body : M W A) cx w :
  let locked := st_put (set_lock true (st_get (K:=K) w)) w in
  (st_lock (st_get (K:=K) w) = true -> with_guard K body cx w = Fail Reentrancy w) /\
  (st_lock (st_get (K:=K) w) = false ->
     (forall B (inner : M W B), with_guard K inner cx locked = Fail Reentrancy locked) /\
     match body cx locked, with_guard K body cx w with
     | Ret a w1, Ret a' w2 => a' = a /\ w2 = released K w1 /\ st_lock (st_get (K:=K) w2) = false
     | Fail e w1, Fail e' w2 => e' = e /\ w2 = released K w1 /\ st_lock (st_get (K:=K) w2) = false
     | Trap, Trap => True
     | _, _ => False
     end).
Proof.
  cbv zeta. split; [by apply with_guard_locked|]. intros Hl. split.
  - intros B inner. apply with_guard_locked. by store_simpl.
  - unfold with_guard, acquire_guard. rewrite Hl.
    destruct (body _ _); [..|done]; split_and!; try done; by store_simpl.
Qed.
End Properties.
