(* ===== verification/Validation.v ===== *)
(** * Validation: the shared guards and safe arithmetic
    (src/contracts/shared/src/validation.rs)

    Every guard is a pure function to [Result]; [extend_persistent_ttl] extends the
    life time of an entry of the calling contract's storage. *)

From S2P Require Import Prelude Errors Types Host.

Definition UPGRADE_TIMELOCK_DELAY : u64 := 86400.

(** [i128::MAX / 2] *)
Definition MAX_AMOUNT : i128 := Z.quot i128_max 2.

(** [if c { return Err(e) } Ok(())] *)
Definition reject_if (c : bool) (e : KoraError) : Result unit := if c then Err e else Ok tt.

(** ** Amount guards *)

Definition require_within_max_amount (amount : i128) : Result unit :=
  reject_if (amount >? MAX_AMOUNT) InvalidAmount.

Definition require_non_zero_amount (amount : i128) : Result unit :=
  reject_if (amount <=? 0) InvalidAmount.

Definition require_non_negative_amount (amount : i128) : Result unit :=
  reject_if (amount <? 0) InvalidAmount.

Definition require_amount_within_bounds (amount max : i128) : Result unit :=
  reject_if ((amount <? 0) || (amount >? max)) InvalidAmount.

(** ** Timestamp, risk and fee guards *)

(** The ledger time is [now]. *)
Definition require_future_timestamp (now ts : u64) : Result unit :=
  reject_if (ts <=? now) InvalidDueDate.

Definition require_valid_risk_score (score : u32) : Result unit :=
  reject_if (score >? 100) InvalidRiskScore.

Definition require_valid_fee_bps (bps : u32) : Result unit :=
  reject_if (bps >? 10000) InvalidFeeRate.

Definition require_valid_bps_range (bps min_bps max_bps : u32) : Result unit :=
  reject_if ((bps <? min_bps) || (bps >? max_bps)) InvalidFeeRate.

(** ** String and bytes guards *)

Definition string_len (s : string) : u32 := Z.of_nat (String.length s).

Definition require_non_empty_string (s : string) : Result unit :=
  reject_if (string_len s =? 0) EmptyString.

Definition require_exact_length (b : Bytes) (expected : u32) : Result unit :=
  reject_if (negb (len b =? expected)) InvalidLength.

Definition CID_MAX_LEN : u32 := 128.

Definition byte_between (lo hi c : byte) : bool :=
  (Byte.to_N lo <=? Byte.to_N c)%N && (Byte.to_N c <=? Byte.to_N hi)%N.

Definition is_base58_char (c : byte) : bool :=
  byte_between "1" "9" c
  || byte_between "A" "H" c
  || byte_between "J" "N" c
  || byte_between "P" "Z" c
  || byte_between "a" "k" c
  || byte_between "m" "z" c.

(** The multibase prefixes the CIDv1 branch accepts. *)
Definition is_multibase_prefix (c : byte) : bool :=
  list_mem c ["b"; "B"; "z"; "f"; "F"; "u"; "U"; "k"; "K"]%byte.

Definition require_valid_ipfs_cid (cid : string) : Result unit :=
  let n := string_len cid in
  if (n <? 2) || (n >? CID_MAX_LEN) then Err InvalidCid else
  let buf := list_byte_of_string cid in
  let first := nth 0 buf x00 in
  let second := nth 1 buf x00 in
  if bool_decide (first = "Q"%byte) && bool_decide (second = "m"%byte) then
    if negb (n =? 46) then Err InvalidCid
    else if forallb is_base58_char (take 46 buf) then Ok tt else Err InvalidCid
  else if is_multibase_prefix first then
    if n <? 10 then Err InvalidCid else Ok tt
  else Err InvalidCid.

Definition require_non_empty_bytes (b : Bytes) : Result unit :=
  reject_if (len b =? 0) EmptyBytes.

Definition require_max_length_string (s : string) (max_bytes : u32) : Result unit :=
  reject_if (string_len s >? max_bytes) FieldTooLong.

Definition require_max_length_bytes (b : Bytes) (max_bytes : u32) : Result unit :=
  reject_if (len b >? max_bytes) FieldTooLong.

Definition MAX_IPFS_CID_LEN : u32 := 128.
Definition MAX_DEBTOR_HASH_LEN : u32 := 64.

(** ** Safe arithmetic *)

Definition bps_of (amount : i128) (bps : u32) : Result i128 :=
  if amount <? 0 then Err InvalidAmount
  else ok_or (v ← checked_mul amount bps; checked_div v 10000) ArithmeticOverflow.

Definition safe_add (a b : i128) : Result i128 := ok_or (checked_add a b) ArithmeticOverflow.
Definition safe_sub (a b : i128) : Result i128 := ok_or (checked_sub a b) ArithmeticUnderflow.

(** [this] is [env.current_contract_address()]. *)
Definition require_not_self (this addr : Address) : Result unit :=
  reject_if (addr =? this)%N InvalidAddress.

Definition require_distinct (a b : Address) : Result unit :=
  reject_if (a =? b)%N InvalidAddress.

Definition safe_mul (a b : i128) : Result i128 := ok_or (checked_mul a b) ArithmeticOverflow.

Definition safe_div (a b : i128) : Result i128 :=
  if b =? 0 then Err InvalidAmount else ok_or (checked_div a b) ArithmeticOverflow.

(** ** Decimal normalization *)

Definition STANDARD_DECIMALS : u32 := 7.

Definition normalize_amount (amount : i128) (token_decimals : u32) : Result i128 :=
  if token_decimals =? STANDARD_DECIMALS then Ok amount
  else if token_decimals <? STANDARD_DECIMALS then
    scale ← ok_or (checked_pow 10 (STANDARD_DECIMALS - token_decimals)) ArithmeticOverflow;
    ok_or (checked_mul amount scale) ArithmeticOverflow
  else
    scale ← ok_or (checked_pow 10 (token_decimals - STANDARD_DECIMALS)) ArithmeticOverflow;
    ok_or (checked_div amount scale) ArithmeticOverflow.

Definition denormalize_amount (amount : i128) (token_decimals : u32) : Result i128 :=
  if token_decimals =? STANDARD_DECIMALS then Ok amount
  else if token_decimals <? STANDARD_DECIMALS then
    scale ← ok_or (checked_pow 10 (STANDARD_DECIMALS - token_decimals)) ArithmeticOverflow;
    ok_or (checked_div amount scale) ArithmeticOverflow
  else
    scale ← ok_or (checked_pow 10 (token_decimals - STANDARD_DECIMALS)) ArithmeticOverflow;
    ok_or (checked_mul amount scale) ArithmeticOverflow.

Definition bps_of_normalized (amount : i128) (bps token_decimals : u32) : Result i128 :=
  if amount <? 0 then Err InvalidAmount else
  normalized ← normalize_amount amount token_decimals;
  result ← ok_or (v ← checked_mul normalized bps; checked_div v 10000) ArithmeticOverflow;
  denormalize_amount result token_decimals.

(** ** The guards as propositions *)

Lemma reject_if_Ok c e u : reject_if c e = Ok u -> c = false.
Proof. unfold reject_if. by destruct c. Qed.

Lemma ok_or_Ok {A} (o : option A) e a : ok_or o e = Ok a <-> o = Some a.
Proof. unfold ok_or. destruct o; split; intros; by simplify_eq. Qed.

Lemma checked_mul_Some a b v :
  checked_mul a b = Some v <-> v = a * b /\ i128_min <= a * b <= i128_max.
Proof. apply fit_i128_Some. Qed.

Lemma checked_add_Some a b v :
  checked_add a b = Some v <-> v = a + b /\ i128_min <= a + b <= i128_max.
Proof. apply fit_i128_Some. Qed.

Lemma checked_sub_Some a b v :
  checked_sub a b = Some v <-> v = a - b /\ i128_min <= a - b <= i128_max.
Proof. apply fit_i128_Some. Qed.

Lemma safe_add_Ok a b v : safe_add a b = Ok v <-> v = a + b /\ i128_min <= a + b <= i128_max.
Proof. unfold safe_add. rewrite ok_or_Ok. apply checked_add_Some. Qed.

Lemma safe_sub_Ok a b v : safe_sub a b = Ok v <-> v = a - b /\ i128_min <= a - b <= i128_max.
Proof. unfold safe_sub. rewrite ok_or_Ok. apply checked_sub_Some. Qed.

(** Turns the guards a handler has passed into arithmetic facts. *)
Ltac guards :=
  repeat match goal with
  | H : require_within_max_amount _ = Ok _ |- _ => apply reject_if_Ok in H
  | H : require_non_zero_amount _ = Ok _ |- _ => apply reject_if_Ok in H
  | H : require_non_negative_amount _ = Ok _ |- _ => apply reject_if_Ok in H
  | H : require_amount_within_bounds _ _ = Ok _ |- _ => apply reject_if_Ok in H
  | H : require_future_timestamp _ _ = Ok _ |- _ => apply reject_if_Ok in H
  | H : require_valid_risk_score _ = Ok _ |- _ => apply reject_if_Ok in H
  | H : require_valid_fee_bps _ = Ok _ |- _ => apply reject_if_Ok in H
  | H : require_non_empty_string _ = Ok _ |- _ => apply reject_if_Ok in H
  | H : require_exact_length _ _ = Ok _ |- _ => apply reject_if_Ok in H
  | H : require_non_empty_bytes _ = Ok _ |- _ => apply reject_if_Ok in H
  | H : require_max_length_string _ _ = Ok _ |- _ => apply reject_if_Ok in H
  | H : require_max_length_bytes _ _ = Ok _ |- _ => apply reject_if_Ok in H
  | H : require_not_self _ _ = Ok _ |- _ => apply reject_if_Ok in H
  | H : require_distinct _ _ = Ok _ |- _ => apply reject_if_Ok in H
  | H : reject_if _ _ = Ok _ |- _ => apply reject_if_Ok in H
  | H : ok_or _ _ = Ok _ |- _ => apply ok_or_Ok in H
  | H : checked_add _ _ = Some _ |- _ => apply checked_add_Some in H as [? ?]
  | H : checked_sub _ _ = Some _ |- _ => apply checked_sub_Some in H as [? ?]
  | H : checked_mul _ _ = Some _ |- _ => apply checked_mul_Some in H as [? ?]
  | H : safe_add _ _ = Ok _ |- _ => apply safe_add_Ok in H as [? ?]
  | H : safe_sub _ _ = Ok _ |- _ => apply safe_sub_Ok in H as [? ?]
  | H : fit_u64 _ = Some _ |- _ => apply fit_u64_Some in H as [? ?]
  | H : fit_u32 _ = Some _ |- _ => apply fit_u32_Some in H as [? ?]
  | H : fit_u128 _ = Some _ |- _ => apply fit_u128_Some in H as [? ?]
  | H : list_mem _ _ = true |- _ => apply list_mem_true in H
  | H : list_mem _ _ = false |- _ => apply list_mem_false in H
  | H : (_ || _) = false |- _ => apply orb_false_iff in H as [? ?]
  | H : (_ && _) = true |- _ => apply andb_true_iff in H as [? ?]
  | H : negb _ = false |- _ => apply negb_false_iff in H
  | H : negb _ = true |- _ => apply negb_true_iff in H
  | H : (_ =? _)%N = true |- _ => apply N.eqb_eq in H
  | H : (_ =? _)%N = false |- _ => apply N.eqb_neq in H
  | H : bool_decide _ = true |- _ => apply bool_decide_eq_true in H
  | H : bool_decide _ = false |- _ => apply bool_decide_eq_false in H
  end.

(** ** Arithmetic facts behind the payout theorems *)

Lemma pow10_pos k : 0 <= k -> 0 < 10 ^ k.
Proof. intros. by apply Z.pow_pos_nonneg. Qed.

(** Scaling up by [s], taking the share and scaling back loses nothing. *)
Lemma div_scaled a b c s : 0 < c -> 0 < s -> a * s * b / c / s = a * b / c.
Proof.
  intros Hc Hs. rewrite Z.div_div by lia.
  replace (a * s * b) with (a * b * s) by ring. by rewrite Z.div_mul_cancel_r by lia.
Qed.

Lemma share_le a b v : 0 <= a -> 0 <= b -> v = a * b / 10000 -> 0 <= v /\ v * 10000 <= a * b.
Proof.
  intros Ha Hb ->. pose proof (Z.mul_div_le (a * b) 10000 ltac:(lia)).
  pose proof (Z.div_pos (a * b) 10000 ltac:(nia) ltac:(lia)). lia.
Qed.

Lemma div_10000 a b v :
  0 <= a -> 0 <= b ->
  (v ← checked_mul a b; checked_div v 10000) = Some v <-> v = a * b / 10000 /\ a * b <= i128_max.
Proof.
  intros Ha Hb. split.
  - intros H. apply bind_Some in H as (w & H1 & H2). apply checked_mul_Some in H1 as [-> [_ Hm]].
    split; [|done]. rewrite checked_div_pos in H2 by nia. by simplify_eq.
  - intros [-> Hm]. unfold checked_mul. rewrite fit_i128_in by (unfold i128_min; nia).
    simpl. by rewrite checked_div_pos by nia.
Qed.

(** [bps_of] on every input: negative amounts and overflowing products are the
    two errors; otherwise the exact floor of [amount * bps / 10_000]. *)
Lemma bps_of_cases amount bps :
  0 <= bps ->
  bps_of amount bps =
    if amount <? 0 then Err InvalidAmount
    else if amount * bps <=? i128_max then Ok (amount * bps / 10000)
    else Err ArithmeticOverflow.
Proof.
  intros Hb. unfold bps_of. destruct (amount <? 0) eqn:E; [done|].
  destruct (amount * bps <=? i128_max) eqn:Em.
  - unfold checked_mul. rewrite fit_i128_in by (unfold i128_min; nia).
    simpl. by rewrite checked_div_pos by nia.
  - unfold checked_mul. rewrite (proj2 (fit_i128_None _)) by lia. done.
Qed.

Lemma bps_of_Ok amount bps v :
  0 <= bps -> bps_of amount bps = Ok v ->
  0 <= amount /\ v = amount * bps / 10000 /\ amount * bps <= i128_max.
Proof.
  intros Hb. rewrite bps_of_cases by done.
  destruct (amount <? 0) eqn:E; [done|]. destruct (_ <=? i128_max) eqn:Em; [|done].
  intros [= <-]. lia.
Qed.

(** The value [bps_of_normalized] computes for a token with [d] decimals. *)
Definition share_value (amount : i128) (bps d : u32) : i128 :=
  if d <=? STANDARD_DECIMALS then amount * bps / 10000
  else (amount / 10 ^ (d - STANDARD_DECIMALS)) * bps / 10000 * 10 ^ (d - STANDARD_DECIMALS).

Lemma checked_pow_10 e v : checked_pow 10 e = Some v -> v = 10 ^ e.
Proof. intros H. by apply fit_i128_Some in H as [-> _]. Qed.

Lemma normalize_nonneg a d v :
  0 <= a <= i128_max -> 0 <= d -> normalize_amount a d = Ok v ->
  0 <= v <= i128_max /\
  v = if d <=? STANDARD_DECIMALS then a * 10 ^ (STANDARD_DECIMALS - d)
      else a / 10 ^ (d - STANDARD_DECIMALS).
Proof.
  intros Ha Hd. unfold normalize_amount, STANDARD_DECIMALS.
  destruct (d =? 7) eqn:E1.
  { intros [= <-]. apply Z.eqb_eq in E1. subst. simpl. split; [done|lia]. }
  destruct (d <? 7) eqn:E2.
  - destruct (checked_pow _ _) as [s|] eqn:Es; [|done]. apply checked_pow_10 in Es. simpl.
    intros H. apply ok_or_Ok, checked_mul_Some in H as [-> Hr]. subst s.
    pose proof (pow10_pos (7 - d) ltac:(lia)).
    destruct (d <=? 7) eqn:E3; [|lia]. split; [nia|done].
  - destruct (checked_pow _ _) as [s|] eqn:Es; [|done]. apply checked_pow_10 in Es. simpl.
    pose proof (pow10_pos (d - 7) ltac:(lia)). subst s.
    intros H'. apply ok_or_Ok in H'. rewrite checked_div_pos in H' by lia.
    injection H' as <-. destruct (d <=? 7) eqn:E3; [lia|]. split; [|done].
    pose proof (Z.div_pos a (10 ^ (d - 7)) ltac:(lia) ltac:(lia)).
    pose proof (Z.div_le_upper_bound a (10 ^ (d - 7)) a ltac:(lia) ltac:(nia)). lia.
Qed.

Lemma denormalize_nonneg a d v :
  0 <= a <= i128_max -> 0 <= d -> denormalize_amount a d = Ok v ->
  v = if d <=? STANDARD_DECIMALS then a / 10 ^ (STANDARD_DECIMALS - d)
      else a * 10 ^ (d - STANDARD_DECIMALS).
Proof.
  intros Ha Hd. unfold denormalize_amount, STANDARD_DECIMALS.
  destruct (d =? 7) eqn:E1.
  { intros [= <-]. apply Z.eqb_eq in E1. subst. simpl. by rewrite Z.div_1_r. }
  destruct (d <? 7) eqn:E2.
  - destruct (checked_pow _ _) as [s|] eqn:Es; [|done]. apply checked_pow_10 in Es. simpl.
    pose proof (pow10_pos (7 - d) ltac:(lia)). subst s.
    intros H'. apply ok_or_Ok in H'. rewrite checked_div_pos in H' by lia.
    injection H' as <-. by destruct (d <=? 7) eqn:E3; [|lia].
  - destruct (checked_pow _ _) as [s|] eqn:Es; [|done]. apply checked_pow_10 in Es. simpl.
    intros H. apply ok_or_Ok, checked_mul_Some in H as [-> Hr]. subst s.
    by destruct (d <=? 7) eqn:E3; [lia|].
Qed.

Lemma bps_of_normalized_nonneg amount bps d v :
  bps_of_normalized amount bps d = Ok v -> 0 <= amount.
Proof. unfold bps_of_normalized. destruct (amount <? 0) eqn:E; [done|lia]. Qed.

Lemma bps_of_normalized_value amount bps d v :
  0 <= amount <= i128_max -> 0 <= bps -> 0 <= d ->
  bps_of_normalized amount bps d = Ok v -> v = share_value amount bps d.
Proof.
  intros Ha Hb Hd. unfold bps_of_normalized. destruct (amount <? 0) eqn:E; [done|].
  destruct (normalize_amount amount d) as [n|] eqn:En; [|done]. simpl.
  destruct (normalize_nonneg _ _ _ Ha Hd En) as [Hn Hn'].
  destruct (ok_or _ _) as [r|] eqn:Er; [|done]. simpl. apply ok_or_Ok in Er.
  apply bind_Some in Er as (p & Hp & Hr). apply checked_mul_Some in Hp as [-> Hp].
  rewrite checked_div_pos in Hr by nia. injection Hr as <-. intros Hv.
  assert (0 <= n * bps / 10000 <= i128_max).
  { pose proof (Z.div_pos (n * bps) 10000 ltac:(nia) ltac:(lia)).
    pose proof (Z.div_le_upper_bound (n * bps) 10000 i128_max ltac:(lia) ltac:(nia)). lia. }
  apply denormalize_nonneg in Hv; [|done..]. unfold share_value.
  destruct (d <=? STANDARD_DECIMALS) eqn:Ed; subst; [|done].
  apply div_scaled; [lia|]. apply pow10_pos. lia.
Qed.

(** A share is never more than its exact fraction: no payout is rounded up. *)
Lemma share_value_le amount bps d :
  0 <= amount -> 0 <= bps -> 0 <= d ->
  0 <= share_value amount bps d /\ share_value amount bps d * 10000 <= amount * bps.
Proof.
  intros Ha Hb Hd. unfold share_value. destruct (d <=? STANDARD_DECIMALS) eqn:E.
  { by apply share_le. }
  set (s := 10 ^ (d - STANDARD_DECIMALS)).
  assert (0 < s) by (apply pow10_pos; lia).
  pose proof (Z.div_pos amount s ltac:(lia) ltac:(lia)).
  pose proof (Z.mul_div_le amount s ltac:(lia)).
  destruct (share_le (amount / s) bps _ ltac:(lia) ltac:(lia) eq_refl).
  split; [nia|].
  transitivity (amount / s * bps * s); nia.
Qed.

Lemma bps_of_normalized_le amount bps d v :
  0 <= amount <= i128_max -> 0 <= bps -> 0 <= d ->
  bps_of_normalized amount bps d = Ok v -> 0 <= v /\ v * 10000 <= amount * bps.
Proof.
  intros Ha Hb Hd Hv. rewrite (bps_of_normalized_value _ _ _ _ Ha Hb Hd Hv).
  apply share_value_le; lia.
Qed.

Lemma bps_of_normalized_fits amount bps d v :
  0 <= amount <= i128_max -> 0 <= bps -> 0 <= d <= 7 ->
  bps_of_normalized amount bps d = Ok v -> amount * bps <= i128_max.
Proof.
  intros Ha Hb Hd. unfold bps_of_normalized. destruct (amount <? 0) eqn:E; [lia|].
  destruct (normalize_amount amount d) as [n|] eqn:En; [|done]. simpl.
  destruct (normalize_nonneg _ _ _ Ha (proj1 Hd) En) as [Hn Hn'].
  destruct (ok_or _ _) as [r|] eqn:Er; [|done]. intros _. apply ok_or_Ok in Er.
  apply bind_Some in Er as (p & Hp & _). apply checked_mul_Some in Hp as [-> Hp].
  unfold STANDARD_DECIMALS in *. destruct (d <=? 7) eqn:E7; [|lia].
  pose proof (pow10_pos (7 - d) ltac:(lia)). nia.
Qed.

(** Amounts that no share of them overflows on, for tokens of at most 7 decimals. *)
Definition SHARE_SAFE : i128 := i128_max / 100000000000.

Lemma normalize_total a d :
  0 <= d <= 7 -> 0 <= a -> a * 10 ^ (7 - d) <= i128_max -> 10 ^ (7 - d) <= i128_max ->
  normalize_amount a d = Ok (a * 10 ^ (7 - d)).
Proof.
  intros Hd Ha Hm Hp. pose proof (pow10_pos (7 - d) ltac:(lia)).
  unfold normalize_amount, STANDARD_DECIMALS. destruct (Z.eqb_spec d 7) as [->|Hne].
  { by rewrite Z.sub_diag, Z.mul_1_r. }
  destruct (d <? 7) eqn:E; [|lia]. unfold checked_pow, checked_mul.
  rewrite fit_i128_in by (unfold i128_min; lia). simpl.
  by rewrite fit_i128_in by (unfold i128_min; nia).
Qed.

Lemma denormalize_total a d :
  0 <= d <= 7 -> 0 <= a <= i128_max -> 10 ^ (7 - d) <= i128_max ->
  exists v, denormalize_amount a d = Ok v.
Proof.
  intros Hd Ha Hp. pose proof (pow10_pos (7 - d) ltac:(lia)).
  unfold denormalize_amount, STANDARD_DECIMALS. destruct (Z.eqb_spec d 7) as [->|Hne]; [by exists a|].
  destruct (d <? 7) eqn:E; [|lia]. unfold checked_pow.
  rewrite fit_i128_in by (unfold i128_min; lia). simpl. rewrite checked_div_pos by lia. by eexists.
Qed.

Lemma bps_of_normalized_total amount bps d :
  0 <= amount <= SHARE_SAFE -> 0 <= bps <= 10000 -> 0 <= d <= 7 ->
  bps_of_normalized amount bps d = Ok (share_value amount bps d).
Proof.
  intros Ha Hb Hd. assert (100000000000 * SHARE_SAFE <= i128_max) as Hsafe by done.
  pose proof (pow10_pos (7 - d) ltac:(lia)).
  assert (10 ^ (7 - d) <= 10000000) as Hs.
  { change 10000000 with (10 ^ 7). apply Z.pow_le_mono_r; lia. }
  set (scale := 10 ^ (7 - d)) in *. assert (0 <= SHARE_SAFE) by done.
  assert (10000000 <= i128_max) by done.
  assert (0 <= amount * scale <= SHARE_SAFE * 10000000) as Hn by nia.
  assert (0 <= amount * scale * bps <= SHARE_SAFE * 10000000 * 10000) as Hm by nia.
  assert (exists v, bps_of_normalized amount bps d = Ok v) as [v Hv].
  { unfold bps_of_normalized. destruct (amount <? 0) eqn:E; [lia|].
    rewrite normalize_total by (fold scale; lia). fold scale. simpl. unfold checked_mul.
    rewrite fit_i128_in by (unfold i128_min; lia). simpl. rewrite checked_div_pos by lia. simpl.
    apply denormalize_total; [lia| |fold scale; lia].
    split; [apply Z.div_pos; lia|]. apply Z.div_le_upper_bound; lia. }
  rewrite Hv. f_equal. apply bps_of_normalized_value; [|lia..|done]. lia.
Qed.

(** ** Life times *)

(** ~30 days at ~5 s per ledger. *)
Definition DEFAULT_TTL_THRESHOLD : u32 := 518400.
Definition DEFAULT_TTL_BUMP : u32 := 518400.

Definition extend_persistent_ttl {W K : Type} `{StorageKey K} `{!HasStorage W K}
    (key : K) (threshold bump : u32) : M W unit := extend_ttl key threshold bump.

(** ** Properties *)

(** C39: The share every fee and payout is computed with: for a non-negative amount
    and any token precision, [bps_of_normalized], when it succeeds, returns the
    floor of [amount * bps / 10_000] (for a token of more than 7 decimals, computed
    on whole units of the seventh decimal), the same as [bps_of] up to 7 decimals,
    never more than the exact share, and so never more than the amount for a rate
    of at most 100%. *)
Theorem shares_are_exact_and_bounded amount bps d v :
  amount <= i128_max -> 0 <= bps -> 0 <= d -> bps_of_normalized amount bps d = Ok v ->
  v = share_value amount bps d /\ 0 <= v /\ v * 10000 <= amount * bps /\
  (bps <= 10000 -> v <= amount) /\ (d <= 7 -> bps_of amount bps = Ok v).
Proof.
  intros Ha Hb Hd H. pose proof (bps_of_normalized_nonneg _ _ _ _ H).
  destruct (bps_of_normalized_le _ _ _ _ (conj H0 Ha) Hb Hd H) as [Hv Hle].
  pose proof (bps_of_normalized_value _ _ _ _ (conj H0 Ha) Hb Hd H) as E.
  split_and!; [done|done|done|nia|]. intros Hd7. rewrite bps_of_cases by done.
  destruct (amount <? 0) eqn:E1; [lia|].
  destruct (amount * bps <=? i128_max) eqn:E2.
  - rewrite E. unfold share_value, STANDARD_DECIMALS. by destruct (d <=? 7) eqn:E3; [|lia].
  - pose proof (bps_of_normalized_fits _ _ _ _ (conj H0 Ha) Hb (conj Hd Hd7) H). lia.
Qed.

(** C40: Round trip: a non-negative amount normalized to 7 decimals and denormalized again for the
    same token is the amount for a token of at most 7 decimals, and the amount cut
    to whole units of the seventh decimal for any other; the way back never fails. *)
Theorem normalize_roundtrip a d n :
  0 <= a <= i128_max -> 0 <= d -> normalize_amount a d = Ok n ->
  denormalize_amount n d =
    Ok (if d <=? 7 then a else a - a mod 10 ^ (d - 7)).
Proof.
  intros Ha Hd H. destruct (normalize_nonneg _ _ _ Ha Hd H) as [Hn Hv].
  unfold normalize_amount, denormalize_amount, STANDARD_DECIMALS in *.
  destruct (d =? 7) eqn:E1; [destruct (d <=? 7) eqn:E3; [congruence|lia]|].
  destruct (d <? 7) eqn:E2.
  - destruct (checked_pow _ _) as [s|] eqn:Es; [|done]. apply checked_pow_10 in Es. simpl in *.
    pose proof (pow10_pos (7 - d) ltac:(lia)). subst s.
    destruct (d <=? 7) eqn:E3; [|lia]. subst n.
    rewrite checked_div_pos by lia. by rewrite Z.div_mul by lia.
  - destruct (checked_pow _ _) as [s|] eqn:Es; [|done]. apply checked_pow_10 in Es. simpl in *.
    pose proof (pow10_pos (d - 7) ltac:(lia)). subst s.
    destruct (d <=? 7) eqn:E3; [lia|]. subst n.
    pose proof (Z.div_mod a (10 ^ (d - 7)) ltac:(lia)).
    pose proof (Z.mod_pos_bound a (10 ^ (d - 7)) ltac:(lia)).
    unfold checked_mul. rewrite fit_i128_in by (unfold i128_min; nia). cbn. f_equal. lia.
Qed.
