(* ===== verification/Interfaces.v ===== *)
(** * Interfaces: what the contracts use of each other, and of token contracts

    A client is the generated [XxxContractClient] of a contract: its methods,
    called at an address. A caller's theorems are proved against these classes;
    the world of World.v gives each method the body its contract has and
    discharges the laws. A token contract is not part of the repository: it is
    the parameter [TokenClient], with the documented behaviour of the Stellar
    token interface (SEP-41) as [TokenLaws]. *)

From S2P Require Import Prelude Errors Types Host Events Reentrancy.

Class AccessControlClient (W : Type) := {
  ac_is_paused : Address -> M W bool }.

Class RiskRegistryClient (W : Type) := {
  rr_is_compliance_attested : Address -> Address -> M W bool;
  rr_try_get_sme_profile : Address -> Address -> M W (option SmeProfile);
  rr_try_record_default : Address -> Address -> Address -> M W (option unit) }.

Class InvoiceNftClient (W : Type) := {
  nft_get_invoice : Address -> u64 -> M W Invoice;
  nft_is_invoice_frozen : Address -> u64 -> M W bool;
  nft_set_listed : Address -> Address -> u64 -> M W unit;
  nft_set_funded : Address -> Address -> u64 -> M W unit;
  nft_set_repaid : Address -> Address -> u64 -> M W unit;
  nft_set_defaulted : Address -> Address -> u64 -> M W unit }.

Class PriceOracleClient (W : Type) := {
  oracle_convert : Address -> i128 -> Symbol -> Symbol -> M W i128 }.

Class TreasuryClient (W : Type) := {
  treasury_collect_fee : Address -> Address -> i128 -> M W unit }.

Class FinancingPoolClient (W : Type) := {
  pool_release_funds : Address -> Address -> u64 -> Address -> M W unit }.

(** [tok_transfer token from to amount], [tok_balance token id]. *)
Class TokenClient (W : Type) := {
  tok_transfer : Address -> Address -> Address -> i128 -> M W unit;
  tok_balance : Address -> Address -> M W i128;
  tok_decimals : Address -> M W u32 }.

#[global] Arguments ac_is_paused : simpl never.
#[global] Arguments rr_is_compliance_attested : simpl never.
#[global] Arguments rr_try_get_sme_profile : simpl never.
#[global] Arguments rr_try_record_default : simpl never.
#[global] Arguments nft_get_invoice : simpl never.
#[global] Arguments nft_is_invoice_frozen : simpl never.
#[global] Arguments nft_set_listed : simpl never.
#[global] Arguments nft_set_funded : simpl never.
#[global] Arguments nft_set_repaid : simpl never.
#[global] Arguments nft_set_defaulted : simpl never.
#[global] Arguments oracle_convert : simpl never.
#[global] Arguments treasury_collect_fee : simpl never.
#[global] Arguments pool_release_funds : simpl never.
#[global] Arguments tok_transfer : simpl never.
#[global] Arguments tok_balance : simpl never.
#[global] Arguments tok_decimals : simpl never.

(** ** Laws *)

(** The views change nothing. *)
Class AccessControlLaws (W : Type) `{!AccessControlClient W} : Prop := {
  ac_is_paused_ro :: forall c, ReadOnly (ac_is_paused c) }.

Class RiskRegistryLaws (W : Type) `{!RiskRegistryClient W} : Prop := {
  rr_attested_ro :: forall c s, ReadOnly (rr_is_compliance_attested c s) }.

(** [get_sme_profile] extends the life of the profile it reads, so it is not a view;
    it leaves the contract with keys [K] alone. *)
Class ProfileFrame (W K : Type) `{StorageKey K} `{!HasStorage W K} `{!RiskRegistryClient W}
    : Prop := {
  rr_profile_frame :: forall c s, Frames K (rr_try_get_sme_profile c s) }.

Class InvoiceNftLaws (W : Type) `{!InvoiceNftClient W} : Prop := {
  nft_get_ro :: forall c i, ReadOnly (nft_get_invoice c i);
  nft_frozen_ro :: forall c i, ReadOnly (nft_is_invoice_frozen c i) }.

Class PriceOracleLaws (W : Type) `{!PriceOracleClient W} : Prop := {
  oracle_convert_ro :: forall c x f t, ReadOnly (oracle_convert c x f t);
  oracle_convert_pos : forall c n f t cx w r w',
    oracle_convert c n f t cx w = Ret r w' -> 0 < n -> 0 < r }.

(** The token ledger behind the client: balances and decimals. *)
Class TokenLedger (W : Type) := {
  tok_bal : W -> Address -> Address -> i128;
  tok_dec : W -> Address -> u32 }.

(** What a transfer of [n] from [from] to [to] leaves [x] with. *)
Definition moved (from to x : Address) (n v : i128) : i128 :=
  v - (if (x =? from)%N then n else 0) + (if (x =? to)%N then n else 0).

(** SEP-41: a transfer needs [from]'s authorization (its signature, or [from]
    calling), a non-negative amount and enough balance, and moves the amount. *)
Class TokenLaws (W : Type) `{!TokenClient W} `{!TokenLedger W} : Prop := {
  tok_balance_law : forall t a cx w b w',
    tok_balance t a cx w = Ret b w' -> b = tok_bal w t a /\ w' = w;
  tok_decimals_law : forall t cx w d w',
    tok_decimals t cx w = Ret d w' -> d = tok_dec w t /\ 0 <= d /\ w' = w;
  tok_transfer_auth : forall t from to n cx w u w',
    tok_transfer t from to n cx w = Ret u w' ->
    from = cx_self cx \/ cx_signed cx from = true;
  tok_transfer_amount : forall t from to n cx w u w',
    tok_transfer t from to n cx w = Ret u w' -> 0 <= n <= tok_bal w t from;
  tok_transfer_bal : forall t from to n cx w u w',
    tok_transfer t from to n cx w = Ret u w' ->
    forall t' x, tok_bal w' t' x =
      if (t' =? t)%N then moved from to x n (tok_bal w t' x) else tok_bal w t' x;
  tok_transfer_dec : forall t from to n cx w u w',
    tok_transfer t from to n cx w = Ret u w' -> forall t', tok_dec w' t' = tok_dec w t' }.

(** Token calls do not touch the contract with keys [K] (the host forbids
    re-entering it), nor do its own writes and events move tokens. *)
Class TokenFrame (W K : Type) `{StorageKey K} `{!HasStorage W K} `{!HasEvents W}
    `{!TokenClient W} `{!TokenLedger W} : Prop := {
  tok_transfer_frame :: forall t f to n, Frames K (tok_transfer t f to n);
  tok_balance_frame :: forall t a, Frames K (tok_balance t a);
  tok_decimals_frame :: forall t, Frames K (tok_decimals t);
  tok_bal_put : forall (s : Storage K) w t a, tok_bal (st_put s w) t a = tok_bal w t a;
  tok_bal_keep : forall (f : K -> u32) w t a, tok_bal (st_keep f w) t a = tok_bal w t a;
  tok_bal_emit : forall e w t a, tok_bal (w_emit e w) t a = tok_bal w t a;
  tok_dec_put : forall (s : Storage K) w t, tok_dec (st_put s w) t = tok_dec w t;
  tok_dec_keep : forall (f : K -> u32) w t, tok_dec (st_keep f w) t = tok_dec w t;
  tok_dec_emit : forall e w t, tok_dec (w_emit e w) t = tok_dec w t }.

Section LifetimeFrame.
Context {W K : Type} `{StorageKey K} `{!HasStorage W K} `{!HasEvents W} `{!TokenClient W}
  `{!TokenLedger W} `{!TokenFrame W K}.
Implicit Types (cx : Ctx) (w : W) (k : K).

Lemma tok_bal_wset cx k v w t a : tok_bal (wset cx k v w) t a = tok_bal w t a.
Proof. unfold wset. by rewrite tok_bal_put, tok_bal_keep. Qed.
Lemma tok_bal_wextend cx k h b w t a : tok_bal (wextend cx k h b w) t a = tok_bal w t a.
Proof. apply tok_bal_keep. Qed.
Lemma tok_dec_wset cx k v w t : tok_dec (wset cx k v w) t = tok_dec w t.
Proof. unfold wset. by rewrite tok_dec_put, tok_dec_keep. Qed.
Lemma tok_dec_wextend cx k h b w t : tok_dec (wextend cx k h b w) t = tok_dec w t.
Proof. apply tok_dec_keep. Qed.
End LifetimeFrame.

(** [m] moves no tokens. *)
Class KeepsTokens {W A : Type} `{!TokenLedger W} (m : M W A) : Prop :=
  keeps_tokens : forall cx w a w', m cx w = Ret a w' ->
    (forall t x, tok_bal w' t x = tok_bal w t x) /\ (forall t, tok_dec w' t = tok_dec w t).

(** The state-changing calls into the NFT do not touch the contract with keys [K]
    and move no tokens. *)
Class NftFrame (W K : Type) `{StorageKey K} `{!HasStorage W K} `{!InvoiceNftClient W}
    `{!TokenLedger W} : Prop := {
  nft_set_listed_frame :: forall c a i, Frames K (nft_set_listed c a i);
  nft_set_funded_frame :: forall c a i, Frames K (nft_set_funded c a i);
  nft_set_repaid_frame :: forall c a i, Frames K (nft_set_repaid c a i);
  nft_set_defaulted_frame :: forall c a i, Frames K (nft_set_defaulted c a i);
  nft_set_listed_tok :: forall c a i, KeepsTokens (nft_set_listed c a i);
  nft_set_funded_tok :: forall c a i, KeepsTokens (nft_set_funded c a i);
  nft_set_repaid_tok :: forall c a i, KeepsTokens (nft_set_repaid c a i);
  nft_set_defaulted_tok :: forall c a i, KeepsTokens (nft_set_defaulted c a i) }.

Class RegistryFrame (W K : Type) `{StorageKey K} `{!HasStorage W K} `{!RiskRegistryClient W}
    `{!TokenLedger W} : Prop := {
  rr_record_default_frame :: forall c a s, Frames K (rr_try_record_default c a s);
  rr_record_default_tok :: forall c a s, KeepsTokens (rr_try_record_default c a s) }.

Class TreasuryFrame (W K : Type) `{StorageKey K} `{!HasStorage W K} `{!TreasuryClient W}
    `{!TokenLedger W} : Prop := {
  treasury_collect_frame :: forall c t n, Frames K (treasury_collect_fee c t n);
  treasury_collect_tok :: forall c t n, KeepsTokens (treasury_collect_fee c t n) }.

Class PoolFrame (W K : Type) `{StorageKey K} `{!HasStorage W K} `{!FinancingPoolClient W}
    `{!TokenLedger W} : Prop := {
  pool_release_frame :: forall c m i t, Frames K (pool_release_funds c m i t);
  pool_release_tok :: forall c m i t, KeepsTokens (pool_release_funds c m i t) }.

(** Collects, for every call still in the context, that it leaves the storage
    with keys [K] alone. *)
Ltac learn_frames K :=
  repeat match goal with
  | H : ?m ?cx ?w = Ret ?a ?w' |- _ =>
      lazymatch w' with w => fail | _ => idtac end;
      lazymatch goal with
      | _ : st_get (K:=K) w' = st_get w |- _ => fail
      | _ => let F := fresh "Hfr" in
             pose proof (frames (K:=K) (m:=m) cx w a w' H) as F
      end
  end.

(** Restates the facts about the storage a call left in terms of the one it found. *)
Ltac use_frames :=
  repeat match goal with
  | F : st_get ?w' = _, H : context [st_get ?w'] |- _ =>
      lazymatch H with F => fail | _ => rewrite F in H end
  end.

(** Drops the calls that are views. *)
Ltac learn_views :=
  repeat match goal with
  | H : ?m ?cx ?w = Ret ?a ?w' |- _ =>
      lazymatch w' with w => fail | _ => idtac end;
      let F := fresh "Hro" in
      pose proof (read_only (m:=m) cx w a w' H) as F; subst w'
  end.

(** Collects what each successful token transfer in the context says of the
    balances, and rewrites balances through writes, events and transfers. *)
Ltac learn_transfers :=
  repeat match goal with
  | H : tok_transfer ?t ?f ?to ?n ?cx ?w = Ret ?u ?w' |- _ =>
      lazymatch goal with
      | _ : forall t' x, tok_bal w' t' x = _ |- _ => fail
      | _ => let B := fresh "Hbal" in let N := fresh "Hamt" in
             pose proof (tok_transfer_bal t f to n cx w u w' H) as B;
             pose proof (tok_transfer_amount t f to n cx w u w' H) as N
      end
  end.

Ltac bal_rw :=
  match goal with
  | |- context [tok_bal (st_put _ _) _ _] => rewrite tok_bal_put
  | |- context [tok_bal (w_emit _ _) _ _] => rewrite tok_bal_emit
  | |- context [tok_bal (wset _ _ _ _) _ _] => rewrite tok_bal_wset
  | |- context [tok_bal (wextend _ _ _ _ _) _ _] => rewrite tok_bal_wextend
  | B : forall t x, tok_bal ?w' t x = _ |- context [tok_bal ?w' _ _] => rewrite B
  | H : context [tok_bal (st_put _ _) _ _] |- _ => rewrite tok_bal_put in H
  | H : context [tok_bal (w_emit _ _) _ _] |- _ => rewrite tok_bal_emit in H
  | H : context [tok_bal (wset _ _ _ _) _ _] |- _ => rewrite tok_bal_wset in H
  | H : context [tok_bal (wextend _ _ _ _ _) _ _] |- _ => rewrite tok_bal_wextend in H
  | B : forall t x, tok_bal ?w' t x = _, H : context [tok_bal ?w' _ _] |- _ =>
      lazymatch type of H with forall t x, _ => fail | _ => rewrite B in H end
  end.
Ltac bal_simpl := repeat bal_rw.
