(* ===== verification/AuditLog.v ===== *)
(** * AuditLog: the admin audit ring buffer

    The treasury, the risk registry and the access control contract carry the
    same [append_audit_entry] and [get_audit_log] (their lib.rs files); the code
    is modelled once, over the [AuditStore] interface each of them implements.
    The specification is the full history of admin actions: the ring holds its
    500 most recent entries, and the pages read them newest first. *)

From S2P Require Import Prelude Errors Types Host Events Reentrancy.

(** What a contract's storage offers the log: the [AuditLogHead] and
    [AuditLogTotal] counters and the [AuditEntry(n)] slots. *)
Class AuditStore (K : Type) `{StorageKey K} := {
  al_head : Storage K -> option u64;
  al_total : Storage K -> option u64;
  al_entry : Storage K -> u64 -> option AdminAuditEntry;
  al_set_head : u64 -> Storage K -> Storage K;
  al_set_total : u64 -> Storage K -> Storage K;
  al_set_entry : u64 -> AdminAuditEntry -> Storage K -> Storage K;
  al_key : u64 -> K;
  al_ttl_threshold : u32;
  al_ttl_bump : u32 }.

Class AuditLaws (K : Type) `{AuditStore K} : Prop := {
  al_head_set_head : forall n s, al_head (al_set_head n s) = Some n;
  al_head_set_total : forall n s, al_head (al_set_total n s) = al_head s;
  al_head_set_entry : forall i e s, al_head (al_set_entry i e s) = al_head s;
  al_total_set_total : forall n s, al_total (al_set_total n s) = Some n;
  al_total_set_head : forall n s, al_total (al_set_head n s) = al_total s;
  al_total_set_entry : forall i e s, al_total (al_set_entry i e s) = al_total s;
  al_entry_set_head : forall n s j, al_entry (al_set_head n s) j = al_entry s j;
  al_entry_set_total : forall n s j, al_entry (al_set_total n s) j = al_entry s j;
  al_entry_set_entry : forall i e s j,
    al_entry (al_set_entry i e s) j = if i =? j then Some e else al_entry s j;
  al_key_set : forall i e s, exists v, pget (al_set_entry i e s) (al_key i) = Some v;
  al_pget_head : forall n s k, pget (al_set_head n s) k = pget s k;
  al_pget_total : forall n s k, pget (al_set_total n s) k = pget s k;
  al_pget_entry : forall i e s k, al_key i <> k -> pget (al_set_entry i e s) k = pget s k }.

Section AuditLog.
Context {W K : Type} `{AuditStore K} `{!HasStorage W K} `{!HasEvents W}.

Definition read_store {A} (f : Storage K -> A) : M W A := fun cx w => Ret (f (st_get w)) w.
Definition modify_store (f : Storage K -> Storage K) : M W unit := fun cx w =>
  Ret tt (st_put (f (st_get w)) w).

(** [env.storage().persistent().set(&DataKey::AuditEntry(i), &entry)]. *)
Definition set_entry (i : u64) (entry : AdminAuditEntry) : M W unit := fun cx w =>
  Ret tt (st_put (al_set_entry i entry (st_get w)) (st_keep (created_live cx (al_key i) w) w)).

Definition append_audit_entry (src : AuditSource) (actor : Address) (action : AdminActionType) :
    M W unit :=
  total ← read_store (fun s => default 0 (al_total s));
  head ← read_store (fun s => default 0 (al_head s));
  now ← env_now;
  let entry := mkAdminAuditEntry total now actor action src in
  set_entry head entry;;
  extend_ttl (al_key head) al_ttl_threshold al_ttl_bump;;
  events.admin_action_audited entry;;
  head1 ← or_trap (fit_u64 (head + 1));
  let next_head := head1 mod MAX_AUDIT_LOG_SIZE in
  modify_store (al_set_head next_head);;
  total1 ← or_trap (fit_u64 (total + 1));
  modify_store (al_set_total total1).

(** The [while i < page_size] loop: [n] iterations are left. *)
Fixpoint audit_page_loop (head stored skip : u64) (n : nat) (i : u64)
    (results : list AdminAuditEntry) : M W (list AdminAuditEntry) :=
  match n with
  | O => mret results
  | S n' =>
      offset ← or_trap (fit_u64 (skip + i));
      if offset >=? stored then mret results else
      top ← or_trap (fit_u64 (head + MAX_AUDIT_LOG_SIZE));
      back ← or_trap (fit_u64 (top - 1 - offset));
      let pos := back mod MAX_AUDIT_LOG_SIZE in
      found ← read_store (fun s => al_entry s pos);
      let results' := match found with
                      | Some entry => results ++ [entry]
                      | None => results
                      end in
      audit_page_loop head stored skip n' (i + 1) results'
  end.

Definition get_audit_log (page page_size : u32) : M W (list AdminAuditEntry) :=
  let page_size := Z.min (Z.max page_size 1) 50 in
  total ← read_store (fun s => default 0 (al_total s));
  head ← read_store (fun s => default 0 (al_head s));
  let stored := Z.min total MAX_AUDIT_LOG_SIZE in
  let skip := u64_saturating_mul page page_size in
  audit_page_loop head stored skip (Z.to_nat page_size) 0 [].
End AuditLog.

(** ** Specification: the history of admin actions, oldest first *)

(** The entries still in the ring, newest first. *)
Definition recent (history : list AdminAuditEntry) : list AdminAuditEntry :=
  take 500 (reverse history).

(** The page a reader is promised. *)
Definition history_page (page page_size : u32) (history : list AdminAuditEntry) :=
  let ps := Z.to_nat (Z.min (Z.max page_size 1) 50) in
  take ps (drop (Z.to_nat page * ps) (recent history)).

(** The storage holds [history]. *)
Record audit_rel {K} `{AuditStore K} (s : Storage K) (history : list AdminAuditEntry) : Prop := {
  ar_total : default 0 (al_total s) = len history;
  ar_head : default 0 (al_head s) = len history mod 500;
  ar_entry : forall i e, history !! i = Some e -> len history <= Z.of_nat i + 500 ->
    al_entry s (Z.of_nat i mod 500) = Some e;
  ar_seq : forall i e, history !! i = Some e -> ae_sequence e = Z.of_nat i }.

Lemma mod_500_inj a b : 0 <= a < b -> b < a + 500 -> a mod 500 <> b mod 500.
Proof. intros. pose proof (Z.div_mod a 500). pose proof (Z.div_mod b 500). lia. Qed.

Lemma recent_length h : length (recent h) = Nat.min 500 (length h).
Proof. unfold recent. by rewrite length_take, length_reverse. Qed.

Lemma recent_lookup h o :
  (o < length (recent h))%nat -> recent h !! o = h !! (length h - S o)%nat.
Proof.
  intros Ho. rewrite recent_length in Ho. unfold recent.
  rewrite lookup_take_lt by lia. apply reverse_lookup. lia.
Qed.

Section Refinement.
Context {W K : Type} `{HK : StorageKey K} {HA : AuditStore K}
  `{!HasStorage W K} `{!HasEvents W} `{!StorageLaws W K} `{!AuditLaws K}.

(** What a successful append does to the storage, whatever it held before. *)
Lemma append_audit_entry_store src actor action cx w u w' :
  append_audit_entry (K:=K) src actor action cx w = Ret u w' ->
  exists i e h t, st_get w' = al_set_total t (al_set_head h (al_set_entry i e (st_get (K:=K) w))).
Proof.
  unfold append_audit_entry, read_store, modify_store, set_entry. intros H. minv H.
  rewrite !st_get_put, st_get_emit, st_get_wextend, st_get_put. eauto.
Qed.

(** The append only writes the log's keys and emits its event: whatever these
    keep, it keeps. *)
Lemma append_audit_entry_keeps (P : W -> W -> Prop) src actor action cx w u w' :
  (forall w1 w2 w3, P w1 w2 -> P w2 w3 -> P w1 w3) ->
  (forall (s : Storage K) w1, P w1 (st_put s w1)) -> (forall e w1, P w1 (w_emit e w1)) ->
  (forall (f : K -> u32) w1, P w1 (st_keep f w1)) ->
  append_audit_entry (K:=K) src actor action cx w = Ret u w' -> P w w'.
Proof.
  intros Htr Hput Hemit Hkeep H.
  unfold append_audit_entry, read_store, modify_store, set_entry, wextend in H. minv H.
  unfold wextend.
  repeat first [apply Hput|apply Hemit|apply Hkeep|eapply Htr; [|first [apply Hput|apply Hemit|apply Hkeep]]].
Qed.

Lemma append_audit_entry_run src actor action cx w (history : list AdminAuditEntry) :
  audit_rel (st_get (K:=K) w) history -> len history < u64_max ->
  exists w', append_audit_entry (K:=K) src actor action cx w = Ret tt w' /\
    let e := mkAdminAuditEntry (len history) (cx_now cx) actor action src in
    st_get w' = al_set_total (len history + 1)
                  (al_set_head ((len history + 1) mod 500)
                     (al_set_entry (len history mod 500) e (st_get w))).
Proof.
  intros [Ht Hh _ _] Hlen. pose proof (len_nonneg history).
  pose proof (Z.mod_pos_bound (len history) 500 ltac:(lia)) as Hm.
  unfold append_audit_entry, read_store, mbind, M_bind. cbn. rewrite Ht, Hh.
  set (e := mkAdminAuditEntry _ _ _ _ _).
  destruct (al_key_set (len history mod 500) e (st_get (K:=K) w)) as [v Hv].
  unfold extend_ttl at 1. rewrite st_get_put, Hv. rewrite !fit_u64_in by (unfold u64_max in *; lia). cbn.
  eexists. split; [done|]. rewrite !st_get_put, st_get_emit, st_get_wextend, st_get_put.
  unfold MAX_AUDIT_LOG_SIZE. by rewrite Z.add_mod_idemp_l.
Qed.

Lemma append_audit_rel src actor action now (s : Storage K) history :
  audit_rel s history ->
  let e := mkAdminAuditEntry (len history) now actor action src in
  audit_rel (al_set_total (len history + 1)
               (al_set_head ((len history + 1) mod 500)
                  (al_set_entry (len history mod 500) e s)))
            (history ++ [e]).
Proof.
  intros [Ht Hh He Hs] e.
  assert (Hl : len (history ++ [e]) = len history + 1)
    by (unfold len; rewrite length_app; simpl; lia).
  split; rewrite ?Hl.
  - by rewrite al_total_set_total.
  - by rewrite al_head_set_total, al_head_set_head.
  - intros i x Hi Hrecent. rewrite al_entry_set_total, al_entry_set_head, al_entry_set_entry.
    apply lookup_app_Some in Hi as [Hi|[Hge Hi]].
    + pose proof (lookup_lt_Some _ _ _ Hi).
      assert (Z.of_nat i mod 500 <> len history mod 500) as Hne
        by (apply mod_500_inj; unfold len in *; lia).
      destruct (Z.eqb_spec (len history mod 500) (Z.of_nat i mod 500)); [congruence|].
      apply He; [done|lia].
    + pose proof (lookup_lt_Some _ _ _ Hi) as Hlt. simpl in Hlt.
      assert (i = length history) as -> by lia.
      rewrite Nat.sub_diag in Hi. injection Hi as <-.
      fold (len history). by rewrite Z.eqb_refl.
  - intros i x Hi. apply lookup_app_Some in Hi as [Hi|[Hge Hi]]; [by apply Hs|].
    pose proof (lookup_lt_Some _ _ _ Hi) as Hlt. simpl in Hlt.
    assert (i = length history) as -> by lia.
    rewrite Nat.sub_diag in Hi. injection Hi as <-. done.
Qed.

Lemma audit_page_loop_run cx (w : W) history skip n i acc :
  audit_rel (st_get (K:=K) w) history -> len history <= u64_max -> 0 <= i ->
  0 <= skip -> skip + i + Z.of_nat n <= u64_max ->
  audit_page_loop (K:=K) (len history mod 500) (Z.min (len history) 500) skip n i acc cx w =
  Ret (acc ++ take n (drop (Z.to_nat (skip + i)) (recent history))) w.
Proof.
  intros Hrel Hlen Hi0 Hs0. revert i acc Hi0.
  induction n as [|n IH]; intros i acc Hi0 Hmax; cbn [audit_page_loop].
  { rewrite take_0, app_nil_r. done. }
  unfold mbind at 1, M_bind at 1, or_trap at 1. rewrite fit_u64_in by lia.
  destruct (skip + i >=? Z.min (len history) 500) eqn:Estop.
  { rewrite drop_ge; [by rewrite take_nil, app_nil_r|].
    rewrite recent_length. unfold len in *. lia. }
  pose proof (Z.mod_pos_bound (len history) 500 ltac:(lia)) as Hm.
  unfold mbind, M_bind, or_trap, read_store. unfold MAX_AUDIT_LOG_SIZE.
  rewrite fit_u64_in by (unfold u64_max in *; lia).
  rewrite fit_u64_in by (unfold u64_max in *; lia). cbv zeta.
  set (o := Z.to_nat (skip + i)).
  assert (Ho : (o < length (recent history))%nat)
    by (rewrite recent_length; unfold len in *; lia).
  pose proof (recent_lookup history o Ho) as Hlk.
  rewrite recent_length in Ho.
  destruct (lookup_lt_is_Some_2 history (length history - S o)) as [e He]; [lia|].
  assert (Hpos : (len history mod 500 + 500 - 1 - (skip + i)) mod 500 =
                 Z.of_nat (length history - S o) mod 500).
  { replace (len history mod 500 + 500 - 1 - (skip + i))
      with (len history mod 500 + (499 - (skip + i))) by lia.
    rewrite Z.add_mod_idemp_l by lia.
    replace (len history + (499 - (skip + i)))
      with (Z.of_nat (length history - S o) + 1 * 500) by (unfold len; lia).
    by rewrite Z.mod_add by lia. }
  rewrite Hpos, (ar_entry _ _ Hrel _ _ He) by (unfold len in *; lia).
  rewrite IH by lia. f_equal. rewrite <- app_assoc. f_equal. cbn.
  rewrite (drop_S _ e o) by congruence. cbn. do 2 f_equal. subst o.
  replace (skip + (i + 1)) with (Z.succ (skip + i)) by lia.
  by rewrite Z2Nat.inj_succ by lia.
Qed.

(** C33: Every admin action appended to the ring buffer extends the history by one
    entry carrying its sequence number, and the ring keeps representing the
    whole history's most recent 500 entries; the append never fails before the
    64-bit counter is exhausted. *)
Theorem append_refines_history src actor action cx w history :
  audit_rel (st_get (K:=K) w) history -> len history < u64_max ->
  exists w', append_audit_entry (K:=K) src actor action cx w = Ret tt w' /\
    audit_rel (st_get (K:=K) w')
      (history ++ [mkAdminAuditEntry (len history) (cx_now cx) actor action src]).
Proof.
  intros Hrel Hlen. destruct (append_audit_entry_run src actor action cx w history)
    as (w' & Hrun & Hst); [done..|].
  exists w'. split; [done|]. rewrite Hst. by apply append_audit_rel.
Qed.

(** C34: [get_audit_log] returns, for every page number and page size, exactly the
    promised page of the newest 500 entries of the history, newest first, with
    the page size clamped to 1..50; the [while] loop always ends without a panic. *)
Theorem get_audit_log_refines_history cx w history page page_size :
  audit_rel (st_get (K:=K) w) history -> len history <= u64_max ->
  0 <= page <= u32_max ->
  get_audit_log (K:=K) page page_size cx w = Ret (history_page page page_size history) w.
Proof.
  intros Hrel Hlen Hpage. unfold get_audit_log, history_page. cbv zeta.
  set (ps := Z.min (Z.max page_size 1) 50).
  assert (Hps : 1 <= ps <= 50) by lia.
  unfold mbind, M_bind, read_store. rewrite (ar_total _ _ Hrel), (ar_head _ _ Hrel).
  unfold u64_saturating_mul, clamp.
  assert (0 <= page * ps <= 50 * u32_max) by (unfold u32_max in *; nia).
  replace (Z.max 0 (Z.min u64_max (page * ps))) with (page * ps)
    by (unfold u64_max, u32_max in *; lia).
  unfold MAX_AUDIT_LOG_SIZE.
  rewrite (audit_page_loop_run cx w history) by (try done; unfold u64_max, u32_max in *; lia).
  rewrite app_nil_l, Z.add_0_r, Z2Nat.inj_mul by lia. done.
Qed.
End Refinement.
