(* ===== verification/Moves.v ===== *)
(** * Moves: what a handler can do to the world, as a relation

    [Moves R C m]: in every context of [C], a successful run of [m] takes the
    world along [R]. For a preorder [R] the property is closed under the monad's
    operators, so it holds of a whole handler as soon as it holds of the writes,
    events and calls the handler is made of; [moves] does this analysis. *)

From S2P Require Import Prelude Errors Types Host Events Reentrancy Interfaces AuditLog.

(** The primitives that only read. *)
Section ReadOnly.
Context {W : Type}.

#[export] Instance ro_ret {A} (a : A) : ReadOnly (mret a : M W A).
Proof. by intros ???? [_ ->]%mret_Ret. Qed.
#[export] Instance ro_fail {A} e : ReadOnly (fail e : M W A).
Proof. done. Qed.
#[export] Instance ro_trap {A} : ReadOnly (trap : M W A).
Proof. done. Qed.
#[export] Instance ro_lift {A} (r : Result A) : ReadOnly (lift r : M W A).
Proof. by intros ???? [_ ->]%lift_Ret. Qed.
#[export] Instance ro_fail_if c e : ReadOnly (fail_if c e : M W unit).
Proof. by intros ???? [_ ->]%fail_if_Ret. Qed.
#[export] Instance ro_or_trap {A} (o : option A) : ReadOnly (or_trap o : M W A).
Proof. by intros ???? [_ ->]%or_trap_Ret. Qed.
#[export] Instance ro_env_now : ReadOnly (env_now : M W u64).
Proof. by intros ???? [_ ->]%env_now_Ret. Qed.
#[export] Instance ro_env_self : ReadOnly (env_self : M W Address).
Proof. by intros ???? [_ ->]%env_self_Ret. Qed.
#[export] Instance ro_require_auth a : ReadOnly (require_auth a : M W unit).
Proof. by intros ???? [_ ->]%require_auth_Ret. Qed.

Context {K : Type} `{HK : StorageKey K} `{!HasStorage W K}.
Implicit Types k : K.
#[export] Instance ro_instance_get k : ReadOnly (instance_get k : M W _).
Proof. by intros ???? [= _ <-]. Qed.
#[export] Instance ro_instance_has k : ReadOnly (instance_has k : M W _).
Proof. by intros ???? [= _ <-]. Qed.
#[export] Instance ro_instance_get_default k d : ReadOnly (instance_get_default k d : M W _).
Proof. by intros ???? [= _ <-]. Qed.
#[export] Instance ro_instance_get_or k e : ReadOnly (instance_get_or k e : M W _).
Proof. intros cx w a w'. unfold instance_get_or. case_match; by intros [= _ <-]. Qed.
#[export] Instance ro_persistent_get k : ReadOnly (persistent_get k : M W _).
Proof. by intros ???? [= _ <-]. Qed.
#[export] Instance ro_persistent_has k : ReadOnly (persistent_has k : M W _).
Proof. by intros ???? [= _ <-]. Qed.
#[export] Instance ro_persistent_get_default k d : ReadOnly (persistent_get_default k d : M W _).
Proof. by intros ???? [= _ <-]. Qed.
#[export] Instance ro_persistent_get_or k e : ReadOnly (persistent_get_or k e : M W _).
Proof. intros cx w a w'. unfold persistent_get_or. case_match; by intros [= _ <-]. Qed.
End ReadOnly.

Class Moves {W A : Type} (R : W -> W -> Prop) (C : Ctx -> Prop) (m : M W A) : Prop :=
  run_moves : forall cx w a w', C cx -> m cx w = Ret a w' -> R w w'.

(** The writes of the contract with keys [K], and events, stay within [R]. *)
Class Writes {W : Type} (K : Type) `{StorageKey K} `{!HasStorage W K} (R : W -> W -> Prop) : Prop :=
  writes_keeps : (forall s w, R w (st_put (K:=K) s w)) /\ (forall f w, R w (st_keep (K:=K) f w)).
Lemma writes_intro `{StorageKey K} `{!HasStorage W K} R :
  (forall s w, R w (st_put (K:=K) s w)) -> (forall f w, R w (st_keep (K:=K) f w)) -> Writes K R.
Proof. by split. Qed.
Lemma writes `{HW : Writes W K R} s w : R w (st_put (K:=K) s w).
Proof. apply writes_keeps. Qed.
Lemma keeps_live `{HW : Writes W K R} f w : R w (st_keep (K:=K) f w).
Proof. apply writes_keeps. Qed.
Class Emits {W : Type} `{!HasEvents W} (R : W -> W -> Prop) : Prop :=
  emits : forall e w, R w (w_emit e w).

Section Moves.
Context {W : Type} (R : W -> W -> Prop) `{!PreOrder R} (C : Ctx -> Prop).

Lemma moves_read_only {A} (m : M W A) : ReadOnly m -> Moves R C m.
Proof. intros Hm cx w a w' _ H. rewrite (Hm _ _ _ _ H). reflexivity. Qed.

Lemma moves_bind {A B} (m : M W A) (k : A -> M W B) :
  Moves R C m -> (forall a, Moves R C (k a)) -> Moves R C (m ≫= k).
Proof.
  intros Hm Hk cx w b w' HC (a & w1 & H1 & H2)%bind_Ret.
  transitivity w1; [by eapply Hm|by eapply Hk].
Qed.

Lemma moves_when c m : Moves R C m -> Moves R C (when c m).
Proof. intros Hm cx w u w' HC [[_ ->]|[_ H]]%when_Ret; [reflexivity|by eapply Hm]. Qed.

Lemma moves_publish `{!HasEvents W} `{!Emits R} t d : Moves R C (publish t d).
Proof. intros cx w u w' _ ->%publish_Ret. apply emits. Qed.
Lemma moves_emit `{!HasEvents W} `{!Emits R} t d : Moves R C (events.emit t d).
Proof. apply moves_bind; [apply moves_read_only, _|intros]. apply moves_publish. Qed.

Section Storage.
Context {K : Type} `{HK : StorageKey K} `{!HasStorage W K} `{!Writes K R}.
Implicit Types k : K.

Lemma moves_instance_set k v : Moves R C (instance_set k v).
Proof. intros cx w a w' _ [= _ <-]; apply writes. Qed.
Lemma moves_instance_remove k : Moves R C (instance_remove k).
Proof. intros cx w a w' _ [= _ <-]; apply writes. Qed.
Lemma writes_wset cx k v w : R w (wset cx k v w).
Proof. etransitivity; [apply (keeps_live (K:=K))|apply writes]. Qed.
Lemma moves_persistent_set k v : Moves R C (persistent_set k v).
Proof. intros cx w a w' _ [= _ <-]; apply writes_wset. Qed.
Lemma moves_extend_ttl k t b : Moves R C (extend_ttl k t b).
Proof. intros cx w a w' _ [_ ->]%extend_ttl_Ret. apply (keeps_live (K:=K)). Qed.
Lemma moves_persistent_remove k : Moves R C (persistent_remove k).
Proof. intros cx w a w' _ [= _ <-]; apply writes. Qed.

Lemma moves_update_wasm h : Moves R C (update_current_contract_wasm (K:=K) h).
Proof. intros cx w a w' _ [= _ <-]; apply writes. Qed.

Lemma moves_with_guard {A} (m : M W A) : Moves R C m -> Moves R C (with_guard K m).
Proof.
  intros Hm cx w a w' HC H. unfold with_guard in H.
  destruct (acquire_guard K cx w) as [u w1|e w1|] eqn:E1; try done.
  destruct (m cx w1) as [b w2|e w2|] eqn:E2; try done. injection H as _ <-.
  transitivity w1; [|transitivity w2].
  - unfold acquire_guard in E1. case_match; [done|]. injection E1 as _ <-. apply writes.
  - by eapply Hm.
  - apply writes.
Qed.
End Storage.
End Moves.

Create HintDb moves discriminated.
#[export] Hint Constants Opaque : moves.
#[export] Hint Resolve moves_publish moves_emit moves_instance_remove moves_persistent_remove moves_extend_ttl
  moves_update_wasm : moves.

(** One step of the analysis of a handler. *)
Ltac moves_step :=
  lazymatch goal with
  | |- forall _, _ => intros ?
  | |- Moves _ _ (_ ≫= _) => apply moves_bind; [apply _|..]
  | |- Moves _ _ (when _ _) => apply moves_when; [apply _|..]
  | |- Moves _ _ (with_guard _ _) => apply moves_with_guard; [apply _|apply _|..]
  | |- Moves _ _ (match ?x with _ => _ end) => destruct x
  | |- Moves _ _ (instance_get ?k) => exact (moves_read_only _ _ _ (ro_instance_get k))
  | |- Moves _ _ (instance_get_default ?k ?d) =>
      exact (moves_read_only _ _ _ (ro_instance_get_default k d))
  | |- Moves _ _ (instance_get_or ?k ?e) => exact (moves_read_only _ _ _ (ro_instance_get_or k e))
  | |- Moves _ _ (persistent_get ?k) => exact (moves_read_only _ _ _ (ro_persistent_get k))
  | |- Moves _ _ (persistent_get_default ?k ?d) =>
      exact (moves_read_only _ _ _ (ro_persistent_get_default k d))
  | |- Moves _ _ (persistent_get_or ?k ?e) =>
      exact (moves_read_only _ _ _ (ro_persistent_get_or k e))
  | |- Moves _ _ (instance_set ?k ?v) => exact (moves_instance_set _ _ k v)
  | |- Moves _ _ (persistent_set ?k ?v) => exact (moves_persistent_set _ _ k v)
  | |- Moves _ _ _ =>
      first [ solve [apply moves_read_only; apply _] | solve [try autounfold with kora_events; typeclasses eauto 5 with moves typeclass_instances] ]
  end.
Ltac moves := repeat moves_step.

(** The ring buffer of the contract with keys [K]. *)
Lemma moves_append_audit {W K : Type} `{AuditStore K} `{!HasStorage W K} `{!HasEvents W}
    (R : W -> W -> Prop) `{!PreOrder R} `{!Writes K R} `{!Emits R} C src actor action :
  Moves R C (append_audit_entry (K:=K) src actor action).
Proof.
  unfold append_audit_entry, read_store, modify_store. moves.
  all: intros ????? E; injection E as _ <-; first [apply writes | reflexivity | etransitivity; [apply (keeps_live (K:=K))|apply writes]].
Qed.
#[export] Hint Resolve moves_append_audit : moves.
