(* ===== verification/Succeeds.v ===== *)
(** * Succeeds: progress of a handler

    The inversion lemmas of Reentrancy.v say what a run that returned [Ok] did.
    [succeeds m cx w] is the other half: the run does return [Ok]. A handler is
    walked forwards, one operation at a time; each asks for the fact that makes it
    go through, at the state it runs in. *)

From S2P Require Import Prelude Errors Types Host Events Reentrancy Interfaces.

Definition succeeds {W A} (m : M W A) (cx : Ctx) (w : W) : Prop :=
  exists a w', m cx w = Ret a w'.

Section Rules.
Context {W : Type}.
Implicit Types (cx : Ctx) (w : W).

Lemma succeeds_now {A} (m : M W A) cx w a w' : m cx w = Ret a w' -> succeeds m cx w.
Proof. by exists a, w'. Qed.

Lemma succeeds_step {A B} (m : M W A) (k : A -> M W B) cx w a w1 :
  m cx w = Ret a w1 -> succeeds (k a) cx w1 -> succeeds (m ≫= k) cx w.
Proof. intros E (b & w' & H). exists b, w'. by rewrite (bind_run _ _ _ _ _ _ E). Qed.

(** The same for a run whose result is known. *)
Lemma run_step {A B} (m : M W A) (k : A -> M W B) cx w a w1 r :
  m cx w = Ret a w1 -> k a cx w1 = r -> (m ≫= k) cx w = r.
Proof. intros E <-. by apply bind_run. Qed.

(** A call known to succeed, of which the rest uses only what its success tells. *)
Lemma succeeds_bind {A B} (m : M W A) (k : A -> M W B) cx w :
  succeeds m cx w -> (forall a w1, m cx w = Ret a w1 -> succeeds (k a) cx w1) ->
  succeeds (m ≫= k) cx w.
Proof. intros (a & w1 & E) Hk. exact (succeeds_step _ _ _ _ _ _ E (Hk _ _ E)). Qed.

Lemma succeeds_assoc {A B C} (m : M W A) (f : A -> M W B) (g : B -> M W C) cx w :
  succeeds (m ≫= fun a => f a ≫= g) cx w -> succeeds ((m ≫= f) ≫= g) cx w.
Proof.
  intros (c & w' & H). exists c, w'. revert H. unfold mbind, M_bind. by destruct (m cx w).
Qed.

Lemma succeeds_when c (m : M W unit) cx w :
  (c = true -> succeeds m cx w) -> succeeds (when c m) cx w.
Proof. unfold when. destruct c; [by auto|]. intros _. by exists tt, w. Qed.

Lemma mret_run {A} (a : A) cx w : (mret a : M W A) cx w = Ret a w.
Proof. done. Qed.
Lemma lift_run {A} (r : Result A) a cx w : r = Ok a -> lift r cx w = Ret a w.
Proof. by intros ->. Qed.
Lemma fail_if_run c e cx w : c = false -> fail_if c e cx w = Ret tt w.
Proof. by intros ->. Qed.
Lemma or_trap_run {A} (o : option A) a cx w : o = Some a -> or_trap o cx w = Ret a w.
Proof. by intros ->. Qed.
Lemma when_false_run c (m : M W unit) cx w : c = false -> when c m cx w = Ret tt w.
Proof. by intros ->. Qed.
Lemma when_true_run c (m : M W unit) cx w r : c = true -> m cx w = r -> when c m cx w = r.
Proof. by intros -> <-. Qed.
Lemma env_now_run cx w : env_now cx w = Ret (cx_now cx) w.
Proof. done. Qed.
Lemma env_self_run cx w : env_self cx w = Ret (cx_self cx) w.
Proof. done. Qed.
Lemma require_auth_run a cx w : authorized cx a = true -> require_auth a cx w = Ret tt w.
Proof. unfold require_auth. by intros ->. Qed.
Lemma publish_run `{HasEvents W} t d cx w :
  publish t d cx w = Ret tt (w_emit (mkEvent (cx_self cx) t d) w).
Proof. done. Qed.

Lemma emit_run `{HasEvents W} t d cx w :
  events.emit t d cx w = Ret tt (w_emit (mkEvent (cx_self cx) t (d ++ [VU64 (cx_now cx)])) w).
Proof. done. Qed.

Section Storage.
Context {K : Type} `{StorageKey K} `{!HasStorage W K}.
Implicit Types k : K.

Lemma instance_get_run k cx w : instance_get k cx w = Ret (iget (st_get w) k) w.
Proof. done. Qed.
Lemma instance_set_run k v cx w : instance_set k v cx w = Ret tt (st_put (iset k v (st_get w)) w).
Proof. done. Qed.
Lemma instance_get_or_run k e v cx w :
  iget (st_get w) k = Some v -> instance_get_or k e cx w = Ret v w.
Proof. unfold instance_get_or. by intros ->. Qed.
Lemma instance_get_default_run k d cx w :
  instance_get_default k d cx w = Ret (default d (iget (st_get w) k)) w.
Proof. done. Qed.
Lemma persistent_get_run k cx w : persistent_get k cx w = Ret (pget (st_get w) k) w.
Proof. done. Qed.
Lemma persistent_has_run k cx w :
  persistent_has k cx w = Ret (if pget (st_get w) k is Some _ then true else false) w.
Proof. done. Qed.
Lemma persistent_get_or_run k e v cx w :
  pget (st_get w) k = Some v -> persistent_get_or k e cx w = Ret v w.
Proof. unfold persistent_get_or. by intros ->. Qed.
Lemma persistent_get_default_run k d cx w :
  persistent_get_default k d cx w = Ret (default d (pget (st_get w) k)) w.
Proof. done. Qed.
Lemma persistent_set_run k v cx w : persistent_set k v cx w = Ret tt (wset cx k v w).
Proof. done. Qed.
Lemma persistent_remove_run k cx w :
  persistent_remove k cx w = Ret tt (st_put (prem k (st_get w)) w).
Proof. done. Qed.
Lemma extend_ttl_run k t b cx w v :
  pget (st_get w) k = Some v -> extend_ttl k t b cx w = Ret tt (wextend cx k t b w).
Proof. unfold extend_ttl. by intros ->. Qed.

Lemma succeeds_guard {A} (m : M W A) cx w :
  st_lock (st_get (K:=K) w) = false ->
  succeeds m cx (st_put (set_lock true (st_get (K:=K) w)) w) -> succeeds (with_guard K m) cx w.
Proof.
  intros Hl (a & w' & E). exists a, (released K w'). unfold with_guard, acquire_guard.
  by rewrite Hl, E.
Qed.
End Storage.

Lemma succeeds_call {A} a (m : M W A) cx w :
  list_mem a (cx_self cx :: cx_stack cx) = false -> succeeds m (callee_ctx a cx) w ->
  succeeds (call a m) cx w.
Proof. intros Hm (x & w' & H). exists x, w'. unfold call. by rewrite Hm, H. Qed.
End Rules.

(** Closes the fact an operation asks for, when the context or the storage tells it. *)
Ltac run_side :=
  first [eassumption | reflexivity | (store_simpl; first [eassumption | reflexivity]) | idtac].

(** The run of one operation. *)
Ltac run_op :=
  lazymatch goal with
  | |- mret _ _ _ = _ => apply mret_run
  | |- lift _ _ _ = _ => apply lift_run; run_side
  | |- fail_if _ _ _ _ = _ => apply fail_if_run; run_side
  | |- or_trap _ _ _ = _ => apply or_trap_run; run_side
  | |- env_now _ _ = _ => apply env_now_run
  | |- env_self _ _ = _ => apply env_self_run
  | |- require_auth _ _ _ = _ => apply require_auth_run; run_side
  | |- publish _ _ _ _ = _ => apply publish_run
  | |- events.emit _ _ _ _ = _ => apply emit_run
  | |- @instance_get ?W ?K ?SK ?HS ?k ?cx ?w = _ => exact (@instance_get_run W K SK HS k cx w)
  | |- @instance_set ?W ?K ?SK ?HS ?k ?x ?cx ?w = _ => exact (@instance_set_run W K SK HS k x cx w)
  | |- @instance_get_or ?W ?K ?SK ?HS ?k ?x ?cx ?w = _ => eapply (@instance_get_or_run W K SK HS k x _ cx w); run_side
  | |- @instance_get_default ?W ?K ?SK ?HS ?k ?x ?cx ?w = _ => exact (@instance_get_default_run W K SK HS k x cx w)
  | |- @persistent_get ?W ?K ?SK ?HS ?k ?cx ?w = _ => exact (@persistent_get_run W K SK HS k cx w)
  | |- @persistent_has ?W ?K ?SK ?HS ?k ?cx ?w = _ => exact (@persistent_has_run W K SK HS k cx w)
  | |- @persistent_get_or ?W ?K ?SK ?HS ?k ?x ?cx ?w = _ => eapply (@persistent_get_or_run W K SK HS k x _ cx w); run_side
  | |- @persistent_get_default ?W ?K ?SK ?HS ?k ?x ?cx ?w = _ => exact (@persistent_get_default_run W K SK HS k x cx w)
  | |- @persistent_set ?W ?K ?SK ?HS ?k ?x ?cx ?w = _ => exact (@persistent_set_run W K SK HS k x cx w)
  | |- @persistent_remove ?W ?K ?SK ?HS ?k ?cx ?w = _ => exact (@persistent_remove_run W K SK HS k cx w)
  | |- @extend_ttl ?W ?K ?SK ?HS ?k ?x ?y ?cx ?w = _ => eapply (@extend_ttl_run W K SK HS k x y cx w); run_side
  end.

(** One operation of a handler; it stops at a call of another contract, a [when]
    and a branch. *)
Ltac walk_op :=
  try autounfold with kora_events; cbv beta zeta;
  lazymatch goal with
  | |- succeeds ((_ ≫= _) ≫= _) _ _ => apply succeeds_assoc
  | |- succeeds (_ ≫= _) _ _ => eapply succeeds_step; [run_op|]
  | |- succeeds (with_guard _ _) _ _ => apply succeeds_guard
  | |- succeeds _ _ _ => eapply succeeds_now; run_op
  end.

Ltac run_walk := cbv beta zeta; first [run_op | eapply run_step; [run_op|run_walk] | idtac].

(** Walks as far as the operations go through by themselves. *)
Ltac walk := repeat walk_op.
