(* ===== verification/AccessControl.v ===== *)
(** * AccessControl: pause, roles, multisig and parameter governance
    (src/contracts/access_control/src/lib.rs)

    State: [DataKey]. Operations: one definition per entry point, with the
    source's name; [exec] is the contract as a step function on its [Call]s. *)

From S2P Require Import Prelude Errors Types Host Events Reentrancy Validation AuditLog.

Inductive RoleName := RoleAdmin | RoleOperator | RoleVerifier | RoleNone.

#[export] Instance RoleName_eq_dec : EqDecision RoleName.
Proof. solve_decision. Defined.

Module DataKey.
Inductive t :=
  | Admin
  | Paused
  | Role (a : Address)
  | UpgradeProposal
  | MultisigConfig
  | NextProposalId
  | Proposal (id : u64)
  | ParameterProposal (id : u64)
  | NextParamProposalId
  | Param (k : ParameterKey)
  | AuditLogHead
  | AuditLogTotal
  | AuditEntry (n : u64).

#[global] Instance t_eq_dec : EqDecision t.
Proof. solve_decision. Defined.

Definition val (k : t) : Type :=
  match k with
  | Admin => Address
  | Paused => bool
  | Role _ => RoleName
  | UpgradeProposal => (BytesN32 * u64)%type
  | MultisigConfig => Types.MultisigConfig
  | NextProposalId | NextParamProposalId => u64
  | Proposal _ => Types.Proposal
  | ParameterProposal _ => Types.ParameterProposal
  | Param _ => u32
  | AuditLogHead | AuditLogTotal => u64
  | AuditEntry _ => AdminAuditEntry
  end.
End DataKey.

#[export] Instance DataKey_storage : StorageKey DataKey.t := {| sk_val := DataKey.val |}.

Definition PERSISTENT_TTL_THRESHOLD : u32 := 518400.
Definition PERSISTENT_TTL_BUMP : u32 := 518400.

#[export] Instance audit_store : AuditStore DataKey.t := {|
  al_head s := iget s DataKey.AuditLogHead;
  al_total s := iget s DataKey.AuditLogTotal;
  al_entry s n := pget s (DataKey.AuditEntry n);
  al_set_head n := iset DataKey.AuditLogHead n;
  al_set_total n := iset DataKey.AuditLogTotal n;
  al_set_entry n e := pset (DataKey.AuditEntry n) e;
  al_key n := DataKey.AuditEntry n;
  al_ttl_threshold := PERSISTENT_TTL_THRESHOLD;
  al_ttl_bump := PERSISTENT_TTL_BUMP |}.

#[export] Instance audit_laws : AuditLaws DataKey.t.
Proof.
  split; intros; simpl; try by store_simpl.
  - destruct (Z.eqb_spec i j) as [->|]; by store_simpl.
  - eexists. by store_simpl.
Qed.

Definition GOVERNANCE_TIMELOCK_DELAY : u64 := UPGRADE_TIMELOCK_DELAY.
Definition PROPOSAL_TTL_LEDGERS : u64 := 120960.

Section AccessControl.
Context {W : Type} `{!HasEvents W} `{!HasStorage W DataKey.t}.

(** ** Helpers *)

(** Extends the life of an entry. *)
Definition bump_persistent (key : DataKey.t) : M W unit := extend_ttl key PERSISTENT_TTL_THRESHOLD PERSISTENT_TTL_BUMP.

Definition append_audit_entry (actor : Address) (action : AdminActionType) : M W unit :=
  AuditLog.append_audit_entry (K:=DataKey.t) SrcAccessControl actor action.

Definition get_audit_log (page page_size : u32) : M W (list AdminAuditEntry) :=
  AuditLog.get_audit_log (K:=DataKey.t) page page_size.

(** Reads the persistent tier, which no handler ever writes under this key. *)
Definition read_paused : M W bool := persistent_get_default DataKey.Paused false.

Definition require_admin (caller : Address) : M W unit :=
  admin ← persistent_get_or DataKey.Admin NotInitialized;
  fail_if (negb (admin =? caller)%N) NotAdmin.

Definition load_multisig_config : M W MultisigConfig :=
  persistent_get_or DataKey.MultisigConfig MultisigNotConfigured.

Definition require_signer (config : MultisigConfig) (caller : Address) : M W unit :=
  fail_if (negb (list_mem caller (ms_signers config))) SignerNotFound.

Definition valid_parameter (key : ParameterKey) (value : u32) : bool :=
  match key with
  | FeeBps | LatePenaltyBps => value <=? 10000
  | MaxRiskScore => value <=? 100
  end.

Definition require_valid_parameter (key : ParameterKey) (value : u32) : Result unit :=
  reject_if (negb (valid_parameter key value)) InvalidParameterValue.

(** ** Initialization, pause, roles *)

Definition initialize (admin : Address) : M W unit :=
  has ← persistent_has DataKey.Admin;
  fail_if has AlreadyInitialized;;
  self ← env_self;
  lift (require_not_self self admin);;
  persistent_set DataKey.Admin admin;;
  bump_persistent DataKey.Admin;;
  instance_set DataKey.Paused false;;
  persistent_set (DataKey.Role admin) RoleAdmin;;
  bump_persistent (DataKey.Role admin).

Definition pause (admin : Address) : M W unit :=
  require_auth admin;;
  require_admin admin;;
  paused ← instance_get_default DataKey.Paused false;
  fail_if paused AlreadyPaused;;
  with_guard DataKey.t (
    instance_set DataKey.Paused true;;
    events.protocol_paused admin;;
    append_audit_entry admin ActPause).

Definition unpause (admin : Address) : M W unit :=
  require_auth admin;;
  require_admin admin;;
  paused ← instance_get_default DataKey.Paused false;
  fail_if (negb paused) NotPaused;;
  with_guard DataKey.t (
    instance_set DataKey.Paused false;;
    events.protocol_unpaused admin;;
    append_audit_entry admin ActUnpause).

Definition grant_role (admin target : Address) (role : RoleName) : M W unit :=
  require_auth admin;;
  require_admin admin;;
  fail_if (bool_decide (role = RoleAdmin)) Unauthorized;;
  fail_if (bool_decide (role = RoleNone)) Unauthorized;;
  fail_if (target =? admin)%N Unauthorized;;
  persistent_set (DataKey.Role target) role;;
  bump_persistent (DataKey.Role target);;
  events.role_granted admin target;;
  append_audit_entry admin ActGrantRole.

Definition revoke_role (admin target : Address) : M W unit :=
  require_auth admin;;
  require_admin admin;;
  current_role ← persistent_get_default (DataKey.Role target) RoleNone;
  fail_if (bool_decide (current_role = RoleAdmin)) Unauthorized;;
  fail_if (bool_decide (current_role = RoleNone)) RoleNotAssigned;;
  persistent_remove (DataKey.Role target);;
  events.role_revoked admin target;;
  append_audit_entry admin ActRevokeRole.

Definition transfer_admin (current_admin new_admin : Address) : M W unit :=
  require_auth current_admin;;
  require_admin current_admin;;
  fail_if (current_admin =? new_admin)%N InvalidAddress;;
  self ← env_self;
  lift (require_not_self self new_admin);;
  existing ← persistent_get_default (DataKey.Role new_admin) RoleNone;
  fail_if (negb (bool_decide (existing = RoleNone)) && negb (bool_decide (existing = RoleAdmin)))
    Unauthorized;;
  persistent_set DataKey.Admin new_admin;;
  bump_persistent DataKey.Admin;;
  persistent_set (DataKey.Role new_admin) RoleAdmin;;
  bump_persistent (DataKey.Role new_admin);;
  persistent_remove (DataKey.Role current_admin);;
  events.admin_transferred current_admin new_admin;;
  append_audit_entry current_admin ActTransferAdmin.

(** ** Multisig *)

Definition configure_multisig (admin : Address) (signers : Vec Address) (threshold : u32) :
    M W unit :=
  require_auth admin;;
  require_admin admin;;
  let signer_count := len signers in
  fail_if ((threshold =? 0) || (threshold >? signer_count)) InvalidThreshold;;
  persistent_set DataKey.MultisigConfig (mkMultisigConfig threshold signers);;
  bump_persistent DataKey.MultisigConfig;;
  has ← persistent_has DataKey.NextProposalId;
  when (negb has) (persistent_set DataKey.NextProposalId 1);;
  events.multisig_configured threshold signer_count;;
  append_audit_entry admin ActConfigureMultisig.

Definition propose_action (proposer : Address) (action : AdminAction) : M W u64 :=
  require_auth proposer;;
  config ← load_multisig_config;
  require_signer config proposer;;
  proposal_id ← persistent_get_default DataKey.NextProposalId 1;
  now ← env_now;
  expires ← or_trap (fit_u64 (now + PROPOSAL_TTL_LEDGERS));
  persistent_set (DataKey.Proposal proposal_id)
    (mkProposal proposal_id action proposer [proposer] false now expires);;
  bump_persistent (DataKey.Proposal proposal_id);;
  next ← lift (ok_or (fit_u64 (proposal_id + 1)) ArithmeticOverflow);
  persistent_set DataKey.NextProposalId next;;
  events.action_proposed proposal_id proposer;;
  mret proposal_id.

Definition approve_action (approver : Address) (proposal_id : u64) : M W unit :=
  require_auth approver;;
  config ← load_multisig_config;
  require_signer config approver;;
  proposal ← persistent_get_or (DataKey.Proposal proposal_id) ProposalNotFound;
  fail_if (pr_executed proposal) ProposalAlreadyExecuted;;
  now ← env_now;
  fail_if (now >? pr_expires_at proposal) ProposalExpired;;
  fail_if (list_mem approver (pr_approvals proposal)) AlreadyApproved;;
  let proposal := with_approvals (pr_approvals proposal ++ [approver]) proposal in
  persistent_set (DataKey.Proposal proposal_id) proposal;;
  bump_persistent (DataKey.Proposal proposal_id);;
  events.action_approved proposal_id approver (len (pr_approvals proposal)).

(** The inner match on the role value of a [GrantRole] action. *)
Definition role_of (role_val : u32) : Result RoleName :=
  if role_val =? 1 then Ok RoleOperator
  else if role_val =? 2 then Ok RoleVerifier
  else Err Unauthorized.

(** The [match proposal.action] of [execute_action]. *)
Definition apply_action (executor : Address) (action : AdminAction) : M W unit :=
  match action with
  | Pause =>
      instance_set DataKey.Paused true;;
      events.protocol_paused executor
  | Unpause =>
      instance_set DataKey.Paused false;;
      events.protocol_unpaused executor
  | GrantRole target role_val =>
      role ← lift (role_of role_val);
      persistent_set (DataKey.Role target) role;;
      bump_persistent (DataKey.Role target);;
      events.role_granted executor target
  | RevokeRole target =>
      persistent_remove (DataKey.Role target);;
      events.role_revoked executor target
  | TransferAdmin new_admin =>
      persistent_set DataKey.Admin new_admin;;
      bump_persistent DataKey.Admin;;
      persistent_set (DataKey.Role new_admin) RoleAdmin;;
      bump_persistent (DataKey.Role new_admin);;
      events.admin_transferred executor new_admin
  end.

Definition execute_action (executor : Address) (proposal_id : u64) : M W unit :=
  require_auth executor;;
  config ← load_multisig_config;
  require_signer config executor;;
  proposal ← persistent_get_or (DataKey.Proposal proposal_id) ProposalNotFound;
  fail_if (pr_executed proposal) ProposalAlreadyExecuted;;
  now ← env_now;
  fail_if (now >? pr_expires_at proposal) ProposalExpired;;
  fail_if (len (pr_approvals proposal) <? ms_threshold config) ThresholdNotMet;;
  persistent_set (DataKey.Proposal proposal_id) (with_executed true proposal);;
  apply_action executor (pr_action proposal);;
  events.action_executed proposal_id executor;;
  append_audit_entry executor ActMultisigExecuteAction.

Definition get_proposal (proposal_id : u64) : M W Proposal :=
  persistent_get_or (DataKey.Proposal proposal_id) ProposalNotFound.

Definition get_multisig_config : M W MultisigConfig := load_multisig_config.

(** ** Parameter governance *)

Definition propose_parameter_change (proposer : Address) (key : ParameterKey)
    (new_value : u32) : M W u64 :=
  require_auth proposer;;
  config ← load_multisig_config;
  require_signer config proposer;;
  lift (require_valid_parameter key new_value);;
  proposal_id ← persistent_get_default DataKey.NextParamProposalId 1;
  now ← env_now;
  persistent_set (DataKey.ParameterProposal proposal_id)
    (mkParameterProposal proposal_id key new_value proposer [proposer] now false);;
  bump_persistent (DataKey.ParameterProposal proposal_id);;
  next ← lift (ok_or (fit_u64 (proposal_id + 1)) ArithmeticOverflow);
  persistent_set DataKey.NextParamProposalId next;;
  events.action_proposed proposal_id proposer;;
  append_audit_entry proposer ActProposeParameter;;
  mret proposal_id.

Definition vote_parameter_change (signer : Address) (proposal_id : u64) : M W unit :=
  require_auth signer;;
  config ← load_multisig_config;
  require_signer config signer;;
  proposal ← persistent_get_or (DataKey.ParameterProposal proposal_id) ParameterProposalNotFound;
  fail_if (pp_executed proposal) ParameterProposalExecuted;;
  fail_if (list_mem signer (pp_approvals proposal)) AlreadyVoted;;
  let proposal := with_pp_approvals (pp_approvals proposal ++ [signer]) proposal in
  let count := len (pp_approvals proposal) in
  persistent_set (DataKey.ParameterProposal proposal_id) proposal;;
  bump_persistent (DataKey.ParameterProposal proposal_id);;
  events.action_approved proposal_id signer count.

Definition execute_parameter_change (caller : Address) (proposal_id : u64) : M W unit :=
  require_auth caller;;
  config ← load_multisig_config;
  require_signer config caller;;
  proposal ← persistent_get_or (DataKey.ParameterProposal proposal_id) ParameterProposalNotFound;
  fail_if (pp_executed proposal) ParameterProposalExecuted;;
  fail_if (len (pp_approvals proposal) <? ms_threshold config) GovernanceThresholdNotMet;;
  now ← env_now;
  ready ← or_trap (fit_u64 (pp_created_at proposal + GOVERNANCE_TIMELOCK_DELAY));
  fail_if (now <? ready) GovernanceTimelockNotElapsed;;
  persistent_set (DataKey.ParameterProposal proposal_id) (with_pp_executed true proposal);;
  persistent_set (DataKey.Param (pp_key proposal)) (pp_new_value proposal);;
  bump_persistent (DataKey.Param (pp_key proposal));;
  events.action_executed proposal_id caller;;
  append_audit_entry caller ActExecuteParameter.

Definition get_parameter (key : ParameterKey) : M W (option u32) :=
  persistent_get (DataKey.Param key).

Definition get_parameter_proposal (proposal_id : u64) : M W ParameterProposal :=
  persistent_get_or (DataKey.ParameterProposal proposal_id) ParameterProposalNotFound.

(** ** Views *)

Definition is_paused : M W bool := instance_get_default DataKey.Paused false.

Definition get_role (address : Address) : M W RoleName :=
  persistent_get_default (DataKey.Role address) RoleNone.

Definition has_role (address : Address) (role : RoleName) : M W bool :=
  assigned ← persistent_get_default (DataKey.Role address) RoleNone;
  mret (bool_decide (assigned = role)).

Definition get_admin : M W Address := persistent_get_or DataKey.Admin NotInitialized.

(** ** Upgrade *)

Definition propose_upgrade (admin : Address) (new_wasm_hash : BytesN32) : M W unit :=
  require_auth admin;;
  require_admin admin;;
  now ← env_now;
  instance_set DataKey.UpgradeProposal (new_wasm_hash, now);;
  events.upgrade_proposed admin new_wasm_hash;;
  append_audit_entry admin ActProposeUpgrade.

Definition execute_upgrade (admin : Address) : M W unit :=
  require_auth admin;;
  require_admin admin;;
  '(wasm_hash, proposed_at) ← instance_get_or DataKey.UpgradeProposal NoUpgradeProposed;
  now ← env_now;
  ready ← or_trap (fit_u64 (proposed_at + UPGRADE_TIMELOCK_DELAY));
  fail_if (now <? ready) UpgradeTimelockNotElapsed;;
  instance_remove DataKey.UpgradeProposal;;
  events.upgrade_executed admin wasm_hash;;
  append_audit_entry admin ActExecuteUpgrade;;
  update_current_contract_wasm (K:=DataKey.t) wasm_hash.
End AccessControl.

(** ** The contract as a step function *)

Inductive Call :=
  | CInitialize (admin : Address)
  | CPause (admin : Address)
  | CUnpause (admin : Address)
  | CGrantRole (admin target : Address) (role : RoleName)
  | CRevokeRole (admin target : Address)
  | CTransferAdmin (current_admin new_admin : Address)
  | CConfigureMultisig (admin : Address) (signers : Vec Address) (threshold : u32)
  | CProposeAction (proposer : Address) (action : AdminAction)
  | CApproveAction (approver : Address) (proposal_id : u64)
  | CExecuteAction (executor : Address) (proposal_id : u64)
  | CProposeParameter (proposer : Address) (key : ParameterKey) (new_value : u32)
  | CVoteParameter (signer : Address) (proposal_id : u64)
  | CExecuteParameter (caller : Address) (proposal_id : u64)
  | CProposeUpgrade (admin : Address) (new_wasm_hash : BytesN32)
  | CExecuteUpgrade (admin : Address).

Section Exec.
Context {W : Type} `{!HasEvents W} `{!HasStorage W DataKey.t}.

Definition exec (c : Call) : M W unit :=
  match c with
  | CInitialize a => initialize a
  | CPause a => pause a
  | CUnpause a => unpause a
  | CGrantRole a t r => grant_role a t r
  | CRevokeRole a t => revoke_role a t
  | CTransferAdmin a n => transfer_admin a n
  | CConfigureMultisig a s t => configure_multisig a s t
  | CProposeAction p a => _ ← propose_action p a; mret tt
  | CApproveAction a i => approve_action a i
  | CExecuteAction e i => execute_action e i
  | CProposeParameter p k v => _ ← propose_parameter_change p k v; mret tt
  | CVoteParameter s i => vote_parameter_change s i
  | CExecuteParameter c i => execute_parameter_change c i
  | CProposeUpgrade a h => propose_upgrade a h
  | CExecuteUpgrade a => execute_upgrade a
  end.

(** States the contract can be in: it starts with empty storage, transactions
    call its entry points, and nothing else writes its storage. *)
Inductive reachable : W -> Prop :=
  | reach_deploy w : st_get w = empty_storage -> reachable w
  | reach_call w cx c : reachable w -> reachable (run_tx (exec c) cx w)
  | reach_other w w' : reachable w -> st_get w' = st_get w -> reachable w'.
End Exec.

Create HintDb access_control.
#[export] Hint Unfold exec bump_persistent initialize pause unpause grant_role revoke_role transfer_admin
  configure_multisig propose_action approve_action execute_action apply_action
  propose_parameter_change vote_parameter_change execute_parameter_change
  propose_upgrade execute_upgrade require_valid_parameter require_admin load_multisig_config require_signer
  : access_control.

Section Steps.
Context {W : Type} `{!HasEvents W} `{!HasStorage W DataKey.t} `{!StorageLaws W DataKey.t}.

Lemma ac_append_store actor action cx (w : W) u w' :
  append_audit_entry actor action cx w = Ret u w' ->
  exists (i : u64) (e : AdminAuditEntry) (h t : u64), st_get w' =
    iset DataKey.AuditLogTotal t (iset DataKey.AuditLogHead h
      (pset (DataKey.AuditEntry i) e (st_get w))).
Proof.
  intros H. unfold append_audit_entry in H.
  apply (append_audit_entry_store SrcAccessControl actor action cx w u w') in H
    as (i & e & h & t & E).
  by exists i, e, h, t.
Qed.
End Steps.

(** Runs a call of the contract backwards: the guards it passed, and the storage it left. *)
Ltac learn_append :=
  repeat match goal with
  | H : append_audit_entry _ _ _ _ = Ret _ _ |- _ =>
      let i := fresh "i" in let e := fresh "e" in let h := fresh "h" in let t := fresh "t" in
      let F := fresh "Happ" in
      apply ac_append_store in H as (i & e & h & t & F)
  end.

Ltac run_call H :=
  cbn [exec] in H; autounfold with access_control in H; minv H; learn_append;
  store_facts; store_simpl.

Section Properties.
Context {W : Type} `{!HasEvents W} `{!HasStorage W DataKey.t} `{!StorageLaws W DataKey.t}.
Implicit Types (cx : Ctx) (w : W).

(** Who may move the protocol's authority: the admin, signing the call, ... *)
Definition admin_call (cx : Ctx) (w : W) : Prop :=
  exists admin, pget (st_get w) DataKey.Admin = Some admin /\ authorized cx admin = true.

(** ... or the executor of an approved, unexpired, not yet executed proposal. *)
Definition quorum_call (c : Call) (cx : Ctx) (w : W) : Prop :=
  exists executor id p cfg,
    c = CExecuteAction executor id /\
    pget (st_get w) (DataKey.Proposal id) = Some p /\
    pget (st_get w) DataKey.MultisigConfig = Some cfg /\
    executor ∈ ms_signers cfg /\ authorized cx executor = true /\
    pr_executed p = false /\ cx_now cx <= pr_expires_at p /\
    ms_threshold cfg <= len (pr_approvals p).

(** The next ids the two proposal counters hand out. *)
Definition next_proposal_id (w : W) : u64 := default 1 (pget (st_get w) DataKey.NextProposalId).
Definition next_param_id (w : W) : u64 := default 1 (pget (st_get w) DataKey.NextParamProposalId).

Definition authority_unchanged (w w' : W) : Prop :=
  pget (st_get w') DataKey.Admin = pget (st_get w) DataKey.Admin /\
  iget (st_get w') DataKey.Paused = iget (st_get w) DataKey.Paused /\
  forall a, pget (st_get w') (DataKey.Role a) = pget (st_get w) (DataKey.Role a).

(** ** How one call moves each part of the state *)

Lemma proposal_evolves c cx w w' id :
  exec c cx w = Ret tt w' ->
  let old := pget (st_get w) (DataKey.Proposal id) in
  let new := pget (st_get w') (DataKey.Proposal id) in
  (new = old)
  \/ (exists a action, c = CProposeAction a action /\ id = next_proposal_id w /\
        new = Some (mkProposal id action a [a] false (cx_now cx)
                      (cx_now cx + PROPOSAL_TTL_LEDGERS)))
  \/ (exists a p, c = CApproveAction a id /\ old = Some p /\ pr_executed p = false /\
        ~ a ∈ pr_approvals p /\ new = Some (with_approvals (pr_approvals p ++ [a]) p))
  \/ (exists e p, c = CExecuteAction e id /\ old = Some p /\ pr_executed p = false /\
        new = Some (with_executed true p)).
Proof.
  intros H. cbv zeta. destruct c; run_call H; try (left; done); guards; subst.
  { fold (next_proposal_id w) in *. destruct (decide (next_proposal_id w = id)) as [<-|Hne].
    - right; left. store_simpl. eauto 8.
    - left. by store_simpl. }
  { destruct (decide (proposal_id = id)) as [<-|Hne]; [|left; by store_simpl].
    right; right; left. store_simpl. eauto 10. }
  all: destruct (decide (proposal_id = id)) as [<-|Hne]; [|left; by store_simpl].
  all: right; right; right; store_simpl; eauto 10.
Qed.

Lemma next_proposal_id_evolves c cx w w' :
  exec c cx w = Ret tt w' ->
  next_proposal_id w' =
    match c with CProposeAction _ _ => next_proposal_id w + 1 | _ => next_proposal_id w end.
Proof.
  unfold next_proposal_id. intros H. destruct c; run_call H; guards; subst; try done.
  by destruct (pget (st_get w) DataKey.NextProposalId).
Qed.

Lemma param_proposal_evolves c cx w w' id :
  exec c cx w = Ret tt w' ->
  let old := pget (st_get w) (DataKey.ParameterProposal id) in
  let new := pget (st_get w') (DataKey.ParameterProposal id) in
  (new = old)
  \/ (exists a key v, c = CProposeParameter a key v /\ id = next_param_id w /\
        valid_parameter key v = true /\
        new = Some (mkParameterProposal id key v a [a] (cx_now cx) false))
  \/ (exists a p, c = CVoteParameter a id /\ old = Some p /\ pp_executed p = false /\
        ~ a ∈ pp_approvals p /\ new = Some (with_pp_approvals (pp_approvals p ++ [a]) p))
  \/ (exists e p, c = CExecuteParameter e id /\ old = Some p /\ pp_executed p = false /\
        new = Some (with_pp_executed true p)).
Proof.
  intros H. cbv zeta. destruct c; run_call H; try (left; done); guards; subst.
  { fold (next_param_id w) in *. destruct (decide (next_param_id w = id)) as [<-|Hne].
    - right; left. store_simpl. eauto 9.
    - left. by store_simpl. }
  { destruct (decide (proposal_id = id)) as [<-|Hne]; [|left; by store_simpl].
    right; right; left. store_simpl. eauto 10. }
  destruct (decide (proposal_id = id)) as [<-|Hne]; [|left; by store_simpl].
  right; right; right; store_simpl; eauto 10.
Qed.

Lemma next_param_id_evolves c cx w w' :
  exec c cx w = Ret tt w' ->
  next_param_id w' =
    match c with CProposeParameter _ _ _ => next_param_id w + 1 | _ => next_param_id w end.
Proof.
  unfold next_param_id. intros H. destruct c; run_call H; guards; subst; done.
Qed.

(** A governed parameter changes only when a proposal for it is executed. *)
Lemma parameter_evolves c cx w w' key :
  exec c cx w = Ret tt w' ->
  pget (st_get w') (DataKey.Param key) = pget (st_get w) (DataKey.Param key) \/
  exists e id p cfg,
    c = CExecuteParameter e id /\
    pget (st_get w) (DataKey.ParameterProposal id) = Some p /\
    pget (st_get w) DataKey.MultisigConfig = Some cfg /\
    pp_executed p = false /\ pp_key p = key /\
    ms_threshold cfg <= len (pp_approvals p) /\
    pp_created_at p + GOVERNANCE_TIMELOCK_DELAY <= cx_now cx /\
    pget (st_get w') (DataKey.Param key) = Some (pp_new_value p).
Proof.
  intros H. destruct c; run_call H; try (left; done); guards; subst.
  destruct (decide (pp_key x2 = key)) as [<-|Hne]; [|left; by store_simpl].
  right. exists caller, proposal_id, x2, x0. store_simpl. split_and!; try done; lia.
Qed.

(** ** Invariant of the reachable states *)

Record wf (w : W) : Prop := {
  wf_next : 1 <= next_proposal_id w;
  wf_proposal : forall id p, pget (st_get w) (DataKey.Proposal id) = Some p ->
    1 <= id < next_proposal_id w /\ pr_id p = id /\ NoDup (pr_approvals p) /\
    pr_proposer p ∈ pr_approvals p /\
    pr_expires_at p = pr_created_at p + PROPOSAL_TTL_LEDGERS;
  wf_next_param : 1 <= next_param_id w;
  wf_param_proposal : forall id p, pget (st_get w) (DataKey.ParameterProposal id) = Some p ->
    1 <= id < next_param_id w /\ pp_id p = id /\ NoDup (pp_approvals p) /\
    pp_proposer p ∈ pp_approvals p /\ valid_parameter (pp_key p) (pp_new_value p) = true;
  wf_param : forall key v, pget (st_get w) (DataKey.Param key) = Some v ->
    valid_parameter key v = true }.

Lemma NoDup_snoc {A} (l : list A) a : NoDup l -> ~ a ∈ l -> NoDup (l ++ [a]).
Proof.
  intros Hl Ha. apply NoDup_app. split_and!; [done| |apply NoDup_singleton].
  intros b Hb ->%list_elem_of_singleton. done.
Qed.

Lemma ac_wf_step c cx w w' : wf w -> exec c cx w = Ret tt w' -> wf w'.
Proof.
  intros [Hn Hp Hnp Hpp Hv] H.
  pose proof (next_proposal_id_evolves _ _ _ _ H) as En.
  pose proof (next_param_id_evolves _ _ _ _ H) as Enp.
  split.
  - rewrite En. destruct c; lia.
  - intros id p E. destruct (proposal_evolves _ _ _ _ id H)
      as [Eq|[(a & act & -> & -> & Eq)|[(a & q & -> & Eo & Ex & Ha & Eq)|(e & q & -> & Eo & Ex & Eq)]]];
      rewrite Eq in E.
    + destruct (Hp _ _ E) as [? ?]. split; [|done]. rewrite En. destruct c; lia.
    + simplify_eq. rewrite En. split; [lia|]. cbn. split_and!; try done.
      * apply NoDup_singleton.
      * by left.
    + simplify_eq. destruct (Hp _ _ Eo) as (? & ? & ? & ? & ?). rewrite En. cbn.
      split_and!; try done; try lia; [by apply NoDup_snoc|apply elem_of_app; by left].
    + simplify_eq. destruct (Hp _ _ Eo) as (? & ? & ? & ? & ?). rewrite En. split_and!; try done; lia.
  - rewrite Enp. destruct c; lia.
  - intros id p E. destruct (param_proposal_evolves _ _ _ _ id H)
      as [Eq|[(a & k & v & -> & -> & Hval & Eq)|[(a & q & -> & Eo & Ex & Ha & Eq)|(e & q & -> & Eo & Ex & Eq)]]];
      rewrite Eq in E.
    + destruct (Hpp _ _ E) as [? ?]. split; [|done]. rewrite Enp. destruct c; lia.
    + simplify_eq. rewrite Enp. split; [lia|]. cbn. split_and!; try done.
      * apply NoDup_singleton.
      * by left.
    + simplify_eq. destruct (Hpp _ _ Eo) as (? & ? & ? & ? & ?). rewrite Enp. cbn.
      split_and!; try done; try lia; [by apply NoDup_snoc|apply elem_of_app; by left].
    + simplify_eq. destruct (Hpp _ _ Eo) as (? & ? & ? & ? & ?). rewrite Enp. split_and!; try done; lia.
  - intros key v E. destruct (parameter_evolves _ _ _ _ key H)
      as [Eq|(e & id & p & cfg & -> & Eo & _ & _ & <- & _ & _ & Eq)]; rewrite Eq in E.
    + by apply Hv.
    + simplify_eq. by destruct (Hpp _ _ Eo) as (_ & _ & _ & _ & ?).
Qed.

Lemma ac_wf_empty w : st_get w = empty_storage -> wf w.
Proof.
  unfold next_proposal_id, next_param_id.
  intros E. split; unfold next_proposal_id, next_param_id; rewrite E; done.
Qed.

Lemma wf_same w w' : st_get w' = st_get w -> wf w -> wf w'.
Proof.
  intros E [A1 A2 A3 A4 A5].
  split; unfold next_proposal_id, next_param_id in *; rewrite E; done.
Qed.

Lemma reachable_wf w : reachable w -> wf w.
Proof.
  induction 1 as [w Hw|w cx c Hw IH|w w' Hw IH Hs].
  - by apply ac_wf_empty.
  - destruct (run_tx_cases (exec c) cx w) as [->|([] & w' & E & ->)]; [done|].
    by eapply ac_wf_step.
  - by eapply wf_same.
Qed.

(** ** Properties *)

(** C16: No successful call of any entry point, by anyone, changes the admin, a
    role or the pause flag unless the contract is not initialised yet, the
    stored admin authorized the call, or a current signer executes an unexpired,
    not yet executed multisig proposal that has reached its threshold. *)
Theorem authority_changes_are_authorized c cx w w' :
  exec c cx w = Ret tt w' ->
  authority_unchanged w w' \/ pget (st_get w) DataKey.Admin = None \/
  admin_call cx w \/ quorum_call c cx w.
Proof.
  intros H. destruct c; run_call H; guards; subst;
    try (left; split_and!; intros; store_simpl; done).
  all: unfold authority_unchanged, admin_call, quorum_call.
  all: first
    [ right; right; left; by eauto
    | right; left; by destruct (pget _ DataKey.Admin)
    | right; right; right; do 4 eexists; split_and!; done || lia ].
Qed.

(** In every reachable state each stored proposal sits under its own id, below
    the next id to be handed out, with pairwise distinct approvals that include
    its proposer's, and expires exactly 120960 seconds after its creation. *)
Theorem proposals_are_well_formed w id p :
  reachable w -> pget (st_get w) (DataKey.Proposal id) = Some p ->
  pr_id p = id /\ 1 <= id < next_proposal_id w /\ NoDup (pr_approvals p) /\
  pr_proposer p ∈ pr_approvals p /\ pr_expires_at p = pr_created_at p + 120960.
Proof.
  intros Hr Hp. destruct (wf_proposal _ (reachable_wf _ Hr) _ _ Hp) as (? & ? & ? & ? & ?).
  split_and!; done || lia.
Qed.

(** Transactions on the contract, and anything that does not write its storage. *)
Inductive step : W -> W -> Prop :=
  | step_call w cx c : step w (run_tx (exec c) cx w)
  | step_other w w' : st_get w' = st_get w -> step w w'.

Lemma executed_stays w w' id p :
  step w w' -> pget (st_get w) (DataKey.Proposal id) = Some p -> pr_executed p = true ->
  pget (st_get w') (DataKey.Proposal id) = Some p \/ id = next_proposal_id w.
Proof.
  intros Hs Hp He. destruct Hs as [w cx c|w w' Hs]; [|left; by rewrite Hs].
  destruct (run_tx_cases (exec c) cx w) as [->|([] & w' & E & ->)]; [by left|].
  destruct (proposal_evolves _ _ _ _ id E)
    as [Eq|[(a & act & -> & -> & Eq)|[(a & q & -> & Eo & Ex & Ha & Eq)|(e & q & -> & Eo & Ex & Eq)]]].
  - left. by rewrite Eq.
  - by right.
  - rewrite Hp in Eo; injection Eo as ->; congruence.
  - rewrite Hp in Eo; injection Eo as ->; congruence.
Qed.

Lemma execute_action_ret e id cx w w' :
  execute_action e id cx w = Ret tt w' ->
  exists p, pget (st_get w) (DataKey.Proposal id) = Some p /\ pr_executed p = false /\
    pget (st_get w') (DataKey.Proposal id) = Some (with_executed true p).
Proof.
  intros H. change (exec (CExecuteAction e id) cx w = Ret tt w') in H.
  pose proof H as H'. run_call H'; eexists; split_and!; done.
Qed.

Lemma ac_step_reachable w w' : reachable w -> step w w' -> reachable w'.
Proof. intros Hr Hs. revert Hr. destruct Hs as [w1 cx c|w1 w2 E]; intros Hr; [by apply reach_call|by eapply reach_other]. Qed.

Lemma executed_stays_rtc w w' id p :
  rtc step w w' -> reachable w ->
  pget (st_get w) (DataKey.Proposal id) = Some p -> pr_executed p = true ->
  pget (st_get w') (DataKey.Proposal id) = Some p.
Proof.
  induction 1 as [w|w w1 w2 Hs _ IH]; [done|]. intros Hr Hp He.
  apply IH; [by eapply ac_step_reachable| |done].
  destruct (executed_stays _ _ _ _ Hs Hp He) as [?| ->]; [done|].
  destruct (wf_proposal _ (reachable_wf _ Hr) _ _ Hp) as [? _]. lia.
Qed.

(** C29: A multisig proposal is executed at most once: after a successful
    [execute_action] on it, whatever transactions follow, every later
    [execute_action] on it, by any executor in any context, does not succeed. *)
Theorem proposal_executed_at_most_once e id cx w w1 w2 e' cx' w3 :
  reachable w -> execute_action e id cx w = Ret tt w1 -> rtc step w1 w2 ->
  execute_action e' id cx' w2 <> Ret tt w3.
Proof.
  intros Hr H Hs H'.
  destruct (execute_action_ret _ _ _ _ _ H) as (p & _ & _ & Hp).
  destruct (execute_action_ret _ _ _ _ _ H') as (q & Hq & Hx & _).
  assert (reachable w1) as Hr1.
  { replace w1 with (run_tx (exec (CExecuteAction e id)) cx w); [by apply reach_call|].
    unfold run_tx. cbn [exec]. by rewrite H. }
  rewrite (executed_stays_rtc _ _ _ _ Hs Hr1 Hp eq_refl) in Hq. by simplify_eq.
Qed.

(** C15: A governed parameter (fee, late penalty, maximum risk score) takes a new
    value only through [execute_parameter_change] of an unexecuted proposal for
    that key and value, with at least the threshold of distinct approvals, at
    least 24 hours after the proposal was created, and the value is within the
    key's bounds (10000 bps, or score 100). *)
Theorem parameter_changes_need_quorum_and_timelock c cx w w' key v :
  reachable w -> exec c cx w = Ret tt w' ->
  pget (st_get w') (DataKey.Param key) = Some v ->
  pget (st_get w) (DataKey.Param key) <> Some v ->
  exists e id p cfg,
    c = CExecuteParameter e id /\
    pget (st_get w) (DataKey.ParameterProposal id) = Some p /\
    pget (st_get w) DataKey.MultisigConfig = Some cfg /\
    pp_key p = key /\ pp_new_value p = v /\ pp_executed p = false /\
    NoDup (pp_approvals p) /\ ms_threshold cfg <= len (pp_approvals p) /\
    pp_created_at p + 86400 <= cx_now cx /\
    v <= match key with MaxRiskScore => 100 | _ => 10000 end.
Proof.
  intros Hr H Hv Hne. pose proof (reachable_wf _ Hr) as Hwf.
  destruct (parameter_evolves _ _ _ _ key H)
    as [E|(e & id & p & cfg & Hc & Hp & Hcfg & Hx & Hk & Ht & Hl & E)]; [congruence|].
  rewrite Hv in E. injection E as ->.
  destruct (wf_param_proposal _ Hwf _ _ Hp) as (_ & _ & Hnd & _ & Hval).
  exists e, id, p, cfg. split_and!; try done.
  subst key. unfold valid_parameter in Hval. destruct (pp_key p); lia.
Qed.

(** The contract's code is replaced only by [execute_upgrade], authorized by
    the stored admin, with the hash of the pending proposal, at least 24 hours
    after it was proposed; the pending proposal is consumed. *)
Theorem code_changes_need_timelock c cx w w' :
  exec c cx w = Ret tt w' -> st_wasm (st_get w') <> st_wasm (st_get w) ->
  exists admin hash proposed_at,
    c = CExecuteUpgrade admin /\ pget (st_get w) DataKey.Admin = Some admin /\
    authorized cx admin = true /\
    iget (st_get w) DataKey.UpgradeProposal = Some (hash, proposed_at) /\
    proposed_at + 86400 <= cx_now cx /\
    st_wasm (st_get w') = Some hash /\ iget (st_get w') DataKey.UpgradeProposal = None.
Proof.
  intros H Hw. destruct c; run_call H; try (by exfalso; apply Hw; store_simpl).
  guards; subst. unfold UPGRADE_TIMELOCK_DELAY in *. do 3 eexists. split_and!; try done; lia.
Qed.

End Properties.
