(* ===== verification/PriceOracle.v ===== *)
(** * PriceOracle: admin-fed prices and currency conversion
    (src/contracts/price_oracle/src/lib.rs)

    State: the admin and one [PriceData] per ordered currency pair. [convert]
    refuses stale or missing prices and results that are not positive. *)

From S2P Require Import Prelude Errors Types Host Events Reentrancy Validation Interfaces.

Definition MAX_STALENESS_SECS : u64 := 3600.

Record PriceData := mkPriceData {
  price : i128;
  timestamp : u64 }.

Module DataKey.
Inductive t :=
  | Admin
  | Price (base quote : Symbol).

#[global] Instance t_eq_dec : EqDecision t.
Proof. solve_decision. Defined.

Definition val (k : t) : Type :=
  match k with
  | Admin => Address
  | Price _ _ => PriceData
  end.
End DataKey.

#[export] Instance DataKey_storage : StorageKey DataKey.t := {| sk_val := DataKey.val |}.

Section PriceOracle.
Context {W : Type} `{!HasStorage W DataKey.t}.

Definition require_admin (caller : Address) : M W unit :=
  admin ← instance_get_or DataKey.Admin NotInitialized;
  fail_if (negb (admin =? caller)%N) NotAdmin.

Definition initialize (admin : Address) : M W unit :=
  has ← instance_has DataKey.Admin;
  fail_if has AlreadyInitialized;;
  instance_set DataKey.Admin admin.

Definition set_price (admin : Address) (base quote : Symbol) (price : i128) : M W unit :=
  require_auth admin;;
  require_admin admin;;
  fail_if (price <=? 0) InvalidAmount;;
  now ← env_now;
  persistent_set (DataKey.Price base quote) (mkPriceData price now).

Definition get_price (base quote : Symbol) : M W PriceData :=
  data ← persistent_get_or (DataKey.Price base quote) InvalidAmount;
  now ← env_now;
  let age := u64_saturating_sub now (timestamp data) in
  fail_if (age >? MAX_STALENESS_SECS) InvoiceExpired;;
  mret data.

(** The conversion once a price is known. *)
Definition convert_at (price amount : i128) : M W i128 :=
  converted ← lift (ok_or (v ← checked_mul amount price; checked_div v 10000000)
                      ArithmeticOverflow);
  fail_if (converted <=? 0) InvalidAmount;;
  mret converted.

Definition convert (amount : i128) (from to : Symbol) : M W i128 :=
  if bool_decide (from = to) then mret amount
  else
    price_data ← get_price from to;
    convert_at (price price_data) amount.
End PriceOracle.

Inductive Call :=
  | CInitialize (admin : Address)
  | CSetPrice (admin : Address) (base quote : Symbol) (price : i128).

Section Exec.
Context {W : Type} `{!HasStorage W DataKey.t}.

Definition exec (c : Call) : M W unit :=
  match c with
  | CInitialize a => initialize a
  | CSetPrice a b q p => set_price a b q p
  end.

Inductive reachable : W -> Prop :=
  | reach_deploy w : st_get w = empty_storage -> reachable w
  | reach_call w cx c : reachable w -> reachable (run_tx (exec c) cx w)
  | reach_other w w' : reachable w -> st_get w' = st_get w -> reachable w'.
End Exec.

Create HintDb price_oracle.
#[export] Hint Unfold exec initialize set_price get_price convert_at require_admin : price_oracle.

Ltac run_call H :=
  cbn [exec] in H; autounfold with price_oracle in H; minv H; store_facts; store_simpl.

Section Properties.
Context {W : Type} `{!HasEvents W} `{!HasStorage W DataKey.t} `{!StorageLaws W DataKey.t}.
Implicit Types (cx : Ctx) (w : W).

Lemma price_evolves c cx w w' b q :
  exec c cx w = Ret tt w' ->
  pget (st_get w') (DataKey.Price b q) = pget (st_get w) (DataKey.Price b q) \/
  exists a p, c = CSetPrice a b q p /\ iget (st_get w) DataKey.Admin = Some a /\
    authorized cx a = true /\ 0 < p /\
    pget (st_get w') (DataKey.Price b q) = Some (mkPriceData p (cx_now cx)).
Proof.
  intros H. destruct c; run_call H; [by left|]. guards. subst.
  destruct (decide (DataKey.Price base quote = DataKey.Price b q)) as [[= -> ->]|Hne].
  - right. do 2 eexists. store_simpl. split_and!; try done. lia.
  - left. by store_simpl.
Qed.

Lemma reachable_positive w b q d :
  reachable w -> pget (st_get w) (DataKey.Price b q) = Some d -> 0 < price d.
Proof.
  intros Hr. revert b q d. induction Hr as [w Hw|w cx c Hw IH|w w' Hw IH E]; intros b q d.
  - by rewrite Hw.
  - destruct (run_tx_cases (exec c) cx w) as [->|([] & w' & E & ->)]; [by apply IH|].
    destruct (price_evolves _ _ _ _ b q E) as [->|(a & p & _ & _ & _ & Hp & ->)]; [by apply IH|].
    by intros [= <-].
  - rewrite E. apply IH.
Qed.

(** What a conversion at a stored price gives: the truncated quotient, or the
    error of the first check that fails. *)
Definition convert_spec (now : u64) (stored : option PriceData) (amount : i128) : Result i128 :=
  match stored with
  | None => Err InvalidAmount
  | Some d =>
      if timestamp d + 3600 <? now then Err InvoiceExpired
      else if negb (in_i128 (amount * price d)) then Err ArithmeticOverflow
      else if Z.quot (amount * price d) 10000000 <=? 0 then Err InvalidAmount
      else Ok (Z.quot (amount * price d) 10000000)
  end.

Lemma quot_in_i128 z : in_i128 z = true -> i128_min <= Z.quot z 10000000 <= i128_max.
Proof.
  unfold in_i128, i128_min, i128_max. intros H.
  pose proof (Z.quot_rem' z 10000000). pose proof (Z.rem_bound_abs z 10000000 ltac:(lia)).
  destruct (Z.le_gt_cases 0 z).
  - pose proof (Z.quot_pos z 10000000). nia.
  - pose proof (Z.rem_nonpos z 10000000 ltac:(lia)).
    pose proof (Z.quot_le_mono z 0 10000000). rewrite Z.quot_0_l in * by lia. nia.
Qed.

Lemma get_price_run b q cx w :
  0 <= cx_now cx <= u64_max ->
  (forall d, pget (st_get w) (DataKey.Price b q) = Some d -> 0 <= timestamp d) ->
  get_price b q cx w =
    match pget (st_get w) (DataKey.Price b q) with
    | None => Fail InvalidAmount w
    | Some d => if timestamp d + 3600 <? cx_now cx then Fail InvoiceExpired w else Ret d w
    end.
Proof.
  intros Hn Ht. unfold get_price, persistent_get_or, mbind, M_bind.
  destruct (pget _ _) as [d|] eqn:Ed; [|done]. specialize (Ht d eq_refl). cbn.
  assert ((u64_saturating_sub (cx_now cx) (timestamp d) >? MAX_STALENESS_SECS) =
          (timestamp d + 3600 <? cx_now cx)) as ->.
  { unfold MAX_STALENESS_SECS, u64_saturating_sub, clamp, u64_max in *. lia. }
  unfold fail_if. by destruct (_ <? _).
Qed.

Lemma convert_at_run cx w d amount :
  (timestamp d + 3600 <? cx_now cx) = false ->
  convert_at (price d) amount cx w = lift (convert_spec (cx_now cx) (Some d) amount) cx w.
Proof.
  intros E. unfold convert_spec, convert_at. rewrite E.
  unfold checked_mul, fit_i128. destruct (in_i128 (amount * price d)) eqn:Ei; [|done].
  cbn. unfold checked_div. cbn. rewrite fit_i128_in by by apply quot_in_i128. cbn.
  unfold mbind, M_bind, lift, fail_if. by destruct (_ <=? 0).
Qed.

(** C30: [convert] is total and has exactly one outcome per input: equal
    currencies give the amount back, otherwise a missing price, a price older
    than 3600 s, a product out of 128 bits and a result that is not positive are
    each refused with their error, and the result is the amount times the price
    stored for the pair, divided by ten million and truncated. The state never
    changes. (So the code takes a price as units of the second currency per unit of
    the first; the comment on [set_price] and docs/CONTRACTS.md say the inverse, units
    of the first per unit of the second, by which a conversion would divide.) *)
Theorem convert_correct amount from to cx w :
  0 <= cx_now cx <= u64_max ->
  (forall d, pget (st_get w) (DataKey.Price from to) = Some d -> 0 <= timestamp d) ->
  convert amount from to cx w =
    if decide (from = to) then Ret amount w
    else lift (convert_spec (cx_now cx) (pget (st_get w) (DataKey.Price from to)) amount) cx w.
Proof.
  intros Hn Ht. unfold convert. case_bool_decide; destruct (decide (from = to)); try done.
  unfold mbind, M_bind. rewrite get_price_run by done.
  destruct (pget _ _) as [d|] eqn:Ed; [|done].
  destruct (timestamp d + 3600 <? cx_now cx) eqn:E; [|by apply convert_at_run].
  unfold convert_spec. by rewrite E.
Qed.

(** Prices are positive in every reachable state, so a conversion between
    different currencies that succeeds on a non-negative amount used a stored
    positive price that was set at most 3600 s ago, and returns a positive
    amount, the floor of [amount * price / 10^7]. *)
Theorem convert_uses_fresh_positive_price amount from to cx w r w' :
  reachable w -> 0 <= cx_now cx <= u64_max -> from <> to -> 0 <= amount ->
  convert amount from to cx w = Ret r w' ->
  exists d, pget (st_get w) (DataKey.Price from to) = Some d /\ 0 < price d /\
    cx_now cx <= timestamp d + 3600 /\ 0 < r /\ r = amount * price d / 10000000.
Proof.
  intros Hr Hn Hne Ha H. unfold convert in H. case_bool_decide; [done|].
  run_call H. guards. subst. 
  match goal with H : pget _ _ = Some _ |- _ =>
    pose proof (reachable_positive _ _ _ _ Hr H) as Hp end.
  match goal with H : mbind _ _ = Some _ |- _ => apply bind_Some in H as (v & Hv & Hd) end.
  guards. subst. apply checked_div_Some in Hd; [|done].
  rewrite Z.quot_div_nonneg in Hd by nia. subst.
  eexists. split_and!; [done|done| | lia|done].
  unfold u64_saturating_sub, MAX_STALENESS_SECS, clamp, u64_max in *. lia.
Qed.

(** Only the stored admin, authorizing the call, changes a price, to a
    positive value stamped with the current ledger time. *)
Theorem price_changes_are_authorized c cx w w' b q :
  exec c cx w = Ret tt w' ->
  pget (st_get w') (DataKey.Price b q) = pget (st_get w) (DataKey.Price b q) \/
  exists a p, c = CSetPrice a b q p /\ iget (st_get w) DataKey.Admin = Some a /\
    authorized cx a = true /\ 0 < p /\
    pget (st_get w') (DataKey.Price b q) = Some (mkPriceData p (cx_now cx)).
Proof. apply price_evolves. Qed.
End Properties.
