(* ===== verification/RiskRegistry.v ===== *)
(** * RiskRegistry: verifiers, their stakes, SME profiles and debtor scores
    (src/contracts/risk_registry/src/lib.rs)

    State: [DataKey]. Operations: one definition per entry point; [exec] is the
    contract as a step function on its [Call]s. Stakes are tokens of the staking
    token, a parameter ([TokenClient]). *)

From S2P Require Import Prelude Errors Types Host Events Reentrancy Validation Interfaces AuditLog.

Definition MIN_SCORE_UPDATE_INTERVAL : u64 := 3600.

Module DataKey.
Inductive t :=
  | Admin
  | InvoiceNft
  | StakingToken
  | MinimumStake
  | SlashPercentage
  | Verifier (a : Address)
  | VerifierStake (a : Address)
  | VerifierReputation (a : Address)
  | SmeProfile (a : Address)
  | DebtorScore (h : Bytes)
  | DebtorScoreLastUpdate (a : Address) (h : Bytes)
  | UpgradeProposal
  | AuditLogHead
  | AuditLogTotal
  | AuditEntry (n : u64).

#[global] Instance t_eq_dec : EqDecision t.
Proof. solve_decision. Defined.

Definition val (k : t) : Type :=
  match k with
  | Admin | InvoiceNft | StakingToken => Address
  | MinimumStake => i128
  | SlashPercentage => u32
  | Verifier _ => bool
  | VerifierStake _ => i128
  | VerifierReputation _ => u32
  | SmeProfile _ => Types.SmeProfile
  | DebtorScore _ => u32
  | DebtorScoreLastUpdate _ _ => u64
  | UpgradeProposal => (BytesN32 * u64)%type
  | AuditLogHead | AuditLogTotal => u64
  | AuditEntry _ => AdminAuditEntry
  end.
End DataKey.

#[export] Instance DataKey_storage : StorageKey DataKey.t := {| sk_val := DataKey.val |}.

Definition PERSISTENT_TTL_THRESHOLD : u32 := 518400.
Definition PERSISTENT_TTL_BUMP : u32 := 518400.

#[export] Instance audit_store : AuditStore DataKey.t := {|
  al_head s := iget s DataKey.AuditLogHead;
  al_total s := iget s DataKey.AuditLogTotal;
  al_entry s n := pget s (DataKey.AuditEntry n);
  al_set_head n := iset DataKey.AuditLogHead n;
  al_set_total n := iset DataKey.AuditLogTotal n;
  al_set_entry n e := pset (DataKey.AuditEntry n) e;
  al_key n := DataKey.AuditEntry n;
  al_ttl_threshold := PERSISTENT_TTL_THRESHOLD;
  al_ttl_bump := PERSISTENT_TTL_BUMP |}.

#[export] Instance audit_laws : AuditLaws DataKey.t.
Proof.
  split; intros; simpl; try by store_simpl.
  - destruct (Z.eqb_spec i j) as [->|]; by store_simpl.
  - eexists. by store_simpl.
Qed.

Section RiskRegistry.
Context {W : Type} `{!HasEvents W} `{!HasStorage W DataKey.t} `{!TokenClient W}.

(** ** Helpers *)

(** Extends the life of an entry. *)
Definition bump_persistent (key : DataKey.t) : M W unit := extend_ttl key PERSISTENT_TTL_THRESHOLD PERSISTENT_TTL_BUMP.

Definition append_audit_entry (actor : Address) (action : AdminActionType) : M W unit :=
  AuditLog.append_audit_entry (K:=DataKey.t) SrcRiskRegistry actor action.

Definition get_audit_log (page page_size : u32) : M W (list AdminAuditEntry) :=
  AuditLog.get_audit_log (K:=DataKey.t) page page_size.

Definition require_admin (caller : Address) : M W unit :=
  admin ← persistent_get_or DataKey.Admin NotInitialized;
  fail_if (negb (admin =? caller)%N) NotAdmin.

Definition require_verifier (caller : Address) : M W unit :=
  ok ← persistent_get_default (DataKey.Verifier caller) false;
  fail_if (negb ok) NotVerifier.

Definition require_invoice_nft (caller : Address) : M W unit :=
  invoice_nft ← persistent_get_or DataKey.InvoiceNft NotInitialized;
  fail_if (negb (invoice_nft =? caller)%N) Unauthorized.

(** ** Admin and verifiers *)

Definition initialize (admin invoice_nft staking_token : Address) (minimum_stake : i128)
    (slash_percentage_bps : u32) : M W unit :=
  has ← persistent_has DataKey.Admin;
  fail_if has AlreadyInitialized;;
  self ← env_self;
  lift (require_not_self self admin);;
  persistent_set DataKey.Admin admin;;
  bump_persistent DataKey.Admin;;
  persistent_set DataKey.InvoiceNft invoice_nft;;
  persistent_set DataKey.StakingToken staking_token;;
  persistent_set DataKey.MinimumStake minimum_stake;;
  persistent_set DataKey.SlashPercentage slash_percentage_bps;;
  events.registry_initialized admin invoice_nft.

Definition transfer_admin (admin new_admin : Address) : M W unit :=
  require_auth admin;;
  require_admin admin;;
  persistent_set DataKey.Admin new_admin;;
  bump_persistent DataKey.Admin;;
  events.admin_transferred admin new_admin;;
  append_audit_entry admin ActRegistryTransferAdmin.

Definition add_verifier (admin verifier : Address) (stake_amount : i128) : M W unit :=
  require_auth admin;;
  require_admin admin;;
  self ← env_self;
  lift (require_not_self self verifier);;
  minimum_stake ← persistent_get_or DataKey.MinimumStake NotInitialized;
  fail_if (stake_amount <? minimum_stake) InsufficientFunds;;
  token_addr ← persistent_get_or DataKey.StakingToken NotInitialized;
  tok_transfer token_addr verifier self stake_amount;;
  persistent_set (DataKey.Verifier verifier) true;;
  persistent_set (DataKey.VerifierStake verifier) stake_amount;;
  persistent_set (DataKey.VerifierReputation verifier) 100;;
  bump_persistent (DataKey.Verifier verifier);;
  bump_persistent (DataKey.VerifierStake verifier);;
  bump_persistent (DataKey.VerifierReputation verifier);;
  events.verifier_added admin verifier;;
  append_audit_entry admin ActAddVerifier.

Definition remove_verifier (admin verifier : Address) : M W unit :=
  require_auth admin;;
  require_admin admin;;
  registered ← persistent_get_default (DataKey.Verifier verifier) false;
  fail_if (negb registered) NotVerifier;;
  stake ← persistent_get_default (DataKey.VerifierStake verifier) 0;
  when (0 <? stake) (
    token_addr ← persistent_get_or DataKey.StakingToken NotInitialized;
    self ← env_self;
    tok_transfer token_addr self verifier stake);;
  persistent_remove (DataKey.Verifier verifier);;
  persistent_remove (DataKey.VerifierStake verifier);;
  persistent_remove (DataKey.VerifierReputation verifier);;
  events.verifier_removed admin verifier;;
  append_audit_entry admin ActRemoveVerifier.

(** ** SME profiles *)

Definition register_sme (verifier sme : Address) (risk_score : u32)
    (compliance_attested : bool) : M W unit :=
  require_auth verifier;;
  require_verifier verifier;;
  lift (require_valid_risk_score risk_score);;
  has ← persistent_has (DataKey.SmeProfile sme);
  fail_if has AlreadyInitialized;;
  now ← env_now;
  persistent_set (DataKey.SmeProfile sme)
    (mkSmeProfile sme true verifier risk_score 0 0 now compliance_attested 0);;
  bump_persistent (DataKey.SmeProfile sme);;
  events.sme_registered verifier sme risk_score.

Definition update_sme_score (verifier sme : Address) (new_score : u32) : M W unit :=
  require_auth verifier;;
  require_verifier verifier;;
  lift (require_valid_risk_score new_score);;
  with_guard DataKey.t (
    profile ← persistent_get_or (DataKey.SmeProfile sme) SMENotRegistered;
    persistent_set (DataKey.SmeProfile sme) (with_risk_score new_score profile);;
    bump_persistent (DataKey.SmeProfile sme);;
    events.sme_score_updated verifier sme new_score).

Definition set_credit_limit (verifier sme : Address) (credit_limit : i128) : M W unit :=
  require_auth verifier;;
  require_verifier verifier;;
  fail_if (credit_limit <? 0) InvalidAmount;;
  profile ← persistent_get_or (DataKey.SmeProfile sme) SMENotRegistered;
  persistent_set (DataKey.SmeProfile sme) (with_credit_limit credit_limit profile);;
  bump_persistent (DataKey.SmeProfile sme);;
  events.sme_credit_limit_set verifier sme credit_limit.

Definition increment_invoice_count (caller sme : Address) : M W unit :=
  require_auth caller;;
  require_invoice_nft caller;;
  profile ← persistent_get_or (DataKey.SmeProfile sme) SMENotRegistered;
  total ← lift (ok_or (fit_u32 (sp_total_invoices profile + 1)) ArithmeticOverflow);
  persistent_set (DataKey.SmeProfile sme) (with_total_invoices total profile);;
  bump_persistent (DataKey.SmeProfile sme);;
  events.sme_invoice_count_incremented sme total.

(** The slash of [record_default]:
    [(current_stake as u128 * slash_percentage as u128 / 10_000) as i128], whose
    product the release profile checks. *)
Definition slash_amount_of (current_stake : i128) (slash_percentage : u32) : option i128 :=
  product ← fit_u128 (as_u128 current_stake * as_u128 slash_percentage);
  mret (as_i128 (product / 10000)).

Definition record_default (admin sme : Address) : M W unit :=
  require_auth admin;;
  require_admin admin;;
  with_guard DataKey.t (
    profile ← persistent_get_or (DataKey.SmeProfile sme) SMENotRegistered;
    defaults ← lift (ok_or (fit_u32 (sp_defaults profile + 1)) ArithmeticOverflow);
    let verifier := sp_verifier profile in
    slash_percentage ← persistent_get_or DataKey.SlashPercentage NotInitialized;
    current_stake ← persistent_get_default (DataKey.VerifierStake verifier) 0;
    when (0 <? current_stake) (
      slash_amount ← or_trap (slash_amount_of current_stake slash_percentage);
      remaining_stake ← lift (ok_or (checked_sub current_stake slash_amount) ArithmeticUnderflow);
      persistent_set (DataKey.VerifierStake verifier) remaining_stake;;
      bump_persistent (DataKey.VerifierStake verifier));;
    current_reputation ← persistent_get_default (DataKey.VerifierReputation verifier) 100;
    let new_reputation := u32_saturating_sub current_reputation 10 in
    persistent_set (DataKey.VerifierReputation verifier) new_reputation;;
    bump_persistent (DataKey.VerifierReputation verifier);;
    persistent_set (DataKey.SmeProfile sme) (with_defaults defaults profile);;
    bump_persistent (DataKey.SmeProfile sme);;
    events.sme_default_recorded admin sme defaults;;
    append_audit_entry admin ActRecordDefault).

(** ** Debtor scores *)

(** The cooldown check of [set_debtor_score]. *)
Definition require_cooldown (last_update : option u64) (now : u64) : Result unit :=
  match last_update with
  | None => Ok tt
  | Some last =>
      next_allowed ← ok_or (fit_u64 (last + MIN_SCORE_UPDATE_INTERVAL)) ArithmeticOverflow;
      reject_if (now <? next_allowed) ScoreUpdateCooldownNotElapsed
  end.

Definition set_debtor_score (verifier : Address) (debtor_hash : Bytes) (score : u32) : M W unit :=
  require_auth verifier;;
  require_verifier verifier;;
  lift (require_exact_length debtor_hash 32);;
  lift (require_valid_risk_score score);;
  last_update ← persistent_get (DataKey.DebtorScoreLastUpdate verifier debtor_hash);
  now ← env_now;
  lift (require_cooldown last_update now);;
  persistent_set (DataKey.DebtorScore debtor_hash) score;;
  bump_persistent (DataKey.DebtorScore debtor_hash);;
  persistent_set (DataKey.DebtorScoreLastUpdate verifier debtor_hash) now;;
  bump_persistent (DataKey.DebtorScoreLastUpdate verifier debtor_hash);;
  events.debtor_score_set verifier debtor_hash score.

(** ** Views *)

Definition get_sme_profile (sme : Address) : M W SmeProfile :=
  profile ← persistent_get_or (DataKey.SmeProfile sme) SMENotRegistered;
  bump_persistent (DataKey.SmeProfile sme);;
  mret profile.

Definition is_verified_sme (sme : Address) : M W bool :=
  profile ← (persistent_get (DataKey.SmeProfile sme) : M W (option SmeProfile));
  mret (from_option sp_verified false profile).

Definition is_compliance_attested (sme : Address) : M W bool :=
  profile ← (persistent_get (DataKey.SmeProfile sme) : M W (option SmeProfile));
  mret (from_option sp_compliance_attested false profile).

Definition get_verifier_stake (verifier : Address) : M W i128 :=
  persistent_get_default (DataKey.VerifierStake verifier) 0.

Definition get_verifier_reputation (verifier : Address) : M W u32 :=
  persistent_get_default (DataKey.VerifierReputation verifier) 0.

Definition is_verifier (verifier : Address) : M W bool :=
  persistent_get_default (DataKey.Verifier verifier) false.

Definition get_debtor_score (debtor_hash : Bytes) : M W u32 :=
  score ← persistent_get_or (DataKey.DebtorScore debtor_hash) DebtorNotRegistered;
  bump_persistent (DataKey.DebtorScore debtor_hash);;
  mret score.

Definition get_admin : M W Address := persistent_get_or DataKey.Admin NotInitialized.

(** ** Upgrade *)

Definition propose_upgrade (admin : Address) (new_wasm_hash : BytesN32) : M W unit :=
  require_auth admin;;
  require_admin admin;;
  now ← env_now;
  instance_set DataKey.UpgradeProposal (new_wasm_hash, now);;
  events.upgrade_proposed admin new_wasm_hash;;
  append_audit_entry admin ActRegistryProposeUpgrade.

Definition execute_upgrade (admin : Address) : M W unit :=
  require_auth admin;;
  require_admin admin;;
  '(wasm_hash, proposed_at) ← instance_get_or DataKey.UpgradeProposal NoUpgradeProposed;
  now ← env_now;
  ready ← or_trap (fit_u64 (proposed_at + UPGRADE_TIMELOCK_DELAY));
  fail_if (now <? ready) UpgradeTimelockNotElapsed;;
  instance_remove DataKey.UpgradeProposal;;
  events.upgrade_executed admin wasm_hash;;
  append_audit_entry admin ActRegistryExecuteUpgrade;;
  update_current_contract_wasm (K:=DataKey.t) wasm_hash.
End RiskRegistry.

(** ** The contract as a step function *)

Inductive Call :=
  | CInitialize (admin invoice_nft staking_token : Address) (minimum_stake : i128)
      (slash_percentage_bps : u32)
  | CTransferAdmin (admin new_admin : Address)
  | CAddVerifier (admin verifier : Address) (stake_amount : i128)
  | CRemoveVerifier (admin verifier : Address)
  | CRegisterSme (verifier sme : Address) (risk_score : u32) (compliance_attested : bool)
  | CUpdateSmeScore (verifier sme : Address) (new_score : u32)
  | CSetCreditLimit (verifier sme : Address) (credit_limit : i128)
  | CIncrementInvoiceCount (caller sme : Address)
  | CRecordDefault (admin sme : Address)
  | CSetDebtorScore (verifier : Address) (debtor_hash : Bytes) (score : u32)
  | CGetSmeProfile (sme : Address)
  | CGetDebtorScore (debtor_hash : Bytes)
  | CProposeUpgrade (admin : Address) (new_wasm_hash : BytesN32)
  | CExecuteUpgrade (admin : Address).

Section Exec.
Context {W : Type} `{!HasEvents W} `{!HasStorage W DataKey.t} `{!TokenClient W}
  `{!TokenLedger W}.

Definition exec (c : Call) : M W unit :=
  match c with
  | CInitialize a n t m s => initialize a n t m s
  | CTransferAdmin a n => transfer_admin a n
  | CAddVerifier a v s => add_verifier a v s
  | CRemoveVerifier a v => remove_verifier a v
  | CRegisterSme v s r c => register_sme v s r c
  | CUpdateSmeScore v s n => update_sme_score v s n
  | CSetCreditLimit v s l => set_credit_limit v s l
  | CIncrementInvoiceCount c s => increment_invoice_count c s
  | CRecordDefault a s => record_default a s
  | CSetDebtorScore v h s => set_debtor_score v h s
  | CGetSmeProfile s => get_sme_profile s;; mret tt
  | CGetDebtorScore h => get_debtor_score h;; mret tt
  | CProposeUpgrade a h => propose_upgrade a h
  | CExecuteUpgrade a => execute_upgrade a
  end.

(** One step of the ledger, for the contract at address [self]: a call of the
    contract, or anything else, which cannot write its storage nor spend its
    tokens (no one but the contract can authorize that). *)
Inductive step (self : Address) : W -> W -> Prop :=
  | step_call w cx c : cx_self cx = self -> step self w (run_tx (exec c) cx w)
  | step_other w w' : st_get w' = st_get w ->
      (forall t, tok_bal w t self <= tok_bal w' t self) -> step self w w'.

(** The ledger at deployment: empty storage, no negative balance. *)
Definition deployed (self : Address) (w : W) : Prop :=
  st_get w = empty_storage /\ forall t, 0 <= tok_bal w t self.

Definition reachable (self : Address) (w : W) : Prop :=
  exists w0, deployed self w0 /\ rtc (step self) w0 w.
End Exec.

Create HintDb risk_registry.
#[export] Hint Unfold exec bump_persistent initialize transfer_admin add_verifier remove_verifier register_sme
  update_sme_score set_credit_limit increment_invoice_count record_default set_debtor_score
  get_sme_profile get_debtor_score
  propose_upgrade execute_upgrade require_admin require_verifier require_invoice_nft
  : risk_registry.

Section Steps.
Context {W : Type} `{!HasEvents W} `{!HasStorage W DataKey.t} `{!StorageLaws W DataKey.t}
  `{!TokenClient W} `{!TokenLedger W} `{!TokenLaws W} `{!TokenFrame W DataKey.t}.

Lemma rr_append_store actor action cx (w : W) u w' :
  append_audit_entry actor action cx w = Ret u w' ->
  (exists (i : u64) (e : AdminAuditEntry) (h t : u64), st_get w' =
    iset DataKey.AuditLogTotal t (iset DataKey.AuditLogHead h
      (pset (DataKey.AuditEntry i) e (st_get w)))) /\
  forall t x, tok_bal w' t x = tok_bal w t x.
Proof.
  intros H. split.
  - unfold append_audit_entry in H.
    apply (append_audit_entry_store (K:=DataKey.t) (HA:=audit_store) SrcRiskRegistry) in H as (i & e & h & t & E). by exists i, e, h, t.
  - revert H. unfold append_audit_entry. apply (append_audit_entry_keeps (K:=DataKey.t)
      (fun a b => forall t x, tok_bal b t x = tok_bal a t x)).
    + intros w1 w2 w3 H1 H2 t x. by rewrite H2.
    + intros. by apply tok_bal_put.
    + intros. by apply tok_bal_emit.
    + intros. by apply (tok_bal_keep (K:=DataKey.t)).
Qed.
End Steps.

Ltac learn_append :=
  repeat match goal with
  | H : append_audit_entry _ _ _ _ = Ret _ _ |- _ =>
      let i := fresh "i" in let e := fresh "e" in let h := fresh "h" in let t := fresh "t" in
      let F := fresh "Happ" in let B := fresh "Hbal" in
      apply rr_append_store in H as [(i & e & h & t & F) B]
  end.

(** Runs a call backwards: the guards it passed and the storage it left. *)
Ltac run_call H :=
  cbn [exec] in H; autounfold with risk_registry in H; minv H; learn_append;
  learn_frames DataKey.t; store_facts; store_simpl.

Section Stakes.
Implicit Types (stake : Address -> Z).

(** Whatever set of verifiers is taken, their stakes are covered by [bal]. *)
Definition backed stake (bal : Z) : Prop := forall vs, NoDup vs -> sum_of stake vs <= bal.

Lemma sum_of_Permutation {A} (f : A -> Z) l k : l ≡ₚ k -> sum_of f l = sum_of f k.
Proof. induction 1; simpl in *; lia. Qed.

(** One stake may move as long as the balance follows it. *)
Lemma backed_update stake stake' v bal bal' :
  backed stake bal -> (forall u, u <> v -> stake' u = stake u) ->
  Z.max 0 (stake' v) - Z.max 0 (stake v) <= bal' - bal -> backed stake' bal'.
Proof.
  intros Hb Hne Hle vs Hvs.
  assert (Hrest : forall k, NoDup k -> ~ v ∈ k -> sum_of stake' k <= bal - Z.max 0 (stake v)).
  { intros k Hk Hv. rewrite (sum_of_ext stake' stake) by (intros u Hu; apply Hne; by intros ->).
    pose proof (Hb k Hk). pose proof (Hb (v :: k) ltac:(by constructor)) as Hc.
    simpl in Hc. lia. }
  destruct (decide (v ∈ vs)) as [Hin|Hin].
  - apply elem_of_Permutation in Hin as [k Hk]. rewrite (sum_of_Permutation _ _ _ Hk).
    rewrite Hk in Hvs. apply NoDup_cons in Hvs as [Hv Hvs].
    pose proof (Hrest k Hvs Hv). simpl. lia.
  - pose proof (Hrest vs Hvs Hin). lia.
Qed.

Lemma backed_nil stake bal : (forall v, stake v <= 0) -> 0 <= bal -> backed stake bal.
Proof.
  intros Hz Hb vs _. induction vs as [|v vs IH]; simpl; [lia|]. specialize (Hz v). lia.
Qed.

Lemma backed_ext stake stake' bal :
  (forall v, stake' v = stake v) -> backed stake bal -> backed stake' bal.
Proof. intros He Hb vs Hvs. rewrite (sum_of_ext _ stake) by auto. by apply Hb. Qed.
End Stakes.

(** The slash: the exact fraction of the stake, rounded down, never negative. *)
Lemma slash_amount_nonneg stake pct s :
  slash_amount_of stake pct = Some s -> 0 <= s.
Proof.
  unfold slash_amount_of. intros H. apply bind_Some in H as (p & Hp & [= <-]).
  apply fit_u128_Some in Hp as [-> Hr]. set (p := as_u128 stake * as_u128 pct) in *.
  unfold as_i128. pose proof (Z.div_pos p 10000 ltac:(lia) ltac:(lia)).
  pose proof (Z.div_le_upper_bound p 10000 (2 ^ 127 - 1) ltac:(lia)
    ltac:(unfold u128_max in *; lia)).
  rewrite Z.mod_small by lia. destruct (_ <? _) eqn:E; lia.
Qed.

Lemma slash_amount_value stake pct s :
  0 <= stake <= i128_max -> 0 <= pct <= u32_max ->
  slash_amount_of stake pct = Some s -> s = stake * pct / 10000.
Proof.
  intros Hs Hp. unfold slash_amount_of, as_u128. rewrite !Z.mod_small by
    (unfold i128_max, u32_max in *; lia). intros H.
  apply bind_Some in H as (p & E & [= <-]). apply fit_u128_Some in E as [-> Hr].
  pose proof (Z.div_pos (stake * pct) 10000 ltac:(nia) ltac:(lia)).
  pose proof (Z.div_le_upper_bound (stake * pct) 10000 (2 ^ 127 - 1) ltac:(lia)
    ltac:(unfold u128_max in *; lia)).
  unfold as_i128. rewrite Z.mod_small by lia. destruct (_ <? _) eqn:E; [done|lia].
Qed.

Section Properties.
Context {W : Type} `{!HasEvents W} `{!HasStorage W DataKey.t} `{!StorageLaws W DataKey.t}
  `{!TokenClient W} `{!TokenLedger W} `{!TokenLaws W} `{!TokenFrame W DataKey.t}.
Implicit Types (cx : Ctx) (w : W).

Definition stake_of w (v : Address) : i128 :=
  default 0 (pget (st_get w) (DataKey.VerifierStake v)).
Definition staking_token w : option Address := pget (st_get w) DataKey.StakingToken.

(** The operations that move a stake. *)
Definition moves_stake (c : Call) : bool :=
  match c with CAddVerifier _ _ _ | CRemoveVerifier _ _ | CRecordDefault _ _ => true | _ => false end.

Lemma stakes_kept c cx w w' v :
  exec c cx w = Ret tt w' -> moves_stake c = false -> stake_of w' v = stake_of w v.
Proof. intros H Hc. unfold stake_of. destruct c; try done; run_call H; done. Qed.

Lemma balances_kept c cx w w' t x :
  exec c cx w = Ret tt w' -> moves_stake c = false -> tok_bal w' t x = tok_bal w t x.
Proof. intros H Hc. destruct c; try done; run_call H; by bal_simpl. Qed.

Lemma rr_config_kept c cx w w' :
  exec c cx w = Ret tt w' ->
  (exists a n t m s, c = CInitialize a n t m s /\ pget (st_get w) DataKey.Admin = None /\
     pget (st_get w') DataKey.Admin = Some a /\ staking_token w' = Some t) \/
  (pget (st_get w) DataKey.Admin <> None /\ pget (st_get w') DataKey.Admin <> None /\
   staking_token w' = staking_token w) \/
  (pget (st_get w') DataKey.Admin = pget (st_get w) DataKey.Admin /\
   staking_token w' = staking_token w).
Proof.
  intros H. unfold staking_token. destruct c; run_call H; auto.
  - left. do 5 eexists. split_and!; try done. by destruct (pget _ DataKey.Admin).
  - right; left. split_and!; congruence.
Qed.

Lemma add_verifier_moves a v n cx w w' :
  add_verifier a v n cx w = Ret tt w' ->
  exists t, staking_token w = Some t /\ stake_of w' v = n /\ 0 <= n /\
    (forall u, u <> v -> stake_of w' u = stake_of w u) /\
    v <> cx_self cx /\
    (forall t', tok_bal w' t' (cx_self cx) =
       tok_bal w t' (cx_self cx) + (if (t' =? t)%N then n else 0)).
Proof.
  intros H. change (exec (CAddVerifier a v n) cx w = Ret tt w') in H. unfold stake_of.
  run_call H. learn_transfers. guards.
  eexists. split_and!; [done|by store_simpl|bal_simpl; lia| |done|].
  - intros u Hu. by store_simpl.
  - intros t'. bal_simpl. unfold moved. rewrite N.eqb_refl.
    repeat case_match; rewrite ?N.eqb_eq in *; congruence || lia.
Qed.

Lemma remove_verifier_moves a v cx w w' :
  remove_verifier a v cx w = Ret tt w' ->
  stake_of w' v = 0 /\ (forall u, u <> v -> stake_of w' u = stake_of w u) /\
  (0 < stake_of w v -> staking_token w <> None) /\
  (forall t', 0 <= tok_bal w t' (cx_self cx) -> 0 <= tok_bal w' t' (cx_self cx)) /\
  (forall t', staking_token w = Some t' ->
     tok_bal w t' (cx_self cx) - Z.max 0 (stake_of w v) <= tok_bal w' t' (cx_self cx)).
Proof.
  intros H. change (exec (CRemoveVerifier a v) cx w = Ret tt w') in H.
  unfold stake_of, staking_token.
  run_call H; learn_transfers; guards; subst;
    (split_and!; [by store_simpl|intros u Hu; by store_simpl| | |]).
  - intros ?. lia.
  - intros t' Ht. by bal_simpl.
  - intros t' Ht. bal_simpl. lia.
  - congruence.
  - intros t' Ht. bal_simpl. unfold moved. rewrite N.eqb_refl. repeat case_match; rewrite ?N.eqb_eq in *; subst; lia.
  - intros t' Ht. bal_simpl. unfold moved. rewrite N.eqb_refl. repeat case_match; lia.
Qed.

(** Who asked for a removal, and what it pays back. *)
Lemma remove_verifier_pays a v cx w w' :
  remove_verifier a v cx w = Ret tt w' ->
  pget (st_get w) DataKey.Admin = Some a /\ authorized cx a = true /\
  ((forall t x, tok_bal w' t x = tok_bal w t x) \/
   exists t, staking_token w = Some t /\ 0 < stake_of w v /\ forall t' x, tok_bal w' t' x =
     if (t' =? t)%N then moved (cx_self cx) v x (stake_of w v) (tok_bal w t' x) else tok_bal w t' x).
Proof.
  intros H. change (exec (CRemoveVerifier a v) cx w = Ret tt w') in H.
  unfold stake_of, staking_token. run_call H; learn_transfers; guards; subst; (split_and!; [done|done|]).
  - left. intros. by bal_simpl.
  - right. eexists. split_and!; [done|lia|]. intros. by bal_simpl.
Qed.

(** The whole effect of a recorded default. *)
Lemma record_default_effect a sme cx w w' :
  record_default a sme cx w = Ret tt w' ->
  exists p pct,
    pget (st_get w) DataKey.Admin = Some a /\ authorized cx a = true /\
    pget (st_get w) (DataKey.SmeProfile sme) = Some p /\
    pget (st_get w) DataKey.SlashPercentage = Some pct /\
    pget (st_get w') (DataKey.SmeProfile sme) = Some (with_defaults (sp_defaults p + 1) p) /\
    sp_defaults p + 1 <= u32_max /\
    (forall u, u <> sp_verifier p -> stake_of w' u = stake_of w u) /\
    (stake_of w (sp_verifier p) <= 0 -> stake_of w' (sp_verifier p) = stake_of w (sp_verifier p)) /\
    (0 < stake_of w (sp_verifier p) -> exists slashed,
       slash_amount_of (stake_of w (sp_verifier p)) pct = Some slashed /\
       stake_of w' (sp_verifier p) = stake_of w (sp_verifier p) - slashed) /\
    pget (st_get w') (DataKey.VerifierReputation (sp_verifier p)) =
      Some (u32_saturating_sub
              (default 100 (pget (st_get w) (DataKey.VerifierReputation (sp_verifier p)))) 10) /\
    (forall t x, tok_bal w' t x = tok_bal w t x).
Proof.
  intros H. change (exec (CRecordDefault a sme) cx w = Ret tt w') in H.
  unfold stake_of. run_call H; guards; subst; do 2 eexists;
    (split_and!; [done|done|done|done|by store_simpl|lia|intros u Hu; by store_simpl|..]).
  - intros _. by store_simpl.
  - intros ?. lia.
  - by store_simpl.
  - intros. by bal_simpl.
  - intros ?. lia.
  - intros _. eexists. split; [done|]. by store_simpl.
  - by store_simpl.
  - intros. by bal_simpl.
Qed.

(** ** The contract never owes more stake than it holds *)

Record solvent (self : Address) (w : W) : Prop := {
  sv_nonneg : forall t, 0 <= tok_bal w t self;
  sv_admin : pget (st_get w) DataKey.Admin = None -> staking_token w = None;
  sv_none : staking_token w = None -> forall v, stake_of w v <= 0;
  sv_backed : forall t, staking_token w = Some t -> backed (stake_of w) (tok_bal w t self) }.

Lemma slash_shrinks pct stake new :
  (stake <= 0 -> new = stake) ->
  (0 < stake -> exists s, slash_amount_of stake pct = Some s /\ new = stake - s) ->
  Z.max 0 new <= Z.max 0 stake /\ (stake <= 0 -> new <= 0).
Proof.
  intros H1 H2. destruct (Z.le_gt_cases stake 0) as [Hs|Hs]; [rewrite H1 by done; lia|].
  destruct H2 as (s & Hsl & ->); [lia|]. apply slash_amount_nonneg in Hsl. lia.
Qed.

Lemma solvent_kept c cx w w' :
  solvent (cx_self cx) w -> exec c cx w = Ret tt w' -> moves_stake c = false ->
  solvent (cx_self cx) w'.
Proof.
  intros [Hn Ha Hz Hb] H Hc.
  pose proof (fun v => stakes_kept c cx w w' v H Hc) as Hs.
  pose proof (fun t x => balances_kept c cx w w' t x H Hc) as Ht.
  destruct (rr_config_kept c cx w w' H) as [(?&?&t1&?&?&->&A&A'&T')|[(A&A'&T)|(A&T)]].
  - split; [intros; by rewrite Ht|congruence|congruence|].
    intros t0 _. rewrite Ht. apply backed_nil; [|done].
    intros v. rewrite Hs. by apply Hz, Ha.
  - split; [intros; by rewrite Ht|done|rewrite T; intros ? v; rewrite Hs; by apply Hz|].
    intros t0. rewrite T, Ht. intros Et. apply (backed_ext (stake_of w)); [done|by apply Hb].
  - split; [intros; by rewrite Ht|rewrite A, T; done|rewrite T; intros ? v; rewrite Hs; by apply Hz|].
    intros t0. rewrite T, Ht. intros Et. apply (backed_ext (stake_of w)); [done|by apply Hb].
Qed.

(** The moving operations, as one step of [backed_update]. *)
Lemma solvent_moved self w w' v :
  solvent self w -> staking_token w' = staking_token w ->
  (pget (st_get w') DataKey.Admin = pget (st_get w) DataKey.Admin) ->
  (forall u, u <> v -> stake_of w' u = stake_of w u) ->
  (forall t, 0 <= tok_bal w' t self) ->
  (staking_token w = None -> stake_of w' v <= 0) ->
  (forall t, staking_token w = Some t ->
     Z.max 0 (stake_of w' v) - Z.max 0 (stake_of w v) <= tok_bal w' t self - tok_bal w t self) ->
  solvent self w'.
Proof.
  intros [Hn Ha Hz Hb] T A Hne Hn' Hz' Hmove.
  split; [done|by rewrite A, T| |].
  - rewrite T. intros Ht u. destruct (decide (u = v)) as [->|Hu]; [auto|].
    rewrite Hne by done. by apply Hz.
  - intros t. rewrite T. intros Ht. eapply backed_update; eauto.
Qed.

Lemma moves_keep_config c cx w w' :
  exec c cx w = Ret tt w' -> moves_stake c = true ->
  staking_token w' = staking_token w /\
  pget (st_get w') DataKey.Admin = pget (st_get w) DataKey.Admin.
Proof.
  intros H Hc. unfold staking_token. destruct c; try done; run_call H; done.
Qed.

Lemma solvent_step c cx w w' :
  solvent (cx_self cx) w -> exec c cx w = Ret tt w' -> solvent (cx_self cx) w'.
Proof.
  intros Hsv H. destruct (moves_stake c) eqn:Hc; [|by eapply solvent_kept].
  destruct (moves_keep_config c cx w w' H Hc) as [T A].
  pose proof (sv_nonneg _ _ Hsv) as Hn. destruct c; try done; cbn [exec] in H.
  - apply add_verifier_moves in H as (t & Ht & Hv & Hpos & Hne & _ & Hbal).
    apply (solvent_moved _ w _ verifier); try done.
    + intros t'. rewrite Hbal. specialize (Hn t'). case_match; lia.
    + congruence.
    + intros t' Ht'. rewrite Hbal, Hv. assert (t' = t) as -> by congruence.
      rewrite N.eqb_refl. lia.
  - apply remove_verifier_moves in H as (Hv & Hne & Htok & Hnn & Hbal).
    apply (solvent_moved _ w _ verifier); try done.
    + auto.
    + intros _. lia.
    + intros t' Ht'. pose proof (Hbal t' Ht'). lia.
  - apply record_default_effect in H as (p & pct & _ & _ & _ & _ & _ & _ & Hne & H1 & H2 & _ & Hb).
    destruct (slash_shrinks pct _ _ H1 H2) as [Hle Hnp].
    apply (solvent_moved _ w _ (sp_verifier p)); try done.
    + intros t'. by rewrite Hb.
    + intros Hz. apply Hnp. by apply (sv_none _ _ Hsv).
    + intros t' Ht'. rewrite Hb. lia.
Qed.

Lemma solvent_reachable self w : reachable self w -> solvent self w.
Proof.
  intros (w0 & [Hst Hn0] & Hs).
  assert (Hsv : solvent self w0).
  { split; [done|by unfold staking_token; rewrite Hst|unfold stake_of; by rewrite Hst|].
    unfold staking_token. by rewrite Hst. }
  clear Hst Hn0. induction Hs as [w|w w1 w2 Hs _ IH]; [done|]. apply IH.
  destruct Hs as [w cx c Hself|w w' Hst Hbal].
  - destruct (run_tx_cases (exec c) cx w) as [->|([] & w' & E & ->)]; [done|].
    rewrite <- Hself in *. by eapply solvent_step.
  - destruct Hsv as [Hn Ha Hz Hb]. unfold staking_token, stake_of in *.
    split; unfold staking_token, stake_of; rewrite ?Hst; try done.
    + intros t. etransitivity; [apply Hn|apply Hbal].
    + intros t Ht vs Hvs. etransitivity; [by apply Hb|]. apply Hbal.
Qed.
(** ** Debtor scores and SME profiles *)

Definition last_update w (v : Address) (h : Bytes) : option u64 :=
  pget (st_get w) (DataKey.DebtorScoreLastUpdate v h).

Lemma require_cooldown_Ok last now u :
  require_cooldown (Some last) now = Ok u -> last + 3600 <= now.
Proof.
  unfold require_cooldown, MIN_SCORE_UPDATE_INTERVAL. intros H. cbn in H.
  destruct (fit_u64 _) as [n|] eqn:En; [|done]. guards. cbn in H. guards. lia.
Qed.

Lemma last_update_evolves c cx w w' v h :
  exec c cx w = Ret tt w' ->
  last_update w' v h = last_update w v h \/
  exists score, c = CSetDebtorScore v h score /\ last_update w' v h = Some (cx_now cx) /\
    forall last, last_update w v h = Some last -> last + 3600 <= cx_now cx.
Proof.
  intros H. unfold last_update. destruct c; run_call H; try (by left).
  destruct (decide (DataKey.DebtorScoreLastUpdate verifier debtor_hash =
                    DataKey.DebtorScoreLastUpdate v h)) as [[= -> ->]|Hne].
  - right. eexists. split_and!; [done|by store_simpl|]. intros last Hl.
    match goal with H : require_cooldown _ _ = Ok _ |- _ =>
      rewrite Hl in H; by eapply require_cooldown_Ok end.
  - left. by store_simpl.
Qed.

Lemma last_update_grows self w w' v h t :
  rtc (step self) w w' -> last_update w v h = Some t ->
  exists t', last_update w' v h = Some t' /\ t <= t'.
Proof.
  intros Hs. revert t. induction Hs as [w|w w1 w2 Hs _ IH]; intros t Ht; [exists t; split; [done|lia]|].
  assert (exists t1, last_update w1 v h = Some t1 /\ t <= t1) as (t1 & Ht1 & Hle).
  { destruct Hs as [w cx c _|w w1 Hst _].
    - destruct (run_tx_cases (exec c) cx w) as [->|([] & w1 & E & ->)]; [exists t; split; [done|lia]|].
      destruct (last_update_evolves _ _ _ _ v h E) as [->|(s & _ & -> & Hl)];
        [exists t; split; [done|lia]|].
      specialize (Hl _ Ht). eexists. split; [done|lia].
    - unfold last_update in *. rewrite Hst. exists t. split; [done|lia]. }
  destruct (IH _ Ht1) as (t2 & ? & ?). exists t2. split; [done|lia].
Qed.

(** How one call moves an SME's profile. *)
Inductive profile_change (c : Call) (cx : Ctx) (w : W) (sme : Address) :
    option SmeProfile -> option SmeProfile -> Prop :=
  | profile_same o : profile_change c cx w sme o o
  | profile_registered v score att :
      c = CRegisterSme v sme score att -> score <= 100 ->
      profile_change c cx w sme None
        (Some (mkSmeProfile sme true v score 0 0 (cx_now cx) att 0))
  | profile_scored v score p :
      c = CUpdateSmeScore v sme score -> score <= 100 ->
      profile_change c cx w sme (Some p) (Some (with_risk_score score p))
  | profile_limited v limit p :
      c = CSetCreditLimit v sme limit -> 0 <= limit ->
      profile_change c cx w sme (Some p) (Some (with_credit_limit limit p))
  | profile_counted nft p :
      c = CIncrementInvoiceCount nft sme -> sp_total_invoices p + 1 <= u32_max ->
      profile_change c cx w sme (Some p) (Some (with_total_invoices (sp_total_invoices p + 1) p))
  | profile_defaulted a p :
      c = CRecordDefault a sme -> sp_defaults p + 1 <= u32_max ->
      profile_change c cx w sme (Some p) (Some (with_defaults (sp_defaults p + 1) p)).

(** The party each kind of change needs, authorizing the call. *)
Definition profile_actor (c : Call) (cx : Ctx) (w : W) : Prop :=
  match c with
  | CRegisterSme v _ _ _ | CUpdateSmeScore v _ _ | CSetCreditLimit v _ _ =>
      pget (st_get w) (DataKey.Verifier v) = Some true /\ authorized cx v = true
  | CIncrementInvoiceCount nft _ =>
      pget (st_get w) DataKey.InvoiceNft = Some nft /\ authorized cx nft = true
  | CRecordDefault a _ =>
      pget (st_get w) DataKey.Admin = Some a /\ authorized cx a = true
  | _ => False
  end.

Definition profile w (sme : Address) : option SmeProfile :=
  pget (st_get w) (DataKey.SmeProfile sme).

Lemma profile_evolves c cx w w' sme :
  exec c cx w = Ret tt w' ->
  profile_change c cx w sme (profile w sme) (profile w' sme).
Proof.
  intros H. unfold profile. destruct c; run_call H; try (by apply profile_same); guards; subst.
  all: destruct (decide (sme0 = sme)) as [->|Hne]; [store_simpl|store_simpl; apply profile_same].
  all: repeat match goal with E : pget _ _ = Some _ |- _ => rewrite E end.
  - destruct (pget (st_get w) (DataKey.SmeProfile sme)); [done|].
    eapply profile_registered; [done|lia].
  - eapply profile_scored; [done|lia].
  - eapply profile_limited; [done|lia].
  - eapply profile_counted; [done|lia].
  - eapply profile_defaulted; [done|lia].
  - eapply profile_defaulted; [done|lia].
Qed.

Lemma profile_actor_ok c cx w w' sme :
  exec c cx w = Ret tt w' -> profile w' sme <> profile w sme -> profile_actor c cx w.
Proof.
  intros H Hne. unfold profile in Hne. unfold profile_actor.
  destruct c; run_call H; guards; subst; try (by exfalso; apply Hne; store_simpl);
    split; try done; destruct (pget _ (DataKey.Verifier _)) as [[]|]; done.
Qed.

(** ** Properties *)

(** C27: Whatever calls are made and whatever else happens on the ledger, the
    contract holds at least the sum of the stakes it records: for every set of
    verifiers, their stakes are covered by its balance of the staking token, so
    each of them can be paid back. (Slashed tokens stay in the contract.) *)
Theorem stakes_are_backed self w t vs :
  reachable self w -> staking_token w = Some t -> NoDup vs ->
  sum_of (stake_of w) vs <= tok_bal w t self.
Proof. intros Hr Ht Hvs. by apply (sv_backed _ _ (solvent_reachable _ _ Hr)). Qed.

(** C28: A successful [record_default] is the stored admin's, adds exactly one to
    the SME's defaults without wrapping and touches no other field of the profile,
    takes [floor(stake * bps / 10000)] off a positive stake of the verifier who
    registered the SME and nothing off any other stake, takes 10 off that verifier's
    reputation (100 when none is recorded), not below zero, and moves no tokens. The
    stake stays between zero and what it was if the stored slash rate is at most
    100%, which [initialize] does not check: from 200% on the stake becomes negative.
    (The bounds on the stake, the rate and the reputation are those of their types.) *)
Theorem record_default_slashes a sme cx w w' :
  record_default a sme cx w = Ret tt w' ->
  exists p pct, profile w sme = Some p /\
    pget (st_get w) DataKey.SlashPercentage = Some pct /\
    pget (st_get w) DataKey.Admin = Some a /\ authorized cx a = true /\
    profile w' sme = Some (with_defaults (sp_defaults p + 1) p) /\
    sp_defaults p + 1 <= u32_max /\
    (forall u, u <> sp_verifier p -> stake_of w' u = stake_of w u) /\
    (forall t x, tok_bal w' t x = tok_bal w t x) /\
    (stake_of w (sp_verifier p) <= 0 -> stake_of w' (sp_verifier p) = stake_of w (sp_verifier p)) /\
    (0 < stake_of w (sp_verifier p) <= i128_max -> 0 <= pct <= u32_max ->
       stake_of w' (sp_verifier p) =
         stake_of w (sp_verifier p) - stake_of w (sp_verifier p) * pct / 10000 /\
       (pct <= 10000 -> 0 <= stake_of w' (sp_verifier p) <= stake_of w (sp_verifier p)) /\
       (20000 <= pct -> stake_of w' (sp_verifier p) < 0)) /\
    (let r := default 100 (pget (st_get w) (DataKey.VerifierReputation (sp_verifier p))) in
     r <= u32_max ->
     pget (st_get w') (DataKey.VerifierReputation (sp_verifier p)) = Some (Z.max 0 (r - 10))).
Proof.
  intros H. apply record_default_effect in H
    as (p & pct & Ha & Hau & Hp & Hpct & Hp' & Hd & Hne & H1 & H2 & Hrep & Hb).
  exists p, pct. split_and!; try done.
  - intros [Hs1 Hs2] Hpr. destruct (H2 Hs1) as (sl & Hsl & ->).
    apply slash_amount_value in Hsl as ->; [|lia|done].
    set (s := stake_of w (sp_verifier p)) in *. split_and!; [done|intros Hle..].
    + pose proof (Z.div_pos (s * pct) 10000 ltac:(nia) ltac:(lia)).
      pose proof (Z.div_le_upper_bound (s * pct) 10000 s ltac:(lia) ltac:(nia)). lia.
    + pose proof (Z.div_le_lower_bound (s * pct) 10000 (s + 1) ltac:(lia) ltac:(nia)). lia.
  - cbv zeta. intros Hmax. rewrite Hrep. unfold u32_saturating_sub, clamp. f_equal. lia.
Qed.

(** Two successful [set_debtor_score] calls by one verifier on one debtor,
    with any transactions in between, are at least 3600 seconds apart. *)
Theorem debtor_score_cooldown self v h s1 s2 cx1 cx2 w w1 w2 w3 :
  set_debtor_score v h s1 cx1 w = Ret tt w1 -> rtc (step self) w1 w2 ->
  set_debtor_score v h s2 cx2 w2 = Ret tt w3 ->
  cx_now cx1 + 3600 <= cx_now cx2.
Proof.
  intros H1 Hs H2.
  assert (last_update w1 v h = Some (cx_now cx1)) as Hl1.
  { change (exec (CSetDebtorScore v h s1) cx1 w = Ret tt w1) in H1.
    unfold last_update. run_call H1. by store_simpl. }
  destruct (last_update_grows _ _ _ _ _ _ Hs Hl1) as (t' & Ht' & Hle).
  change (exec (CSetDebtorScore v h s2) cx2 w2 = Ret tt w3) in H2. unfold last_update in Ht'.
  run_call H2. match goal with H : require_cooldown _ _ = Ok _ |- _ =>
    rewrite Ht' in H; apply require_cooldown_Ok in H end. lia.
Qed.

(** An SME's profile changes only through the five operations meant for it,
    each authorized by its party (a registered verifier, the invoice contract, the
    admin): it is registered once, never removed, and each operation changes its
    one field, so the verifier who answers for the SME is fixed for good. *)
Theorem profile_changes_are_authorized c cx w w' sme :
  exec c cx w = Ret tt w' -> profile w' sme <> profile w sme ->
  profile_change c cx w sme (profile w sme) (profile w' sme) /\ profile_actor c cx w /\
  (forall p, profile w sme = Some p ->
     exists p', profile w' sme = Some p' /\ sp_verifier p' = sp_verifier p /\
       sp_address p' = sp_address p /\ sp_registered_at p' = sp_registered_at p /\
       sp_total_invoices p <= sp_total_invoices p' /\ sp_defaults p <= sp_defaults p').
Proof.
  intros H Hne. pose proof (profile_evolves _ _ _ _ sme H) as Hc.
  split; [done|]. split; [by eapply profile_actor_ok|]. intros p Hp.
  rewrite Hp in Hc. inversion Hc; subst; eexists; (split; [done|]); cbn; split_and!; try done; lia.
Qed.
End Properties.
