(* ===== verification/Treasury.v ===== *)
(** * Treasury: protocol fees and rate-limited withdrawals
    (src/contracts/treasury/src/lib.rs)

    State: [DataKey]. Operations: one definition per entry point; [exec] is the
    contract as a step function on its [Call]s. The contract's own tokens are
    balances of the parameter [TokenClient]. *)

From S2P Require Import Prelude Errors Types Host Events Reentrancy Validation Interfaces AuditLog.

(** 24 h in seconds. *)
Definition EPOCH_DURATION : u64 := 86400.

Module DataKey.
Inductive t :=
  | Admin
  | FeeBps
  | Collected (token : Address)
  | WhitelistedToken (token : Address)
  | UpgradeProposal
  | WithdrawalLock
  | WithdrawalCap
  | WithdrawalCapProposal
  | EpochStart
  | EpochWithdrawn
  | AuditLogHead
  | AuditLogTotal
  | AuditEntry (n : u64).

#[global] Instance t_eq_dec : EqDecision t.
Proof. solve_decision. Defined.

Definition val (k : t) : Type :=
  match k with
  | Admin => Address
  | FeeBps => u32
  | Collected _ => i128
  | WhitelistedToken _ => bool
  | UpgradeProposal => (BytesN32 * u64)%type
  | WithdrawalLock => bool
  | WithdrawalCap => i128
  | WithdrawalCapProposal => (i128 * u64)%type
  | EpochStart => u64
  | EpochWithdrawn => i128
  | AuditLogHead | AuditLogTotal => u64
  | AuditEntry _ => AdminAuditEntry
  end.
End DataKey.

#[export] Instance DataKey_storage : StorageKey DataKey.t := {| sk_val := DataKey.val |}.

Definition PERSISTENT_LIFETIME_THRESHOLD : u32 := (535680 / 2).
Definition PERSISTENT_BUMP_AMOUNT : u32 := 535680.

#[export] Instance audit_store : AuditStore DataKey.t := {|
  al_head s := iget s DataKey.AuditLogHead;
  al_total s := iget s DataKey.AuditLogTotal;
  al_entry s n := pget s (DataKey.AuditEntry n);
  al_set_head n := iset DataKey.AuditLogHead n;
  al_set_total n := iset DataKey.AuditLogTotal n;
  al_set_entry n e := pset (DataKey.AuditEntry n) e;
  al_key n := DataKey.AuditEntry n;
  al_ttl_threshold := PERSISTENT_LIFETIME_THRESHOLD;
  al_ttl_bump := PERSISTENT_BUMP_AMOUNT |}.

#[export] Instance audit_laws : AuditLaws DataKey.t.
Proof.
  split; intros; simpl; try by store_simpl.
  - destruct (Z.eqb_spec i j) as [->|]; by store_simpl.
  - eexists. by store_simpl.
Qed.

Section Treasury.
Context {W : Type} `{!HasEvents W} `{!HasStorage W DataKey.t} `{!TokenClient W}.

(** ** Helpers *)

(** Extends the life of an entry. *)
Definition bump_persistent (key : DataKey.t) : M W unit := extend_ttl key PERSISTENT_LIFETIME_THRESHOLD PERSISTENT_BUMP_AMOUNT.

Definition append_audit_entry (actor : Address) (action : AdminActionType) : M W unit :=
  AuditLog.append_audit_entry (K:=DataKey.t) SrcTreasury actor action.

Definition get_audit_log (page page_size : u32) : M W (list AdminAuditEntry) :=
  AuditLog.get_audit_log (K:=DataKey.t) page page_size.

Definition require_admin (caller : Address) : M W unit :=
  admin ← persistent_get_or DataKey.Admin NotInitialized;
  fail_if (negb (admin =? caller)%N) NotAdmin.

Definition require_whitelisted_token (token : Address) : M W unit :=
  whitelisted ← persistent_get_default (DataKey.WhitelistedToken token) false;
  fail_if (negb whitelisted) TokenNotWhitelisted.

(** The [epoch_withdrawn] of [enforce_rate_limit]: a new epoch resets it. *)
Definition epoch_total (now epoch_start : u64) : M W i128 :=
  if u64_saturating_sub now epoch_start >=? EPOCH_DURATION then
    instance_set DataKey.EpochStart now;;
    instance_set DataKey.EpochWithdrawn 0;;
    mret 0
  else instance_get_default DataKey.EpochWithdrawn 0.

Definition enforce_rate_limit (amount : i128) : M W unit :=
  cap ← instance_get_default DataKey.WithdrawalCap 0;
  when (negb (cap =? 0)) (
    now ← env_now;
    epoch_start ← instance_get_default DataKey.EpochStart now;
    epoch_withdrawn ← epoch_total now epoch_start;
    new_total ← lift (ok_or (checked_add epoch_withdrawn amount) ArithmeticOverflow);
    fail_if (new_total >? cap) WithdrawalRateLimitExceeded).

Definition record_withdrawal (amount : i128) : M W unit :=
  cap ← instance_get_default DataKey.WithdrawalCap 0;
  when (negb (cap =? 0)) (
    current ← instance_get_default DataKey.EpochWithdrawn 0;
    instance_set DataKey.EpochWithdrawn (saturating_add current amount)).

(** The [if let Some(collected)] of [withdraw]. *)
Definition debit_collected (token : Address) (amount : i128) : M W unit :=
  collected ← (persistent_get (DataKey.Collected token) : M W (option i128));
  match collected with
  | Some c =>
      persistent_set (DataKey.Collected token) (saturating_sub c amount);;
      bump_persistent (DataKey.Collected token)
  | None => mret tt
  end.

(** ** Initialization, fee and tokens *)

Definition initialize (admin : Address) (fee_bps : u32) : M W unit :=
  has ← persistent_has DataKey.Admin;
  fail_if has AlreadyInitialized;;
  lift (require_valid_fee_bps fee_bps);;
  self ← env_self;
  lift (require_not_self self admin);;
  persistent_set DataKey.Admin admin;;
  bump_persistent DataKey.Admin;;
  persistent_set DataKey.FeeBps fee_bps;;
  bump_persistent DataKey.FeeBps;;
  instance_set DataKey.WithdrawalCap 0;;
  now ← env_now;
  instance_set DataKey.EpochStart now;;
  instance_set DataKey.EpochWithdrawn 0;;
  events.treasury_initialized admin fee_bps.

Definition set_fee_bps (admin : Address) (fee_bps : u32) : M W unit :=
  require_auth admin;;
  require_admin admin;;
  lift (require_valid_fee_bps fee_bps);;
  old_bps ← persistent_get_default DataKey.FeeBps 50;
  persistent_set DataKey.FeeBps fee_bps;;
  bump_persistent DataKey.FeeBps;;
  events.fee_rate_updated admin old_bps fee_bps;;
  append_audit_entry admin ActSetFeeBps.

Definition whitelist_token (admin token : Address) : M W unit :=
  require_auth admin;;
  require_admin admin;;
  persistent_set (DataKey.WhitelistedToken token) true;;
  bump_persistent (DataKey.WhitelistedToken token);;
  events.token_whitelisted admin token;;
  append_audit_entry admin ActWhitelistToken.

Definition collect_fee (token : Address) (amount : i128) : M W unit :=
  fail_if (amount <=? 0) InvalidAmount;;
  require_whitelisted_token token;;
  current ← persistent_get_default (DataKey.Collected token) 0;
  new_total ← lift (ok_or (checked_add current amount) ArithmeticOverflow);
  persistent_set (DataKey.Collected token) new_total;;
  bump_persistent (DataKey.Collected token);;
  self ← env_self;
  events.fee_collected self 0 amount token.

(** ** Withdrawals *)

Definition withdraw (admin token recipient : Address) (amount : i128) : M W unit :=
  require_auth admin;;
  require_admin admin;;
  fail_if (amount <=? 0) InvalidAmount;;
  lift (require_within_max_amount amount);;
  require_whitelisted_token token;;
  enforce_rate_limit amount;;
  with_guard DataKey.t (
    self ← env_self;
    balance ← tok_balance token self;
    fail_if (balance <? amount) InsufficientPoolBalance;;
    debit_collected token amount;;
    record_withdrawal amount;;
    tok_transfer token self recipient amount;;
    events.fee_withdrawn admin token amount;;
    append_audit_entry admin ActWithdraw).

Definition emergency_withdraw (admin token recipient : Address) : M W unit :=
  require_auth admin;;
  require_admin admin;;
  require_whitelisted_token token;;
  with_guard DataKey.t (
    self ← env_self;
    balance ← tok_balance token self;
    when (0 <? balance) (
      tok_transfer token self recipient balance;;
      events.emergency_withdrawn admin token balance);;
    append_audit_entry admin ActEmergencyWithdraw).

Definition propose_withdrawal_cap (admin : Address) (new_cap : i128) : M W unit :=
  require_auth admin;;
  require_admin admin;;
  fail_if (new_cap <? 0) InvalidAmount;;
  now ← env_now;
  instance_set DataKey.WithdrawalCapProposal (new_cap, now);;
  events.withdrawal_cap_proposed admin new_cap;;
  append_audit_entry admin ActProposeWithdrawalCap.

Definition execute_withdrawal_cap (admin : Address) : M W unit :=
  require_auth admin;;
  require_admin admin;;
  '(new_cap, proposed_at) ← instance_get_or DataKey.WithdrawalCapProposal NoCapChangeProposed;
  now ← env_now;
  ready ← or_trap (fit_u64 (proposed_at + UPGRADE_TIMELOCK_DELAY));
  fail_if (now <? ready) WithdrawalCapTimelockNotElapsed;;
  old_cap ← instance_get_default DataKey.WithdrawalCap 0;
  instance_set DataKey.WithdrawalCap new_cap;;
  instance_remove DataKey.WithdrawalCapProposal;;
  events.withdrawal_cap_updated admin old_cap new_cap;;
  append_audit_entry admin ActExecuteWithdrawalCap.

(** ** Views *)

Definition get_withdrawal_cap : M W i128 := instance_get_default DataKey.WithdrawalCap 0.
Definition get_fee_bps : M W u32 := persistent_get_default DataKey.FeeBps 50.
Definition get_balance (token : Address) : M W i128 :=
  self ← env_self;
  tok_balance token self.
Definition get_collected (token : Address) : M W i128 :=
  persistent_get_default (DataKey.Collected token) 0.
Definition get_admin : M W Address := persistent_get_or DataKey.Admin NotInitialized.

(** ** Upgrade *)

Definition propose_upgrade (admin : Address) (new_wasm_hash : BytesN32) : M W unit :=
  require_auth admin;;
  require_admin admin;;
  now ← env_now;
  instance_set DataKey.UpgradeProposal (new_wasm_hash, now);;
  events.upgrade_proposed admin new_wasm_hash;;
  append_audit_entry admin ActTreasuryProposeUpgrade.

Definition execute_upgrade (admin : Address) : M W unit :=
  require_auth admin;;
  require_admin admin;;
  '(wasm_hash, proposed_at) ← instance_get_or DataKey.UpgradeProposal NoUpgradeProposed;
  now ← env_now;
  ready ← or_trap (fit_u64 (proposed_at + UPGRADE_TIMELOCK_DELAY));
  fail_if (now <? ready) UpgradeTimelockNotElapsed;;
  instance_remove DataKey.UpgradeProposal;;
  events.upgrade_executed admin wasm_hash;;
  append_audit_entry admin ActTreasuryExecuteUpgrade;;
  update_current_contract_wasm (K:=DataKey.t) wasm_hash.
End Treasury.

(** ** The contract as a step function *)

Inductive Call :=
  | CInitialize (admin : Address) (fee_bps : u32)
  | CSetFeeBps (admin : Address) (fee_bps : u32)
  | CWhitelistToken (admin token : Address)
  | CCollectFee (token : Address) (amount : i128)
  | CWithdraw (admin token recipient : Address) (amount : i128)
  | CEmergencyWithdraw (admin token recipient : Address)
  | CProposeWithdrawalCap (admin : Address) (new_cap : i128)
  | CExecuteWithdrawalCap (admin : Address)
  | CProposeUpgrade (admin : Address) (new_wasm_hash : BytesN32)
  | CExecuteUpgrade (admin : Address).

Section Exec.
Context {W : Type} `{!HasEvents W} `{!HasStorage W DataKey.t} `{!TokenClient W}.

Definition exec (c : Call) : M W unit :=
  match c with
  | CInitialize a f => initialize a f
  | CSetFeeBps a f => set_fee_bps a f
  | CWhitelistToken a t => whitelist_token a t
  | CCollectFee t n => collect_fee t n
  | CWithdraw a t r n => withdraw a t r n
  | CEmergencyWithdraw a t r => emergency_withdraw a t r
  | CProposeWithdrawalCap a c => propose_withdrawal_cap a c
  | CExecuteWithdrawalCap a => execute_withdrawal_cap a
  | CProposeUpgrade a h => propose_upgrade a h
  | CExecuteUpgrade a => execute_upgrade a
  end.

(** A call of the contract, or anything that does not write its storage. *)
Inductive step : W -> W -> Prop :=
  | step_call w cx c : step w (run_tx (exec c) cx w)
  | step_other w w' : st_get w' = st_get w -> step w w'.

Definition reachable (w : W) : Prop := exists w0, st_get w0 = empty_storage /\ rtc step w0 w.

(** What a call took out of the contract through the capped path. *)
Definition withdrawn_by (c : Call) (cx : Ctx) (w : W) : Z :=
  match c with
  | CWithdraw _ _ _ n => if is_ret (exec c cx w) then n else 0
  | _ => 0
  end.

(** [withdrawals lo hi w total w']: from [w] to [w'], by calls at ledger times in
    [[lo, hi)] that do not change the cap, interleaved with anything else, the
    successful [withdraw]s took [total]. *)
Inductive withdrawals (lo hi : u64) : W -> Z -> W -> Prop :=
  | withdrawals_nil w : withdrawals lo hi w 0 w
  | withdrawals_call w total w' cx c :
      withdrawals lo hi w total w' -> lo <= cx_now cx < hi ->
      (forall a, c <> CExecuteWithdrawalCap a) ->
      withdrawals lo hi w (total + withdrawn_by c cx w') (run_tx (exec c) cx w')
  | withdrawals_other w total w' w'' :
      withdrawals lo hi w total w' -> st_get w'' = st_get w' -> withdrawals lo hi w total w''.
End Exec.

Create HintDb treasury.
#[export] Hint Unfold exec bump_persistent initialize set_fee_bps whitelist_token collect_fee withdraw
  emergency_withdraw propose_withdrawal_cap execute_withdrawal_cap propose_upgrade
  execute_upgrade require_admin require_whitelisted_token enforce_rate_limit epoch_total
  record_withdrawal debit_collected : treasury.

Section Steps.
Context {W : Type} `{!HasEvents W} `{!HasStorage W DataKey.t} `{!StorageLaws W DataKey.t}
  `{!TokenClient W} `{!TokenLedger W} `{!TokenLaws W} `{!TokenFrame W DataKey.t}.

Lemma tr_append_store actor action cx (w : W) u w' :
  append_audit_entry actor action cx w = Ret u w' ->
  (exists (i : u64) (e : AdminAuditEntry) (h t : u64), st_get w' =
    iset DataKey.AuditLogTotal t (iset DataKey.AuditLogHead h
      (pset (DataKey.AuditEntry i) e (st_get w)))) /\
  forall t x, tok_bal w' t x = tok_bal w t x.
Proof.
  intros H. unfold append_audit_entry in H. split.
  - apply (append_audit_entry_store (K:=DataKey.t) (HA:=audit_store) SrcTreasury)
      in H as (i & e & h & t & E). by exists i, e, h, t.
  - revert H. apply (append_audit_entry_keeps (K:=DataKey.t)
      (fun a b => forall t x, tok_bal b t x = tok_bal a t x)).
    + intros w1 w2 w3 H1 H2 t x. by rewrite H2.
    + intros. by apply tok_bal_put.
    + intros. by apply tok_bal_emit.
    + intros. by apply (tok_bal_keep (K:=DataKey.t)).
Qed.
End Steps.

Ltac learn_append :=
  repeat match goal with
  | H : append_audit_entry _ _ _ _ = Ret _ _ |- _ =>
      let i := fresh "i" in let e := fresh "e" in let h := fresh "h" in let t := fresh "t" in
      let F := fresh "Happ" in let B := fresh "Hbal" in
      apply tr_append_store in H as [(i & e & h & t & F) B]
  end.

Ltac learn_balance :=
  repeat match goal with
  | H : tok_balance _ _ _ _ = Ret _ _ |- _ => apply tok_balance_law in H as [? ?]; subst
  end.

(** Runs a call backwards: the guards it passed and the storage it left. *)
Ltac run_call H :=
  cbn [exec] in H; autounfold with treasury in H; minv H; learn_balance; learn_append;
  learn_frames DataKey.t; store_facts; store_simpl.

Section Properties.
Context {W : Type} `{!HasEvents W} `{!HasStorage W DataKey.t} `{!StorageLaws W DataKey.t}
  `{!TokenClient W} `{!TokenLedger W} `{!TokenLaws W} `{!TokenFrame W DataKey.t}.
Implicit Types (cx : Ctx) (w : W).

Definition cap_of w : i128 := default 0 (iget (st_get w) DataKey.WithdrawalCap).
Definition epoch_withdrawn w : i128 := default 0 (iget (st_get w) DataKey.EpochWithdrawn).
Definition epoch_start w : option u64 := iget (st_get w) DataKey.EpochStart.

(** What a withdrawal of [n] does to the rate limiter. *)
Definition rate_limited (n : i128) (now : u64) w w' : Prop :=
  (cap_of w = 0 /\ epoch_withdrawn w' = epoch_withdrawn w /\ epoch_start w' = epoch_start w) \/
  (epoch_withdrawn w' = epoch_withdrawn w + n /\ epoch_withdrawn w + n <= cap_of w /\
   epoch_start w' = epoch_start w) \/
  (epoch_withdrawn w' = n /\ n <= cap_of w /\ epoch_start w' = Some now /\
   exists start, epoch_start w = Some start /\ start + 86400 <= now).

Lemma saturating_add_in a b : i128_min <= a + b <= i128_max -> saturating_add a b = a + b.
Proof. unfold saturating_add, clamp. lia. Qed.

Lemma elapsed now o :
  (u64_saturating_sub now (default now o) >=? EPOCH_DURATION) = true ->
  exists start, o = Some start /\ start + 86400 <= now.
Proof.
  unfold u64_saturating_sub, EPOCH_DURATION, clamp. destruct o as [start|]; cbn; intros H.
  - exists start. split; [done|]. lia.
  - lia.
Qed.

Lemma withdraw_effect a t r n cx w w' :
  withdraw a t r n cx w = Ret tt w' ->
  pget (st_get w) DataKey.Admin = Some a /\ authorized cx a = true /\
  pget (st_get w) (DataKey.WhitelistedToken t) = Some true /\
  0 < n <= MAX_AMOUNT /\ n <= tok_bal w t (cx_self cx) /\
  cap_of w' = cap_of w /\ rate_limited n (cx_now cx) w w' /\
  (forall t' x, tok_bal w' t' x =
     if (t' =? t)%N then moved (cx_self cx) r x n (tok_bal w t' x) else tok_bal w t' x).
Proof.
  intros H. change (exec (CWithdraw a t r n) cx w = Ret tt w') in H.
  unfold rate_limited, cap_of, epoch_withdrawn, epoch_start.
  run_call H; learn_transfers; guards; subst;
    (split_and!; [done|done|by destruct (pget _ (DataKey.WhitelistedToken t)) as [[]|]|lia|lia
      |bal_simpl; lia|by store_simpl| |intros; bal_simpl; done]).
  all: first
    [ exfalso; lia
    | left; split_and!; done || lia
    | right; left; rewrite saturating_add_in by lia; split_and!; done || lia
    | right; right; cbn; rewrite saturating_add_in by lia; split_and!;
        [lia|lia|done|by apply elapsed] ].
Qed.

Lemma emergency_effect a t r cx w w' :
  emergency_withdraw a t r cx w = Ret tt w' ->
  pget (st_get w) DataKey.Admin = Some a /\ authorized cx a = true /\
  pget (st_get w) (DataKey.WhitelistedToken t) = Some true /\
  (forall t' x, tok_bal w' t' x =
     if (t' =? t)%N
     then moved (cx_self cx) r x (Z.max 0 (tok_bal w t (cx_self cx))) (tok_bal w t' x)
     else tok_bal w t' x).
Proof.
  intros H. change (exec (CEmergencyWithdraw a t r) cx w = Ret tt w') in H.
  run_call H; learn_transfers; guards; subst;
    (split_and!; [done|done|by destruct (pget _ (DataKey.WhitelistedToken t)) as [[]|]|]).
  - intros t' x'. bal_simpl. unfold moved. repeat case_match; lia.
  - intros t' x'. bal_simpl. rewrite Z.max_r by lia. done.
Qed.

(** The cap and the epoch are touched by no other operation. *)
Lemma rate_state_kept c cx w w' :
  exec c cx w = Ret tt w' ->
  match c with
  | CWithdraw _ _ _ _ => True
  | CExecuteWithdrawalCap _ =>
      epoch_withdrawn w' = epoch_withdrawn w /\ epoch_start w' = epoch_start w
  | CInitialize _ _ => pget (st_get w) DataKey.Admin = None /\ cap_of w' = 0 /\ epoch_withdrawn w' = 0
  | _ => cap_of w' = cap_of w /\ epoch_withdrawn w' = epoch_withdrawn w /\
         epoch_start w' = epoch_start w
  end.
Proof.
  intros H. unfold cap_of, epoch_withdrawn, epoch_start. destruct c; try done; run_call H;
    split_and!; try done; by destruct (pget _ DataKey.Admin).
Qed.

Lemma admin_kept c cx w w' :
  exec c cx w = Ret tt w' -> pget (st_get w) DataKey.Admin <> None ->
  pget (st_get w') DataKey.Admin = pget (st_get w) DataKey.Admin.
Proof.
  intros H Ha. destruct c; run_call H; try done; by destruct (pget _ DataKey.Admin).
Qed.

Lemma cap_proposal_evolves c cx w w' p :
  exec c cx w = Ret tt w' ->
  iget (st_get w') DataKey.WithdrawalCapProposal = Some p ->
  iget (st_get w) DataKey.WithdrawalCapProposal = Some p \/
  0 <= p.1 /\ p.2 = cx_now cx.
Proof.
  intros H. destruct c; run_call H; auto; [|done]. intros [= <-]. right. cbn. lia.
Qed.

Lemma cap_evolves c cx w w' :
  exec c cx w = Ret tt w' -> pget (st_get w) DataKey.Admin <> None ->
  cap_of w' = cap_of w \/
  exists a cap proposed_at, c = CExecuteWithdrawalCap a /\
    pget (st_get w) DataKey.Admin = Some a /\ authorized cx a = true /\
    iget (st_get w) DataKey.WithdrawalCapProposal = Some (cap, proposed_at) /\
    proposed_at + 86400 <= cx_now cx /\ cap_of w' = cap /\
    iget (st_get w') DataKey.WithdrawalCapProposal = None.
Proof.
  intros H Ha.
  destruct c.
  5: { left. by apply withdraw_effect in H as (_ & _ & _ & _ & _ & ? & _). }
  7: { right. unfold cap_of. run_call H. guards. subst. unfold UPGRADE_TIMELOCK_DELAY in *.
    do 3 eexists. split_and!; try done; lia. }
  all: left; apply rate_state_kept in H; by destruct H as [? _].
Qed.

(** ** Invariant of the reachable states *)

Record wf (w : W) : Prop := {
  wf_cap : 0 <= cap_of w;
  wf_withdrawn : 0 <= epoch_withdrawn w;
  wf_proposal : forall p, iget (st_get w) DataKey.WithdrawalCapProposal = Some p -> 0 <= p.1;
  wf_admin : pget (st_get w) DataKey.Admin = None -> cap_of w = 0 }.

Lemma rate_limited_nonneg n now w w' :
  rate_limited n now w w' -> 0 <= n -> 0 <= epoch_withdrawn w -> 0 <= epoch_withdrawn w'.
Proof. intros [(_ & -> & _)|[(-> & _)|(-> & _)]]; lia. Qed.

Lemma tr_wf_step c cx w w' : wf w -> exec c cx w = Ret tt w' -> wf w'.
Proof.
  intros [Hc Hx Hp Ha] H.
  assert (Hadm : (exists a f, c = CInitialize a f) \/ pget (st_get w) DataKey.Admin <> None \/
                 (cap_of w' = cap_of w /\ epoch_withdrawn w' = epoch_withdrawn w)).
  { destruct c; try (right; left; run_call H; congruence); [by left; eauto|].
    right; right. apply rate_state_kept in H. by destruct H as (? & ? & ?). }
  assert (Hp' : forall p, iget (st_get w') DataKey.WithdrawalCapProposal = Some p -> 0 <= p.1).
  { intros p E. destruct (cap_proposal_evolves _ _ _ _ _ H E) as [?|[? _]]; [by apply Hp|done]. }
  destruct Hadm as [(a & f & ->)|[Hadm|[Ec Ex]]].
  - pose proof (rate_state_kept _ _ _ _ H) as (_ & Ec & Ex). split; [lia|lia|done|done].
  - assert (pget (st_get w') DataKey.Admin <> None) by (by rewrite (admin_kept _ _ _ _ H)).
    split; [| |done|done].
    + destruct (cap_evolves _ _ _ _ H Hadm) as [->|(a & cap & t0 & _ & _ & _ & E & _ & -> & _)]; [done|].
      by apply (Hp _ E).
    + destruct c; try (apply rate_state_kept in H; destruct H as (? & ? & ?); lia).
      * apply withdraw_effect in H as (_ & _ & _ & Hn & _ & _ & Hr & _).
        eapply rate_limited_nonneg; [done|lia|done].
      * apply rate_state_kept in H as [-> _]. done.
  - split; [lia|lia|done|]. rewrite Ec. destruct (decide (pget (st_get w) DataKey.Admin = None)) as [E|E];
      [auto|]. by rewrite (admin_kept _ _ _ _ H).
Qed.

Lemma tr_wf_reachable w : reachable w -> wf w.
Proof.
  intros (w0 & E & Hs).
  assert (Hw : wf w0).
  { split; unfold cap_of, epoch_withdrawn; rewrite E; done. }
  clear E. induction Hs as [w|w w1 w2 Hs _ IH]; [done|]. apply IH.
  destruct Hs as [w cx c|w w' E].
  - destruct (run_tx_cases (exec c) cx w) as [->|([] & w' & E & ->)]; [done|]. by eapply tr_wf_step.
  - destruct Hw. split; unfold cap_of, epoch_withdrawn in *; by rewrite E.
Qed.

(** ** The withdrawal limit over time *)

(** How the running total of a window relates to the epoch counter: no reset yet,
    or exactly one, inside the window. *)
Definition window (lo cap : Z) (total : Z) (w : W) : Prop :=
  (total = 0 \/ total <= epoch_withdrawn w <= cap) \/
  (exists start before, epoch_start w = Some start /\ lo <= start /\ before <= cap /\
     total <= before + epoch_withdrawn w /\ epoch_withdrawn w <= cap).

Lemma window_withdraw lo hi cap total n now w w' :
  window lo cap total w -> hi <= lo + 86400 -> lo <= now < hi ->
  cap_of w = cap -> 0 < cap -> 0 <= epoch_withdrawn w -> rate_limited n now w w' -> 0 <= n ->
  window lo cap (total + n) w'.
Proof.
  intros Hw Hhi Hnow Hcap Hpos Hx Hr Hn. unfold window.
  destruct Hr as [(? & _)|[(-> & Hle & ->)|(-> & Hle & -> & start & Es & Helapsed)]]; [lia| |].
  - destruct Hw as [Hw|(st & before & Est & ? & ? & ? & ?)]; [left; right; lia|].
    right. exists st, before. split_and!; try done; lia.
  - right. exists now. destruct Hw as [Hw|(st & before & Est & ? & ? & ? & ?)].
    + exists (Z.max 0 total). split_and!; try done; lia.
    + rewrite Est in Es. injection Es as ->. lia.
Qed.

Lemma window_same lo cap total w w' :
  window lo cap total w -> epoch_withdrawn w' = epoch_withdrawn w ->
  epoch_start w' = epoch_start w -> window lo cap total w'.
Proof. unfold window. by intros H -> ->. Qed.

Lemma window_step lo hi cap total c cx w w' :
  exec c cx w = Ret tt w' -> wf w -> pget (st_get w) DataKey.Admin <> None ->
  hi <= lo + 86400 -> lo <= cx_now cx < hi -> (forall a, c <> CExecuteWithdrawalCap a) ->
  0 < cap -> cap_of w = cap -> window lo cap total w ->
  window lo cap (total + withdrawn_by c cx w) w' /\ cap_of w' = cap.
Proof.
  intros H Hwf Ha Hhi Hnow Hc Hpos Hcap Hw.
  destruct c; unfold withdrawn_by; rewrite ?Z.add_0_r;
    try (apply rate_state_kept in H; destruct H as (? & ? & ?);
         split; [by eapply window_same|congruence]).
  - rewrite H. cbn [is_ret]. apply withdraw_effect in H as (_ & _ & _ & Hn & _ & Hcap' & Hr & _).
    split; [|congruence]. eapply window_withdraw; eauto; [by destruct Hwf|lia].
  - by edestruct Hc.
Qed.

Lemma withdrawals_window lo hi cap w total w' :
  withdrawals lo hi w total w' -> wf w -> pget (st_get w) DataKey.Admin <> None ->
  hi <= lo + 86400 -> 0 < cap -> cap_of w = cap ->
  window lo cap total w' /\ cap_of w' = cap /\ wf w' /\ pget (st_get w') DataKey.Admin <> None.
Proof.
  intros Hws Hwf Ha Hhi Hpos Hcap. induction Hws as [w|w total w' cx c _ IH Hnow Hc|w total w' w'' _ IH E].
  - split_and!; try done. left. by left.
  - destruct IH as (Hw & Hcap' & Hwf' & Ha'); [done..|].
    destruct (exec c cx w') as [[] w1|e w1|] eqn:E; unfold run_tx; rewrite E.
    + destruct (window_step _ _ _ _ _ _ _ _ E Hwf' Ha' Hhi Hnow Hc Hpos Hcap' Hw).
      split_and!; try done; [by eapply tr_wf_step|]. by rewrite (admin_kept _ _ _ _ E).
    + assert (withdrawn_by c cx w' = 0) as -> by (destruct c; cbn [withdrawn_by]; rewrite ?E; done).
      by rewrite Z.add_0_r.
    + assert (withdrawn_by c cx w' = 0) as -> by (destruct c; cbn [withdrawn_by]; rewrite ?E; done).
      by rewrite Z.add_0_r.
  - destruct IH as (Hw & Hcap' & Hwf' & Ha'); [done..|].
    unfold window, cap_of, epoch_withdrawn, epoch_start in *. rewrite E. split_and!; try done.
    destruct Hwf'. split; unfold cap_of, epoch_withdrawn in *; by rewrite E.
Qed.

(** ** Properties *)

(** C14: The withdrawal limit: while the cap is a positive [cap], in any window of
    24 hours, whatever calls are made and however they interleave with the rest of
    the ledger, the successful [withdraw]s take at most twice the cap in all, over
    all tokens together (the window can straddle one epoch boundary). *)
Theorem withdrawals_are_capped lo hi w total w' :
  reachable w -> 0 < cap_of w -> hi <= lo + 86400 -> withdrawals lo hi w total w' ->
  total <= 2 * cap_of w.
Proof.
  intros Hr Hpos Hhi Hws. pose proof (tr_wf_reachable _ Hr) as Hwf.
  assert (pget (st_get w) DataKey.Admin <> None) as Ha.
  { intros E. pose proof (wf_admin _ Hwf E). lia. }
  destruct (withdrawals_window _ _ _ _ _ _ Hws Hwf Ha Hhi Hpos eq_refl) as (Hw & _).
  destruct Hw as [[?|?]|(st & before & _ & _ & ? & ? & ?)]; lia.
Qed.

(** C26: A successful [withdraw] is the stored admin's, of a positive amount of a
    whitelisted token that the treasury holds, and moves exactly that amount to the
    recipient and nothing else. Without a cap (a cap of zero, as at initialization)
    it is not limited and nothing is charged; under a cap it is charged to the current
    epoch within the cap, a fresh epoch starting only when 24 hours have passed. *)
Theorem withdraw_correct a t r n cx w w' :
  withdraw a t r n cx w = Ret tt w' ->
  pget (st_get w) DataKey.Admin = Some a /\ authorized cx a = true /\
  pget (st_get w) (DataKey.WhitelistedToken t) = Some true /\
  0 < n <= tok_bal w t (cx_self cx) /\
  rate_limited n (cx_now cx) w w' /\
  (forall t' x, tok_bal w' t' x =
     if (t' =? t)%N then moved (cx_self cx) r x n (tok_bal w t' x) else tok_bal w t' x).
Proof.
  intros H. apply withdraw_effect in H as (? & ? & ? & ? & ? & ? & ? & ?). split_and!; done || lia.
Qed.

(** Tokens leave the treasury only by [withdraw] and [emergency_withdraw], and
    both need the stored admin's authorization and a whitelisted token: no other
    call changes any balance. *)
Theorem tokens_move_only_by_admin c cx w w' t x :
  exec c cx w = Ret tt w' -> tok_bal w' t x <> tok_bal w t x ->
  exists a r, ((exists n, c = CWithdraw a t r n) \/ c = CEmergencyWithdraw a t r) /\
    pget (st_get w) DataKey.Admin = Some a /\ authorized cx a = true /\
    pget (st_get w) (DataKey.WhitelistedToken t) = Some true.
Proof.
  intros H Hne. destruct c; try (exfalso; apply Hne; run_call H; by bal_simpl).
  - apply withdraw_effect in H as (Ha & Hau & Hw & _ & _ & _ & _ & Hb). rewrite Hb in Hne.
    destruct (N.eqb_spec t token) as [->|]; [|done]. exists admin, recipient. eauto 8.
  - apply emergency_effect in H as (Ha & Hau & Hw & Hb). rewrite Hb in Hne.
    destruct (N.eqb_spec t token) as [->|]; [|done]. exists admin, recipient. eauto 8.
Qed.

(** Once the treasury is initialised its withdrawal cap changes only by
    [execute_withdrawal_cap], by the stored admin, to the proposed value, at least
    24 hours after the proposal, which is consumed; the cap is never negative. *)
Theorem cap_changes_need_timelock c cx w w' :
  reachable w -> exec c cx w = Ret tt w' -> pget (st_get w) DataKey.Admin <> None ->
  cap_of w' <> cap_of w ->
  0 <= cap_of w' /\
  exists a cap proposed_at, c = CExecuteWithdrawalCap a /\
    pget (st_get w) DataKey.Admin = Some a /\ authorized cx a = true /\
    iget (st_get w) DataKey.WithdrawalCapProposal = Some (cap, proposed_at) /\
    proposed_at + 86400 <= cx_now cx /\ cap_of w' = cap /\
    iget (st_get w') DataKey.WithdrawalCapProposal = None.
Proof.
  intros Hr H Ha Hne. pose proof (tr_wf_step _ _ _ _ (tr_wf_reachable _ Hr) H) as Hwf.
  destruct (cap_evolves _ _ _ _ H Ha) as [?|Hx]; [done|]. split; [by destruct Hwf|done].
Qed.
End Properties.
