(* ===== verification/InvoiceNft.v ===== *)
(** * InvoiceNft: the registry of invoices
    (src/contracts/invoice_nft/src/lib.rs)

    State: [DataKey]. Operations: one definition per entry point; [exec] is the
    contract as a step function on its [Call]s. The lifecycle of an invoice,
    Created, Listed, Funded, then Repaid or Defaulted, is [lifecycle]. *)

From S2P Require Import Prelude Errors Types Host Events Reentrancy Validation Interfaces.

(** Schema v1 of [Invoice]. *)
Record InvoiceV1 := mkInvoiceV1 {
  v1_id : u64;
  v1_sme : Address;
  v1_debtor_hash : Bytes;
  v1_amount : i128;
  v1_currency : Symbol;
  v1_due_date : u64;
  v1_ipfs_cid : string;
  v1_risk_score : u32;
  v1_risk_tier : RiskTier;
  v1_status : InvoiceStatus;
  v1_created_at : u64;
  v1_funded_at : option u64;
  v1_repaid_at : option u64 }.

(** What an invoice slot holds: a record of the encoding it was written with. *)
Inductive StoredInvoice := StoredV1 (i : InvoiceV1) | StoredV2 (i : Types.Invoice).

Module DataKey.
Inductive t :=
  | Invoice (id : u64)
  | NextId
  | Admin
  | AccessControl
  | MigrationVersion
  | UpgradeProposal
  | Marketplace
  | FinancingPool
  | RiskRegistry
  | OutstandingExposure (sme : Address)
  | CurrencyAllowlist (currency : Symbol)
  | InvoiceFrozen (id : u64).

#[global] Instance t_eq_dec : EqDecision t.
Proof. solve_decision. Defined.

Definition val (k : t) : Type :=
  match k with
  | Invoice _ => StoredInvoice
  | NextId => u64
  | Admin | AccessControl | Marketplace | FinancingPool | RiskRegistry => Address
  | MigrationVersion => u32
  | UpgradeProposal => (BytesN32 * u64)%type
  | OutstandingExposure _ => i128
  | CurrencyAllowlist _ => bool
  | InvoiceFrozen _ => bool
  end.
End DataKey.

#[export] Instance DataKey_storage : StorageKey DataKey.t := {| sk_val := DataKey.val |}.

(** Reading a slot with the wrong record type is a failed conversion: a panic. *)
Definition as_v1 (s : StoredInvoice) : option InvoiceV1 :=
  match s with StoredV1 i => Some i | StoredV2 _ => None end.
Definition as_v2 (s : StoredInvoice) : option Invoice :=
  match s with StoredV1 _ => None | StoredV2 i => Some i end.

(** The [upgraded] record of [migrate]. *)
Definition upgraded (old : InvoiceV1) : Invoice :=
  mkInvoice (v1_id old) (v1_sme old) (v1_debtor_hash old) (v1_amount old) (v1_currency old)
    (v1_due_date old) (v1_ipfs_cid old) [] (v1_risk_score old) (v1_risk_tier old) (v1_status old)
    (v1_created_at old) (v1_funded_at old) (v1_repaid_at old) None.

(** The in-place assignments of [amend_invoice]. *)
Definition amended (debtor_hash : Bytes) (amount : i128) (due_date : u64) (ipfs_cid : string)
    (risk_score : u32) (i : Invoice) : Invoice :=
  mkInvoice (inv_id i) (inv_sme i) debtor_hash amount (inv_currency i) due_date ipfs_cid
    (inv_metadata_hash i) risk_score (from_score risk_score) (inv_status i) (inv_created_at i)
    (inv_funded_at i) (inv_repaid_at i) (inv_notes i).

Definition PERSISTENT_TTL_THRESHOLD : u32 := 518400.
Definition PERSISTENT_TTL_BUMP : u32 := 518400.

Section InvoiceNft.
Context {W : Type} `{!HasEvents W} `{!HasStorage W DataKey.t}
  `{!AccessControlClient W} `{!RiskRegistryClient W}.

(** ** Helpers *)

(** The keys allowed, as the reads of their addresses. *)
Fixpoint require_authorized_caller (caller : Address) (allowed : list (M W (option Address))) :
    M W unit :=
  match allowed with
  | [] => fail Unauthorized
  | key :: rest =>
      addr ← key;
      if bool_decide (addr = Some caller) then mret tt
      else require_authorized_caller caller rest
  end.

(** Extends the life of an entry. *)
Definition bump_persistent (key : DataKey.t) : M W unit := extend_ttl key PERSISTENT_TTL_THRESHOLD PERSISTENT_TTL_BUMP.

Definition bump_invoice_ttl (id : u64) : M W unit :=
  extend_ttl (DataKey.Invoice id) PERSISTENT_TTL_THRESHOLD PERSISTENT_TTL_BUMP.

Definition marketplace_key : M W (option Address) := instance_get DataKey.Marketplace.
Definition financing_pool_key : M W (option Address) := instance_get DataKey.FinancingPool.

Definition load_invoice (id : u64) : M W Invoice :=
  stored ← persistent_get_or (DataKey.Invoice id) InvoiceNotFound;
  or_trap (as_v2 stored).

Definition save_invoice (id : u64) (invoice : Invoice) : M W unit :=
  persistent_set (DataKey.Invoice id) (StoredV2 invoice).

Definition require_admin (caller : Address) : M W unit :=
  admin ← instance_get_or DataKey.Admin NotInitialized;
  fail_if (negb (admin =? caller)%N) NotAdmin.

Definition require_allowed_currency (currency : Symbol) : M W unit :=
  allowed ← persistent_get_default (DataKey.CurrencyAllowlist currency) false;
  fail_if (negb allowed) CurrencyNotAllowed.

Definition require_not_paused : M W unit :=
  ac ← instance_get_or DataKey.AccessControl NotInitialized;
  paused ← ac_is_paused ac;
  fail_if paused ProtocolPaused.

(** The release of outstanding exposure, three times in the source. *)
Definition release_exposure (sme : Address) (amount : i128) : M W unit :=
  prev ← persistent_get_default (DataKey.OutstandingExposure sme) 0;
  persistent_set (DataKey.OutstandingExposure sme) (saturating_sub prev amount).

(** ** Administration and migration *)

Definition initialize (admin access_control : Address) : M W unit :=
  has ← instance_has DataKey.Admin;
  fail_if has AlreadyInitialized;;
  self ← env_self;
  lift (require_not_self self admin);;
  lift (require_not_self self access_control);;
  lift (require_distinct admin access_control);;
  instance_set DataKey.Admin admin;;
  instance_set DataKey.AccessControl access_control;;
  instance_set DataKey.NextId 1;;
  instance_set DataKey.MigrationVersion 1.

Definition set_risk_registry (admin risk_registry : Address) : M W unit :=
  require_auth admin;;
  require_admin admin;;
  self ← env_self;
  lift (require_not_self self risk_registry);;
  instance_set DataKey.RiskRegistry risk_registry.

(** One round of [migrate]'s loop. *)
Definition migrate_one (id : u64) : M W unit :=
  stored ← (persistent_get (DataKey.Invoice id) : M W (option StoredInvoice));
  match stored with
  | Some s =>
      old ← or_trap (as_v1 s);
      save_invoice id (upgraded old)
  | None => mret tt
  end.

(** The [while id < next_id] loop, with [n] rounds left. *)
Fixpoint migrate_loop (n : nat) (id : u64) : M W unit :=
  match n with
  | O => mret tt
  | S n' => migrate_one id;; migrate_loop n' (id + 1)
  end.

Definition migrate (admin : Address) : M W unit :=
  require_auth admin;;
  require_admin admin;;
  current_version ← instance_get_default DataKey.MigrationVersion 0;
  when (current_version <? 1) (instance_set DataKey.MigrationVersion 1);;
  when (current_version <? 2) (
    next_id ← instance_get_default DataKey.NextId 1;
    migrate_loop (Z.to_nat (next_id - 1)) 1;;
    instance_set DataKey.MigrationVersion 2).

Definition set_authorized_callers (admin marketplace financing_pool : Address) : M W unit :=
  require_auth admin;;
  require_admin admin;;
  instance_set DataKey.Marketplace marketplace;;
  instance_set DataKey.FinancingPool financing_pool.

(** ** Minting and the SME's operations *)

(** The credit check inside [if let Some(rr_addr)]. *)
Definition check_credit_limit (rr_addr sme : Address) (amount : i128) : M W unit :=
  found ← rr_try_get_sme_profile rr_addr sme;
  match found with
  | None => mret tt
  | Some profile =>
      when (0 <? sp_credit_limit profile) (
        outstanding ← persistent_get_default (DataKey.OutstandingExposure sme) 0;
        new_exposure ← lift (ok_or (checked_add outstanding amount) ArithmeticOverflow);
        fail_if (new_exposure >? sp_credit_limit profile) CreditLimitExceeded)
  end.

Definition require_credit (sme : Address) (amount : i128) : M W unit :=
  rr ← (instance_get DataKey.RiskRegistry : M W (option Address));
  match rr with
  | Some rr_addr => check_credit_limit rr_addr sme amount
  | None => mret tt
  end.

Definition mint_invoice (sme : Address) (debtor_hash : Bytes) (amount : i128) (currency : Symbol)
    (due_date : u64) (ipfs_cid : string) (risk_score : u32) (notes : option string) : M W u64 :=
  require_auth sme;;
  require_not_paused;;
  with_guard DataKey.t (
    lift (require_non_zero_amount amount);;
    now ← env_now;
    lift (require_future_timestamp now due_date);;
    lift (require_valid_risk_score risk_score);;
    lift (require_non_empty_bytes debtor_hash);;
    lift (require_max_length_bytes debtor_hash MAX_DEBTOR_HASH_LEN);;
    lift (require_non_empty_string ipfs_cid);;
    lift (require_max_length_string ipfs_cid MAX_IPFS_CID_LEN);;
    require_credit sme amount;;
    id ← instance_get_default DataKey.NextId 1;
    save_invoice id
      (mkInvoice id sme debtor_hash amount currency due_date ipfs_cid [] risk_score
         (from_score risk_score) Created now None None notes);;
    bump_invoice_ttl id;;
    next ← lift (ok_or (fit_u64 (id + 1)) ArithmeticOverflow);
    instance_set DataKey.NextId next;;
    events.invoice_created id sme amount;;
    mret id).

Definition amend_invoice (sme : Address) (invoice_id : u64) (debtor_hash : Bytes) (amount : i128)
    (due_date : u64) (ipfs_cid : string) (risk_score : u32) : M W unit :=
  require_auth sme;;
  require_not_paused;;
  lift (require_non_zero_amount amount);;
  now ← env_now;
  lift (require_future_timestamp now due_date);;
  lift (require_valid_risk_score risk_score);;
  lift (require_non_empty_bytes debtor_hash);;
  lift (require_non_empty_string ipfs_cid);;
  invoice ← load_invoice invoice_id;
  fail_if (negb (bool_decide (inv_status invoice = Created))) InvalidInvoiceStatus;;
  fail_if (negb (inv_sme invoice =? sme)%N) NotInvoiceOwner;;
  save_invoice invoice_id (amended debtor_hash amount due_date ipfs_cid risk_score invoice);;
  bump_invoice_ttl invoice_id;;
  events.invoice_amended invoice_id sme.

Definition withdraw_invoice (sme : Address) (invoice_id : u64) : M W unit :=
  require_auth sme;;
  require_not_paused;;
  invoice ← load_invoice invoice_id;
  fail_if (negb (bool_decide (inv_status invoice = Created))) InvalidInvoiceStatus;;
  fail_if (negb (inv_sme invoice =? sme)%N) NotInvoiceOwner;;
  persistent_remove (DataKey.Invoice invoice_id);;
  release_exposure (inv_sme invoice) (inv_amount invoice);;
  events.invoice_withdrawn invoice_id sme.

Definition commit_metadata_hash (sme : Address) (invoice_id : u64) (metadata_hash : Bytes) :
    M W unit :=
  require_auth sme;;
  require_not_paused;;
  with_guard DataKey.t (
    lift (require_non_empty_bytes metadata_hash);;
    invoice ← load_invoice invoice_id;
    fail_if (negb (inv_sme invoice =? sme)%N) Unauthorized;;
    fail_if (negb (bool_decide (inv_status invoice = Created))) InvalidInvoiceStatus;;
    fail_if (negb (len (inv_metadata_hash invoice) =? 0)) AlreadyInitialized;;
    save_invoice invoice_id (with_metadata_hash metadata_hash invoice)).

(** ** Status transitions *)

Definition set_listed (caller : Address) (invoice_id : u64) : M W unit :=
  require_auth caller;;
  require_authorized_caller caller [marketplace_key];;
  require_not_paused;;
  with_guard DataKey.t (
    invoice ← load_invoice invoice_id;
    fail_if (negb (bool_decide (inv_status invoice = Created))) InvalidInvoiceStatus;;
    save_invoice invoice_id (with_status Listed invoice);;
    bump_invoice_ttl invoice_id;;
    events.invoice_listed invoice_id (inv_sme invoice) (inv_amount invoice)).

Definition set_funded (caller : Address) (invoice_id : u64) : M W unit :=
  require_auth caller;;
  require_authorized_caller caller [financing_pool_key];;
  require_not_paused;;
  with_guard DataKey.t (
    invoice ← load_invoice invoice_id;
    fail_if (negb (bool_decide (inv_status invoice = Listed))) InvalidInvoiceStatus;;
    now ← env_now;
    save_invoice invoice_id (with_funded_at (Some now) (with_status Funded invoice));;
    bump_invoice_ttl invoice_id;;
    events.invoice_funded invoice_id caller (inv_amount invoice)).

Definition set_repaid (caller : Address) (invoice_id : u64) : M W unit :=
  require_auth caller;;
  require_authorized_caller caller [financing_pool_key];;
  require_not_paused;;
  invoice ← load_invoice invoice_id;
  fail_if (negb (bool_decide (inv_status invoice = Funded))) InvalidInvoiceStatus;;
  now ← env_now;
  save_invoice invoice_id (with_repaid_at (Some now) (with_status Repaid invoice));;
  release_exposure (inv_sme invoice) (inv_amount invoice);;
  events.invoice_repaid invoice_id (inv_sme invoice) (inv_amount invoice).

Definition set_defaulted (caller : Address) (invoice_id : u64) : M W unit :=
  require_auth caller;;
  require_admin caller;;
  with_guard DataKey.t (
    invoice ← load_invoice invoice_id;
    fail_if (negb (bool_decide (inv_status invoice = Funded))) InvalidInvoiceStatus;;
    current_time ← env_now;
    fail_if (current_time <=? inv_due_date invoice) InvalidInvoiceStatus;;
    save_invoice invoice_id (with_status Defaulted invoice);;
    bump_invoice_ttl invoice_id;;
    release_exposure (inv_sme invoice) (inv_amount invoice);;
    events.invoice_defaulted invoice_id (inv_sme invoice)).

(** ** Views *)

Definition get_invoice (invoice_id : u64) : M W Invoice := load_invoice invoice_id.

Definition next_id : M W u64 := instance_get_default DataKey.NextId 1.

Definition invoice_count : M W u64 :=
  next ← instance_get_default DataKey.NextId 1;
  mret (u64_saturating_sub next 1).

Definition get_outstanding_exposure (sme : Address) : M W i128 :=
  persistent_get_default (DataKey.OutstandingExposure sme) 0.

Definition is_invoice_frozen (invoice_id : u64) : M W bool :=
  persistent_get_default (DataKey.InvoiceFrozen invoice_id) false.

Definition is_currency_allowed (currency : Symbol) : M W bool :=
  persistent_get_default (DataKey.CurrencyAllowlist currency) false.

(** ** Freeze, upgrade, currency allowlist *)

Definition freeze_invoice (admin : Address) (invoice_id : u64) : M W unit :=
  require_auth admin;;
  require_admin admin;;
  load_invoice invoice_id;;
  persistent_set (DataKey.InvoiceFrozen invoice_id) true;;
  bump_persistent (DataKey.InvoiceFrozen invoice_id);;
  events.invoice_frozen invoice_id admin.

Definition unfreeze_invoice (admin : Address) (invoice_id : u64) : M W unit :=
  require_auth admin;;
  require_admin admin;;
  load_invoice invoice_id;;
  persistent_remove (DataKey.InvoiceFrozen invoice_id);;
  events.invoice_unfrozen invoice_id admin.

Definition propose_upgrade (admin : Address) (new_wasm_hash : BytesN32) : M W unit :=
  require_auth admin;;
  require_admin admin;;
  now ← env_now;
  instance_set DataKey.UpgradeProposal (new_wasm_hash, now);;
  events.upgrade_proposed admin new_wasm_hash.

Definition execute_upgrade (admin : Address) : M W unit :=
  require_auth admin;;
  require_admin admin;;
  '(wasm_hash, proposed_at) ← instance_get_or DataKey.UpgradeProposal NoUpgradeProposed;
  now ← env_now;
  ready ← or_trap (fit_u64 (proposed_at + UPGRADE_TIMELOCK_DELAY));
  fail_if (now <? ready) UpgradeTimelockNotElapsed;;
  instance_remove DataKey.UpgradeProposal;;
  events.upgrade_executed admin wasm_hash;;
  update_current_contract_wasm (K:=DataKey.t) wasm_hash.

Definition add_allowed_currency (admin : Address) (currency : Symbol) : M W unit :=
  require_auth admin;;
  require_admin admin;;
  persistent_set (DataKey.CurrencyAllowlist currency) true;;
  extend_ttl (DataKey.CurrencyAllowlist currency) PERSISTENT_TTL_THRESHOLD PERSISTENT_TTL_BUMP.

Definition remove_allowed_currency (admin : Address) (currency : Symbol) : M W unit :=
  require_auth admin;;
  require_admin admin;;
  persistent_remove (DataKey.CurrencyAllowlist currency).
End InvoiceNft.

#[global] Arguments require_authorized_caller : simpl never.

(** ** The contract as a step function *)

Inductive Call :=
  | CInitialize (admin access_control : Address)
  | CSetRiskRegistry (admin risk_registry : Address)
  | CMigrate (admin : Address)
  | CSetAuthorizedCallers (admin marketplace financing_pool : Address)
  | CMint (sme : Address) (debtor_hash : Bytes) (amount : i128) (currency : Symbol)
      (due_date : u64) (ipfs_cid : string) (risk_score : u32) (notes : option string)
  | CAmend (sme : Address) (invoice_id : u64) (debtor_hash : Bytes) (amount : i128)
      (due_date : u64) (ipfs_cid : string) (risk_score : u32)
  | CWithdraw (sme : Address) (invoice_id : u64)
  | CCommitHash (sme : Address) (invoice_id : u64) (metadata_hash : Bytes)
  | CSetListed (caller : Address) (invoice_id : u64)
  | CSetFunded (caller : Address) (invoice_id : u64)
  | CSetRepaid (caller : Address) (invoice_id : u64)
  | CSetDefaulted (caller : Address) (invoice_id : u64)
  | CFreeze (admin : Address) (invoice_id : u64)
  | CUnfreeze (admin : Address) (invoice_id : u64)
  | CProposeUpgrade (admin : Address) (new_wasm_hash : BytesN32)
  | CExecuteUpgrade (admin : Address)
  | CAddCurrency (admin : Address) (currency : Symbol)
  | CRemoveCurrency (admin : Address) (currency : Symbol).

Section Exec.
Context {W : Type} `{!HasEvents W} `{!HasStorage W DataKey.t}
  `{!AccessControlClient W} `{!RiskRegistryClient W}.

Definition exec (c : Call) : M W unit :=
  match c with
  | CInitialize a ac => initialize a ac
  | CSetRiskRegistry a r => set_risk_registry a r
  | CMigrate a => migrate a
  | CSetAuthorizedCallers a m f => set_authorized_callers a m f
  | CMint s h n cu d ci r no => _ ← mint_invoice s h n cu d ci r no; mret tt
  | CAmend s i h n d c r => amend_invoice s i h n d c r
  | CWithdraw s i => withdraw_invoice s i
  | CCommitHash s i h => commit_metadata_hash s i h
  | CSetListed c i => set_listed c i
  | CSetFunded c i => set_funded c i
  | CSetRepaid c i => set_repaid c i
  | CSetDefaulted c i => set_defaulted c i
  | CFreeze a i => freeze_invoice a i
  | CUnfreeze a i => unfreeze_invoice a i
  | CProposeUpgrade a h => propose_upgrade a h
  | CExecuteUpgrade a => execute_upgrade a
  | CAddCurrency a c => add_allowed_currency a c
  | CRemoveCurrency a c => remove_allowed_currency a c
  end.

(** A call of the contract, or anything that does not write its storage. *)
Inductive step : W -> W -> Prop :=
  | step_call w cx c : step w (run_tx (exec c) cx w)
  | step_other w w' : st_get w' = st_get w -> step w w'.

Definition reachable (w : W) : Prop := exists w0, st_get w0 = empty_storage /\ rtc step w0 w.

(** The invoice stored under [id], in the current encoding. *)
Definition invoice (w : W) (id : u64) : option Invoice :=
  s ← (pget (st_get w) (DataKey.Invoice id) : option StoredInvoice); as_v2 s.

Definition next_invoice_id (w : W) : u64 := default 1 (iget (st_get w) DataKey.NextId).

Definition exposure (w : W) (sme : Address) : i128 :=
  default 0 (pget (st_get w) (DataKey.OutstandingExposure sme)).
End Exec.

Create HintDb invoice_nft.
#[export] Hint Unfold exec bump_persistent bump_invoice_ttl initialize set_risk_registry migrate set_authorized_callers mint_invoice
  amend_invoice withdraw_invoice commit_metadata_hash set_listed set_funded set_repaid
  set_defaulted freeze_invoice unfreeze_invoice propose_upgrade execute_upgrade
  add_allowed_currency remove_allowed_currency require_admin require_not_paused load_invoice
  save_invoice release_exposure require_credit check_credit_limit
  : invoice_nft.

(** ** Migration *)

Ltac in_range :=
  rewrite ?andb_true_iff, ?andb_false_iff, ?Z.leb_le, ?Z.ltb_lt, ?Z.leb_gt, ?Z.ltb_ge in *; lia.

Section Migration.
Context {W : Type} `{!HasEvents W} `{!HasStorage W DataKey.t} `{!StorageLaws W DataKey.t}.
Implicit Types (cx : Ctx) (w : W).

(** What the loop makes of a slot. *)
Definition migrated (o : option StoredInvoice) : option StoredInvoice :=
  match o with Some (StoredV1 old) => Some (StoredV2 (upgraded old)) | _ => o end.

Definition slot w (id : u64) : option StoredInvoice := pget (st_get w) (DataKey.Invoice id).

(** All but the invoice slots. *)
Definition same_but_slots w w' : Prop :=
  (forall k, iget (st_get w') k = iget (st_get w) k) /\
  (forall k, (forall j, k <> DataKey.Invoice j) -> pget (st_get w') k = pget (st_get w) k) /\
  st_lock (st_get w') = st_lock (st_get w) /\ st_wasm (st_get w') = st_wasm (st_get w).

Lemma migrate_one_run id cx w :
  match slot w id with
  | Some (StoredV2 _) => migrate_one id cx w = Trap
  | _ => exists w', migrate_one id cx w = Ret tt w' /\ same_but_slots w w' /\
      forall j, slot w' j = if j =? id then migrated (slot w j) else slot w j
  end.
Proof.
  unfold migrate_one, slot, persistent_get, mbind, M_bind, or_trap, save_invoice, persistent_set.
  unfold same_but_slots.
  destruct (pget (st_get w) (DataKey.Invoice id)) as [[old|i]|] eqn:E; cbn; [|done|].
  - eexists. split; [done|]. split.
    + split_and!; intros; by store_simpl.
    + intros j. destruct (Z.eqb_spec j id) as [->|Hne]; store_simpl; [by rewrite E|done].
  - eexists. split; [done|]. split; [by split_and!|].
    intros j. destruct (Z.eqb_spec j id) as [->|Hne]; [by rewrite E|done].
Qed.

Lemma same_but_slots_trans w1 w2 w3 :
  same_but_slots w1 w2 -> same_but_slots w2 w3 -> same_but_slots w1 w3.
Proof.
  intros (A1 & A2 & A3 & A4) (B1 & B2 & B3 & B4). split_and!.
  - intros k. by rewrite B1.
  - intros k Hk. rewrite B2 by done. by apply A2.
  - congruence.
  - congruence.
Qed.

(** The loop succeeds exactly when no slot in its range is already current, and
    then rewrites every one of them. *)
Lemma migrate_loop_run n id cx w :
  (exists w', migrate_loop n id cx w = Ret tt w' /\ same_but_slots w w' /\
     (forall j, slot w' j =
        if (id <=? j) && (j <? id + Z.of_nat n) then migrated (slot w j) else slot w j) /\
     forall j i, id <= j < id + Z.of_nat n -> slot w j <> Some (StoredV2 i)) \/
  (migrate_loop n id cx w = Trap /\
     exists j i, id <= j < id + Z.of_nat n /\ slot w j = Some (StoredV2 i)).
Proof.
  revert id w. induction n as [|n IH]; intros id w; cbn [migrate_loop].
  { left. exists w. split_and!; try done; [|lia]. intros j.
    change (Z.of_nat 0) with 0. by destruct ((id <=? j) && (j <? id + 0)) eqn:E; [lia|]. }
  pose proof (migrate_one_run id cx w) as H1.
  assert (Hone : (exists w1, migrate_one id cx w = Ret tt w1 /\ same_but_slots w w1 /\
      (forall j, slot w1 j = if j =? id then migrated (slot w j) else slot w j) /\
      (forall i, slot w id <> Some (StoredV2 i))) \/
    (migrate_one id cx w = Trap /\ exists i, slot w id = Some (StoredV2 i))).
  { destruct (slot w id) as [[old|i]|]; [left|right|left].
    - destruct H1 as (w1 & ? & ? & ?). exists w1. by split_and!.
    - eauto.
    - destruct H1 as (w1 & ? & ? & ?). exists w1. by split_and!. }
  destruct Hone as [(w1 & E1 & Hs1 & Hj1 & Hn1)|(E1 & i & Hi)].
  2: { right. split; [by apply bind_trap|]. exists id, i. split; [lia|done]. }
  rewrite (bind_run _ _ _ _ _ _ E1).
  destruct (IH (id + 1) w1) as [(w2 & E2 & Hs2 & Hj2 & Hn2)|(E2 & j & i & Hj & Hi)].
  - left. exists w2. split_and!; [done|by eapply same_but_slots_trans| |].
    + intros j. rewrite Hj2, Hj1.
      destruct (Z.eqb_spec j id) as [->|Hne].
      * destruct (_ && _) eqn:A; [in_range|]. destruct ((id <=? id) && _) eqn:B; [done|in_range].
      * destruct (_ && _) eqn:A; destruct ((id <=? j) && _) eqn:B; done || in_range.
    + intros j i Hj Hi. destruct (decide (j = id)) as [->|Hne]; [by eapply Hn1|].
      eapply (Hn2 j i); [lia|]. rewrite Hj1. by destruct (Z.eqb_spec j id).
  - right. split; [done|]. exists j, i. split; [lia|].
    rewrite Hj1 in Hi. by destruct (Z.eqb_spec j id); [lia|].
Qed.
End Migration.

(** ** How one call moves the state *)

Lemma authorized_caller_Ret {W} `{!HasStorage W DataKey.t} caller (allowed : list (M W (option Address)))
    u cx w w' :
  Forall (fun m => ReadOnly m) allowed ->
  require_authorized_caller caller allowed cx w = Ret u w' ->
  w' = w /\ Exists (fun m => m cx w = Ret (Some caller) w) allowed.
Proof.
  induction 1 as [|m rest Hm _ IH]; cbn [require_authorized_caller]; [done|]. intros H.
  apply bind_Ret in H as (a & w1 & E & H). pose proof (Hm _ _ _ _ E) as ->.
  case_bool_decide as Hc.
  - apply mret_Ret in H as [_ ->]. split; [done|]. left. congruence.
  - destruct (IH H) as [-> Hex]. split; [done|]. by right.
Qed.

Lemma marketplace_caller {W} `{!HasStorage W DataKey.t} caller u cx (w w' : W) :
  require_authorized_caller caller [marketplace_key] cx w = Ret u w' ->
  iget (st_get w) DataKey.Marketplace = Some caller /\ w' = w.
Proof.
  intros H. apply authorized_caller_Ret in H as [-> Hex].
  - split; [|done]. apply Exists_cons in Hex as [Hex|Hex]; [by injection Hex|by inversion Hex].
  - repeat constructor. by intros ???? [= <- <-].
Qed.

Lemma pool_caller {W} `{!HasStorage W DataKey.t} caller u cx (w w' : W) :
  require_authorized_caller caller [financing_pool_key] cx w = Ret u w' ->
  iget (st_get w) DataKey.FinancingPool = Some caller /\ w' = w.
Proof.
  intros H. apply authorized_caller_Ret in H as [-> Hex].
  - split; [|done]. apply Exists_cons in Hex as [Hex|Hex]; [by injection Hex|by inversion Hex].
  - repeat constructor. by intros ???? [= <- <-].
Qed.

Ltac learn_callers :=
  repeat match goal with
  | H : require_authorized_caller _ [marketplace_key] _ _ = Ret _ _ |- _ =>
      apply marketplace_caller in H as [? ?]; subst
  | H : require_authorized_caller _ [financing_pool_key] _ _ = Ret _ _ |- _ =>
      apply pool_caller in H as [? ?]; subst
  end.

Lemma as_v2_Some s i : as_v2 s = Some i -> s = StoredV2 i.
Proof. destruct s; [done|]. by intros [= ->]. Qed.

Ltac learn_slots :=
  repeat match goal with H : as_v2 _ = Some _ |- _ => apply as_v2_Some in H; subst end.

(** Runs a call backwards: the guards it passed and the storage it left. *)
Ltac run_call H :=
  cbn [exec] in H; autounfold with invoice_nft in H; minv H; learn_callers; learn_views;
  learn_frames DataKey.t; learn_slots; store_facts; use_frames; store_facts; store_simpl.

Section Steps.
Context {W : Type} `{!HasEvents W} `{!HasStorage W DataKey.t} `{!StorageLaws W DataKey.t}
  `{!AccessControlClient W} `{!RiskRegistryClient W}
  `{!AccessControlLaws W} `{!ProfileFrame W DataKey.t}.
Implicit Types (cx : Ctx) (w : W).

(** The lifecycle of one invoice: what each operation may do to the record stored
    under [id]. *)
Inductive lifecycle (c : Call) (cx : Ctx) (w : W) (id : u64) :
    option StoredInvoice -> option StoredInvoice -> Prop :=
  | lc_same o : lifecycle c cx w id o o
  | lc_mint o sme h n cu due cid risk notes :
      c = CMint sme h n cu due cid risk notes -> id = next_invoice_id w ->
      authorized cx sme = true ->
      0 < n -> cx_now cx < due -> risk <= 100 -> 0 < len h <= 64 -> 0 < string_len cid <= 128 ->
      lifecycle c cx w id o
        (Some (StoredV2 (mkInvoice id sme h n cu due cid [] risk (from_score risk) Created
                           (cx_now cx) None None notes)))
  | lc_amend i sme h n due cid risk :
      c = CAmend sme id h n due cid risk -> authorized cx sme = true ->
      inv_status i = Created -> inv_sme i = sme ->
      0 < n -> cx_now cx < due -> risk <= 100 -> 0 < len h -> 0 < string_len cid ->
      lifecycle c cx w id (Some (StoredV2 i)) (Some (StoredV2 (amended h n due cid risk i)))
  | lc_withdraw i sme :
      c = CWithdraw sme id -> authorized cx sme = true ->
      inv_status i = Created -> inv_sme i = sme ->
      lifecycle c cx w id (Some (StoredV2 i)) None
  | lc_commit i sme h :
      c = CCommitHash sme id h -> authorized cx sme = true ->
      inv_status i = Created -> inv_sme i = sme -> inv_metadata_hash i = [] -> 0 < len h ->
      lifecycle c cx w id (Some (StoredV2 i)) (Some (StoredV2 (with_metadata_hash h i)))
  | lc_list i m :
      c = CSetListed m id -> iget (st_get w) DataKey.Marketplace = Some m ->
      authorized cx m = true -> inv_status i = Created ->
      lifecycle c cx w id (Some (StoredV2 i)) (Some (StoredV2 (with_status Listed i)))
  | lc_fund i p :
      c = CSetFunded p id -> iget (st_get w) DataKey.FinancingPool = Some p ->
      authorized cx p = true -> inv_status i = Listed ->
      lifecycle c cx w id (Some (StoredV2 i))
        (Some (StoredV2 (with_funded_at (Some (cx_now cx)) (with_status Funded i))))
  | lc_repay i p :
      c = CSetRepaid p id -> iget (st_get w) DataKey.FinancingPool = Some p ->
      authorized cx p = true -> inv_status i = Funded ->
      lifecycle c cx w id (Some (StoredV2 i))
        (Some (StoredV2 (with_repaid_at (Some (cx_now cx)) (with_status Repaid i))))
  | lc_default i a :
      c = CSetDefaulted a id -> iget (st_get w) DataKey.Admin = Some a ->
      authorized cx a = true -> inv_status i = Funded -> inv_due_date i < cx_now cx ->
      lifecycle c cx w id (Some (StoredV2 i)) (Some (StoredV2 (with_status Defaulted i)))
  | lc_migrate old a :
      c = CMigrate a -> iget (st_get w) DataKey.Admin = Some a -> authorized cx a = true ->
      lifecycle c cx w id (Some (StoredV1 old)) (Some (StoredV2 (upgraded old))).

Lemma migrate_effect a cx w w' :
  migrate a cx w = Ret tt w' ->
  iget (st_get w) DataKey.Admin = Some a /\ authorized cx a = true /\
  (forall k, k <> DataKey.MigrationVersion -> iget (st_get w') k = iget (st_get w) k) /\
  (forall k, (forall j, k <> DataKey.Invoice j) -> pget (st_get w') k = pget (st_get w) k) /\
  (forall j, slot w' j = slot w j \/ slot w' j = migrated (slot w j)) /\
  (default 0 (iget (st_get w) DataKey.MigrationVersion) < 2 ->
     iget (st_get w') DataKey.MigrationVersion = Some 2 /\
     forall j i, 1 <= j < next_invoice_id w -> slot w j <> Some (StoredV2 i)).
Proof.
  intros H. autounfold with invoice_nft in H. minv H; guards; subst.
  all: repeat match goal with
  | H : migrate_loop ?n ?i ?cx ?w = Ret _ _ |- _ =>
      let A := fresh "A" in
      destruct (migrate_loop_run n i cx w) as [(? & A & (Hi & Hp & Hl & Hw) & Hs & Hno)|[A _]];
        rewrite A in H; simplify_eq
  end.
  all: try (exfalso; lia).
  { split_and!; try done; [by left|lia]. }
  all: unfold slot, next_invoice_id in *; store_facts; (split_and!; [done|done|..]).
  all: try (intros k Hk; store_simpl; rewrite ?Hi, ?Hp by done; by store_simpl).
  all: try (intros j; store_simpl; rewrite Hs; case_match; store_simpl; auto).
  all: intros _; (split; [by store_simpl|]); intros j i Hj; specialize (Hno j i);
    store_simpl in Hno; apply Hno; lia.
Qed.

Definition is_migrate (c : Call) : bool := if c is CMigrate _ then true else false.

Lemma invoice_evolves c cx w w' id :
  exec c cx w = Ret tt w' -> lifecycle c cx w id (slot w id) (slot w' id).
Proof.
  intros H.
  destruct (is_migrate c) eqn:Hm.
  { destruct c as [| |a| | | | | | | | | | | | | | |]; try done. apply migrate_effect in H as (Ha & Hau & _ & _ & Hs & _).
    destruct (Hs id) as [->| ->]; [by apply lc_same|].
    destruct (slot w id) as [[old|i]|]; [|by apply lc_same|by apply lc_same].
    by eapply lc_migrate. }
  unfold slot. destruct c; try done; run_call H; try (by apply lc_same);
    guards; subst.
  1-4: fold (next_invoice_id w); destruct (decide (next_invoice_id w = id)) as [<-|Hne];
    [store_simpl; eapply lc_mint; unfold MAX_DEBTOR_HASH_LEN, MAX_IPFS_CID_LEN in *
    |store_simpl; apply lc_same];
    first [done | lia | split; unfold len, string_len in *; lia].
  all: destruct (decide (invoice_id = id)) as [->|Hne]; [store_simpl|store_simpl; apply lc_same].
  all: match goal with E : pget _ _ = Some _ |- _ => rewrite E end.
  - eapply lc_amend; try done; unfold len, string_len in *; lia.
  - by eapply lc_withdraw.
  - eapply lc_commit; try done; unfold len in *; [|lia]. by destruct (inv_metadata_hash _).
  - by eapply lc_list.
  - by eapply lc_fund.
  - by eapply lc_repay.
  - eapply lc_default; try done. lia.
Qed.

Definition is_mint (c : Call) : bool := if c is CMint _ _ _ _ _ _ _ _ then true else false.

Lemma next_id_evolves c cx w w' :
  exec c cx w = Ret tt w' ->
  (next_invoice_id w' = if is_mint c then next_invoice_id w + 1 else next_invoice_id w) \/
  (exists a ac, c = CInitialize a ac /\ iget (st_get w) DataKey.Admin = None /\
     next_invoice_id w' = 1).
Proof.
  intros H. destruct (is_migrate c) eqn:Hm.
  { destruct c as [| |a| | | | | | | | | | | | | | |]; try done. left.
    apply migrate_effect in H as (_ & _ & Hi & _). unfold next_invoice_id. cbn [is_mint].
    by rewrite Hi. }
  unfold next_invoice_id.
  destruct c; try done; run_call H; try (by left); guards; subst; try (by left).
  right. do 2 eexists. split_and!; try done. by destruct (iget _ DataKey.Admin).
Qed.

Lemma exposure_evolves c cx w w' sme :
  exec c cx w = Ret tt w' ->
  exposure w' sme = exposure w sme \/
  exists id i, slot w id = Some (StoredV2 i) /\ inv_sme i = sme /\
    exposure w' sme = saturating_sub (exposure w sme) (inv_amount i).
Proof.
  intros H. destruct (is_migrate c) eqn:Hm.
  { destruct c as [| |a| | | | | | | | | | | | | | |]; try done. left.
    apply migrate_effect in H as (_ & _ & _ & Hp & _). unfold exposure. by rewrite Hp. }
  unfold exposure, slot.
  destruct c; try done; run_call H; try (by left); guards; subst; try (by left).
  all: match goal with |- context [DataKey.OutstandingExposure (inv_sme ?i)] =>
    destruct (decide (inv_sme i = sme)) as [<-|Hne]; [right|left; by store_simpl] end.
  all: do 2 eexists; split_and!; [done|done|by store_simpl].
Qed.

Lemma nft_config_evolves c cx w w' :
  exec c cx w = Ret tt w' ->
  (iget (st_get w') DataKey.Admin = iget (st_get w) DataKey.Admin /\
   iget (st_get w') DataKey.AccessControl = iget (st_get w) DataKey.AccessControl) \/
  iget (st_get w') DataKey.Admin <> None.
Proof.
  intros H. destruct (is_migrate c) eqn:Hm.
  { destruct c as [| |a| | | | | | | | | | | | | | |]; try done. left.
    apply migrate_effect in H as (_ & _ & Hi & _). by rewrite !Hi. }
  destruct c; try done; run_call H; auto.
Qed.

(** ** Invariant of the reachable states *)

(** A record the contract can have written. *)
Record invoice_ok (id : u64) (i : Invoice) : Prop := {
  ok_id : inv_id i = id;
  ok_amount : 0 < inv_amount i;
  ok_score : inv_risk_score i <= 100;
  ok_tier : inv_risk_tier i = from_score (inv_risk_score i);
  ok_hash : 0 < len (inv_debtor_hash i);
  ok_cid : 0 < string_len (inv_ipfs_cid i);
  ok_times : match inv_status i with
             | Created | Listed => inv_funded_at i = None /\ inv_repaid_at i = None
             | Funded | Defaulted => inv_funded_at i <> None /\ inv_repaid_at i = None
             | Repaid => inv_funded_at i <> None /\ inv_repaid_at i <> None
             end }.

Record wf (w : W) : Prop := {
  wf_next : 1 <= next_invoice_id w;
  wf_slot : forall id s, slot w id = Some s ->
    1 <= id < next_invoice_id w /\ exists i, s = StoredV2 i /\ invoice_ok id i;
  wf_exposure : forall sme, exposure w sme <= 0;
  wf_fresh : iget (st_get w) DataKey.Admin = None ->
    iget (st_get w) DataKey.AccessControl = None /\ next_invoice_id w = 1 /\
    forall id, slot w id = None }.

Lemma lifecycle_ok c cx w id o s :
  (forall i, o = Some (StoredV2 i) -> invoice_ok id i) -> (forall i, o <> Some (StoredV1 i)) ->
  lifecycle c cx w id o (Some s) -> exists i, s = StoredV2 i /\ invoice_ok id i.
Proof.
  intros Ho Hv1 Hl. inversion Hl; subst; try (specialize (Ho _ eq_refl); destruct Ho);
    try (by edestruct Hv1);
    try (eexists; split; [done|]; split; cbn; try done;
         repeat match goal with H : inv_status _ = _ |- _ => rewrite H in * end;
         try match goal with H : _ /\ _ |- _ => destruct H end; split; done).
  - destruct s as [i|i]; [by edestruct Hv1|]. eauto.
  - eexists. split; [done|]. split; cbn; lia || done.
Qed.

Lemma nft_wf_step c cx w w' : wf w -> exec c cx w = Ret tt w' -> wf w'.
Proof.
  intros [Hn Hs He Hf] H.
  pose proof (next_id_evolves _ _ _ _ H) as Hn'.
  assert (Hmono : (exists a ac, c = CInitialize a ac /\ iget (st_get w) DataKey.Admin = None) \/
                  next_invoice_id w <= next_invoice_id w').
  { destruct Hn' as [->|(a & ac & -> & Ha & _)]; [right; destruct (is_mint c); lia|left; eauto]. }
  assert (Hslot : forall id s, slot w' id = Some s ->
            1 <= id < next_invoice_id w' /\ exists i, s = StoredV2 i /\ invoice_ok id i).
  { intros id s Es. pose proof (invoice_evolves _ _ _ _ id H) as Hl. rewrite Es in Hl.
    split.
    - destruct Hmono as [(a & ac & -> & Ha)|Hle].
      + inversion Hl as [o Eo Eo'| | | | | | | | |]; try done. destruct (Hf Ha) as (_ & _ & Hnone). rewrite Hnone in *. done.
      + inversion Hl; subst;
          try (match goal with Eo : Some _ = slot w id |- _ => destruct (Hs id _ (eq_sym Eo)) as [? _]; lia end).
        * destruct (Hs id s) as [? _]; [congruence|lia].
        * destruct Hn' as [->|(a & ac & ? & _)]; [cbn [is_mint]; lia|done].
    - eapply (lifecycle_ok c cx w id (slot w id)); [| |done].
      + intros i Ei. destruct (Hs _ _ Ei) as (_ & i' & [= ->] & Hok). done.
      + intros i Ei. by destruct (Hs _ _ Ei) as (_ & i' & ? & _). }
  split; [|exact Hslot| |].
  - destruct Hn' as [->|(a & ac & -> & Ha & ->)]; [destruct (is_mint c); lia|lia].
  - intros sme. destruct (exposure_evolves _ _ _ _ sme H) as [->|(id & i & Es & _ & ->)]; [done|].
    destruct (Hs _ _ Es) as (_ & i' & [= <-] & Hok). pose proof (ok_amount _ _ Hok).
    specialize (He sme). unfold saturating_sub, clamp, i128_min, i128_max. lia.
  - intros Ha'. destruct (nft_config_evolves _ _ _ _ H) as [[Ea Eac]|?]; [|done].
    rewrite Ea in Ha'. destruct (Hf Ha') as (Hac & Hone & Hnone).
    assert (is_mint c = false) as Hmint by (destruct c; try done; run_call H; congruence).
    split_and!; [congruence| |].
    + destruct Hn' as [->|(a & ac & _ & _ & ->)]; [by rewrite Hmint|done].
    + intros id. pose proof (invoice_evolves _ _ _ _ id H) as Hl. rewrite Hnone in Hl.
      by inversion Hl; subst.
Qed.

Lemma nft_wf_reachable w : reachable w -> wf w.
Proof.
  intros (w0 & E & Hst).
  assert (Hw : wf w0).
  { split; unfold next_invoice_id, slot, exposure; rewrite E; done. }
  clear E. induction Hst as [w|w w1 w2 Hs _ IH]; [done|]. apply IH.
  destruct Hs as [w cx c|w w' E].
  - destruct (run_tx_cases (exec c) cx w) as [->|([] & w' & E & ->)]; [done|]. by eapply nft_wf_step.
  - destruct Hw. split; unfold next_invoice_id, slot, exposure in *; by rewrite E.
Qed.

(** No call leaves the reentrancy lock held. *)
Lemma nft_lock_step c cx w w' :
  st_lock (st_get w) = false -> exec c cx w = Ret tt w' -> st_lock (st_get w') = false.
Proof.
  intros Hl H. destruct (is_migrate c) eqn:Hm.
  { destruct c as [| |a| | | | | | | | | | | | | | |]; try done. autounfold with invoice_nft in H. minv H.
    all: try match goal with H : migrate_loop ?n ?i ?cx ?w = Ret _ _ |- _ =>
      let A := fresh "A" in
      destruct (migrate_loop_run n i cx w) as [(? & A & (_ & _ & Hk & _) & _)|[A _]];
        rewrite A in H; simplify_eq end.
    all: store_simpl; repeat match goal with Hk : st_lock (st_get ?v) = _ |- context [st_lock (st_get ?v)] => rewrite Hk; store_simpl end; done. }
  destruct c; try done; run_call H; done.
Qed.

Lemma nft_lock_reachable w : reachable w -> st_lock (st_get w) = false.
Proof.
  intros (w0 & E & Hst). assert (st_lock (st_get w0) = false) as Hl by by rewrite E.
  clear E. induction Hst as [w|w w1 w2 Hs _ IH]; [done|]. apply IH.
  destruct Hs as [w cx c|w w' E]; [|by rewrite E].
  destruct (run_tx_cases (exec c) cx w) as [->|([] & w' & E & ->)]; [done|]. by eapply nft_lock_step.
Qed.

(** ** Properties *)

(** The economic content of an invoice. *)
Definition terms (i : Invoice) :=
  (inv_id i, inv_sme i, inv_debtor_hash i, inv_amount i, inv_currency i, inv_due_date i,
   inv_ipfs_cid i, inv_metadata_hash i, (inv_risk_score i, inv_risk_tier i, inv_created_at i,
   inv_notes i)).

(** The edges of the status machine. *)
Definition next_status (s s' : InvoiceStatus) : bool :=
  match s, s' with
  | Created, Created | Created, Listed | Listed, Funded | Funded, Repaid | Funded, Defaulted => true
  | _, _ => false
  end.

(** C12: The lifecycle of an invoice: in every reachable state a successful call
    changes the record under an id only by one edge of Created -> Listed -> Funded
    -> Repaid or Defaulted (or an edit while Created), made by the party of that
    edge ([lifecycle]); from Listed on the edge changes no term of the invoice, at
    any time it keeps its SME; a record appears only as a Created one under a fresh
    id and disappears only while Created. *)
Theorem invoice_lifecycle c cx w w' id :
  reachable w -> exec c cx w = Ret tt w' -> slot w' id <> slot w id ->
  lifecycle c cx w id (slot w id) (slot w' id) /\
  match slot w id, slot w' id with
  | Some (StoredV2 i), Some (StoredV2 i') =>
      next_status (inv_status i) (inv_status i') = true /\ inv_sme i' = inv_sme i /\
      (inv_status i' <> Created -> terms i' = terms i)
  | Some (StoredV2 i), None => inv_status i = Created
  | None, Some (StoredV2 i') => inv_status i' = Created /\ id = next_invoice_id w
  | _, _ => False
  end.
Proof.
  intros Hr H Hne. pose proof (invoice_evolves _ _ _ _ id H) as Hl. split; [done|].
  pose proof (wf_slot _ (nft_wf_reachable _ Hr) id) as Hs.
  revert Hl Hne Hs. generalize (slot w id), (slot w' id). intros o o' Hl Hne Hs.
  destruct Hl as [o|o| | | | | | | |old a Hc Ha Hau]; try done.
  1: { destruct o as [s|]; [|done]. destruct (Hs s eq_refl) as [? _]. lia. }
  all: try (by destruct (Hs _ eq_refl) as (_ & ? & ? & _)).
  all: cbn; repeat match goal with E : inv_status _ = _ |- _ => rewrite E end; done.
Qed.

(** Position of a status in the lifecycle. *)
Definition rank (s : InvoiceStatus) : Z :=
  match s with Created => 0 | Listed => 1 | Funded => 2 | Repaid | Defaulted => 3 end.

Definition final (s : InvoiceStatus) : bool :=
  match s with Repaid | Defaulted => true | _ => false end.

Lemma nft_step_reachable w w' : reachable w -> step w w' -> reachable w'.
Proof. intros (w0 & ? & ?) Hs. exists w0. split; [done|]. by eapply rtc_r. Qed.

Definition listed_follows (i : Invoice) (o : option StoredInvoice) : Prop :=
  exists i', o = Some (StoredV2 i') /\ terms i' = terms i /\
    inv_status i' <> Created /\ rank (inv_status i) <= rank (inv_status i') /\
    (final (inv_status i) = true -> i' = i).

Lemma listed_same i : inv_status i <> Created -> listed_follows i (Some (StoredV2 i)).
Proof. intros. exists i. split_and!; done || lia. Qed.

Lemma lifecycle_listed c cx w id i o :
  lifecycle c cx w id (Some (StoredV2 i)) o -> id <> next_invoice_id w ->
  inv_status i <> Created -> listed_follows i o.
Proof.
  intros Hl Hid Hst. inversion Hl; subst; try congruence; [by apply listed_same|..].
  all: eexists; (split; [done|]); cbn;
    repeat match goal with E : inv_status _ = _ |- _ => rewrite E end; split_and!; done || lia.
Qed.

Lemma listed_step w w' id i :
  wf w -> step w w' -> slot w id = Some (StoredV2 i) -> inv_status i <> Created ->
  listed_follows i (slot w' id).
Proof.
  intros Hwf Hs Ei Hst. destruct Hs as [w cx c|w w' E].
  - destruct (run_tx_cases (exec c) cx w) as [->|([] & w' & E & ->)].
    { rewrite Ei. by apply listed_same. }
    pose proof (invoice_evolves _ _ _ _ id E) as Hl. rewrite Ei in Hl.
    eapply lifecycle_listed; [done| |done].
    destruct (wf_slot _ Hwf _ _ Ei) as [? _]. lia.
  - unfold slot in *. rewrite E, Ei. by apply listed_same.
Qed.

(** The steps of a run that starts with the invoice listed. *)
Lemma listed_invoices_run w w' id i :
  reachable w -> rtc step w w' ->
  slot w id = Some (StoredV2 i) -> inv_status i <> Created ->
  exists i', slot w' id = Some (StoredV2 i') /\ terms i' = terms i /\
    rank (inv_status i) <= rank (inv_status i') /\ (final (inv_status i) = true -> i' = i).
Proof.
  intros Hr Hs. revert i. induction Hs as [w|w w1 w2 Hs _ IH]; intros i Ei Hst.
  { exists i. split_and!; done || lia. }
  destruct (listed_step _ _ _ _ (nft_wf_reachable _ Hr) Hs Ei Hst) as (i1 & E1 & Ht & Hst1 & Hrk & Hf).
  destruct (IH (nft_step_reachable _ _ Hr Hs) _ E1 Hst1) as (i2 & E2 & Ht2 & Hrk2 & Hf2).
  exists i2. split_and!; [done|congruence|lia|].
  intros Hfin. rewrite (Hf Hfin) in *. by apply Hf2.
Qed.

(** C13: Once an invoice is listed its terms never change again, its status only
    moves forward, and once it is Repaid or Defaulted its record is final, whatever
    transactions follow. *)
Theorem listed_invoices_are_immutable w w' id i :
  reachable w -> rtc step w w' ->
  slot w id = Some (StoredV2 i) -> inv_status i <> Created ->
  exists i', slot w' id = Some (StoredV2 i') /\ terms i' = terms i /\
    rank (inv_status i) <= rank (inv_status i') /\ (final (inv_status i) = true -> i' = i).
Proof. apply listed_invoices_run. Qed.

(** A minted invoice gets the next id, under which nothing was stored, and a
    Created record of exactly the fields asked for, with a positive amount, a due
    date in the future, a risk score of at most 100 and its tier; the next id moves
    on by one, and every other record stays. *)
Theorem mint_correct sme h n cu due cid risk notes cx w id w' :
  reachable w -> mint_invoice sme h n cu due cid risk notes cx w = Ret id w' ->
  authorized cx sme = true /\ id = next_invoice_id w /\ slot w id = None /\
  slot w' id = Some (StoredV2 (mkInvoice id sme h n cu due cid [] risk (from_score risk) Created
                                 (cx_now cx) None None notes)) /\
  next_invoice_id w' = id + 1 /\ (forall j, j <> id -> slot w' j = slot w j) /\
  0 < n /\ cx_now cx < due /\ risk <= 100 /\ 0 < len h <= 64 /\ 0 < string_len cid <= 128.
Proof.
  intros Hr H. pose proof (wf_slot _ (nft_wf_reachable _ Hr)) as Hs.
  assert (Hfresh : slot w (next_invoice_id w) = None).
  { destruct (slot w (next_invoice_id w)) as [s|] eqn:E; [|done].
    destruct (Hs _ _ E) as [? _]. lia. }
  unfold slot in *. run_call H; guards; subst; fold (next_invoice_id w) in *;
    unfold MAX_DEBTOR_HASH_LEN, MAX_IPFS_CID_LEN in *.
  all: split_and!; try done; try lia; try (unfold len, string_len in *; lia).
  all: first [by store_simpl | unfold next_invoice_id; by store_simpl | idtac].
  all: intros j Hj; by store_simpl.
Qed.

(** Ids are never reused: once an id has been handed out and its invoice
    withdrawn, no later transaction stores anything under it again. *)
Theorem ids_are_never_reused w w' id :
  reachable w -> rtc step w w' -> 1 <= id < next_invoice_id w -> slot w id = None ->
  slot w' id = None.
Proof.
  intros Hr Hs. induction Hs as [w|w w1 w2 Hs _ IH]; intros Hid Hn; [done|].
  assert (slot w1 id = None /\ next_invoice_id w <= next_invoice_id w1) as [Hn1 Hle].
  { destruct Hs as [w cx c|w w1 E].
    - destruct (run_tx_cases (exec c) cx w) as [->|([] & w1 & E & ->)]; [by split|].
      pose proof (invoice_evolves _ _ _ _ id E) as Hl. rewrite Hn in Hl. split.
      + inversion Hl; subst; [done|lia].
      + destruct (next_id_evolves _ _ _ _ E) as [->|(a & ac & -> & Ha & _)]; [destruct (is_mint c); lia|].
        destruct (wf_fresh _ (nft_wf_reachable _ Hr) Ha) as (_ & Hone & _). lia.
    - unfold slot, next_invoice_id in *. rewrite E. by split. }
  apply IH; [by eapply nft_step_reachable|lia|done].
Qed.

(** C31: Every invoice stored in a reachable state sits under its own id, has a
    positive amount, a debtor hash, a CID, a risk score of at most 100 with the tier
    of that score, a funding time exactly when it has been funded and a repayment
    time exactly when it is Repaid. *)
Theorem stored_invoices_are_well_formed w id s :
  reachable w -> slot w id = Some s ->
  1 <= id < next_invoice_id w /\ exists i, s = StoredV2 i /\ invoice_ok id i.
Proof. intros Hr. apply (wf_slot _ (nft_wf_reachable _ Hr)). Qed.

(** The recorded outstanding exposure of an SME is never positive: minting
    never adds to it, while repayment, default and withdrawal subtract. So the
    credit check never sees the invoices an SME has open: it refuses a new one only
    when that one alone is above the limit. *)
Theorem exposure_is_never_positive w sme :
  reachable w -> exposure w sme <= 0.
Proof. intros Hr. apply (wf_exposure _ (nft_wf_reachable _ Hr)). Qed.

Lemma require_admin_run a cx w :
  iget (st_get w) DataKey.Admin = Some a -> require_admin a cx w = Ret tt w.
Proof.
  intros Ha. unfold require_admin. rewrite (bind_run _ _ _ _ a w).
  - unfold fail_if. by rewrite N.eqb_refl.
  - unfold instance_get_or. by rewrite Ha.
Qed.

(** The body of [migrate] below version 2, after the version 0 step. *)
Lemma migrate_run a cx w :
  iget (st_get w) DataKey.Admin = Some a -> authorized cx a = true ->
  default 0 (iget (st_get w) DataKey.MigrationVersion) < 2 ->
  exists w1, (forall j, slot w1 j = slot w j) /\
    migrate a cx w =
      (migrate_loop (Z.to_nat (next_invoice_id w - 1)) 1;;
       instance_set DataKey.MigrationVersion 2) cx w1.
Proof.
  intros Ha Hau Hver. unfold migrate. set (v := default 0 _) in *.
  exists (if v <? 1 then st_put (@iset DataKey.t DataKey_storage DataKey.MigrationVersion 1 (st_get w)) w else w). split.
  { intros j. unfold slot. destruct (v <? 1); by store_simpl. }
  rewrite (bind_run _ _ _ _ tt w) by (unfold require_auth; by rewrite Hau).
  rewrite (bind_run _ _ _ _ tt w) by by apply require_admin_run.
  rewrite (bind_run _ _ _ _ v w) by done.
  rewrite (bind_run _ _ _ _ tt (if v <? 1 then st_put (@iset DataKey.t DataKey_storage DataKey.MigrationVersion 1 (st_get w)) w else w))
    by (unfold when; by destruct (v <? 1)).
  unfold when. destruct (v <? 2) eqn:E; [|lia].
  etransitivity; [apply (bind_run _ _ _ _ (next_invoice_id w))|done].
  unfold instance_get_default, next_invoice_id. destruct (v <? 1); by store_simpl.
Qed.

(** Migration from schema v1: called by the admin below version 2, when no slot
    in use holds a v2 record, it succeeds, sets the version to 2 and rewrites every
    v1 record below the next id as the v2 record with the same fields, no metadata
    hash and no notes; the loop always ends. *)
Theorem migrate_upgrades_v1 a cx w :
  iget (st_get w) DataKey.Admin = Some a -> authorized cx a = true ->
  default 0 (iget (st_get w) DataKey.MigrationVersion) < 2 ->
  (forall j i, 1 <= j < next_invoice_id w -> slot w j <> Some (StoredV2 i)) ->
  exists w', migrate a cx w = Ret tt w' /\
    iget (st_get w') DataKey.MigrationVersion = Some 2 /\
    (forall j, 1 <= j < next_invoice_id w -> slot w' j = migrated (slot w j)).
Proof.
  intros Ha Hau Hver Hno. destruct (migrate_run a cx w Ha Hau Hver) as (w1 & Hs & ->).
  destruct (migrate_loop_run (Z.to_nat (next_invoice_id w - 1)) 1 cx w1)
    as [(w2 & E & _ & Hj & _)|(_ & j & i & Hj & Hi)].
  - eexists. rewrite (bind_run _ _ _ _ _ _ E). split; [done|]. unfold slot in *. store_simpl.
    split; [done|]. intros j Hr. store_simpl. rewrite Hj, Hs.
    destruct (_ && _) eqn:A; [done|in_range].
  - rewrite Hs in Hi. edestruct Hno; [|done]. lia.
Qed.

(** A contract that has minted an invoice under the current schema cannot be
    migrated: a fresh deployment starts at version 1 with v2 records, and the
    version-2 step then panics on the first of them. *)
Theorem migrate_panics_after_minting a cx w id s :
  reachable w -> iget (st_get w) DataKey.Admin = Some a -> authorized cx a = true ->
  default 0 (iget (st_get w) DataKey.MigrationVersion) < 2 -> slot w id = Some s ->
  migrate a cx w = Trap.
Proof.
  intros Hr Ha Hau Hver Es. destruct (migrate_run a cx w Ha Hau Hver) as (w1 & Hs & ->).
  destruct (wf_slot _ (nft_wf_reachable _ Hr) _ _ Es) as (Hid & i & -> & _).
  destruct (migrate_loop_run (Z.to_nat (next_invoice_id w - 1)) 1 cx w1)
    as [(w2 & _ & _ & _ & Hno)|[E _]].
  - edestruct (Hno id i); [lia|]. by rewrite Hs.
  - by apply bind_trap.
Qed.

(** The operations the protocol pause stops. *)
Definition pausable (c : Call) : bool :=
  match c with
  | CMint _ _ _ _ _ _ _ _ | CAmend _ _ _ _ _ _ _ | CWithdraw _ _ | CCommitHash _ _ _
  | CSetListed _ _ | CSetFunded _ _ | CSetRepaid _ _ => true
  | _ => false
  end.

(** C32: The protocol pause stops every operation of the invoice registry that moves
    an invoice, but the admin's default: while the access control contract does not
    answer "not paused", minting, amending, withdrawing, committing a hash, listing,
    funding and repaying never succeed, and change nothing. *)
Theorem pause_stops_invoices c cx w ac :
  iget (st_get w) DataKey.AccessControl = Some ac ->
  (forall w', ac_is_paused ac cx w <> Ret false w') -> pausable c = true ->
  run_tx (exec c) cx w = w.
Proof.
  intros Hac Hp Hc. destruct (run_tx_cases (exec c) cx w) as [?|([] & w' & H & _)]; [done|].
  exfalso. destruct c; try done; run_call H; simplify_eq; by eapply Hp.
Qed.
End Steps.
