(* ===== verification/FinancingPool.v ===== *)
(** * FinancingPool: pools, positions, repayment and settlement
    (src/contracts/financing_pool/src/lib.rs)

    State: [DataKey]. Operations: one definition per entry point; [exec] is the
    contract as a step function on its [Call]s. The other contracts and the
    tokens are the clients of Interfaces.v. *)

From S2P Require Import Prelude Errors Types SortedMap Host Events Reentrancy Validation Interfaces.

Module DataKey.
Inductive t :=
  | Pool (id : u64)
  | Positions (id : u64)
  | Admin
  | InvoiceNft
  | RiskRegistry
  | Treasury
  | LatePenaltyBps
  | AccessControl
  | PriceOracle
  | RepaymentLock (id : u64)
  | UpgradeProposal
  | SaleOffer (id : u64) (seller : Address)
  | EarlySettlement (id : u64)
  | MaxPositionBps
  | AggregateFunded (token : Address).

#[global] Instance t_eq_dec : EqDecision t.
Proof. solve_decision. Defined.

Definition val (k : t) : Type :=
  match k with
  | Pool _ => Types.Pool
  | Positions _ => SMap Position
  | Admin | InvoiceNft | RiskRegistry | Treasury | AccessControl | PriceOracle => Address
  | LatePenaltyBps | MaxPositionBps => u32
  | RepaymentLock _ => bool
  | UpgradeProposal => (BytesN32 * u64)%type
  | SaleOffer _ _ => PositionSaleOffer
  | EarlySettlement _ => EarlySettlementOffer
  | AggregateFunded _ => i128
  end.
End DataKey.

#[export] Instance DataKey_storage : StorageKey DataKey.t := {| sk_val := DataKey.val |}.

(** The payout and the yield of one investor in [distribute_yield]. *)
Definition payout_of (total_repaid : i128) (token_decimals : u32) (position : Position) :
    Result (i128 * i128) :=
  payout ← bps_of_normalized total_repaid (pos_share_bps position) token_decimals;
  yield_amount ← ok_or (checked_sub payout (pos_contributed position)) ArithmeticOverflow;
  Ok (payout, yield_amount).

(** The share computed by [record_position]. *)
Definition share_bps_of (contributed total_pool : i128) : Result u32 :=
  share ← ok_or (v ← checked_mul contributed 10000; checked_div v total_pool) ArithmeticOverflow;
  Ok (as_u32 share).

(** The aggregate after replacing [old] by [new]. *)
Definition replace_aggregate (prev old new : i128) : Result i128 :=
  ok_or (v ← checked_sub prev old; checked_add v new) ArithmeticOverflow.

Section FinancingPool.
Context {W : Type} `{!HasEvents W} `{!HasStorage W DataKey.t}
  `{!AccessControlClient W} `{!RiskRegistryClient W} `{!InvoiceNftClient W}
  `{!PriceOracleClient W} `{!TokenClient W}.

(** ** Helpers *)

Definition load_invoice (invoice_id : u64) : M W Invoice :=
  nft_contract ← instance_get_or DataKey.InvoiceNft NotInitialized;
  nft_get_invoice nft_contract invoice_id.

Definition require_not_paused : M W unit :=
  ac ← instance_get_or DataKey.AccessControl NotInitialized;
  paused ← ac_is_paused ac;
  fail_if paused ProtocolPaused.

Definition require_admin (caller : Address) : M W unit :=
  admin ← instance_get_or DataKey.Admin NotInitialized;
  fail_if (negb (admin =? caller)%N) NotAdmin.

Definition convert_if_needed (amount : i128) (invoice_currency : Symbol)
    (_pool_token : Address) : M W i128 :=
  oracle_addr ← (instance_get DataKey.PriceOracle : M W (option Address));
  match oracle_addr with
  | None => mret amount
  | Some addr => oracle_convert addr amount invoice_currency "USDC"%string
  end.

Definition load_positions (invoice_id : u64) : M W (SMap Position) :=
  persistent_get_default (DataKey.Positions invoice_id) map_new.

Definition load_pool (invoice_id : u64) : M W Pool :=
  persistent_get_or (DataKey.Pool invoice_id) PoolNotFound.

(** ** Initialization and configuration *)

Definition initialize (admin invoice_nft risk_registry treasury access_control : Address)
    (late_penalty_bps : u32) (price_oracle : Address) (max_position_bps : u32) : M W unit :=
  has ← instance_has DataKey.Admin;
  fail_if has AlreadyInitialized;;
  lift (require_valid_fee_bps late_penalty_bps);;
  fail_if ((max_position_bps =? 0) || (max_position_bps >? 10000)) InvalidFeeRate;;
  self ← env_self;
  lift (require_not_self self admin);;
  lift (require_not_self self invoice_nft);;
  lift (require_not_self self risk_registry);;
  lift (require_not_self self treasury);;
  lift (require_not_self self access_control);;
  instance_set DataKey.Admin admin;;
  instance_set DataKey.InvoiceNft invoice_nft;;
  instance_set DataKey.RiskRegistry risk_registry;;
  instance_set DataKey.Treasury treasury;;
  instance_set DataKey.AccessControl access_control;;
  instance_set DataKey.LatePenaltyBps late_penalty_bps;;
  instance_set DataKey.PriceOracle price_oracle;;
  instance_set DataKey.MaxPositionBps max_position_bps.

Definition release_funds (marketplace : Address) (invoice_id : u64) (token : Address) : M W unit :=
  require_auth marketplace;;
  require_not_paused;;
  has ← persistent_has (DataKey.Pool invoice_id);
  fail_if has PoolAlreadyClosed;;
  self ← env_self;
  fail_if (token =? self)%N InvalidAddress;;
  nft_contract ← instance_get_or DataKey.InvoiceNft NotInitialized;
  invoice ← nft_get_invoice nft_contract invoice_id;
  fail_if ((inv_amount invoice <=? 0) || (inv_amount invoice >? MAX_AMOUNT)) InvalidAmount;;
  late_penalty_bps ← instance_get_or DataKey.LatePenaltyBps NotInitialized;
  persistent_set (DataKey.Pool invoice_id)
    (mkPool invoice_id token 0 (inv_amount invoice) 0 false late_penalty_bps
       (inv_amount invoice) false);;
  events.pool_opened marketplace invoice_id token (inv_amount invoice);;
  nft_set_funded nft_contract self invoice_id.

Definition set_max_position_bps (admin : Address) (max_position_bps : u32) : M W unit :=
  require_auth admin;;
  require_admin admin;;
  fail_if ((max_position_bps =? 0) || (max_position_bps >? 10000)) InvalidFeeRate;;
  instance_set DataKey.MaxPositionBps max_position_bps.

Definition record_position (caller : Address) (invoice_id : u64) (investor : Address)
    (contributed total_pool : i128) : M W unit :=
  require_auth caller;;
  require_admin caller;;
  require_not_paused;;
  fail_if ((contributed <=? 0) || (total_pool <=? 0)) InvalidAmount;;
  fail_if ((contributed >? total_pool) || (contributed >? MAX_AMOUNT) || (total_pool >? MAX_AMOUNT))
    InvalidAmount;;
  share_bps ← lift (share_bps_of contributed total_pool);
  max_position_bps ← instance_get_default DataKey.MaxPositionBps 5000;
  fail_if (share_bps >? max_position_bps) ExceedsFundingTarget;;
  positions ← load_positions invoice_id;
  let old_contributed := from_option pos_contributed 0 (map_get investor positions) in
  persistent_set (DataKey.Positions invoice_id)
    (map_set investor (mkPosition investor invoice_id contributed share_bps 0) positions);;
  pool ← load_pool invoice_id;
  prev_agg ← instance_get_default (DataKey.AggregateFunded (p_token pool)) 0;
  new_agg ← lift (replace_aggregate prev_agg old_contributed contributed);
  instance_set (DataKey.AggregateFunded (p_token pool)) new_agg;;
  events.position_recorded caller invoice_id investor contributed share_bps.

(** ** Repayment *)

(** The loop of [distribute_yield] over the positions still to pay; it returns
    [total_contributed]. *)
Fixpoint pay_investors (invoice_id : u64) (token : Address) (token_decimals : u32)
    (total_repaid : i128) (l : list (Address * Position)) (total_contributed : i128) : M W i128 :=
  match l with
  | [] => mret total_contributed
  | (investor, position) :: rest =>
      '(payout, yield_amount) ← lift (payout_of total_repaid token_decimals position);
      self ← env_self;
      tok_transfer token self investor payout;;
      events.yield_distributed invoice_id investor yield_amount;;
      pay_investors invoice_id token token_decimals total_repaid rest
        (saturating_add total_contributed (pos_contributed position))
  end.

Definition distribute_yield (invoice_id : u64) (token : Address) (total_repaid : i128)
    (_face_value : i128) : M W unit :=
  positions ← load_positions invoice_id;
  token_decimals ← tok_decimals token;
  total_contributed ←
    pay_investors invoice_id token token_decimals total_repaid (entries positions) 0;
  prev_agg ← instance_get_default (DataKey.AggregateFunded token) 0;
  instance_set (DataKey.AggregateFunded token) (saturating_sub prev_agg total_contributed).

(** The one-time late penalty of [repay]. *)
Definition apply_late_penalty (invoice_id : u64) (due_date : u64) (pool : Pool) : M W Pool :=
  now ← env_now;
  if negb (p_penalty_applied pool) && (0 <? p_late_penalty_bps pool) && (now >? due_date) then
    penalty ← lift (bps_of (p_face_value pool) (p_late_penalty_bps pool));
    total_owed ← lift (ok_or (checked_add (p_total_owed pool) penalty) ArithmeticOverflow);
    events.late_penalty_applied invoice_id penalty total_owed;;
    mret (with_penalty total_owed pool)
  else mret pool.

(** The per-invoice freeze check. *)
Definition require_not_frozen (invoice_id : u64) : M W unit :=
  nft_contract ← instance_get_or DataKey.InvoiceNft NotInitialized;
  frozen ← nft_is_invoice_frozen nft_contract invoice_id;
  fail_if frozen InvoiceFrozen.

Definition close_if_repaid (pool : Pool) : Pool :=
  if p_repaid_amount pool >=? p_total_owed pool then with_is_closed true pool else pool.

Definition repay (payer : Address) (invoice_id : u64) (token : Address) (amount : i128) : M W unit :=
  require_auth payer;;
  fail_if ((amount <=? 0) || (amount >? MAX_AMOUNT)) InvalidAmount;;
  require_not_frozen invoice_id;;
  locked ← persistent_has (DataKey.RepaymentLock invoice_id);
  fail_if locked Unauthorized;;
  persistent_set (DataKey.RepaymentLock invoice_id) true;;
  pool ← load_pool invoice_id;
  when (p_is_closed pool) (
    persistent_remove (DataKey.RepaymentLock invoice_id);;
    fail RepaymentAlreadyMade);;
  invoice ← load_invoice invoice_id;
  effective_amount ← convert_if_needed amount (inv_currency invoice) (p_token pool);
  pool ← apply_late_penalty invoice_id (inv_due_date invoice) pool;
  repaid ← lift (ok_or (checked_add (p_repaid_amount pool) effective_amount) ArithmeticOverflow);
  let pool := close_if_repaid (with_repaid_amount repaid pool) in
  let should_close := p_repaid_amount pool >=? p_total_owed pool in
  persistent_set (DataKey.Pool invoice_id) pool;;
  self ← env_self;
  tok_transfer token payer self amount;;
  events.repayment_made invoice_id payer amount;;
  when should_close (
    distribute_yield invoice_id token (p_repaid_amount pool) (p_face_value pool);;
    nft_contract ← instance_get_or DataKey.InvoiceNft NotInitialized;
    nft_set_repaid nft_contract self invoice_id);;
  persistent_remove (DataKey.RepaymentLock invoice_id).

(** The best-effort default record in the risk registry. *)
Definition report_default (admin sme : Address) : M W unit :=
  rr ← (instance_get DataKey.RiskRegistry : M W (option Address));
  match rr with
  | Some rr_contract => _ ← rr_try_record_default rr_contract admin sme; mret tt
  | None => mret tt
  end.

Definition mark_default (admin : Address) (invoice_id : u64) (token : Address) : M W unit :=
  require_auth admin;;
  require_admin admin;;
  require_not_paused;;
  locked ← persistent_has (DataKey.RepaymentLock invoice_id);
  fail_if locked Unauthorized;;
  pool ← load_pool invoice_id;
  fail_if (p_is_closed pool) PoolAlreadyClosed;;
  when (0 <? p_repaid_amount pool)
    (distribute_yield invoice_id token (p_repaid_amount pool) (p_face_value pool));;
  nft_contract ← instance_get_or DataKey.InvoiceNft NotInitialized;
  nft_set_defaulted nft_contract admin invoice_id;;
  events.invoice_defaulted invoice_id admin;;
  invoice ← nft_get_invoice nft_contract invoice_id;
  report_default admin (inv_sme invoice).

(** ** Early settlement *)

Definition propose_early_settlement (sme : Address) (invoice_id : u64) (amount : i128) : M W unit :=
  require_auth sme;;
  require_not_paused;;
  fail_if ((amount <=? 0) || (amount >? MAX_AMOUNT)) InvalidAmount;;
  pool ← load_pool invoice_id;
  fail_if (p_is_closed pool) PoolAlreadyClosed;;
  fail_if ((amount <? p_total_funded pool) || (amount >=? p_total_owed pool)) InvalidAmount;;
  has ← persistent_has (DataKey.EarlySettlement invoice_id);
  fail_if has AlreadyInitialized;;
  invoice ← load_invoice invoice_id;
  fail_if (negb (inv_sme invoice =? sme)%N) Unauthorized;;
  self ← env_self;
  tok_transfer (p_token pool) sme self amount;;
  persistent_set (DataKey.EarlySettlement invoice_id)
    (mkEarlySettlementOffer invoice_id amount 0 []).

(** The settlement of [accept_early_settlement] on unanimous acceptance. *)
Definition settle_early (invoice_id : u64) (offer : EarlySettlementOffer) (pool : Pool) : M W unit :=
  persistent_set (DataKey.RepaymentLock invoice_id) true;;
  let pool := with_is_closed true (with_repaid_amount (es_amount offer) pool) in
  persistent_set (DataKey.Pool invoice_id) pool;;
  distribute_yield invoice_id (p_token pool) (es_amount offer) (p_face_value pool);;
  nft_contract ← instance_get_or DataKey.InvoiceNft NotInitialized;
  self ← env_self;
  nft_set_repaid nft_contract self invoice_id;;
  persistent_remove (DataKey.EarlySettlement invoice_id);;
  persistent_remove (DataKey.RepaymentLock invoice_id);;
  events.repayment_made invoice_id self (es_amount offer).

Definition accept_early_settlement (investor : Address) (invoice_id : u64) : M W unit :=
  require_auth investor;;
  require_not_paused;;
  locked ← persistent_has (DataKey.RepaymentLock invoice_id);
  fail_if locked Unauthorized;;
  offer ← persistent_get_or (DataKey.EarlySettlement invoice_id) PoolNotFound;
  pool ← load_pool invoice_id;
  fail_if (p_is_closed pool) PoolAlreadyClosed;;
  positions ← load_positions invoice_id;
  position ← lift (ok_or (map_get investor positions) Unauthorized);
  fail_if (list_mem investor (es_accepted offer)) AlreadyInitialized;;
  accepted_bps ← lift (ok_or (fit_u32 (es_accepted_bps offer + pos_share_bps position))
                         ArithmeticOverflow);
  let offer := with_accepted accepted_bps (es_accepted offer ++ [investor]) offer in
  if es_accepted_bps offer >=? 10000 then settle_early invoice_id offer pool
  else persistent_set (DataKey.EarlySettlement invoice_id) offer.

Definition cancel_early_settlement (sme : Address) (invoice_id : u64) : M W unit :=
  require_auth sme;;
  offer ← persistent_get_or (DataKey.EarlySettlement invoice_id) PoolNotFound;
  pool ← load_pool invoice_id;
  invoice ← load_invoice invoice_id;
  fail_if (negb (inv_sme invoice =? sme)%N) Unauthorized;;
  persistent_remove (DataKey.EarlySettlement invoice_id);;
  self ← env_self;
  tok_transfer (p_token pool) self sme (es_amount offer).

(** ** Secondary market *)

Definition list_position_for_sale (seller : Address) (invoice_id : u64) (token : Address)
    (price : i128) : M W unit :=
  require_auth seller;;
  require_not_paused;;
  fail_if (price <=? 0) InvalidAmount;;
  pool ← load_pool invoice_id;
  fail_if (p_is_closed pool) PoolAlreadyClosed;;
  positions ← load_positions invoice_id;
  fail_if (negb (map_contains seller positions)) PositionNotFound;;
  has ← persistent_has (DataKey.SaleOffer invoice_id seller);
  fail_if has SaleAlreadyListed;;
  persistent_set (DataKey.SaleOffer invoice_id seller)
    (mkPositionSaleOffer seller invoice_id token price);;
  events.position_listed_for_sale invoice_id seller price.

Definition buy_position (buyer : Address) (invoice_id : u64) (seller : Address) : M W unit :=
  require_auth buyer;;
  require_not_paused;;
  offer ← persistent_get_or (DataKey.SaleOffer invoice_id seller) SaleNotFound;
  pool ← load_pool invoice_id;
  fail_if (p_is_closed pool) PoolAlreadyClosed;;
  positions ← load_positions invoice_id;
  seller_position ← lift (ok_or (map_get seller positions) PositionNotFound);
  persistent_remove (DataKey.SaleOffer invoice_id seller);;
  let positions := map_remove seller positions in
  let buyer_position :=
    mkPosition buyer invoice_id (pos_contributed seller_position) (pos_share_bps seller_position)
      (pos_yield_claimed seller_position) in
  persistent_set (DataKey.Positions invoice_id) (map_set buyer buyer_position positions);;
  tok_transfer (so_token offer) buyer seller (so_price offer);;
  events.position_sold invoice_id seller buyer (so_price offer).

(** ** Views *)

Definition get_max_position_bps : M W u32 := instance_get_default DataKey.MaxPositionBps 5000.

Definition get_early_settlement (invoice_id : u64) : M W EarlySettlementOffer :=
  persistent_get_or (DataKey.EarlySettlement invoice_id) PoolNotFound.

Definition get_pool (invoice_id : u64) : M W Pool := load_pool invoice_id.

Definition get_positions (invoice_id : u64) : M W (Vec Position) :=
  positions ← load_positions invoice_id;
  mret (map_values positions).

(** The [for i in start..end] loop, with [n] rounds left. *)
Fixpoint positions_page_loop (all : Vec Position) (n : nat) (i : Z) (page : Vec Position) :
    M W (Vec Position) :=
  match n with
  | O => mret page
  | S n' =>
      position ← or_trap (all !! Z.to_nat i);
      positions_page_loop all n' (i + 1) (page ++ [position])
  end.

Definition get_positions_page (invoice_id : u64) (offset limit : u32) : M W (Vec Position) :=
  let limit := Z.min limit 100 in
  positions ← load_positions invoice_id;
  let all := map_values positions in
  let total := len all in
  let start := Z.min offset total in
  let end_ := Z.min (start + limit) total in
  positions_page_loop all (Z.to_nat (end_ - start)) start [].

Definition get_positions_count (invoice_id : u64) : M W u32 :=
  positions ← load_positions invoice_id;
  mret (map_len positions).

Definition get_aggregate_funded (token : Address) : M W i128 :=
  instance_get_default (DataKey.AggregateFunded token) 0.

(** ** Upgrade *)

Definition propose_upgrade (admin : Address) (new_wasm_hash : BytesN32) : M W unit :=
  require_auth admin;;
  require_admin admin;;
  now ← env_now;
  instance_set DataKey.UpgradeProposal (new_wasm_hash, now);;
  events.upgrade_proposed admin new_wasm_hash.

Definition execute_upgrade (admin : Address) : M W unit :=
  require_auth admin;;
  require_admin admin;;
  '(wasm_hash, proposed_at) ← instance_get_or DataKey.UpgradeProposal NoUpgradeProposed;
  now ← env_now;
  ready ← or_trap (fit_u64 (proposed_at + UPGRADE_TIMELOCK_DELAY));
  fail_if (now <? ready) UpgradeTimelockNotElapsed;;
  instance_remove DataKey.UpgradeProposal;;
  events.upgrade_executed admin wasm_hash;;
  update_current_contract_wasm (K:=DataKey.t) wasm_hash.
End FinancingPool.

#[global] Arguments pay_investors : simpl never.

(** ** The contract as a step function *)

Inductive Call :=
  | CInitialize (admin invoice_nft risk_registry treasury access_control : Address)
      (late_penalty_bps : u32) (price_oracle : Address) (max_position_bps : u32)
  | CReleaseFunds (marketplace : Address) (invoice_id : u64) (token : Address)
  | CSetMaxPositionBps (admin : Address) (max_position_bps : u32)
  | CRecordPosition (caller : Address) (invoice_id : u64) (investor : Address)
      (contributed total_pool : i128)
  | CRepay (payer : Address) (invoice_id : u64) (token : Address) (amount : i128)
  | CMarkDefault (admin : Address) (invoice_id : u64) (token : Address)
  | CProposeSettlement (sme : Address) (invoice_id : u64) (amount : i128)
  | CAcceptSettlement (investor : Address) (invoice_id : u64)
  | CCancelSettlement (sme : Address) (invoice_id : u64)
  | CListPosition (seller : Address) (invoice_id : u64) (token : Address) (price : i128)
  | CBuyPosition (buyer : Address) (invoice_id : u64) (seller : Address)
  | CProposeUpgrade (admin : Address) (new_wasm_hash : BytesN32)
  | CExecuteUpgrade (admin : Address).

Section Exec.
Context {W : Type} `{!HasEvents W} `{!HasStorage W DataKey.t}
  `{!AccessControlClient W} `{!RiskRegistryClient W} `{!InvoiceNftClient W}
  `{!PriceOracleClient W} `{!TokenClient W}.

Definition exec (c : Call) : M W unit :=
  match c with
  | CInitialize a n r t ac l o m => initialize a n r t ac l o m
  | CReleaseFunds m i t => release_funds m i t
  | CSetMaxPositionBps a m => set_max_position_bps a m
  | CRecordPosition c i v n t => record_position c i v n t
  | CRepay p i t n => repay p i t n
  | CMarkDefault a i t => mark_default a i t
  | CProposeSettlement s i n => propose_early_settlement s i n
  | CAcceptSettlement v i => accept_early_settlement v i
  | CCancelSettlement s i => cancel_early_settlement s i
  | CListPosition s i t p => list_position_for_sale s i t p
  | CBuyPosition b i s => buy_position b i s
  | CProposeUpgrade a h => propose_upgrade a h
  | CExecuteUpgrade a => execute_upgrade a
  end.

(** The [u32] arguments of a call are in range. *)
Definition typed (c : Call) : Prop :=
  match c with
  | CInitialize _ _ _ _ _ late _ max => 0 <= late <= u32_max /\ 0 <= max <= u32_max
  | CSetMaxPositionBps _ max => 0 <= max <= u32_max
  | _ => True
  end.

(** A call of the contract, or anything that does not write its storage. *)
Inductive step : W -> W -> Prop :=
  | step_call w cx c : typed c -> step w (run_tx (exec c) cx w)
  | step_other w w' : st_get w' = st_get w -> step w w'.

Definition reachable (w : W) : Prop := exists w0, st_get w0 = empty_storage /\ rtc step w0 w.

Definition pool_of (w : W) (id : u64) : option Pool := pget (st_get w) (DataKey.Pool id).
Definition positions_of (w : W) (id : u64) : SMap Position :=
  default map_new (pget (st_get w) (DataKey.Positions id)).
Definition settlement_of (w : W) (id : u64) : option EarlySettlementOffer :=
  pget (st_get w) (DataKey.EarlySettlement id).
End Exec.

Create HintDb financing_pool.
#[export] Hint Unfold exec initialize release_funds set_max_position_bps record_position repay
  mark_default propose_early_settlement accept_early_settlement settle_early
  cancel_early_settlement list_position_for_sale buy_position propose_upgrade execute_upgrade
  require_admin require_not_paused require_not_frozen load_invoice load_pool load_positions
  report_default : financing_pool.

(** ** Payouts *)

(** What the pool owes one position out of [total], for a token of [d] decimals. *)
Definition payout (total : i128) (d : u32) (p : Position) : i128 :=
  share_value total (pos_share_bps p) d.

(** What the entries [l] pay to [x], and in all. *)
Definition paid_to (total : i128) (d : u32) (x : Address) (l : list (Address * Position)) : Z :=
  sum_of (fun e => if (x =? e.1)%N then payout total d e.2 else 0) l.
Definition paid (total : i128) (d : u32) (l : list (Address * Position)) : Z :=
  sum_of (fun e => payout total d e.2) l.

Definition shares_ok (l : list (Address * Position)) : Prop :=
  Forall (fun e => 0 <= pos_share_bps e.2) l.

Lemma payout_of_Ok total d p pay y :
  0 <= d -> total <= i128_max -> 0 <= pos_share_bps p ->
  payout_of total d p = Ok (pay, y) ->
  pay = payout total d p /\ y = pay - pos_contributed p /\ 0 <= total.
Proof.
  intros Hd Ht Hs. unfold payout_of.
  destruct (bps_of_normalized total (pos_share_bps p) d) as [v|] eqn:E; [|done].
  cbn. destruct (checked_sub v (pos_contributed p)) as [z|] eqn:Ey; [|done]. cbn.
  intros [= <- <-]. pose proof (bps_of_normalized_nonneg _ _ _ _ E).
  apply bps_of_normalized_value in E as ->; [|lia|done|done]. guards. by split_and!.
Qed.

(** No set of positions whose shares add up to at most 100% is paid more than the
    amount distributed. *)
Lemma paid_le total d l :
  0 <= total -> 0 <= d -> shares_ok l -> sum_of (fun e => pos_share_bps e.2) l <= 10000 ->
  0 <= paid total d l <= total.
Proof.
  intros Ht Hd Hs Hsum.
  assert (H : 0 <= paid total d l /\
              paid total d l * 10000 <= total * sum_of (fun e => pos_share_bps e.2) l).
  { clear Hsum. induction Hs as [|e l He _ [IH1 IH2]]; [unfold paid; simpl; lia|].
    unfold paid in *. rewrite !sum_of_cons. unfold payout at 1 3.
    pose proof (share_value_le total (pos_share_bps e.2) d Ht He Hd). nia. }
  nia.
Qed.

Section Payouts.
Context {W : Type} `{!HasEvents W} `{!HasStorage W DataKey.t} `{!StorageLaws W DataKey.t}
  `{!AccessControlClient W} `{!RiskRegistryClient W} `{!InvoiceNftClient W}
  `{!PriceOracleClient W} `{!TokenClient W} `{!TokenLedger W} `{!TokenLaws W}
  `{!TokenFrame W DataKey.t}.
Implicit Types (cx : Ctx) (w : W).

Lemma pay_investors_store id t d total l acc a cx w w' :
  pay_investors id t d total l acc cx w = Ret a w' -> st_get w' = st_get w.
Proof.
  revert acc w. induction l as [|[v p] l IH]; intros acc w H; unfold pay_investors in H; fold @pay_investors in H.
  - by apply mret_Ret in H as [_ ->].
  - minv H. apply IH in H. learn_frames DataKey.t. store_facts. congruence.
Qed.

Lemma pay_investors_effect id t d total l acc a cx w w' :
  0 <= d -> total <= i128_max -> shares_ok l ->
  pay_investors id t d total l acc cx w = Ret a w' ->
  (l <> [] -> 0 <= total) /\
  forall t' x, tok_bal w' t' x =
    if (t' =? t)%N
    then tok_bal w t' x + paid_to total d x l
         - (if (x =? cx_self cx)%N then paid total d l else 0)
    else tok_bal w t' x.
Proof.
  intros Hd Ht. revert acc w. induction l as [|[v p] l IH]; intros acc w Hs H;
    unfold pay_investors in H; fold @pay_investors in H.
  { apply mret_Ret in H as [_ ->]. split; [done|]. intros t' x.
    unfold paid_to, paid. simpl. repeat case_match; lia. }
  apply Forall_cons in Hs as [Hp Hs]. minv H.
  apply payout_of_Ok in E as (-> & -> & Hpos); [|done..].
  learn_transfers. apply IH in H as [_ Hb]; [|done]. split; [done|].
  intros t' y. rewrite Hb. bal_simpl. unfold paid_to, paid, moved. simpl.
  repeat case_match; lia.
Qed.

Lemma distribute_store id t total f u cx w w' :
  distribute_yield id t total f cx w = Ret u w' ->
  exists v : i128, st_get w' = iset (DataKey.AggregateFunded t) v (st_get w).
Proof.
  unfold distribute_yield, load_positions. intros H. minv H.
  apply pay_investors_store in E0. learn_frames DataKey.t. eexists. rewrite st_get_put.
  rewrite E0, Hfr. done.
Qed.

(** What [distribute_yield] does to the balances. *)
Definition distributed (id : u64) (t : Address) (total : i128) cx w w' : Prop :=
  forall t' x, tok_bal w' t' x =
    if (t' =? t)%N
    then tok_bal w t' x + paid_to total (tok_dec w t) x (entries (positions_of w id))
         - (if (x =? cx_self cx)%N then paid total (tok_dec w t) (entries (positions_of w id)) else 0)
    else tok_bal w t' x.

Lemma distribute_effect id t total f u cx w w' :
  total <= i128_max -> shares_ok (entries (positions_of w id)) ->
  distribute_yield id t total f cx w = Ret u w' -> distributed id t total cx w w'.
Proof.
  unfold distribute_yield, load_positions, distributed. intros Ht Hs H. minv H.
  match goal with H : tok_decimals _ _ _ = Ret _ _ |- _ =>
    apply tok_decimals_law in H as (-> & Hd & ->) end.
  match goal with H : pay_investors _ _ _ _ _ _ _ _ = Ret _ _ |- _ =>
    apply pay_investors_effect in H as [_ Hb]; [|done..] end.
  intros t' x'. rewrite tok_bal_put. apply Hb.
Qed.
End Payouts.

Ltac learn_distribute :=
  repeat match goal with
  | H : distribute_yield _ _ _ _ _ ?w = Ret _ ?w' |- _ =>
      lazymatch goal with
      | _ : st_get (K:=DataKey.t) w' = iset _ _ _ |- _ => fail
      | _ => let v := fresh "agg" in let F := fresh "Hdist" in
             destruct (distribute_store _ _ _ _ _ _ _ _ H) as [v F]
      end
  end.

(** Runs a call backwards: the guards it passed and the storage it left. *)
Ltac run_call H :=
  cbn [exec] in H; autounfold with financing_pool in H; minv H; learn_views; learn_distribute;
  learn_frames DataKey.t; store_facts; store_simpl.

Section Steps.
Context {W : Type} `{!HasEvents W} `{!HasStorage W DataKey.t} `{!StorageLaws W DataKey.t}
  `{!AccessControlClient W} `{!RiskRegistryClient W} `{!InvoiceNftClient W}
  `{!PriceOracleClient W} `{!TokenClient W} `{!TokenLedger W} `{!TokenLaws W}
  `{!TokenFrame W DataKey.t} `{!AccessControlLaws W} `{!RiskRegistryLaws W}
  `{!InvoiceNftLaws W} `{!PriceOracleLaws W} `{!NftFrame W DataKey.t}
  `{!RegistryFrame W DataKey.t}.
Implicit Types (cx : Ctx) (w : W).

(** The pool after the late penalty: due once, past the due date. *)
Definition penalised (now due : u64) (p : Pool) : Pool :=
  if negb (p_penalty_applied p) && (0 <? p_late_penalty_bps p) && (now >? due)
  then with_penalty (p_total_owed p + p_face_value p * p_late_penalty_bps p / 10000) p else p.

(** The pool after a repayment worth [eff]. *)
Definition repaid_pool (now due : u64) (eff : i128) (p : Pool) : Pool :=
  let p1 := penalised now due p in
  close_if_repaid (with_repaid_amount (p_repaid_amount p1 + eff) p1).

#[export] Instance apply_late_penalty_frames id due p :
  Frames DataKey.t (apply_late_penalty id due p : M W Pool).
Proof.
  intros cx w p' w' H. unfold apply_late_penalty in H. minv H; [by store_simpl|done].
Qed.

Lemma apply_late_penalty_Ret id due p cx w p' w' :
  0 <= p_late_penalty_bps p ->
  apply_late_penalty id due p cx w = Ret p' w' ->
  p' = penalised (cx_now cx) due p /\
  (forall t x, tok_bal w' t x = tok_bal w t x) /\ (forall t, tok_dec w' t = tok_dec w t).
Proof.
  intros Hb. unfold apply_late_penalty, penalised. intros H. minv H; [|done].
  guards. subst. match goal with H : bps_of _ _ = Ok _ |- _ =>
    apply bps_of_Ok in H as (_ & -> & _); [|done] end.
  split_and!; [done|intros; by bal_simpl|intros; by rewrite tok_dec_emit].
Qed.

#[export] Instance convert_ro n cur t : ReadOnly (convert_if_needed n cur t : M W i128).
Proof.
  intros cx w r w' H. unfold convert_if_needed in H. minv H; [|done].
  by eapply read_only.
Qed.

Lemma convert_pos n cur t cx w r w' :
  convert_if_needed n cur t cx w = Ret r w' -> 0 < n -> 0 < r.
Proof.
  intros H Hn. unfold convert_if_needed in H. minv H; [|done].
  by eapply oracle_convert_pos.
Qed.

(** How one call moves the pool of an invoice. *)
Inductive pool_change (c : Call) (cx : Ctx) (w : W) (id : u64) : option Pool -> option Pool -> Prop :=
  | pc_same o : pool_change c cx w id o o
  | pc_open m t face late :
      c = CReleaseFunds m id t -> 0 < face <= MAX_AMOUNT -> t <> cx_self cx ->
      iget (st_get w) DataKey.LatePenaltyBps = Some late ->
      pool_change c cx w id None (Some (mkPool id t 0 face 0 false late face false))
  | pc_repay payer t n due eff p :
      c = CRepay payer id t n -> p_is_closed p = false -> 0 < n -> 0 < eff ->
      p_repaid_amount p + eff <= i128_max ->
      pool_change c cx w id (Some p) (Some (repaid_pool (cx_now cx) due eff p))
  | pc_settle v o p :
      c = CAcceptSettlement v id -> p_is_closed p = false -> settlement_of w id = Some o ->
      pool_change c cx w id (Some p)
        (Some (with_is_closed true (with_repaid_amount (es_amount o) p))).

(** Pools whose penalty rate is a [u32] (all of them, by [wf] below). *)
Definition late_ok (w : W) : Prop :=
  (forall id p, pool_of w id = Some p -> 0 <= p_late_penalty_bps p).

Definition lock_free w (id : u64) : Prop := pget (st_get w) (DataKey.RepaymentLock id) = None.

(** The balances after a repayment of [n] of [t], which closes the pool [p'] or not. *)
Definition repay_balances (payer t : Address) (n : i128) (id : u64) (p' : Pool) cx w w' : Prop :=
  let l := entries (positions_of w id) in
  let total := p_repaid_amount p' in
  forall t' x, tok_bal w' t' x =
    if (t' =? t)%N then
      moved payer (cx_self cx) x n (tok_bal w t x) +
      (if p_is_closed p'
       then paid_to total (tok_dec w t) x l -
            (if (x =? cx_self cx)%N then paid total (tok_dec w t) l else 0)
       else 0)
    else tok_bal w t' x.

Lemma penalised_repaid now due p : p_repaid_amount (penalised now due p) = p_repaid_amount p.
Proof. unfold penalised. by destruct (_ && _). Qed.

Lemma penalised_closed now due p : p_is_closed (penalised now due p) = p_is_closed p.
Proof. unfold penalised. by destruct (_ && _). Qed.

Lemma close_repaid p : p_repaid_amount (close_if_repaid p) = p_repaid_amount p.
Proof. unfold close_if_repaid. by destruct (_ >=? _). Qed.

Lemma close_owed p : p_total_owed (close_if_repaid p) = p_total_owed p.
Proof. unfold close_if_repaid. by destruct (_ >=? _). Qed.

Lemma close_closed p :
  p_is_closed p = false -> p_is_closed (close_if_repaid p) = (p_repaid_amount p >=? p_total_owed p).
Proof. unfold close_if_repaid. by destruct (_ >=? _) eqn:E. Qed.

(** What the two ways [repay] can end do to the balances. *)
Lemma repay_moves payer t n id p0 cx w w1 w2 w3 w' :
  p_repaid_amount p0 <= i128_max -> shares_ok (entries (positions_of w id)) ->
  (forall t x, tok_bal w1 t x = tok_bal w t x) -> (forall t, tok_dec w1 t = tok_dec w t) ->
  tok_transfer t payer (cx_self cx) n cx w1 = Ret tt w2 ->
  (forall t x, tok_bal w3 t x = tok_bal w2 t x) -> (forall t, tok_dec w3 t = tok_dec w2 t) ->
  entries (positions_of w3 id) = entries (positions_of w id) ->
  (p_is_closed p0 = false /\ (forall t x, tok_bal w' t x = tok_bal w3 t x)) \/
  (p_is_closed p0 = true /\ exists f wd, distribute_yield id t (p_repaid_amount p0) f cx w3 = Ret tt wd /\
     (forall t x, tok_bal w' t x = tok_bal wd t x)) ->
  repay_balances payer t n id p0 cx w w'.
Proof.
  intros Hmax Hs B1 D1 HT B3 D3 Hp Hend t' x.
  pose proof (tok_transfer_bal _ _ _ _ _ _ _ _ HT) as BT.
  pose proof (tok_transfer_dec _ _ _ _ _ _ _ _ HT) as DT.
  destruct Hend as [[-> B']|(-> & f & wd & Hd & B')].
  - rewrite B', B3, BT, B1. destruct (N.eqb_spec t' t) as [->|]; [lia|done].
  - rewrite B'. apply distribute_effect in Hd; [|done|by rewrite Hp].
    rewrite (Hd t' x), D3, DT, D1, Hp, B3, BT, B1.
    destruct (N.eqb_spec t' t) as [->|]; [lia|done].
Qed.

Lemma repay_effect payer id t n cx w w' :
  late_ok w -> shares_ok (entries (positions_of w id)) ->
  repay payer id t n cx w = Ret tt w' ->
  exists p nft inv eff wl,
    pool_of w id = Some p /\ p_is_closed p = false /\ lock_free w id /\
    authorized cx payer = true /\ 0 < n <= MAX_AMOUNT /\
    iget (st_get w) DataKey.InvoiceNft = Some nft /\
    nft_is_invoice_frozen nft id cx w = Ret false w /\
    nft_get_invoice nft id cx wl = Ret inv wl /\
    convert_if_needed n (inv_currency inv) (p_token p) cx wl = Ret eff wl /\
    0 < eff /\ p_repaid_amount p + eff <= i128_max /\
    wl = wset cx (DataKey.RepaymentLock id) true w /\
    let p' := repaid_pool (cx_now cx) (inv_due_date inv) eff p in
    pool_of w' id = Some p' /\ lock_free w' id /\
    repay_balances payer t n id p' cx w w'.
Proof.
  intros Hlate Hs H. change (exec (CRepay payer id t n) cx w = Ret tt w') in H.
  unfold lock_free, pool_of.
  run_call H; guards; subst.
  all: match goal with H : apply_late_penalty _ _ ?p _ _ = Ret _ _ |- _ =>
         assert (0 <= p_late_penalty_bps p) as Hb0 by (by apply (Hlate id));
         destruct (apply_late_penalty_Ret _ _ _ _ _ _ _ Hb0 H) as (-> & Hb & Hdec) end.
  all: rewrite penalised_repaid in *.
  all: match goal with H : convert_if_needed _ _ _ _ _ = Ret _ _ |- _ =>
         pose proof (convert_pos _ _ _ _ _ _ _ H ltac:(lia)) end.
  all: assert (x8 = x2) as -> by congruence.
  all: do 5 eexists; split_and!;
    [done|done|by destruct (pget _ (DataKey.RepaymentLock id))|done|lia|lia|done|done|done|done
    |lia|lia|done|unfold repaid_pool; by rewrite penalised_repaid|done|].
  all: unfold repaid_pool; rewrite penalised_repaid.
  all: match goal with HT : tok_transfer ?t ?payer _ ?n ?cx ?w1 = Ret ?u ?w2,
      Hs : shares_ok (entries (positions_of ?w ?id)) |- _ =>
    destruct u;
    first [ match goal with Hd : distribute_yield _ _ _ _ _ ?w3 = Ret _ _ |- _ =>
              apply (repay_moves payer t n id _ cx w w1 w2 w3) end
          | match goal with |- context [w_emit ?e w2] =>
              apply (repay_moves payer t n id _ cx w w1 w2 (w_emit e w2)) end ] end;
    [rewrite close_repaid; cbn; lia|done|intros; by bal_simpl
    |intros; rewrite ?tok_dec_wset, ?tok_dec_put, Hdec, ?tok_dec_wset, ?tok_dec_put; done|done|intros; by bal_simpl
    |intros; by rewrite tok_dec_emit|unfold positions_of; by store_simpl|].
  - left. rewrite close_repaid, close_owed in *. split; [|intros; by bal_simpl].
    rewrite close_closed by (cbn; by rewrite penalised_closed). done.
  - right. rewrite close_repaid, close_owed in *. split.
    + rewrite close_closed by (cbn; by rewrite penalised_closed). done.
    + do 2 eexists. split.
      * match goal with Hd : distribute_yield _ _ _ _ _ _ = Ret ?u _ |- _ =>
          destruct u; exact Hd end.
      * intros t' x'. bal_simpl.
        match goal with HR : nft_set_repaid _ _ _ _ _ = Ret _ _ |- _ =>
          apply (keeps_tokens _ _ _ _ HR) end.
Qed.

Lemma repaid_pool_eq now due eff p :
  repaid_pool now due eff p =
  close_if_repaid (with_repaid_amount (p_repaid_amount p + eff) (penalised now due p)).
Proof. unfold repaid_pool. by rewrite penalised_repaid. Qed.

Lemma repay_pool_change payer id t n cx w w' :
  late_ok w -> repay payer id t n cx w = Ret tt w' ->
  pool_change (CRepay payer id t n) cx w id (pool_of w id) (pool_of w' id) /\
  forall j, j <> id -> pool_of w' j = pool_of w j.
Proof.
  intros Hlate H. change (exec (CRepay payer id t n) cx w = Ret tt w') in H. unfold pool_of.
  run_call H; guards; subst; (split; [|intros j Hj; by store_simpl]);
    match goal with Hl : late_ok ?w, E : pget _ _ = Some ?p, H : apply_late_penalty _ _ ?p _ _ = Ret _ _ |- _ =>
      destruct (apply_late_penalty_Ret _ _ _ _ _ _ _ (Hl _ _ E) H) as (-> & _ & _); rewrite E end;
    rewrite penalised_repaid, <- repaid_pool_eq in *;
    (eapply pc_repay; try done; [lia|eapply convert_pos; [done|lia]|lia]).
Qed.

Lemma pool_evolves c cx w w' id :
  late_ok w -> exec c cx w = Ret tt w' ->
  pool_change c cx w id (pool_of w id) (pool_of w' id).
Proof.
  intros Hlate H. destruct c; try (unfold pool_of; run_call H; by apply pc_same).
  - unfold pool_of. run_call H. guards. subst.
    destruct (decide (invoice_id = id)) as [->|Hne]; [store_simpl|store_simpl; apply pc_same].
    destruct (pget _ (DataKey.Pool id)); [done|]. by eapply pc_open; try done; lia.
  - apply repay_pool_change in H as [H Hne]; [|done].
    destruct (decide (id = invoice_id)) as [->|Hj]; [done|]. rewrite Hne by done. apply pc_same.
  - unfold pool_of. run_call H; guards; subst; [|by apply pc_same].
    destruct (decide (invoice_id = id)) as [->|Hne]; [store_simpl|store_simpl; apply pc_same].
    match goal with E : pget _ (DataKey.Pool _) = Some _ |- _ => rewrite E end.
    by eapply pc_settle.
Qed.

(** How one call moves the positions of an invoice. *)
Inductive positions_change (c : Call) (w : W) (id : u64) : SMap Position -> SMap Position -> Prop :=
  | po_same m : positions_change c w id m m
  | po_record a v n total cap m :
      c = CRecordPosition a id v n total -> 0 < n <= total -> total <= MAX_AMOUNT ->
      cap = default 5000 (iget (st_get w) DataKey.MaxPositionBps) ->
      n * 10000 / total <= cap ->
      positions_change c w id m (map_set v (mkPosition v id n (n * 10000 / total) 0) m)
  | po_buy b s p m :
      c = CBuyPosition b id s -> map_get s m = Some p ->
      positions_change c w id m
        (map_set b (mkPosition b id (pos_contributed p) (pos_share_bps p) (pos_yield_claimed p))
           (map_remove s m)).

Lemma share_bps_of_Ok n total s :
  0 < n <= total -> total <= MAX_AMOUNT -> share_bps_of n total = Ok s ->
  s = n * 10000 / total /\ 0 <= s <= 10000.
Proof.
  intros Hn Ht. unfold share_bps_of.
  destruct (v ← checked_mul n 10000; checked_div v total) as [q|] eqn:E; [|done]. cbn.
  intros [= <-]. apply bind_Some in E as (v & Hv & Hq). guards. subst.
  rewrite checked_div_pos in Hq by lia. injection Hq as <-.
  pose proof (Z.div_pos (n * 10000) total ltac:(lia) ltac:(lia)).
  pose proof (Z.div_le_upper_bound (n * 10000) total 10000 ltac:(lia) ltac:(nia)).
  unfold as_u32. rewrite Z.mod_small by lia. lia.
Qed.

Lemma positions_evolve c cx w w' id :
  exec c cx w = Ret tt w' ->
  positions_change c w id (positions_of w id) (positions_of w' id).
Proof.
  intros H. unfold positions_of.
  destruct c; run_call H; try (by apply po_same); guards; subst.
  all: destruct (decide (invoice_id = id)) as [->|Hne]; [store_simpl|store_simpl; apply po_same].
  - match goal with E : share_bps_of _ _ = Ok _ |- _ =>
      apply share_bps_of_Ok in E as [-> ?]; [|lia|lia] end.
    eapply po_record; try done; lia.
  - by eapply po_buy.
Qed.

Lemma locks_free c cx w w' id :
  lock_free w id -> exec c cx w = Ret tt w' -> lock_free w' id.
Proof.
  unfold lock_free. intros Hl H. destruct c; run_call H; try done.
  all: destruct (decide (invoice_id = id)) as [->|Hne]; by store_simpl.
Qed.

(** How one call moves the early-settlement offer of an invoice. *)
Inductive settlement_change (c : Call) (cx : Ctx) (w : W) (id : u64) :
    option EarlySettlementOffer -> option EarlySettlementOffer -> Prop :=
  | sc_same o : settlement_change c cx w id o o
  | sc_propose sme n p :
      c = CProposeSettlement sme id n -> authorized cx sme = true ->
      pool_of w id = Some p -> p_is_closed p = false ->
      0 < n -> p_total_funded p <= n < p_total_owed p ->
      settlement_change c cx w id None (Some (mkEarlySettlementOffer id n 0 []))
  | sc_accept v pos o :
      c = CAcceptSettlement v id -> authorized cx v = true ->
      map_get v (positions_of w id) = Some pos -> ~ v ∈ es_accepted o ->
      es_accepted_bps o + pos_share_bps pos < 10000 ->
      settlement_change c cx w id (Some o)
        (Some (with_accepted (es_accepted_bps o + pos_share_bps pos) (es_accepted o ++ [v]) o))
  | sc_settle v pos o :
      c = CAcceptSettlement v id -> authorized cx v = true ->
      map_get v (positions_of w id) = Some pos -> ~ v ∈ es_accepted o ->
      10000 <= es_accepted_bps o + pos_share_bps pos ->
      settlement_change c cx w id (Some o) None
  | sc_cancel sme o :
      c = CCancelSettlement sme id -> authorized cx sme = true ->
      settlement_change c cx w id (Some o) None.

Lemma settlement_evolves c cx w w' id :
  exec c cx w = Ret tt w' ->
  settlement_change c cx w id (settlement_of w id) (settlement_of w' id).
Proof.
  intros H. unfold settlement_of.
  destruct c; run_call H; try (by apply sc_same); guards; subst.
  all: destruct (decide (invoice_id = id)) as [->|Hne]; [store_simpl|store_simpl; apply sc_same].
  all: try match goal with E : pget _ (DataKey.EarlySettlement _) = Some _ |- _ => rewrite E end.
  - destruct (pget _ (DataKey.EarlySettlement id)); [done|].
    eapply sc_propose; try done; lia.
  - eapply sc_settle; try done. cbn in *. lia.
  - eapply sc_accept; try done. cbn in *. lia.
  - by eapply sc_cancel.
Qed.

Lemma fp_config_evolves c cx w w' :
  typed c -> exec c cx w = Ret tt w' ->
  iget (st_get w') DataKey.LatePenaltyBps = iget (st_get w) DataKey.LatePenaltyBps \/
  exists late, iget (st_get w') DataKey.LatePenaltyBps = Some late /\ 0 <= late <= 10000.
Proof.
  intros Ht H. destruct c; run_call H; try (by left). guards. right. eexists. split; [done|].
  cbn in Ht. lia.
Qed.

(** ** Invariant of the reachable states *)

Record pool_ok (id : u64) (p : Pool) : Prop := {
  po_id : p_invoice_id p = id;
  po_funded : p_total_funded p = 0;
  po_face : 0 < p_face_value p <= MAX_AMOUNT;
  po_late : 0 <= p_late_penalty_bps p <= 10000;
  po_owed : p_total_owed p = p_face_value p +
    (if p_penalty_applied p then p_face_value p * p_late_penalty_bps p / 10000 else 0);
  po_repaid : 0 <= p_repaid_amount p <= i128_max;
  po_open : p_is_closed p = false -> p_repaid_amount p < p_total_owed p }.

Record position_ok (id : u64) (p : Position) : Prop := {
  pp_invoice : pos_invoice_id p = id;
  pp_contributed : 0 < pos_contributed p <= MAX_AMOUNT;
  pp_share : 0 <= pos_share_bps p <= 10000 }.

Record offer_ok (id : u64) (owed : i128) (o : EarlySettlementOffer) : Prop := {
  eo_id : es_invoice_id o = id;
  eo_amount : 0 < es_amount o < owed;
  eo_amount_max : es_amount o <= i128_max;
  eo_bps : 0 <= es_accepted_bps o < 10000;
  eo_once : NoDup (es_accepted o) }.

Record wf (w : W) : Prop := {
  wf_late : forall late, iget (st_get w) DataKey.LatePenaltyBps = Some late -> 0 <= late <= 10000;
  wf_pool : forall id p, pool_of w id = Some p -> pool_ok id p;
  wf_positions : forall id, map_all (position_ok id) (positions_of w id);
  wf_investor : forall id v p, map_get v (positions_of w id) = Some p -> pos_investor p = v;
  wf_offer : forall id o, settlement_of w id = Some o ->
    exists p, pool_of w id = Some p /\ offer_ok id (p_total_owed p) o;
  wf_lock : forall id, lock_free w id }.

Lemma penalised_ok now due id p : pool_ok id p -> pool_ok id (penalised now due p).
Proof.
  intros [H1 H2 H3 H4 H5 H6 H7]. unfold penalised.
  destruct (p_penalty_applied p) eqn:Ea; simpl; [by split; rewrite ?Ea|].
  destruct (_ && _); [|by split; rewrite ?Ea].
  pose proof (Z.div_pos (p_face_value p * p_late_penalty_bps p) 10000 ltac:(nia) ltac:(lia)).
  split; cbn; try done; [lia|]. intros Hc. specialize (H7 Hc). lia.
Qed.

Lemma repaid_pool_ok now due eff id p :
  pool_ok id p -> p_is_closed p = false -> 0 < eff -> p_repaid_amount p + eff <= i128_max ->
  pool_ok id (repaid_pool now due eff p).
Proof.
  intros Hp Hc He Hm. rewrite repaid_pool_eq.
  destruct (penalised_ok now due id p Hp) as [H1 H2 H3 H4 H5 H6 H7]. destruct Hp.
  unfold close_if_repaid. destruct (_ >=? _) eqn:E; split; cbn in *; try done; lia.
Qed.

Lemma owed_grows c cx w id p o :
  pool_ok id p -> pool_change c cx w id (Some p) o ->
  exists p', o = Some p' /\ p_total_owed p <= p_total_owed p'.
Proof.
  intros [H1 H2 H3 H4 H5 H6 H7] Hc. inversion Hc; subst; eexists; (split; [done|]); cbn; try lia.
  rewrite repaid_pool_eq, close_owed. cbn. unfold penalised. destruct (_ && _); [|lia].
  pose proof (Z.div_pos (p_face_value p * p_late_penalty_bps p) 10000 ltac:(nia) ltac:(lia)).
  cbn. lia.
Qed.

Lemma pool_ok_step c cx w id o p :
  wf w -> o = pool_of w id -> pool_change c cx w id o (Some p) -> pool_ok id p.
Proof.
  intros Hwf -> Hc. inversion Hc as [o Eo E|m t face late Hcall Hf Ht Hl Eo E
    |payer t n due eff p0 Hcall Hcl Hn Heff Hm Eo E|v o p0 Hcall Hcl Ho Eo E]; subst.
  - by apply (wf_pool _ Hwf).
  - pose proof (wf_late _ Hwf _ Hl). split; cbn; done || lia.
  - apply repaid_pool_ok; try done. by apply (wf_pool _ Hwf).
  - destruct (wf_pool _ Hwf id p0 (eq_sym Eo)) as [H1 H2 H3 H4 H5 H6 H7].
    destruct (wf_offer _ Hwf _ _ Ho) as (p1 & Hp1 & [_ ? ? _ _]).
    split; cbn; try done. lia.
Qed.

Lemma positions_ok_step c w id m m' :
  positions_change c w id m m' -> map_all (position_ok id) m -> map_all (position_ok id) m'.
Proof.
  intros Hc Hm. destruct Hc as [m|a v n total cap m _ Hn Ht _ _|b s p m _ Hg]; [done|..].
  - apply map_all_set; [|done].
    pose proof (Z.div_pos (n * 10000) total ltac:(lia) ltac:(lia)).
    pose proof (Z.div_le_upper_bound (n * 10000) total 10000 ltac:(lia) ltac:(nia)).
    split; cbn; try done; lia.
  - apply map_all_set; [|by apply map_all_remove].
    destruct (map_all_get _ _ _ _ Hm Hg). by split.
Qed.

Lemma investor_step c w id m m' :
  positions_change c w id m m' ->
  (forall v p, map_get v m = Some p -> pos_investor p = v) ->
  forall v p, map_get v m' = Some p -> pos_investor p = v.
Proof.
  intros Hc Hm v p. destruct Hc as [m|a u n total cap m _ _ _ _ _|b s q m _ Hg]; [apply Hm|..].
  - rewrite map_get_set. destruct (N.eqb_spec v u) as [->|]; [by intros [= <-]|apply Hm].
  - rewrite map_get_set. destruct (N.eqb_spec v b) as [->|]; [by intros [= <-]|].
    rewrite map_get_remove. destruct (N.eqb_spec v s); [done|apply Hm].
Qed.

Lemma offer_ok_step c cx w id o o' owed :
  settlement_change c cx w id o (Some o') -> wf w ->
  (forall x, o = Some x -> offer_ok id owed x) ->
  (forall p, pool_of w id = Some p -> p_total_owed p = owed) -> owed <= i128_max ->
  offer_ok id owed o'.
Proof.
  intros Hc Hwf Ho Hp Hmax. inversion Hc as [| sme n p Hcall Hau Hpo Hcl Hn Hr|v pos x Hcall Hau Hg Hv Hlt| |]; subst.
  - by apply Ho.
  - specialize (Hp _ Hpo). split; cbn; done || lia || constructor.
  - destruct (Ho _ eq_refl) as [H1 H2 H3 H4 H5].
    pose proof (map_all_get _ _ _ _ (wf_positions _ Hwf id) Hg) as [_ _ Hsh].
    split; cbn; try done; [lia|]. apply NoDup_app. split_and!; [done| |apply NoDup_singleton].
    intros b Hb ->%list_elem_of_singleton. done.
Qed.

Lemma owed_in_range id p : pool_ok id p -> p_total_owed p <= i128_max.
Proof.
  intros [_ _ H3 H4 H5 _ _].
  pose proof (Z.div_le_upper_bound (p_face_value p * p_late_penalty_bps p) 10000 (p_face_value p)
    ltac:(lia) ltac:(nia)).
  unfold MAX_AMOUNT, i128_max in *. rewrite H5. destruct (p_penalty_applied p);
    change (Z.quot 170141183460469231731687303715884105727 2) with 85070591730234615865843651857942052863 in *; lia.
Qed.

Lemma late_ok_wf w : wf w -> late_ok w.
Proof. intros Hwf id p Hp. destruct (wf_pool _ Hwf _ _ Hp). lia. Qed.

Lemma offer_step c cx w w' id o' :
  wf w -> exec c cx w = Ret tt w' -> settlement_of w' id = Some o' ->
  exists p, pool_of w' id = Some p /\ offer_ok id (p_total_owed p) o'.
Proof.
  intros Hwf H Ho. pose proof (settlement_evolves _ _ _ _ id H) as Hc. rewrite Ho in Hc.
  assert (Hpool : exists p, pool_of w id = Some p).
  { destruct (settlement_of w id) as [x|] eqn:Eo.
    - destruct (wf_offer _ Hwf id x Eo) as (p & Hp & _). eauto.
    - inversion Hc; subst; eauto. }
  destruct Hpool as [p Hp]. pose proof (wf_pool _ Hwf _ _ Hp) as Hok.
  assert (offer_ok id (p_total_owed p) o') as [H1 H2 H3 H4 H5].
  { eapply (offer_ok_step _ _ _ _ _ _ _ Hc Hwf); [| |by eapply owed_in_range].
    - intros x Ex. destruct (wf_offer _ Hwf id x Ex) as (q & Hq & ?). congruence.
    - intros q Hq. congruence. }
  pose proof (pool_evolves _ _ _ _ id (late_ok_wf _ Hwf) H) as Hpc. rewrite Hp in Hpc.
  destruct (owed_grows _ _ _ _ _ _ Hok Hpc) as (p' & Hp' & Hle).
  exists p'. split; [done|]. split; try done. lia.
Qed.

Lemma fp_wf_step c cx w w' : typed c -> wf w -> exec c cx w = Ret tt w' -> wf w'.
Proof.
  intros Hty Hwf H. split.
  - intros late. destruct (fp_config_evolves _ _ _ _ Hty H) as [->|(l & -> & ?)]; [apply (wf_late _ Hwf)|].
    by intros [= <-].
  - intros id p Hp. pose proof (pool_evolves _ _ _ _ id (late_ok_wf _ Hwf) H) as Hc. rewrite Hp in Hc.
    by eapply pool_ok_step.
  - intros id. eapply positions_ok_step; [by eapply positions_evolve|by apply (wf_positions _ Hwf)].
  - intros id. eapply investor_step; [by eapply positions_evolve|by apply (wf_investor _ Hwf)].
  - intros id o Ho. by eapply offer_step.
  - intros id. eapply locks_free; [by apply (wf_lock _ Hwf)|done].
Qed.

Lemma fp_wf_reachable w : reachable w -> wf w.
Proof.
  intros (w0 & E & Hst).
  assert (Hw : wf w0).
  { split; unfold pool_of, positions_of, settlement_of, lock_free; rewrite E; try done.
    intros id. constructor. }
  clear E. induction Hst as [w|w w1 w2 Hs _ IH]; [done|]. apply IH.
  destruct Hs as [w cx c Hty|w w' E].
  - destruct (run_tx_cases (exec c) cx w) as [->|([] & w' & E & ->)]; [done|]. by eapply fp_wf_step.
  - destruct Hw. split; unfold pool_of, positions_of, settlement_of, lock_free in *; by rewrite E.
Qed.

(** Positions are recorded against a pool. *)
Lemma orphans_step c cx w w' id :
  typed c -> wf w -> exec c cx w = Ret tt w' -> (pool_of w id = None -> positions_of w id = map_new) ->
  pool_of w' id = None -> positions_of w' id = map_new.
Proof.
  intros Hty Hwf H Ho Hn. pose proof (pool_evolves _ _ _ _ id (late_ok_wf _ Hwf) H) as Hc.
  rewrite Hn in Hc. assert (pool_of w id = None) as Hn0 by by inversion Hc. specialize (Ho Hn0).
  pose proof (positions_evolve _ _ _ _ id H) as Hp. rewrite Ho in Hp.
  inversion Hp as [|a v n total cap m ->|]; subst; [done| |done].
  exfalso. unfold pool_of in *. run_call H. congruence.
Qed.

Lemma orphans_reachable w id : reachable w -> pool_of w id = None -> positions_of w id = map_new.
Proof.
  intros (w0 & E & Hst). assert (Hr : reachable w0) by by exists w0.
  assert (pool_of w0 id = None -> positions_of w0 id = map_new) as Ho
    by (intros _; unfold positions_of; rewrite E; reflexivity).
  clear E. induction Hst as [w|w w1 w2 Hs Hst IH]; [done|].
  assert (reachable w1) as Hr1.
  { destruct Hr as (w0 & ? & ?). exists w0. split; [done|]. by eapply rtc_r. }
  apply IH; [done|]. destruct Hs as [w cx c Hty|w w' E].
  - destruct (run_tx_cases (exec c) cx w) as [->|([] & w' & E & Ew)]; [done|]. rewrite Ew.
    exact (orphans_step c cx w w' id Hty (fp_wf_reachable _ Hr) E Ho).
  - unfold pool_of, positions_of in *. by rewrite E.
Qed.

Lemma shares_of_wf w id : wf w -> shares_ok (entries (positions_of w id)).
Proof.
  intros Hwf. eapply Forall_impl; [apply (wf_positions _ Hwf id)|].
  intros e [_ _ ?]. cbn in *. lia.
Qed.

(** ** Properties *)

(** C9: A successful repayment is authorized by its payer, of a positive amount,
    on an open pool whose invoice is not frozen; it counts for the amount the oracle
    converts it to, charges the late penalty [floor(face * bps / 10000)] exactly when
    it is past due and has not been charged yet, closes the pool exactly when the
    total repaid reaches the total owed, moves the amount from the payer to the pool
    and, when it closes, pays each position its share of the total; the repayment
    lock is free again at the end. *)
Theorem repay_correct payer id t n cx w w' :
  reachable w -> repay payer id t n cx w = Ret tt w' ->
  exists p nft inv eff wl,
    pool_of w id = Some p /\ p_is_closed p = false /\
    authorized cx payer = true /\ 0 < n <= MAX_AMOUNT /\
    iget (st_get w) DataKey.InvoiceNft = Some nft /\
    nft_is_invoice_frozen nft id cx w = Ret false w /\
    nft_get_invoice nft id cx wl = Ret inv wl /\
    convert_if_needed n (inv_currency inv) (p_token p) cx wl = Ret eff wl /\ 0 < eff /\
    wl = wset cx (DataKey.RepaymentLock id) true w /\
    let p1 := penalised (cx_now cx) (inv_due_date inv) p in
    let p' := repaid_pool (cx_now cx) (inv_due_date inv) eff p in
    pool_of w' id = Some p' /\ p_repaid_amount p' = p_repaid_amount p + eff /\
    p_total_owed p' = p_total_owed p1 /\
    (p_is_closed p' = true <-> p_total_owed p' <= p_repaid_amount p') /\
    lock_free w' id /\ repay_balances payer t n id p' cx w w'.
Proof.
  intros Hr H. pose proof (fp_wf_reachable _ Hr) as Hwf.
  destruct (repay_effect _ _ _ _ _ _ _ (late_ok_wf _ Hwf) (shares_of_wf _ id Hwf) H)
    as (p & nft & inv & eff & wl & Hp & Hc & Hl & Hau & Hn & Hnft & Hfr & Hg & Hcv & He & Hm & Hwl & Hp' & Hl' & Hb).
  exists p, nft, inv, eff, wl. cbv zeta in *. rewrite repaid_pool_eq in *.
  rewrite close_repaid, close_owed, close_closed by (cbn; by rewrite penalised_closed).
  split_and!; try done; cbn; lia.
Qed.

(** C11: The pool's books, in every reachable state: the total owed is the face value
    plus the one late penalty if it has been charged, the face value is that of a
    valid invoice, the amount repaid is never negative, an open pool still owes, and
    the funding recorded in it is always 0. *)
Theorem pools_are_accounted w id p :
  reachable w -> pool_of w id = Some p -> pool_ok id p.
Proof. intros Hr. apply (wf_pool _ (fp_wf_reachable _ Hr)). Qed.

Lemma pool_follows c cx w id p o :
  pool_ok id p -> pool_change c cx w id (Some p) o ->
  exists p', o = Some p' /\ p_token p' = p_token p /\ p_face_value p' = p_face_value p /\
    p_late_penalty_bps p' = p_late_penalty_bps p /\ p_total_owed p <= p_total_owed p' /\
    (p_penalty_applied p = true -> p_penalty_applied p' = true) /\
    (p_is_closed p = true -> p' = p).
Proof.
  intros Hok Hc. destruct (owed_grows _ _ _ _ _ _ Hok Hc) as (p' & -> & Hle).
  exists p'. split; [done|]. revert Hle. inversion Hc; subst; intros Hle; [done| |].
  - rewrite repaid_pool_eq in *. unfold close_if_repaid, penalised in *.
    destruct (_ && _); destruct (_ >=? _); cbn in *; split_and!; try done; congruence.
  - cbn in *. split_and!; try done. congruence.
Qed.

Lemma ret_step c cx w w' : typed c -> exec c cx w = Ret tt w' -> step w w'.
Proof. intros Hc H. pose proof (step_call w cx c Hc) as Hs. unfold run_tx in Hs. by rewrite H in Hs. Qed.

Lemma fp_step_reachable w w' : reachable w -> step w w' -> reachable w'.
Proof. intros (w0 & ? & ?) Hs. exists w0. split; [done|]. by eapply rtc_r. Qed.

Lemma pool_step w w' id p :
  wf w -> step w w' -> pool_of w id = Some p ->
  exists p', pool_of w' id = Some p' /\ p_token p' = p_token p /\ p_face_value p' = p_face_value p /\
    p_late_penalty_bps p' = p_late_penalty_bps p /\ p_total_owed p <= p_total_owed p' /\
    (p_penalty_applied p = true -> p_penalty_applied p' = true) /\
    (p_is_closed p = true -> p' = p).
Proof.
  intros Hwf Hs Hp. destruct Hs as [w cx c _|w w' E].
  - destruct (run_tx_cases (exec c) cx w) as [->|([] & w' & E & ->)]; [by exists p|].
    pose proof (pool_evolves _ _ _ _ id (late_ok_wf _ Hwf) E) as Hc. rewrite Hp in Hc.
    eapply pool_follows; [by apply (wf_pool _ Hwf)|done].
  - unfold pool_of in *. rewrite E. by exists p.
Qed.

(** C22: A pool, once opened, is never removed or reopened: its token, face value and
    penalty rate never change, what it owes never decreases, the late penalty is
    never charged twice, and a closed pool is final, whatever transactions follow. *)
Theorem pools_are_permanent w w' id p :
  reachable w -> rtc step w w' -> pool_of w id = Some p ->
  exists p', pool_of w' id = Some p' /\ p_token p' = p_token p /\ p_face_value p' = p_face_value p /\
    p_late_penalty_bps p' = p_late_penalty_bps p /\
    p_total_owed p <= p_total_owed p' <= p_face_value p + p_face_value p * p_late_penalty_bps p / 10000 /\
    (p_is_closed p = true -> p' = p).
Proof.
  intros Hr Hs Hp.
  assert (exists p', pool_of w' id = Some p' /\ p_token p' = p_token p /\ p_face_value p' = p_face_value p /\
    p_late_penalty_bps p' = p_late_penalty_bps p /\ p_total_owed p <= p_total_owed p' /\
    (p_is_closed p = true -> p' = p) /\ reachable w') as (p' & Hp' & Ht & Hf & Hl & Ho & Hc & Hr').
  { revert p Hp. induction Hs as [w|w w1 w2 Hs _ IH]; intros p Hp; [exists p; split_and!; done || lia|].
    destruct (pool_step _ _ _ _ (fp_wf_reachable _ Hr) Hs Hp) as (p1 & Hp1 & ? & ? & ? & ? & _ & Hc1).
    destruct (IH (fp_step_reachable _ _ Hr Hs) _ Hp1) as (p2 & Hp2 & ? & ? & ? & ? & Hc2 & ?).
    exists p2. split_and!; try done; try congruence; [lia|].
    intros Hc. rewrite (Hc1 Hc) in *. by apply Hc2. }
  destruct (wf_pool _ (fp_wf_reachable _ Hr') _ _ Hp') as [_ _ H3 H4 H5 _ _].
  exists p'. split_and!; try done. rewrite Hf, Hl in *.
  pose proof (Z.div_pos (p_face_value p * p_late_penalty_bps p) 10000 ltac:(nia) ltac:(lia)).
  destruct (p_penalty_applied p'); lia.
Qed.

(** No repayment lock survives a transaction: in every reachable state every
    invoice's lock is free, so a repayment is never refused for good. *)
Theorem repayment_locks_are_released w id : reachable w -> lock_free w id.
Proof. intros Hr. apply (wf_lock _ (fp_wf_reachable _ Hr)). Qed.

(** ** Shares and payouts *)

Lemma paid_to_above total d x l : above x l -> paid_to total d x l = 0.
Proof.
  unfold paid_to. induction 1 as [|[v p] l Hv _ IH]; [done|]. rewrite sum_of_cons, IH. cbn in *.
  destruct (N.eqb_spec x v); lia.
Qed.

(** An investor is paid for its one position. *)
Lemma paid_to_position total d x l :
  raw_sorted l = true -> paid_to total d x l = from_option (payout total d) 0 (raw_get x l).
Proof.
  induction l as [|[v p] l IH]; intros Hs; [done|].
  apply raw_sorted_cons in Hs as [Ha Hs]. cbn [raw_get]. unfold paid_to in *.
  rewrite sum_of_cons. cbn. destruct (N.eqb_spec x v) as [->|Hne].
  - pose proof (paid_to_above total d v l Ha) as Hz. unfold paid_to in Hz. rewrite Hz. cbn. lia.
  - rewrite IH by done. lia.
Qed.

(** A distribution that succeeds has read the decimals of the token. *)
Lemma distribute_decimals id t total f u cx w w' :
  distribute_yield id t total f cx w = Ret u w' -> 0 <= tok_dec w t.
Proof.
  unfold distribute_yield, load_positions. intros H. minv H.
  match goal with H : tok_decimals _ _ _ = Ret _ _ |- _ => by apply tok_decimals_law in H as (-> & ? & _) end.
Qed.

(** C10: A distribution of a non-negative amount pays every investor exactly the floor
    share of its position (for a token of at most 7 decimals; a multiple of the unit of
    the seventh decimal otherwise), whatever the shares of the pool add up to; no one
    else's balance and no other token moves. When the shares add up to at most 100%,
    it takes no more than the amount distributed out of the contract. *)
Theorem distribution_is_bounded id t total f cx w w' :
  reachable w -> 0 <= total <= i128_max ->
  distribute_yield id t total f cx w = Ret tt w' ->
  (forall t' x, x <> cx_self cx -> tok_bal w' t' x = tok_bal w t' x +
     (if (t' =? t)%N
      then from_option (payout total (tok_dec w t)) 0 (map_get x (positions_of w id)) else 0)) /\
  (forall t', t' <> t -> tok_bal w' t' (cx_self cx) = tok_bal w t' (cx_self cx)) /\
  (map_sum pos_share_bps (positions_of w id) <= 10000 ->
   tok_bal w t (cx_self cx) - total <= tok_bal w' t (cx_self cx)).
Proof.
  intros Hr Ht H. pose proof (shares_of_wf _ id (fp_wf_reachable _ Hr)) as Hs.
  pose proof (distribute_decimals _ _ _ _ _ _ _ _ H) as Hd.
  apply distribute_effect in H; [|lia|done]. unfold distributed in H.
  split_and!.
  - intros t' x Hx. rewrite H. destruct (N.eqb_spec t' t) as [->|]; [|lia].
    destruct (N.eqb_spec x (cx_self cx)); [done|].
    rewrite paid_to_position by apply entries_sorted. unfold map_get. lia.
  - intros t' Hne. rewrite H. by destruct (N.eqb_spec t' t).
  - intros Hsum. pose proof (paid_le total (tok_dec w t) _ ltac:(lia) Hd Hs Hsum) as Hp.
    rewrite H, !N.eqb_refl.
    assert (0 <= paid_to total (tok_dec w t) (cx_self cx) (entries (positions_of w id))); [|lia].
    rewrite paid_to_position by apply entries_sorted.
    destruct (raw_get _ _) as [p|] eqn:E; cbn; [|lia].
    assert (position_ok id p) as [_ _ ?] by (by eapply (raw_get_Forall _ _ _ _ (wf_positions _ (fp_wf_reachable _ Hr) id))).
    unfold payout. apply share_value_le; lia.
Qed.

(** Positions whose share is their fraction of one pool size [total]. *)
Definition recorded_against (total : i128) (m : SMap Position) : Prop :=
  map_all (fun p => pos_share_bps p = pos_contributed p * 10000 / total) m.

Lemma shares_fit total l :
  0 < total -> Forall (fun e : N * Position => 0 < pos_contributed e.2) l ->
  Forall (fun e : N * Position => pos_share_bps e.2 = pos_contributed e.2 * 10000 / total) l ->
  sum_of (fun e => pos_share_bps e.2) l * total <= sum_of (fun e => pos_contributed e.2) l * 10000.
Proof.
  intros Ht Hc Hs. induction Hs as [|e l He _ IH]; [simpl; lia|].
  apply Forall_cons in Hc as [Hce Hc]. rewrite !sum_of_cons, He.
  pose proof (Z.mul_div_le (pos_contributed e.2 * 10000) total Ht). specialize (IH Hc). nia.
Qed.

(** [record_position] stores, under the investor, the contribution with its share
    floor(contributed * 10000 / total), which is within the concentration cap and at
    most 100%; and as long as the positions of an invoice are recorded against one
    pool size and do not add up to more than it, their shares add up to at most 100%. *)
Theorem recorded_shares_fit c id v n total cx w w' :
  reachable w -> record_position c id v n total cx w = Ret tt w' ->
  iget (st_get w) DataKey.Admin = Some c /\ authorized cx c = true /\
  (exists p, map_get v (positions_of w' id) = Some p /\ pos_investor p = v /\
     pos_contributed p = n /\ pos_share_bps p = n * 10000 / total /\
     0 <= pos_share_bps p <= default 5000 (iget (st_get w) DataKey.MaxPositionBps)) /\
  (recorded_against total (positions_of w id) ->
   map_sum pos_contributed (positions_of w' id) <= total ->
   recorded_against total (positions_of w' id) /\
   map_sum pos_share_bps (positions_of w' id) <= 10000).
Proof.
  intros Hr H. change (exec (CRecordPosition c id v n total) cx w = Ret tt w') in H.
  pose proof (fp_wf_reachable _ Hr) as Hwf.
  assert (Hty : typed (CRecordPosition c id v n total)) by done.
  pose proof (wf_positions _ (fp_wf_step _ _ _ _ Hty Hwf H) id) as Hok'.
  unfold positions_of in *. run_call H. guards. subst.
  match goal with E : share_bps_of _ _ = Ok _ |- _ =>
    apply share_bps_of_Ok in E as [-> ?]; [|lia|lia] end.
  store_simpl in Hok'. cbn in Hok'. split_and!; try done.
  - eexists. cbn [from_option Datatypes.id]. rewrite map_get_set_eq. split; [done|]. cbn. split_and!; done || lia.
  - intros Hrec Hsum. cbn [from_option Datatypes.id] in Hsum |- *.
    set (m' := map_set _ _ _) in *.
    assert (Hm' : recorded_against total m') by (by apply map_all_set).
    split; [done|].
    pose proof (shares_fit total (entries m') ltac:(lia)) as Hfit. unfold map_sum in *.
    assert (Forall (fun e : N * Position => 0 < pos_contributed e.2) (entries m')) as Hpos.
    { eapply Forall_impl; [exact Hok'|]. intros e [_ Hc _]. cbn beta in *. lia. }
    specialize (Hfit Hpos Hm'). nia.
Qed.

(** What a successful acceptance by [v] did: recorded it, or settled the pool. *)
Definition accepted_by (v : Address) (id : u64) cx w w' : Prop :=
  exists o p pos,
    settlement_of w id = Some o /\ pool_of w id = Some p /\ p_is_closed p = false /\
    map_get v (positions_of w id) = Some pos /\ authorized cx v = true /\
    ~ v ∈ es_accepted o /\ positions_of w' id = positions_of w id /\
    let sum := es_accepted_bps o + pos_share_bps pos in
    (sum < 10000 /\ pool_of w' id = Some p /\
       settlement_of w' id = Some (with_accepted sum (es_accepted o ++ [v]) o) /\
       (forall t x, tok_bal w' t x = tok_bal w t x) \/
     10000 <= sum /\ settlement_of w' id = None /\
       pool_of w' id = Some (with_is_closed true (with_repaid_amount (es_amount o) p)) /\
       distributed id (p_token p) (es_amount o) cx w w').

Lemma accept_effect v id cx w w' :
  reachable w -> accept_early_settlement v id cx w = Ret tt w' -> accepted_by v id cx w w'.
Proof.
  unfold accepted_by. intros Hr H. pose proof (fp_wf_reachable _ Hr) as Hwf.
  pose proof (shares_of_wf _ id Hwf) as Hs. pose proof (wf_offer _ Hwf id) as Hoff.
  change (exec (CAcceptSettlement v id) cx w = Ret tt w') in H.
  unfold settlement_of, pool_of, positions_of in *. run_call H; guards; subst;
    do 3 eexists; cbv zeta; (split_and!; [done|done|done|done|done|done|by store_simpl|]).
  - right. cbn in Hif. split_and!; [lia|by store_simpl|by store_simpl|].
    intros t' x'. bal_simpl.
    match goal with HR : nft_set_repaid _ _ _ _ _ = Ret _ _ |- _ =>
      destruct (keeps_tokens _ _ _ _ HR) as [-> _] end.
    match goal with Hd : distribute_yield _ _ _ _ _ _ = Ret ?u _ |- _ =>
      destruct u; rename Hd into HD end.
    apply distribute_effect in HD.
    + rewrite HD. unfold positions_of. store_simpl. cbn [p_token with_is_closed with_repaid_amount].
      rewrite ?tok_dec_put, ?tok_dec_wset. by bal_simpl.
    + edestruct Hoff as (q & _ & [_ _ ? _ _]); [done|]. done.
    + unfold positions_of. by store_simpl.
  - left. cbn in Hif. split_and!; [lia|done|by store_simpl|]. intros. by bal_simpl.
Qed.

(** The storage after a sale. *)
Lemma buy_effect b id s cx w w' :
  buy_position b id s cx w = Ret tt w' ->
  exists o pos,
    pget (st_get w) (DataKey.SaleOffer id s) = Some o /\ authorized cx b = true /\
    map_get s (positions_of w id) = Some pos /\
    map_get b (positions_of w' id) =
      Some (mkPosition b id (pos_contributed pos) (pos_share_bps pos) (pos_yield_claimed pos)) /\
    pool_of w' id = pool_of w id /\ settlement_of w' id = settlement_of w id /\
    0 <= so_price o /\
    (forall t x, tok_bal w' t x =
       if (t =? so_token o)%N then moved b s x (so_price o) (tok_bal w t x) else tok_bal w t x).
Proof.
  intros H. change (exec (CBuyPosition b id s) cx w = Ret tt w') in H.
  unfold pool_of, positions_of, settlement_of. run_call H. guards. learn_transfers.
  do 2 eexists. cbn [from_option Datatypes.id].
  split_and!; [done|done|done|by rewrite map_get_set_eq|by store_simpl|by store_simpl|lia|].
  intros. by bal_simpl.
Qed.

(** What a default pays out. *)
Lemma default_pays a id t cx w w' :
  reachable w -> mark_default a id t cx w = Ret tt w' ->
  exists p, pool_of w id = Some p /\ pool_of w' id = Some p /\
    (distributed id t (p_repaid_amount p) cx w w' \/ forall t' x, tok_bal w' t' x = tok_bal w t' x).
Proof.
  intros Hr H. pose proof (fp_wf_reachable _ Hr) as Hwf.
  pose proof (shares_of_wf _ id Hwf) as Hs. pose proof (wf_pool _ Hwf id) as Hp.
  change (exec (CMarkDefault a id t) cx w = Ret tt w') in H. unfold pool_of in *.
  run_call H; (eexists; split_and!; [done|by store_simpl|]);
    match goal with _ : distribute_yield _ _ _ _ _ _ = _ |- _ => left | _ => right end;
    intros t' x'; bal_simpl.
  all: repeat match goal with
    | H : rr_try_record_default _ _ _ _ _ = Ret _ _ |- _ =>
        destruct (keeps_tokens _ _ _ _ H) as [-> _]; clear H
    | H : nft_set_defaulted _ _ _ _ _ = Ret _ _ |- _ =>
        destruct (keeps_tokens _ _ _ _ H) as [HB _]; clear H; bal_simpl; rewrite ?HB; clear HB
    end; bal_simpl; try done.
  all: match goal with Hd : distribute_yield _ _ _ _ _ _ = Ret ?u _ |- _ =>
    destruct u; apply distribute_effect in Hd; [apply Hd| |done] end.
  all: match goal with Ep : pget _ _ = Some _ |- _ => destruct (Hp _ Ep); lia end.
Qed.

(** The escrow of an early settlement: in, and out again. *)
Lemma propose_pays s id n cx w w' :
  propose_early_settlement s id n cx w = Ret tt w' ->
  exists p, pool_of w id = Some p /\ authorized cx s = true /\ 0 <= n /\
    forall t x, tok_bal w' t x =
      if (t =? p_token p)%N then moved s (cx_self cx) x n (tok_bal w t x) else tok_bal w t x.
Proof.
  intros H. change (exec (CProposeSettlement s id n) cx w = Ret tt w') in H. unfold pool_of.
  run_call H. learn_transfers. eexists. split_and!; [done|done|lia|]. intros. by bal_simpl.
Qed.

Lemma cancel_pays s id cx w w' :
  cancel_early_settlement s id cx w = Ret tt w' ->
  exists o p nft inv, settlement_of w id = Some o /\ pool_of w id = Some p /\
    authorized cx s = true /\ nft_get_invoice nft id cx w = Ret inv w /\ inv_sme inv = s /\
    forall t x, tok_bal w' t x =
      if (t =? p_token p)%N then moved (cx_self cx) s x (es_amount o) (tok_bal w t x)
      else tok_bal w t x.
Proof.
  intros H. change (exec (CCancelSettlement s id) cx w = Ret tt w') in H.
  unfold pool_of, settlement_of. run_call H. learn_transfers.
  do 4 eexists. split_and!; [done|done|done|done| |].
  - apply N.eqb_eq. by destruct (_ =? _)%N.
  - intros. by bal_simpl.
Qed.

(** C23: Accepting an early settlement: the acceptor authorized it, holds a position,
    had not accepted yet and the pool is open. Below 100% of accepted shares only the
    acceptance is recorded; from 100% on the pool closes with the offered amount as
    its repayment, the offer disappears, and the amount is paid out to the positions
    in the pool's token. *)
Theorem accept_settlement_correct v id cx w w' :
  reachable w -> accept_early_settlement v id cx w = Ret tt w' ->
  exists o p pos,
    settlement_of w id = Some o /\ pool_of w id = Some p /\ p_is_closed p = false /\
    map_get v (positions_of w id) = Some pos /\ authorized cx v = true /\
    ~ v ∈ es_accepted o /\ positions_of w' id = positions_of w id /\
    let sum := es_accepted_bps o + pos_share_bps pos in
    (sum < 10000 /\ pool_of w' id = Some p /\
       settlement_of w' id = Some (with_accepted sum (es_accepted o ++ [v]) o) /\
       (forall t x, tok_bal w' t x = tok_bal w t x) \/
     10000 <= sum /\ settlement_of w' id = None /\
       pool_of w' id = Some (with_is_closed true (with_repaid_amount (es_amount o) p)) /\
       distributed id (p_token p) (es_amount o) cx w w').
Proof. apply accept_effect. Qed.

(** C36: A share that changes hands accepts twice. When a holder accepts an early
    settlement, sells the position and the buyer accepts too, the one share counts
    twice towards the 100% that close the pool: an offer can settle without the
    holders of the other positions, who the code means to be asked. *)
Theorem sold_share_accepts_twice v b id cx1 cx2 cx3 w w1 w2 w3 :
  reachable w -> accept_early_settlement v id cx1 w = Ret tt w1 ->
  buy_position b id v cx2 w1 = Ret tt w2 ->
  accept_early_settlement b id cx3 w2 = Ret tt w3 ->
  exists o pos,
    settlement_of w id = Some o /\ map_get v (positions_of w id) = Some pos /\
    let sum := es_accepted_bps o + 2 * pos_share_bps pos in
    (sum < 10000 /\ settlement_of w3 id = Some (with_accepted sum (es_accepted o ++ [v; b]) o)) \/
    (10000 <= sum /\ settlement_of w3 id = None /\
     exists p, pool_of w id = Some p /\
       pool_of w3 id = Some (with_is_closed true (with_repaid_amount (es_amount o) p))).
Proof.
  intros Hr Ha Hb Hc.
  assert (reachable w2) as Hr2.
  { eapply fp_step_reachable; [eapply fp_step_reachable; [exact Hr|]|].
    - by apply (ret_step (CAcceptSettlement v id) cx1).
    - by apply (ret_step (CBuyPosition b id v) cx2). }
  destruct (accept_effect _ _ _ _ _ Hr Ha) as (o & p & pos & Eo & Ep & _ & Epos & _ & _ & Hpos & Hsum0).
  apply buy_effect in Hb as (so & pos1 & _ & _ & Epos1 & Epos2 & Ep2 & Eo2 & _).
  rewrite Hpos in Epos1. assert (pos1 = pos) as -> by congruence.
  destruct (accept_effect _ _ _ _ _ Hr2 Hc) as (o2 & p2 & pos2 & Eo3 & Ep3 & _ & Epos3 & _ & _ & _ & Hsum).
  cbv zeta in Hsum0. destruct Hsum0 as [(_ & Ep1 & Eo1 & _)|(_ & Eo1 & _)]; [|congruence].
  assert (o2 = with_accepted (es_accepted_bps o + pos_share_bps pos) (es_accepted o ++ [v]) o) as ->
    by congruence.
  assert (p2 = p) as -> by congruence. rewrite Epos2 in Epos3. injection Epos3 as <-.
  cbv zeta in Hsum. cbn in Hsum. exists o, pos. split_and!; [done|done|]. cbv zeta.
  replace (es_accepted_bps o + pos_share_bps pos + pos_share_bps pos)
    with (es_accepted_bps o + 2 * pos_share_bps pos) in Hsum by lia.
  destruct Hsum as [(Hlt & _ & Hs3 & _)|(Hge & Hs3 & Hp3 & _)].
  - left. split; [done|]. rewrite Hs3. f_equal. by rewrite <- app_assoc.
  - right. split_and!; [done|done|]. by exists p.
Qed.

(** C24: Buying a position: there was a standing offer of the seller on an open pool;
    the price goes from the buyer to the seller in the offer's token, the seller's
    position, contribution and share unchanged, becomes the buyer's, the offer is
    consumed, and no other position moves. (A position the buyer already held is
    replaced, not added.) *)
Theorem buy_position_correct b id s cx w w' :
  buy_position b id s cx w = Ret tt w' ->
  exists o p pos,
    pget (st_get w) (DataKey.SaleOffer id s) = Some o /\
    pget (st_get w') (DataKey.SaleOffer id s) = None /\
    pool_of w id = Some p /\ p_is_closed p = false /\ authorized cx b = true /\
    map_get s (positions_of w id) = Some pos /\
    map_get b (positions_of w' id) =
      Some (mkPosition b id (pos_contributed pos) (pos_share_bps pos) (pos_yield_claimed pos)) /\
    (b <> s -> map_get s (positions_of w' id) = None) /\
    (forall x, x <> b -> x <> s -> map_get x (positions_of w' id) = map_get x (positions_of w id)) /\
    map_sum pos_share_bps (positions_of w' id) =
      map_sum pos_share_bps (positions_of w id) -
      (if (b =? s)%N then 0 else weight pos_share_bps (map_get b (positions_of w id))) /\
    (forall t x, tok_bal w' t x =
       if (t =? so_token o)%N then moved b s x (so_price o) (tok_bal w t x) else tok_bal w t x).
Proof.
  intros H. change (exec (CBuyPosition b id s) cx w = Ret tt w') in H.
  unfold pool_of, positions_of. run_call H. guards. learn_transfers.
  do 3 eexists. cbn [from_option Datatypes.id].
  split_and!; [done|by store_simpl|done|done|done|done|by rewrite map_get_set_eq|..].
  - intros Hne. rewrite map_get_set_ne by done. rewrite map_get_remove. by rewrite N.eqb_refl.
  - intros x' Hb Hs. rewrite map_get_set_ne by done. rewrite map_get_remove.
    by destruct (N.eqb_spec x' s).
  - rewrite map_sum_set, map_sum_remove, map_get_remove. cbn.
    match goal with E : map_get s _ = Some _ |- _ => rewrite E end. cbn.
    destruct (N.eqb_spec b s); cbn; lia.
  - intros. by bal_simpl.
Qed.

(** ** Pages *)

Lemma positions_page_run all n i page cx w :
  0 <= i -> i + Z.of_nat n <= len all ->
  positions_page_loop all n i page cx w = Ret (page ++ take n (drop (Z.to_nat i) all)) w.
Proof.
  revert i page. induction n as [|n IH]; intros i page Hi Hn; cbn [positions_page_loop].
  { by rewrite take_0, app_nil_r. }
  destruct (lookup_lt_is_Some_2 all (Z.to_nat i)) as [p Hp]; [unfold len in *; lia|].
  rewrite (bind_run _ _ _ _ p w) by (unfold or_trap; by rewrite Hp).
  rewrite IH by lia. f_equal. rewrite <- app_assoc. f_equal. cbn.
  rewrite (drop_S _ p _ Hp). cbn. do 2 f_equal. by rewrite Z2Nat.inj_add by lia; rewrite Nat.add_1_r.
Qed.

(** [get_positions_page] never panics and returns the positions from [offset] on,
    at most [limit] and at most 100 of them, in the order of [get_positions]. *)
Theorem positions_page_correct id offset limit cx w :
  0 <= offset -> 0 <= limit ->
  get_positions_page id offset limit cx w =
    Ret (take (Z.to_nat (Z.min limit 100))
           (drop (Z.to_nat offset) (map_values (positions_of w id)))) w.
Proof.
  intros Ho Hl. unfold get_positions_page, load_positions. cbv zeta.
  rewrite (bind_run _ _ _ _ (positions_of w id) w) by done.
  set (all := map_values (positions_of w id)). pose proof (len_nonneg all).
  rewrite positions_page_run by lia. rewrite app_nil_l. f_equal. unfold len in *.
  destruct (Z.le_gt_cases offset (Z.of_nat (length all))) as [Hle|Hgt].
  - rewrite (Z.min_l offset) by lia.
    destruct (Z.le_gt_cases (offset + Z.min limit 100) (Z.of_nat (length all))).
    + do 2 f_equal. lia.
    + rewrite !take_ge; rewrite ?length_drop; [done|lia|lia].
  - rewrite (drop_ge _ (Z.to_nat offset)) by lia. rewrite take_nil.
    rewrite drop_ge by lia. by rewrite take_nil.
Qed.
End Steps.
