(* ===== verification/Marketplace.v ===== *)
(** * Marketplace: listings, funding, cancellation and refunds
    (src/contracts/marketplace/src/lib.rs)

    State: [DataKey]. Operations: one definition per entry point; [exec] is the
    contract as a step function on its [Call]s. The other contracts and the
    tokens are the clients of Interfaces.v. *)

From S2P Require Import Prelude Errors Types Host Events Reentrancy Validation Interfaces.

Record MarketplaceConfig := mkMarketplaceConfig {
  mc_admin : Address;
  mc_invoice_nft : Address;
  mc_financing_pool : Address;
  mc_treasury : Address;
  mc_access_control : Address;
  mc_risk_registry : Address;
  mc_fee_bps : u32;
  mc_referrer_split_bps : u32 }.

Definition with_fee_bps (v : u32) (c : MarketplaceConfig) : MarketplaceConfig :=
  mkMarketplaceConfig (mc_admin c) (mc_invoice_nft c) (mc_financing_pool c) (mc_treasury c)
    (mc_access_control c) (mc_risk_registry c) v (mc_referrer_split_bps c).

Definition with_referrer_split_bps (v : u32) (c : MarketplaceConfig) : MarketplaceConfig :=
  mkMarketplaceConfig (mc_admin c) (mc_invoice_nft c) (mc_financing_pool c) (mc_treasury c)
    (mc_access_control c) (mc_risk_registry c) (mc_fee_bps c) v.

Module DataKey.
Inductive t :=
  | Config
  | Admin
  | InvoiceNft
  | FinancingPool
  | Treasury
  | AccessControl
  | RiskRegistry
  | FeeBps
  | Listing (id : u64)
  | WhitelistedToken (token : Address)
  | UpgradeProposal
  | TierFeeBps (ordinal : u32)
  | Contribution (id : u64) (investor : Address)
  | RefundClaimed (id : u64) (investor : Address)
  | Referrer (id : u64)
  | CancellationRequest (id : u64)
  | CancellationConfirmed (id : u64).

#[global] Instance t_eq_dec : EqDecision t.
Proof. solve_decision. Defined.

Definition val (k : t) : Type :=
  match k with
  | Config => MarketplaceConfig
  | Admin | InvoiceNft | FinancingPool | Treasury | AccessControl | RiskRegistry => Address
  | FeeBps => u32
  | Listing _ => Types.Listing
  | WhitelistedToken _ => bool
  | UpgradeProposal => (BytesN32 * u64)%type
  | TierFeeBps _ => u32
  | Contribution _ _ => i128
  | RefundClaimed _ _ => bool
  | Referrer _ => Address
  | CancellationRequest _ => Address
  | CancellationConfirmed _ => bool
  end.
End DataKey.

#[export] Instance DataKey_storage : StorageKey DataKey.t := {| sk_val := DataKey.val |}.

Definition tier_ordinal (tier : RiskTier) : u32 :=
  match tier with TierAAA => 0 | TierAA => 1 | TierA => 2 | TierB => 3 | TierC => 4 end.

Definition PERSISTENT_TTL_THRESHOLD : u32 := 518400.
Definition PERSISTENT_TTL_BUMP : u32 := 518400.

Section Marketplace.
Context {W : Type} `{!HasEvents W} `{!HasStorage W DataKey.t}
  `{!AccessControlClient W} `{!RiskRegistryClient W} `{!InvoiceNftClient W}
  `{!TreasuryClient W} `{!FinancingPoolClient W} `{!TokenClient W}.

(** ** Helpers *)

(** Extends the life of an entry. *)
Definition bump_persistent (key : DataKey.t) : M W unit := extend_ttl key PERSISTENT_TTL_THRESHOLD PERSISTENT_TTL_BUMP.

Definition bump_listing (invoice_id : u64) : M W unit :=
  extend_ttl (DataKey.Listing invoice_id) PERSISTENT_TTL_THRESHOLD PERSISTENT_TTL_BUMP.

(** The config, or the one the legacy keys give, which is then stored. *)
Definition load_config : M W MarketplaceConfig :=
  stored ← (instance_get DataKey.Config : M W (option MarketplaceConfig));
  match stored with
  | Some config => mret config
  | None =>
      admin ← instance_get_or DataKey.Admin NotInitialized;
      invoice_nft ← instance_get_or DataKey.InvoiceNft NotInitialized;
      financing_pool ← instance_get_or DataKey.FinancingPool NotInitialized;
      treasury ← instance_get_or DataKey.Treasury NotInitialized;
      access_control ← instance_get_or DataKey.AccessControl NotInitialized;
      fee_bps ← instance_get_or DataKey.FeeBps NotInitialized;
      risk_registry ← instance_get_or DataKey.RiskRegistry NotInitialized;
      let config := mkMarketplaceConfig admin invoice_nft financing_pool treasury
                      access_control risk_registry fee_bps 0 in
      instance_set DataKey.Config config;;
      mret config
  end.

(** The check of every admin operation: the config of [admin]. *)
Definition load_config_as (admin : Address) : M W MarketplaceConfig :=
  config ← load_config;
  fail_if (negb (mc_admin config =? admin)%N) NotAdmin;;
  mret config.

Definition require_not_paused : M W unit :=
  ac_contract ← (instance_get DataKey.AccessControl : M W (option Address));
  match ac_contract with
  | Some ac => paused ← ac_is_paused ac; fail_if paused ProtocolPaused
  | None => mret tt
  end.

Definition require_whitelisted_token (token : Address) : M W unit :=
  ok ← persistent_get_default (DataKey.WhitelistedToken token) false;
  fail_if (negb ok) TokenNotWhitelisted.

Definition require_compliance_attested (sme : Address) : M W unit :=
  config ← load_config;
  attested ← rr_is_compliance_attested (mc_risk_registry config) sme;
  fail_if (negb attested) ComplianceNotAttested.

(** ** Initialization and configuration *)

Definition initialize (admin invoice_nft financing_pool treasury access_control
    risk_registry : Address) (fee_bps : u32) : M W unit :=
  has ← instance_has DataKey.Config;
  fail_if has AlreadyInitialized;;
  lift (require_valid_fee_bps fee_bps);;
  instance_set DataKey.Admin admin;;
  instance_set DataKey.InvoiceNft invoice_nft;;
  instance_set DataKey.FinancingPool financing_pool;;
  instance_set DataKey.Treasury treasury;;
  instance_set DataKey.FeeBps fee_bps;;
  instance_set DataKey.AccessControl access_control;;
  instance_set DataKey.RiskRegistry risk_registry;;
  instance_set DataKey.Config
    (mkMarketplaceConfig admin invoice_nft financing_pool treasury access_control
       risk_registry fee_bps 0).

Definition set_referrer_split_bps (admin : Address) (referrer_split_bps : u32) : M W unit :=
  require_auth admin;;
  config ← load_config_as admin;
  lift (require_valid_fee_bps referrer_split_bps);;
  instance_set DataKey.Config (with_referrer_split_bps referrer_split_bps config).

Definition set_fee_bps (admin : Address) (fee_bps : u32) : M W unit :=
  require_auth admin;;
  config ← load_config_as admin;
  lift (require_valid_fee_bps fee_bps);;
  instance_set DataKey.Config (with_fee_bps fee_bps config);;
  events.fee_rate_updated admin (mc_fee_bps config) fee_bps.

Definition update_fee_bps (admin : Address) (fee_bps : u32) : M W unit :=
  set_fee_bps admin fee_bps.

Definition get_fee_bps : M W u32 :=
  config ← load_config;
  mret (mc_fee_bps config).

Definition set_tier_fee_bps (admin : Address) (tier : RiskTier) (fee_bps : u32) : M W unit :=
  require_auth admin;;
  load_config_as admin;;
  lift (require_valid_fee_bps fee_bps);;
  instance_set (DataKey.TierFeeBps (tier_ordinal tier)) fee_bps.

(** [Self::load_config(&env).map(|c| c.fee_bps).unwrap_or(50)] *)
Definition flat_fee_bps : M W u32 := fun cx w =>
  match load_config cx w with
  | Ret config w1 => Ret (mc_fee_bps config) w1
  | Fail _ w1 => Ret 50 w1
  | Trap => Trap
  end.

Definition get_tier_fee_bps (tier : RiskTier) : M W u32 :=
  fee ← (instance_get (DataKey.TierFeeBps (tier_ordinal tier)) : M W (option u32));
  match fee with Some f => mret f | None => flat_fee_bps end.

Definition get_config : M W MarketplaceConfig := load_config.

Definition get_admin : M W Address :=
  config ← load_config;
  mret (mc_admin config).

Definition whitelist_token (admin token : Address) : M W unit :=
  require_auth admin;;
  load_config_as admin;;
  persistent_set (DataKey.WhitelistedToken token) true;;
  bump_persistent (DataKey.WhitelistedToken token);;
  events.token_whitelisted admin token.

Definition remove_token_whitelist (admin token : Address) : M W unit :=
  require_auth admin;;
  load_config_as admin;;
  listed ← persistent_get_default (DataKey.WhitelistedToken token) false;
  fail_if (negb listed) TokenNotWhitelisted;;
  persistent_remove (DataKey.WhitelistedToken token).

Definition is_token_whitelisted (token : Address) : M W bool :=
  persistent_get_default (DataKey.WhitelistedToken token) false.

(** ** Listing *)

(** The [if let Some(ref r) = referrer] of [list_invoice]. *)
Definition record_referrer (seller : Address) (invoice_id : u64) (referrer : option Address) :
    M W unit :=
  match referrer with
  | Some r =>
      fail_if (r =? seller)%N InvalidAddress;;
      persistent_set (DataKey.Referrer invoice_id) r;;
      bump_persistent (DataKey.Referrer invoice_id)
  | None => mret tt
  end.

Definition list_invoice (seller : Address) (invoice_id : u64) (asking_price face_value : i128)
    (token : Address) (funding_deadline : u64) (referrer : option Address) : M W unit :=
  require_auth seller;;
  require_not_paused;;
  lift (require_non_zero_amount asking_price);;
  lift (require_non_zero_amount face_value);;
  lift (require_within_max_amount asking_price);;
  lift (require_within_max_amount face_value);;
  now ← env_now;
  lift (require_future_timestamp now funding_deadline);;
  fail_if (asking_price >=? face_value) InvalidAmount;;
  require_whitelisted_token token;;
  require_compliance_attested seller;;
  has ← persistent_has (DataKey.Listing invoice_id);
  fail_if has InvoiceAlreadyExists;;
  with_guard DataKey.t (
    config ← load_config;
    record_referrer seller invoice_id referrer;;
    invoice ← nft_get_invoice (mc_invoice_nft config) invoice_id;
    fail_if (negb (inv_amount invoice =? face_value)) InvalidAmount;;
    self ← env_self;
    nft_set_listed (mc_invoice_nft config) self invoice_id;;
    persistent_set (DataKey.Listing invoice_id)
      (mkListing invoice_id seller asking_price face_value token 0 funding_deadline true);;
    bump_persistent (DataKey.Listing invoice_id);;
    events.invoice_listed invoice_id seller asking_price).

(** ** Funding *)

(** [get(&TierFeeBps(..)).unwrap_or(config.fee_bps)] *)
Definition effective_fee (config : MarketplaceConfig) (invoice : Invoice) : M W u32 :=
  instance_get_default (DataKey.TierFeeBps (tier_ordinal (inv_risk_tier invoice)))
    (mc_fee_bps config).

(** The two transfers of a contribution and the treasury's accounting of the fee. *)
Definition take_payment (config : MarketplaceConfig) (token investor : Address)
    (fee net : i128) : M W unit :=
  when (fee >? 0) (
    tok_transfer token investor (mc_treasury config) fee;;
    treasury_collect_fee (mc_treasury config) token fee);;
  when (net >? 0) (tok_transfer token investor (mc_financing_pool config) net).

Definition fund_invoice (investor : Address) (invoice_id : u64) (amount : i128) : M W unit :=
  require_auth investor;;
  require_not_paused;;
  lift (require_non_zero_amount amount);;
  lift (require_within_max_amount amount);;
  listing ← persistent_get_or (DataKey.Listing invoice_id) ListingNotFound;
  fail_if (negb (l_is_active listing)) ListingAlreadyCancelled;;
  now ← env_now;
  fail_if (now >? l_funding_deadline listing) FundingDeadlinePassed;;
  remaining ← lift (safe_sub (l_asking_price listing) (l_funded_amount listing));
  fail_if (amount >? remaining) ExceedsFundingTarget;;
  config ← load_config;
  frozen ← nft_is_invoice_frozen (mc_invoice_nft config) invoice_id;
  fail_if frozen InvoiceFrozen;;
  token_decimals ← tok_decimals (l_token listing);
  invoice ← nft_get_invoice (mc_invoice_nft config) invoice_id;
  effective_fee_bps ← effective_fee config invoice;
  fee ← lift (bps_of_normalized amount effective_fee_bps token_decimals);
  net ← lift (ok_or (checked_sub amount fee) ArithmeticOverflow);
  take_payment config (l_token listing) investor fee net;;
  funded ← lift (safe_add (l_funded_amount listing) amount);
  prev_contrib ← persistent_get_default (DataKey.Contribution invoice_id investor) 0;
  contrib ← lift (safe_add prev_contrib net);
  persistent_set (DataKey.Contribution invoice_id investor) contrib;;
  let fully_funded := funded >=? l_asking_price listing in
  let listing1 := with_funded_amount funded listing in
  persistent_set (DataKey.Listing invoice_id)
    (if fully_funded then with_is_active false listing1 else listing1);;
  bump_persistent (DataKey.Listing invoice_id);;
  events.invoice_funded invoice_id investor amount;;
  when (fee >? 0) (events.fee_collected investor invoice_id fee (l_token listing));;
  self ← env_self;
  when fully_funded
    (pool_release_funds (mc_financing_pool config) self invoice_id (l_token listing)).

(** ** Cancellation *)

(** [listing.is_active = false], stored, with its event. *)
Definition deactivate (invoice_id : u64) (listing : Listing) : M W unit :=
  persistent_set (DataKey.Listing invoice_id) (with_is_active false listing);;
  bump_persistent (DataKey.Listing invoice_id).

Definition cancel_listing (caller : Address) (invoice_id : u64) : M W unit :=
  require_auth caller;;
  listing ← persistent_get_or (DataKey.Listing invoice_id) ListingNotFound;
  fail_if (negb (l_is_active listing)) ListingAlreadyCancelled;;
  config ← load_config;
  fail_if (negb (caller =? l_seller listing)%N && negb (caller =? mc_admin config)%N)
    Unauthorized;;
  deactivate invoice_id listing;;
  events.listing_cancelled invoice_id (l_seller listing).

Definition request_cancellation (caller : Address) (invoice_id : u64) : M W unit :=
  require_auth caller;;
  listing ← persistent_get_or (DataKey.Listing invoice_id) ListingNotFound;
  fail_if (negb (l_is_active listing)) ListingAlreadyCancelled;;
  config ← load_config;
  fail_if (negb (caller =? l_seller listing)%N && negb (caller =? mc_admin config)%N)
    Unauthorized;;
  if l_funded_amount listing =? 0 then
    deactivate invoice_id listing;;
    events.listing_cancelled invoice_id (l_seller listing)
  else
    has ← persistent_has (DataKey.CancellationRequest invoice_id);
    fail_if has CancellationPending;;
    persistent_set (DataKey.CancellationRequest invoice_id) caller;;
    bump_persistent (DataKey.CancellationRequest invoice_id);;
    events.cancellation_requested invoice_id caller.

Definition admin_confirm_cancellation (admin : Address) (invoice_id : u64) : M W unit :=
  require_auth admin;;
  load_config_as admin;;
  has ← persistent_has (DataKey.CancellationRequest invoice_id);
  fail_if (negb has) NoCancellationPending;;
  listing ← persistent_get_or (DataKey.Listing invoice_id) ListingNotFound;
  fail_if (negb (l_is_active listing)) ListingAlreadyCancelled;;
  deactivate invoice_id listing;;
  persistent_remove (DataKey.CancellationRequest invoice_id);;
  persistent_set (DataKey.CancellationConfirmed invoice_id) true;;
  bump_persistent (DataKey.CancellationConfirmed invoice_id);;
  events.listing_cancelled invoice_id (l_seller listing).

(** ** Refunds *)

Definition claim_refund (investor : Address) (invoice_id : u64) : M W unit :=
  require_auth investor;;
  listing ← persistent_get_or (DataKey.Listing invoice_id) ListingNotFound;
  fail_if (l_funded_amount listing >=? l_asking_price listing) ListingFullyFunded;;
  cancellation_confirmed ←
    persistent_get_default (DataKey.CancellationConfirmed invoice_id) false;
  now ← env_now;
  fail_if (negb cancellation_confirmed && (now <=? l_funding_deadline listing))
    FundingNotExpired;;
  claimed ← persistent_get_default (DataKey.RefundClaimed invoice_id investor) false;
  fail_if claimed RefundAlreadyClaimed;;
  net_contributed ← persistent_get_default (DataKey.Contribution invoice_id investor) 0;
  fail_if (net_contributed <=? 0) NoContribution;;
  persistent_set (DataKey.RefundClaimed invoice_id investor) true;;
  config ← load_config;
  tok_transfer (l_token listing) (mc_financing_pool config) investor net_contributed;;
  events.refund_claimed invoice_id investor net_contributed.

Definition get_listing (invoice_id : u64) : M W Listing :=
  persistent_get_or (DataKey.Listing invoice_id) ListingNotFound.

(** ** Upgrade *)

Definition propose_upgrade (admin : Address) (new_wasm_hash : BytesN32) : M W unit :=
  require_auth admin;;
  load_config_as admin;;
  now ← env_now;
  instance_set DataKey.UpgradeProposal (new_wasm_hash, now);;
  events.upgrade_proposed admin new_wasm_hash.

Definition execute_upgrade (admin : Address) : M W unit :=
  require_auth admin;;
  load_config_as admin;;
  '(wasm_hash, proposed_at) ← instance_get_or DataKey.UpgradeProposal NoUpgradeProposed;
  now ← env_now;
  ready ← or_trap (fit_u64 (proposed_at + UPGRADE_TIMELOCK_DELAY));
  fail_if (now <? ready) UpgradeTimelockNotElapsed;;
  instance_remove DataKey.UpgradeProposal;;
  events.upgrade_executed admin wasm_hash;;
  update_current_contract_wasm (K:=DataKey.t) wasm_hash.
End Marketplace.

(** ** The contract as a step function

    The views that load the config are calls too: they store a legacy config. *)

Inductive Call :=
  | CInitialize (admin invoice_nft financing_pool treasury access_control
      risk_registry : Address) (fee_bps : u32)
  | CSetReferrerSplit (admin : Address) (bps : u32)
  | CSetFeeBps (admin : Address) (fee_bps : u32)
  | CSetTierFeeBps (admin : Address) (tier : RiskTier) (fee_bps : u32)
  | CWhitelistToken (admin token : Address)
  | CRemoveToken (admin token : Address)
  | CListInvoice (seller : Address) (invoice_id : u64) (asking_price face_value : i128)
      (token : Address) (funding_deadline : u64) (referrer : option Address)
  | CFundInvoice (investor : Address) (invoice_id : u64) (amount : i128)
  | CCancelListing (caller : Address) (invoice_id : u64)
  | CRequestCancellation (caller : Address) (invoice_id : u64)
  | CConfirmCancellation (admin : Address) (invoice_id : u64)
  | CClaimRefund (investor : Address) (invoice_id : u64)
  | CProposeUpgrade (admin : Address) (new_wasm_hash : BytesN32)
  | CExecuteUpgrade (admin : Address)
  | CGetConfig
  | CGetFeeBps
  | CGetAdmin
  | CGetTierFeeBps (tier : RiskTier).

Section Exec.
Context {W : Type} `{!HasEvents W} `{!HasStorage W DataKey.t}
  `{!AccessControlClient W} `{!RiskRegistryClient W} `{!InvoiceNftClient W}
  `{!TreasuryClient W} `{!FinancingPoolClient W} `{!TokenClient W}.

Definition exec (c : Call) : M W unit :=
  match c with
  | CInitialize a n p t ac r f => initialize a n p t ac r f
  | CSetReferrerSplit a b => set_referrer_split_bps a b
  | CSetFeeBps a f => set_fee_bps a f
  | CSetTierFeeBps a t f => set_tier_fee_bps a t f
  | CWhitelistToken a t => whitelist_token a t
  | CRemoveToken a t => remove_token_whitelist a t
  | CListInvoice s i p f t d r => list_invoice s i p f t d r
  | CFundInvoice v i n => fund_invoice v i n
  | CCancelListing c i => cancel_listing c i
  | CRequestCancellation c i => request_cancellation c i
  | CConfirmCancellation a i => admin_confirm_cancellation a i
  | CClaimRefund v i => claim_refund v i
  | CProposeUpgrade a h => propose_upgrade a h
  | CExecuteUpgrade a => execute_upgrade a
  | CGetConfig => _ ← get_config; mret tt
  | CGetFeeBps => _ ← get_fee_bps; mret tt
  | CGetAdmin => _ ← get_admin; mret tt
  | CGetTierFeeBps t => _ ← get_tier_fee_bps t; mret tt
  end.

(** The [u32] arguments of a call are in range. *)
Definition typed (c : Call) : Prop :=
  match c with
  | CInitialize _ _ _ _ _ _ f | CSetFeeBps _ f | CSetTierFeeBps _ _ f
  | CSetReferrerSplit _ f => 0 <= f <= u32_max
  | _ => True
  end.

(** A call of the contract, or anything that does not write its storage. *)
Inductive step : W -> W -> Prop :=
  | step_call w cx c : typed c -> step w (run_tx (exec c) cx w)
  | step_other w w' : st_get w' = st_get w -> step w w'.

Definition reachable (w : W) : Prop := exists w0, st_get w0 = empty_storage /\ rtc step w0 w.

(** The config [load_config] consolidates from the keys of the first version. *)
Definition legacy_config (w : W) : option MarketplaceConfig :=
  let s : Storage DataKey.t := st_get w in
  admin ← (iget s DataKey.Admin : option Address);
  invoice_nft ← (iget s DataKey.InvoiceNft : option Address);
  financing_pool ← (iget s DataKey.FinancingPool : option Address);
  treasury ← (iget s DataKey.Treasury : option Address);
  access_control ← (iget s DataKey.AccessControl : option Address);
  fee_bps ← (iget s DataKey.FeeBps : option u32);
  risk_registry ← (iget s DataKey.RiskRegistry : option Address);
  Some (mkMarketplaceConfig admin invoice_nft financing_pool treasury access_control
          risk_registry fee_bps 0).

(** The configuration in force. *)
Definition config_of (w : W) : option MarketplaceConfig :=
  match iget (st_get w) DataKey.Config with
  | Some c => Some c
  | None => legacy_config w
  end.
Definition listing_of (w : W) (id : u64) : option Listing :=
  pget (st_get w) (DataKey.Listing id).
Definition contribution (w : W) (id : u64) (x : Address) : i128 :=
  default 0 (pget (st_get w) (DataKey.Contribution id x)).
Definition refund_claimed (w : W) (id : u64) (x : Address) : bool :=
  default false (pget (st_get w) (DataKey.RefundClaimed id x)).
Definition confirmed (w : W) (id : u64) : bool :=
  default false (pget (st_get w) (DataKey.CancellationConfirmed id)).
End Exec.

Create HintDb marketplace.
#[export] Hint Unfold exec bump_persistent initialize set_referrer_split_bps set_fee_bps set_tier_fee_bps
  whitelist_token remove_token_whitelist list_invoice fund_invoice cancel_listing
  request_cancellation admin_confirm_cancellation claim_refund propose_upgrade
  execute_upgrade load_config_as require_not_paused require_whitelisted_token
  require_compliance_attested record_referrer effective_fee take_payment deactivate
  get_config get_fee_bps get_admin get_tier_fee_bps : marketplace.

Section Config.
Context {W : Type} `{!HasEvents W} `{!HasStorage W DataKey.t} `{!StorageLaws W DataKey.t}.
Implicit Types (cx : Ctx) (w : W).

Lemma load_config_Ret cx w c w' :
  load_config cx w = Ret c w' ->
  config_of w = Some c /\
  ((w' = w /\ iget (st_get w) DataKey.Config = Some c) \/
   (iget (st_get w) DataKey.Config = None /\
    w' = st_put (@iset DataKey.t DataKey_storage DataKey.Config c (st_get w)) w)).
Proof.
  intros H. unfold load_config in H. unfold config_of, legacy_config. minv H.
  - auto.
  - repeat match goal with E : iget _ _ = _ |- _ => rewrite E end. auto.
Qed.

(** The state [load_config] leaves [w] in: the config [c] it found is stored. *)
Definition configured (c : MarketplaceConfig) (w : W) : W :=
  match iget (st_get w) DataKey.Config with
  | Some _ => w
  | None => st_put (iset DataKey.Config c (st_get w)) w
  end.

Lemma configured_stored c w : iget (st_get w) DataKey.Config = Some c -> configured c w = w.
Proof. unfold configured. by intros ->. Qed.
Lemma configured_fresh c w : iget (st_get w) DataKey.Config = None ->
  configured c w = st_put (@iset DataKey.t DataKey_storage DataKey.Config c (st_get w)) w.
Proof. unfold configured. by intros ->. Qed.

(** A config that cannot be loaded is not written either. *)
Lemma load_config_Fail cx w e w' : load_config cx w = Fail e w' -> w' = w.
Proof.
  unfold load_config, mbind, M_bind, instance_get, instance_get_or, instance_set.
  intros H. repeat case_match; simplify_eq; done.
Qed.

Lemma flat_fee_bps_Ret cx w f w' :
  flat_fee_bps cx w = Ret f w' -> w' = w \/ exists c, load_config cx w = Ret c w'.
Proof.
  unfold flat_fee_bps. destruct (load_config cx w) as [c w1|e w1|] eqn:E; [| |done];
    intros [= _ <-]; [eauto|]. left. by eapply load_config_Fail.
Qed.
End Config.

(** The configuration each [load_config] found, and the state it left. *)
Ltac learn_config :=
  repeat match goal with
  | H : flat_fee_bps _ _ = Ret _ _ |- _ => apply flat_fee_bps_Ret in H as [?|[? H]]; subst
  | H : load_config _ _ = Ret _ _ |- _ =>
      let Hc := fresh "Hcfg" in let Hn := fresh "Hnone" in
      apply load_config_Ret in H as [Hc [[? Hn]|[Hn ?]]]; subst
  end.

(** Runs a call backwards: the guards it passed and the storage it left. *)
Ltac run_call H :=
  cbn [exec] in H; autounfold with marketplace in H; minv H; learn_config; learn_views;
  learn_frames DataKey.t; store_facts; store_simpl.

(** Tries [tac] on every call but [fund_invoice], which has lemmas of its own. *)
Ltac other_calls H tac :=
  lazymatch type of H with
  | exec (CFundInvoice _ _ _) _ _ = _ => idtac
  | _ => try (solve [tac])
  end.

(** Shows the state the call's [load_config] left. *)
Ltac reveal_config :=
  first [rewrite !configured_stored by eassumption | rewrite !configured_fresh by eassumption].

Section Steps.
Context {W : Type} `{!HasEvents W} `{!HasStorage W DataKey.t} `{!StorageLaws W DataKey.t}
  `{!AccessControlClient W} `{!RiskRegistryClient W} `{!InvoiceNftClient W}
  `{!TreasuryClient W} `{!FinancingPoolClient W} `{!TokenClient W} `{!TokenLedger W}
  `{!TokenLaws W} `{!TokenFrame W DataKey.t} `{!AccessControlLaws W} `{!RiskRegistryLaws W}
  `{!InvoiceNftLaws W} `{!NftFrame W DataKey.t} `{!TreasuryFrame W DataKey.t}
  `{!PoolFrame W DataKey.t}.
Implicit Types (cx : Ctx) (w : W).

(** The fee rate of an invoice of tier [tier]. *)
Definition fee_rate (w : W) (c : MarketplaceConfig) (tier : RiskTier) : u32 :=
  default (mc_fee_bps c) (iget (st_get w) (DataKey.TierFeeBps (tier_ordinal tier))).

Definition rate_ok (b : u32) : Prop := 0 <= b <= 10000.

Record fees_ok (w : W) : Prop := {
  fo_config : forall c, config_of w = Some c ->
    rate_ok (mc_fee_bps c) /\ rate_ok (mc_referrer_split_bps c);
  fo_tier : forall o f, iget (st_get w) (DataKey.TierFeeBps o) = Some f -> rate_ok f }.

(** A listing after a contribution of [n]. *)
Definition funded_with (n : i128) (l : Listing) : Listing :=
  let l1 := with_funded_amount (l_funded_amount l + n) l in
  if l_funded_amount l + n >=? l_asking_price l then with_is_active false l1 else l1.

Lemma fee_rate_ok w c tier : fees_ok w -> config_of w = Some c -> rate_ok (fee_rate w c tier).
Proof.
  intros [Hc Ht] E. unfold fee_rate.
  destruct (iget _ _) as [f|] eqn:Ef; [by eapply Ht|]. by apply Hc.
Qed.

(** The two transfers of a contribution. *)
Lemma take_payment_effect c t investor fee net u cx w w' :
  take_payment c t investor fee net cx w = Ret u w' -> 0 <= fee -> 0 <= net ->
  st_get w' = st_get w /\
  forall t' x, tok_bal w' t' x =
    if (t' =? t)%N
    then moved investor (mc_financing_pool c) x net
           (moved investor (mc_treasury c) x fee (tok_bal w t' x))
    else tok_bal w t' x.
Proof.
  unfold take_payment. intros H Hfee Hnet. minv H; learn_frames DataKey.t;
    (split; [congruence|]); learn_transfers; intros t' y;
    try match goal with HR : treasury_collect_fee _ _ _ _ _ = Ret _ _ |- _ =>
      apply keeps_tokens in HR as [HR _] end;
    bal_simpl; unfold moved; repeat case_match; lia.
Qed.

(** Is the protocol running, as [require_not_paused] sees it in [w]? *)
Definition running cx w : Prop :=
  forall ac, iget (st_get w) DataKey.AccessControl = Some ac ->
    ac_is_paused ac cx w = Ret false w.

Lemma require_not_paused_Ret cx w u w' :
  require_not_paused cx w = Ret u w' -> running cx w /\ w' = w.
Proof.
  unfold require_not_paused, running. intros H. minv H.
  - learn_views. split; [|done]. congruence.
  - done.
Qed.

(** What [fund_invoice] checks and does. *)
Record funding (investor : Address) (id : u64) (n fee : i128) (l : Listing)
    (c : MarketplaceConfig) cx w w' : Prop := {
  fd_auth : authorized cx investor = true;
  fd_running : running cx w;
  fd_listing : listing_of w id = Some l;
  fd_active : l_is_active l = true;
  fd_deadline : cx_now cx <= l_funding_deadline l;
  fd_amount : 0 < n <= l_asking_price l - l_funded_amount l;
  fd_config : config_of w = Some c;
  fd_fee : exists inv,
    nft_is_invoice_frozen (mc_invoice_nft c) id cx (configured c w) = Ret false (configured c w) /\
    nft_get_invoice (mc_invoice_nft c) id cx (configured c w) = Ret inv (configured c w) /\
    fee = share_value n (fee_rate w c (inv_risk_tier inv)) (tok_dec w (l_token l));
  fd_fee_range : 0 <= fee <= n;
  fd_listing' : listing_of w' id = Some (funded_with n l);
  fd_contribution : contribution w' id investor = contribution w id investor + (n - fee);
  fd_balances : forall t x, tok_bal w' t x =
    if (t =? l_token l)%N
    then moved investor (mc_financing_pool c) x (n - fee)
           (moved investor (mc_treasury c) x fee (tok_bal w t x))
    else tok_bal w t x }.

Lemma effective_fee_Ret c inv cx w f w' :
  effective_fee c inv cx w = Ret f w' -> f = fee_rate w c (inv_risk_tier inv) /\ w' = w.
Proof. unfold effective_fee, fee_rate. intros H. minv H. done. Qed.

Lemma fee_rate_config w c0 c tier :
  fee_rate (st_put (@iset DataKey.t DataKey_storage DataKey.Config c0 (st_get w)) w) c tier =
  fee_rate w c tier.
Proof. unfold fee_rate. by store_simpl. Qed.

(** The fee the marketplace takes is between nothing and the whole contribution. *)
Lemma fee_bounds w c tier n d fee :
  fees_ok w -> config_of w = Some c -> 0 < n <= MAX_AMOUNT -> 0 <= d ->
  bps_of_normalized n (fee_rate w c tier) d = Ok fee ->
  fee = share_value n (fee_rate w c tier) d /\ 0 <= fee <= n.
Proof.
  intros Hf Hc Hn Hd Hb. pose proof (fee_rate_ok w c tier Hf Hc) as [? ?].
  assert (MAX_AMOUNT <= i128_max) by done.
  pose proof (bps_of_normalized_le n (fee_rate w c tier) d fee ltac:(lia) ltac:(lia) Hd Hb).
  split; [|nia]. by apply bps_of_normalized_value in Hb; [|lia..].
Qed.

Lemma fund_invoice_effect investor id n cx w w' :
  fees_ok w -> fund_invoice investor id n cx w = Ret tt w' ->
  exists fee l c, funding investor id n fee l c cx w w'.
Proof.
  intros Hf H. unfold fund_invoice, bump_persistent in H. minv H.
  all: repeat match goal with
  | H : require_not_paused _ _ = Ret _ _ |- _ => apply require_not_paused_Ret in H as [Hrun ->]
  | H : effective_fee _ _ _ _ = Ret _ _ |- _ => apply effective_fee_Ret in H as [-> ->]
  end.
  all: learn_config; learn_views.
  all: repeat match goal with H : tok_decimals _ _ _ = Ret _ _ |- _ =>
    apply tok_decimals_law in H as (-> & ? & ->) end.
  all: store_facts; rewrite ?fee_rate_config, ?tok_dec_put, ?tok_dec_wset, ?tok_dec_wextend in *.
  all: guards; subst.
  all: match goal with Hb : bps_of_normalized _ _ _ = Ok _ |- _ =>
    eapply fee_bounds in Hb as [Hfee Hrange]; [|eassumption|eassumption|lia|eassumption] end.
  all: match goal with H : take_payment _ _ _ _ _ _ _ = Ret _ _ |- _ =>
    apply take_payment_effect in H as [Hst Hbal]; [|lia|lia] end.
  all: learn_frames DataKey.t; unfold released, listing_of, contribution in *.
  all: do 3 eexists; split;
    [done|done|done|done|lia|lia|done
    |eexists; reveal_config;
     split_and!; [done|done|try done]|done
    |unfold listing_of, funded_with; by store_simpl
    |unfold contribution; by store_simpl| ].
  all: try match goal with HR : pool_release_funds _ _ _ _ _ _ = Ret _ _ |- _ =>
      apply keeps_tokens in HR as [HR _] end.
  all: intros t' y; bal_simpl; done.
Qed.

(** ** How one call moves the state *)

(** The calls that cancel the listing [l] of [id], and who made them. *)
Definition cancels (c : Call) (w : W) (id : u64) (l : Listing) (who : Address) : Prop :=
  c = CCancelListing who id \/
  (c = CRequestCancellation who id /\ l_funded_amount l = 0) \/
  (c = CConfirmCancellation who id /\
   is_Some (pget (st_get w) (DataKey.CancellationRequest id)) /\
   exists cfg, config_of w = Some cfg /\ mc_admin cfg = who).

(** [who] may cancel [l]: the seller or the stored admin. *)
Definition may_cancel (w : W) (l : Listing) (who : Address) : Prop :=
  who = l_seller l \/ exists cfg, config_of w = Some cfg /\ mc_admin cfg = who.

Inductive listing_change (c : Call) (cx : Ctx) (w : W) (id : u64) :
    option Listing -> option Listing -> Prop :=
  | lc_same o : listing_change c cx w id o o
  | lc_list seller asking face t d r :
      c = CListInvoice seller id asking face t d r -> authorized cx seller = true ->
      0 < asking < face -> face <= MAX_AMOUNT -> cx_now cx < d ->
      pget (st_get w) (DataKey.WhitelistedToken t) = Some true ->
      listing_change c cx w id None (Some (mkListing id seller asking face t 0 d true))
  | lc_fund v n l :
      c = CFundInvoice v id n -> authorized cx v = true -> l_is_active l = true ->
      cx_now cx <= l_funding_deadline l -> 0 < n <= l_asking_price l - l_funded_amount l ->
      listing_change c cx w id (Some l) (Some (funded_with n l))
  | lc_cancel who l :
      cancels c w id l who -> authorized cx who = true -> l_is_active l = true ->
      may_cancel w l who ->
      listing_change c cx w id (Some l) (Some (with_is_active false l)).

Lemma listing_same c cx w w' id :
  listing_of w' id = listing_of w id -> listing_change c cx w id (listing_of w id) (listing_of w' id).
Proof. intros ->. constructor. Qed.

(** A call that changes the listing of [i] is only asked about [i]. *)
Lemma listing_cases c cx w w' i :
  (forall id, id <> i -> listing_of w' id = listing_of w id) ->
  listing_change c cx w i (listing_of w i) (listing_of w' i) ->
  forall id, listing_change c cx w id (listing_of w id) (listing_of w' id).
Proof.
  intros Hne Hi id. destruct (decide (id = i)) as [->|]; [done|]. by apply listing_same, Hne.
Qed.

Ltac other_listing := intros ? ?; unfold listing_of; store_simpl; done.

(** The state in which [list_invoice] calls the registry: the config is loaded, the
    lock taken and the referrer recorded. *)
Definition locked (w : W) : W := st_put (set_lock true (st_get w)) w.
Definition referred cx (i : u64) (r : option Address) (w : W) : W :=
  match r with
  | Some a => wextend cx (DataKey.Referrer i) PERSISTENT_TTL_THRESHOLD PERSISTENT_TTL_BUMP
                (wset cx (DataKey.Referrer i) a w)
  | None => w
  end.

(** What [list_invoice] checks and does. *)
Record listed (seller : Address) (i : u64) (asking face : i128) (t : Address) (d : u64)
    (r : option Address) cx w w' : Prop := {
  ld_auth : authorized cx seller = true;
  ld_price : 0 < asking < face /\ face <= MAX_AMOUNT;
  ld_deadline : cx_now cx < d;
  ld_token : pget (st_get w) (DataKey.WhitelistedToken t) = Some true;
  ld_fresh : listing_of w i = None;
  ld_attested : exists c, config_of w = Some c /\
    rr_is_compliance_attested (mc_risk_registry c) seller cx (configured c w) = Ret true (configured c w);
  ld_invoice : exists c inv w2, config_of w = Some c /\
    let wl := referred cx i r (locked (configured c w)) in
    nft_get_invoice (mc_invoice_nft c) i cx wl = Ret inv wl /\ inv_amount inv = face /\
    nft_set_listed (mc_invoice_nft c) (cx_self cx) i cx wl = Ret tt w2;
  ld_referrer : forall a, r = Some a ->
    a <> seller /\ pget (st_get w') (DataKey.Referrer i) = Some a;
  ld_listing : listing_of w' i = Some (mkListing i seller asking face t 0 d true);
  ld_others : forall id, id <> i -> listing_of w' id = listing_of w id;
  ld_lock : st_lock (st_get w) = false /\ st_lock (st_get w') = false }.

Lemma config_of_frame w w' :
  iget (st_get w') DataKey.Config = iget (st_get w) DataKey.Config ->
  legacy_config w' = legacy_config w -> config_of w' = config_of w.
Proof. unfold config_of. by intros -> ->. Qed.

Lemma config_of_lock b w :
  config_of (st_put (@set_lock DataKey.t DataKey_storage b (st_get w)) w) = config_of w.
Proof. unfold config_of, legacy_config. by store_simpl. Qed.

Lemma config_of_stored c w : iget (st_get w) DataKey.Config = Some c -> config_of w = Some c.
Proof. unfold config_of. by intros ->. Qed.

Lemma default_true (o : option bool) : default false o = true -> o = Some true.
Proof. by destruct o as [[]|]. Qed.

Lemma has_false {A} (o : option A) : (if o is Some _ then true else false) = false -> o = None.
Proof. by destruct o. Qed.

Lemma list_invoice_effect seller i asking face t d r cx w w' :
  list_invoice seller i asking face t d r cx w = Ret tt w' ->
  listed seller i asking face t d r cx w w'.
Proof.
  intros H. change (exec (CListInvoice seller i asking face t d r) cx w = Ret tt w') in H.
  run_call H; guards; subst; rewrite ?config_of_lock in *;
    repeat match goal with
    | H : default false _ = true |- _ => apply default_true in H
    | H : (match ?o with _ => _ end) = false |- _ => apply has_false in H
    | H : unit |- _ => destruct H
    | H : Some _ = None |- _ => discriminate H
    | H : Some _ = Some _ |- _ => injection H as <-
    | H1 : config_of w = Some ?a, H2 : config_of w = Some ?b |- _ =>
        assert_fails (constr_eq a b); assert (b = a) as -> by congruence
    end;
    try (exfalso; congruence);
    (split;
      [done|lia|lia|done|done
      |eexists; split; [done|]; reveal_config; done
      |do 3 eexists; split; [done|]; reveal_config;
       cbv zeta; unfold referred, locked; rewrite ?st_get_put; split_and!; first [eassumption | by apply Z.eqb_eq]
      |by intros ? [= <-]; store_simpl
      |unfold listing_of; by store_simpl|unfold listing_of; intros ? ?; by store_simpl
      |by store_simpl]).
Qed.

Lemma list_change seller i asking face t d r cx w w' :
  list_invoice seller i asking face t d r cx w = Ret tt w' ->
  forall id, listing_change (CListInvoice seller i asking face t d r) cx w id
    (listing_of w id) (listing_of w' id).
Proof.
  intros H. apply list_invoice_effect in H as [].
  apply (listing_cases _ _ _ _ i); [done|]. rewrite ld_fresh0, ld_listing0.
  eapply lc_list; eauto; lia.
Qed.

Lemma take_payment_store c t investor fee net u cx w w' :
  take_payment c t investor fee net cx w = Ret u w' -> st_get w' = st_get w.
Proof. unfold take_payment. intros H. minv H; learn_frames DataKey.t; congruence. Qed.

(** What [fund_invoice] leaves alone. *)
Lemma fund_keeps investor i n cx w w' :
  fund_invoice investor i n cx w = Ret tt w' ->
  (forall k, k <> DataKey.Listing i -> k <> DataKey.Contribution i investor ->
     pget (st_get w') k = pget (st_get w) k) /\
  (forall k, k <> DataKey.Config -> iget (st_get w') k = iget (st_get w) k) /\
  config_of w' = config_of w.
Proof.
  intros H. unfold fund_invoice, effective_fee, bump_persistent in H. minv H.
  all: repeat match goal with
  | H : require_not_paused _ _ = Ret _ _ |- _ => apply require_not_paused_Ret in H as [_ ->]
  | H : take_payment _ _ _ _ _ _ _ = Ret _ _ |- _ => apply take_payment_store in H
  end.
  all: learn_config; learn_views; learn_frames DataKey.t; store_facts.
  all: split_and!; [intros; by store_simpl|intros; by store_simpl|].
  all: rewrite ?Hcfg; unfold config_of, legacy_config; store_simpl; rewrite ?Hnone; done.
Qed.

Lemma fund_others investor i n cx w w' :
  fund_invoice investor i n cx w = Ret tt w' ->
  (forall id, id <> i -> listing_of w' id = listing_of w id) /\
  (forall id x, id <> i \/ x <> investor -> contribution w' id x = contribution w id x).
Proof.
  intros H. apply fund_keeps in H as [H _]. unfold listing_of, contribution.
  split; intros; rewrite H; try done; intros [=]; intuition.
Qed.

(** What [claim_refund] checks and does. *)
Record refunding (x : Address) (id : u64) (l : Listing) (c : MarketplaceConfig) cx w w' : Prop := {
  rf_auth : authorized cx x = true;
  rf_listing : listing_of w id = Some l;
  rf_short : l_funded_amount l < l_asking_price l;
  rf_open : confirmed w id = true \/ l_funding_deadline l < cx_now cx;
  rf_fresh : refund_claimed w id x = false;
  rf_amount : 0 < contribution w id x;
  rf_config : config_of w = Some c;
  rf_claimed : refund_claimed w' id x = true;
  rf_others : forall i y, i <> id \/ y <> x -> refund_claimed w' i y = refund_claimed w i y;
  rf_listings : forall i, listing_of w' i = listing_of w i;
  rf_contributions : forall i y, contribution w' i y = contribution w i y;
  rf_balances : forall t y, tok_bal w' t y =
    if (t =? l_token l)%N
    then moved (mc_financing_pool c) x y (contribution w id x) (tok_bal w t y)
    else tok_bal w t y }.

Lemma config_of_wset cx k v w :
  config_of (@wset W DataKey.t DataKey_storage _ cx k v w) = config_of w.
Proof. unfold config_of, legacy_config. by store_simpl. Qed.

Lemma refund_open (b : bool) (now d : u64) :
  negb b && (now <=? d) = false -> b = true \/ d < now.
Proof. destruct b; simpl; [by left|right; lia]. Qed.

Lemma claim_refund_effect x id cx w w' :
  claim_refund x id cx w = Ret tt w' -> exists l c, refunding x id l c cx w w'.
Proof.
  intros H. change (exec (CClaimRefund x id) cx w = Ret tt w') in H.
  run_call H; guards; rewrite ?config_of_wset in *; learn_transfers;
    (do 2 eexists; split;
      [done|done|lia| |done|unfold contribution; lia|done
      |unfold refund_claimed; by store_simpl
      |unfold refund_claimed; intros; store_simpl;
       rewrite pget_pset_ne by (intros [=]; intuition); by store_simpl
      |unfold listing_of; intros; by store_simpl
      |unfold contribution; intros; by store_simpl
      |intros; bal_simpl; done]);
    by apply refund_open.
Qed.

(** ** Cancellation *)

(** The seller or the stored admin. *)
Lemma may_cancel_intro w l c who :
  config_of w = Some c ->
  negb (who =? l_seller l)%N && negb (who =? mc_admin c)%N = false -> may_cancel w l who.
Proof.
  intros Hc H. apply andb_false_iff in H as [H|H]; apply negb_false_iff, N.eqb_eq in H;
    [by left|right; eauto].
Qed.

Lemma has_true {A} (o : option A) :
  (if o is Some _ then true else false) = true -> is_Some o.
Proof. by destruct o. Qed.

Lemma cancel_change c who i cx w w' :
  c = CCancelListing who i \/ c = CRequestCancellation who i \/ c = CConfirmCancellation who i ->
  exec c cx w = Ret tt w' ->
  forall id, listing_change c cx w id (listing_of w id) (listing_of w' id).
Proof.
  intros Hc H. destruct Hc as [ ->|[ ->| ->]]; run_call H; guards;
    (apply (listing_cases _ _ _ _ i); [other_listing|]).
  all: try (apply listing_same; unfold listing_of; by store_simpl).
  all: unfold listing_of; store_simpl;
    match goal with E : pget _ (DataKey.Listing _) = Some _ |- _ => rewrite E end;
    eapply lc_cancel; [|eassumption|eassumption|].
  all: first
    [ by eapply may_cancel_intro
    | by left
    | by (right; left; split; [done|by apply Z.eqb_eq])
    | by (right; right; split_and!; [done|by apply has_true|eauto])
    | by (right; eauto) ].
Qed.

Lemma listing_evolves c cx w w' :
  fees_ok w -> exec c cx w = Ret tt w' ->
  forall id, listing_change c cx w id (listing_of w id) (listing_of w' id).
Proof.
  intros Hf H. destruct c;
    other_calls H ltac:(intros id; apply listing_same; unfold listing_of; run_call H; by store_simpl).
  - by apply list_change.
  - pose proof (fund_others _ _ _ _ _ _ H) as [Ho _]. apply (listing_cases _ _ _ _ invoice_id); [done|].
    apply fund_invoice_effect in H as (fee & l & cfg & []); [|done].
    rewrite fd_listing0, fd_listing'0. by eapply lc_fund.
  - eapply cancel_change; [|done]. eauto.
  - eapply cancel_change; [|done]. eauto.
  - eapply cancel_change; [|done]. eauto.
Qed.

(** Contributions grow by funding only, by at most the amount paid. *)
Lemma contribution_evolves c cx w w' id x :
  fees_ok w -> exec c cx w = Ret tt w' ->
  contribution w' id x = contribution w id x \/
  exists n net l, c = CFundInvoice x id n /\ 0 <= net <= n /\ listing_of w id = Some l /\
    l_is_active l = true /\ cx_now cx <= l_funding_deadline l /\
    listing_of w' id = Some (funded_with n l) /\
    contribution w' id x = contribution w id x + net.
Proof.
  intros Hf H. destruct c;
    other_calls H ltac:(left; unfold contribution; run_call H; by store_simpl).
  destruct (decide (id = invoice_id /\ x = investor)) as [[-> ->]|Hne].
  - right. apply fund_invoice_effect in H as (fee & l & cfg & []); [|done].
    exists amount, (amount - fee), l. split_and!; try done; lia.
  - left. apply fund_others in H as [_ H]. apply H.
    destruct (decide (id = invoice_id)); [right; naive_solver|by left].
Qed.

(** Nothing but [claim_refund] touches the refund flags. *)
Lemma claims_evolve c cx w w' id x :
  exec c cx w = Ret tt w' ->
  refund_claimed w' id x = refund_claimed w id x \/ c = CClaimRefund x id.
Proof.
  intros H. destruct c;
    other_calls H ltac:(left; unfold refund_claimed; run_call H; by store_simpl).
  - left. apply fund_keeps in H as [H _]. unfold refund_claimed. by rewrite H.
  - destruct (decide (id = invoice_id /\ x = investor)) as [[-> ->]|Hne]; [by right|].
    left. apply claim_refund_effect in H as (l & cfg & H). apply (rf_others _ _ _ _ _ _ _ H).
    destruct (decide (id = invoice_id)); [right; naive_solver|by left].
Qed.

(** A cancellation is confirmed by the admin's confirmation only, and stays so. *)
Lemma confirmed_evolves c cx w w' id :
  exec c cx w = Ret tt w' ->
  confirmed w' id = confirmed w id \/
  exists a l, c = CConfirmCancellation a id /\ listing_of w id = Some l /\ l_is_active l = true /\
    confirmed w' id = true /\ listing_of w' id = Some (with_is_active false l).
Proof.
  intros H. destruct c;
    other_calls H ltac:(left; unfold confirmed; run_call H; by store_simpl).
  - left. apply fund_keeps in H as [H _]. unfold confirmed. by rewrite H.
  - destruct (decide (id = invoice_id)) as [->|Hne].
    + right. unfold confirmed, listing_of. run_call H; guards; do 2 eexists; split_and!; try done;
        by store_simpl.
    + left. unfold confirmed. run_call H; by store_simpl.
Qed.
End Steps.

Section Properties.
Context {W : Type} `{!HasEvents W} `{!HasStorage W DataKey.t} `{!StorageLaws W DataKey.t}
  `{!AccessControlClient W} `{!RiskRegistryClient W} `{!InvoiceNftClient W}
  `{!TreasuryClient W} `{!FinancingPoolClient W} `{!TokenClient W} `{!TokenLedger W}
  `{!TokenLaws W} `{!TokenFrame W DataKey.t} `{!AccessControlLaws W} `{!RiskRegistryLaws W}
  `{!InvoiceNftLaws W} `{!NftFrame W DataKey.t} `{!TreasuryFrame W DataKey.t}
  `{!PoolFrame W DataKey.t}.
Implicit Types (cx : Ctx) (w : W).

(** ** The configuration *)

(** What the stored admin can make of the configuration: only the fee and the
    referrer split change. *)
Definition admin_update (c : Call) cx (cfg cfg' : MarketplaceConfig) : Prop :=
  authorized cx (mc_admin cfg) = true /\
  ((exists f, c = CSetFeeBps (mc_admin cfg) f /\ f <= 10000 /\ cfg' = with_fee_bps f cfg) \/
   (exists f, c = CSetReferrerSplit (mc_admin cfg) f /\ f <= 10000 /\
      cfg' = with_referrer_split_bps f cfg)).

Lemma mp_config_evolves c cx w w' :
  exec c cx w = Ret tt w' ->
  config_of w' = config_of w \/
  (exists a n p t ac r f, c = CInitialize a n p t ac r f /\
     iget (st_get w) DataKey.Config = None /\ f <= 10000 /\
     config_of w' = Some (mkMarketplaceConfig a n p t ac r f 0)) \/
  (exists cfg cfg', config_of w = Some cfg /\ config_of w' = Some cfg' /\
     admin_update c cx cfg cfg').
Proof.
  intros H. destruct c;
    other_calls H ltac:(left; run_call H; unfold config_of, legacy_config in *; store_simpl;
      rewrite ?Hnone in *; by store_simpl).
  - right; left. run_call H. guards. apply has_false in E. do 7 eexists.
    split_and!; [done|done|lia|]. unfold config_of. by store_simpl.
  - right; right. unfold admin_update. run_call H; guards; subst;
      (do 2 eexists; split_and!; [done|apply config_of_stored; by store_simpl|done|right];
       eexists; split_and!; [done|lia|done]).
  - right; right. unfold admin_update. run_call H; guards; subst;
      (do 2 eexists; split_and!; [done|apply config_of_stored; by store_simpl|done|left];
       eexists; split_and!; [done|lia|done]).
  - left. run_call H; rewrite ?config_of_lock in *; try discriminate;
      unfold config_of, legacy_config in *; store_simpl; try rewrite Hnone in *; try rewrite Hnone0 in *;
      congruence.
  - left. by apply fund_keeps in H as (_ & _ & H).
  - left. run_call H; rewrite ?config_of_wset in *;
      unfold config_of, legacy_config in *; store_simpl; rewrite ?Hnone in *; by store_simpl.
Qed.

(** The config key, once there, stays. *)
Lemma mp_config_kept c cx w w' :
  exec c cx w = Ret tt w' -> iget (st_get w) DataKey.Config <> None ->
  iget (st_get w') DataKey.Config <> None.
Proof.
  intros H Hc. destruct c; other_calls H ltac:(run_call H; congruence).
  cbn [exec] in H. unfold fund_invoice, effective_fee, bump_persistent in H. minv H.
  all: repeat match goal with
  | H : require_not_paused _ _ = Ret _ _ |- _ => apply require_not_paused_Ret in H as [_ ->]
  | H : take_payment _ _ _ _ _ _ _ = Ret _ _ |- _ => apply take_payment_store in H
  end.
  all: learn_config; learn_views; learn_frames DataKey.t; store_facts; store_simpl; congruence.
Qed.

Lemma tier_evolves c cx w w' o :
  exec c cx w = Ret tt w' ->
  iget (st_get w') (DataKey.TierFeeBps o) = iget (st_get w) (DataKey.TierFeeBps o) \/
  exists a t f cfg, c = CSetTierFeeBps a t f /\ o = tier_ordinal t /\ config_of w = Some cfg /\
    mc_admin cfg = a /\ authorized cx a = true /\ f <= 10000 /\
    iget (st_get w') (DataKey.TierFeeBps o) = Some f.
Proof.
  intros H. destruct c; other_calls H ltac:(left; run_call H; by store_simpl).
  - destruct (decide (o = tier_ordinal tier)) as [->|Hne].
    + right. run_call H; guards; do 4 eexists; split_and!; try done; lia.
    + left. run_call H; by store_simpl.
  - left. apply fund_keeps in H as (_ & H & _). by rewrite H.
Qed.

Lemma fees_ok_step c cx w w' :
  typed c -> exec c cx w = Ret tt w' -> fees_ok w -> fees_ok w'.
Proof.
  intros Ht H [Hc Hti]. split.
  - intros cfg' E. apply mp_config_evolves in H
      as [Hs|[(a & n & p & t & ac & r & f & -> & _ & Hf & Hs)|(cfg & cfg2 & E1 & E2 & _ & Hu)]].
    + apply Hc. by rewrite <- Hs.
    + rewrite Hs in E. injection E as <-. cbn in *. unfold rate_ok. lia.
    + rewrite E2 in E. injection E as ->. apply Hc in E1 as [? ?].
      destruct Hu as [(f & -> & ? & ->)|(f & -> & ? & ->)]; cbn in *; unfold rate_ok in *; lia.
  - intros o f E. destruct (tier_evolves _ _ _ _ o H) as [Hs|(a & t & f' & cfg & -> & _ & _ & _ & _ & ? & Hs)];
      rewrite Hs in E; [by eapply Hti|].
    injection E as <-. cbn in Ht. unfold rate_ok. lia.
Qed.

(** ** The invariant *)

Record listing_ok (id : u64) (l : Listing) : Prop := {
  lo_id : l_invoice_id l = id;
  lo_funded : 0 <= l_funded_amount l <= l_asking_price l;
  lo_price : 0 < l_asking_price l < l_face_value l;
  lo_face : l_face_value l <= MAX_AMOUNT;
  lo_active : l_is_active l = true -> l_funded_amount l < l_asking_price l }.

(** The most the investors [xs] are owed back for [id]. *)
Definition owed (w : W) (id : u64) (xs : list Address) : Z := sum_of (contribution w id) xs.

Definition funded_of (w : W) (id : u64) : i128 :=
  match listing_of w id with Some l => l_funded_amount l | None => 0 end.

Record wf (w : W) : Prop := {
  wf_fees : fees_ok w;
  wf_listing : forall id l, listing_of w id = Some l -> listing_ok id l;
  wf_contribution : forall id x, 0 <= contribution w id x;
  wf_owed : forall id xs, NoDup xs -> owed w id xs <= funded_of w id;
  wf_confirmed : forall id, confirmed w id = true ->
    exists l, listing_of w id = Some l /\ l_is_active l = false }.

Lemma listing_ok_fund id n l :
  listing_ok id l -> l_is_active l = true -> 0 < n <= l_asking_price l - l_funded_amount l ->
  listing_ok id (funded_with n l).
Proof.
  intros [Hid Hfu Hp Hf _] Ha Hn. unfold funded_with.
  destruct (_ >=? _) eqn:E; split; cbn; try done; lia.
Qed.

Lemma funded_with_amount n l : l_funded_amount (funded_with n l) = l_funded_amount l + n.
Proof. unfold funded_with. by destruct (_ >=? _). Qed.

Lemma wf_listing_step c cx w w' :
  wf w -> exec c cx w = Ret tt w' -> forall id l, listing_of w' id = Some l -> listing_ok id l.
Proof.
  intros Hw H id l' E. pose proof (listing_evolves _ _ _ _ (wf_fees _ Hw) H id) as Hl.
  rewrite E in Hl. inversion Hl as [o|? ? ? ? ? ? ? ? ? ? ?|? ? l|? l]; subst.
  - by apply (wf_listing _ Hw).
  - split; cbn; try done; lia.
  - apply listing_ok_fund; try done. by apply (wf_listing _ Hw).
  - assert (listing_ok id l) as [] by (by apply (wf_listing _ Hw)). split; done.
Qed.

(** A contribution adds at most the amount paid to what a list of investors is owed. *)
Lemma owed_fund w w' id x n net xs :
  (forall y, y <> x -> contribution w' id y = contribution w id y) ->
  contribution w' id x = contribution w id x + net -> 0 <= net <= n -> NoDup xs ->
  owed w' id xs <= owed w id xs + n.
Proof.
  intros Hne Hx Hn Hd. unfold owed.
  assert (sum_of (contribution w' id) xs =
          sum_of (contribution w id) xs + (if list_mem x xs then net else 0)) as ->.
  { induction Hd as [|y xs Hy Hd IH]; [done|]. rewrite !sum_of_cons, IH.
    destruct (decide (y = x)) as [->|Hyx].
    - rewrite Hx. apply list_mem_false in Hy. rewrite Hy.
      rewrite (proj2 (list_mem_true x (x :: xs))) by apply list_elem_of_here. lia.
    - rewrite Hne by done. assert (list_mem x (y :: xs) = list_mem x xs) as ->; [|lia].
      unfold list_mem. apply bool_decide_ext. rewrite elem_of_cons.
      split; [intros [?|?]; [congruence|done]|by right]. }
  destruct (list_mem x xs); lia.
Qed.
(** ** The invariant holds in every reachable state *)

Lemma funded_of_mono c cx w w' id :
  wf w -> exec c cx w = Ret tt w' ->
  funded_of w id <= funded_of w' id /\
  (listing_of w id = None -> listing_of w' id = None \/
     exists s a f t d r, c = CListInvoice s id a f t d r) /\
  (forall l, listing_of w id = Some l -> exists l', listing_of w' id = Some l' /\
     (l_is_active l = false -> l' = l)).
Proof.
  intros Hw H. pose proof (listing_evolves _ _ _ _ (wf_fees _ Hw) H id) as Hl. unfold funded_of.
  destruct Hl as [o|s a f t d r -> _ _ _ _ _|v n l _ _ Ha _ Hn|who l _ _ Ha _].
  - split_and!; [lia|auto|intros l ->; eauto].
  - split_and!; [done|intros _; right; naive_solver|done].
  - rewrite funded_with_amount. split_and!; [lia|done|].
    intros ? [= <-]. eexists. split; [done|congruence].
  - split_and!; [done|done|]. intros ? [= <-]. eexists. split; [done|congruence].
Qed.

Lemma wf_owed_step c cx w w' id xs :
  wf w -> exec c cx w = Ret tt w' -> NoDup xs -> owed w' id xs <= funded_of w' id.
Proof.
  intros Hw H Hd. pose proof (wf_fees _ Hw) as Hf. pose proof (wf_owed _ Hw id xs Hd).
  destruct (funded_of_mono _ _ _ _ id Hw H) as [Hm _].
  assert (Hev := fun x => contribution_evolves _ _ _ _ id x Hf H).
  destruct c as [| | | | | | |x i n| | | | | | | | | |];
    try (assert (owed w' id xs = owed w id xs) as ->; [|lia];
         apply sum_of_ext; intros y _;
         destruct (Hev y) as [->|(? & ? & ? & [=] & _)]; done).
  destruct (decide (id = i)) as [->|Hne].
  - apply fund_invoice_effect in H as Hfd; [|done]. destruct Hfd as (fee & l & cfg & Hfd).
    pose proof (fd_listing _ _ _ _ _ _ _ _ _ Hfd) as El.
    pose proof (fd_listing' _ _ _ _ _ _ _ _ _ Hfd) as El'.
    pose proof (fd_fee_range _ _ _ _ _ _ _ _ _ Hfd).
    unfold funded_of in *. rewrite El, El' in *. rewrite funded_with_amount.
    transitivity (owed w i xs + n); [|lia].
    eapply (owed_fund w w' i x n (n - fee)); [|by destruct Hfd|lia|done].
    intros y Hy. apply fund_others in H as [_ H]. apply H. by right.
  - assert (owed w' id xs = owed w id xs) as ->; [|lia].
    apply fund_others in H as [_ H]. apply sum_of_ext.
    intros y _. apply H. by left.
Qed.

Lemma mp_wf_step c cx w w' : typed c -> wf w -> exec c cx w = Ret tt w' -> wf w'.
Proof.
  intros Ht Hw H. pose proof (wf_fees _ Hw) as Hf. split.
  - by eapply fees_ok_step.
  - by eapply wf_listing_step.
  - intros id x. pose proof (wf_contribution _ Hw id x).
    destruct (contribution_evolves _ _ _ _ id x Hf H) as [->|(n & net & l & _ & ? & _ & _ & _ & _ & ->)]; lia.
  - intros id xs Hd. by eapply wf_owed_step.
  - intros id E. destruct (confirmed_evolves _ _ _ _ id H) as [E'|(a & l & _ & _ & _ & _ & ->)].
    + rewrite E' in E. apply (wf_confirmed _ Hw) in E as (l & El & Ha).
      destruct (funded_of_mono _ _ _ _ id Hw H) as (_ & _ & Hk).
      destruct (Hk _ El) as (l' & -> & Hl'). rewrite Hl' by done. eauto.
    + eexists. by split.
Qed.

Lemma wf_frame w w' : st_get w' = st_get w -> wf w -> wf w'.
Proof.
  intros E [[Hc Ht] Hl Hx Ho Hcf]. unfold owed, funded_of, listing_of, contribution, confirmed,
    config_of, legacy_config in *.
  split; [split| | | |]; unfold owed, funded_of, listing_of, contribution, confirmed,
    config_of, legacy_config in *; rewrite E; done.
Qed.

Lemma mp_wf_empty w : st_get w = empty_storage -> wf w.
Proof.
  intros E.
  assert (Hx : forall id x, contribution w id x = 0) by (intros; unfold contribution; by rewrite E).
  assert (Hl : forall id, listing_of w id = None) by (intros; unfold listing_of; by rewrite E).
  split; [split| | | |].
  - unfold config_of, legacy_config. by rewrite E.
  - intros o f. by rewrite E.
  - intros id l. by rewrite Hl.
  - intros id x. by rewrite Hx.
  - intros id xs _. unfold owed, funded_of. rewrite Hl, (sum_of_ext _ (fun _ => 0)) by done.
    induction xs as [|x xs IH]; [done|]. rewrite sum_of_cons. lia.
  - unfold confirmed. by rewrite E.
Qed.

Lemma mp_wf_reachable w : reachable w -> wf w.
Proof.
  intros (w0 & E & Hs). apply mp_wf_empty in E. induction Hs as [w|w w1 w2 Hs _ IH]; [done|].
  apply IH. destruct Hs as [w cx c Ht|w w' Hst]; [|by eapply wf_frame].
  destruct (run_tx_cases (exec c) cx w) as [->|([] & w' & E' & ->)]; [done|]. by eapply mp_wf_step.
Qed.

(** ** Refunds over time *)

(** What a call of [claim_refund] for [id], whoever makes it, adds to the balance of
    [x] in the token of the listing. *)
Definition refunded_by (id : u64) (x : Address) (c : Call) cx w : Z :=
  match c, listing_of w id with
  | CClaimRefund _ i, Some l =>
      if i =? id then tok_bal (run_tx (exec c) cx w) (l_token l) x - tok_bal w (l_token l) x else 0
  | _, _ => 0
  end.

(** [x] is not the financing pool, which pays the refunds. *)
Definition not_payer (x : Address) (w : W) : Prop :=
  forall cfg, config_of w = Some cfg -> mc_financing_pool cfg <> x.

(** [refunds id x t paid w]: in some history of the contract from its deployment to
    [w], its last call at [t], in the order of the ledger's clock, the balance of [x]
    has grown by [paid] through refunds for [id]. *)
Inductive refunds (id : u64) (x : Address) : u64 -> Z -> W -> Prop :=
  | refunds_start w : st_get w = empty_storage -> refunds id x 0 0 w
  | refunds_call t paid w cx c :
      refunds id x t paid w -> t <= cx_now cx -> typed c -> not_payer x w ->
      refunds id x (cx_now cx) (paid + refunded_by id x c cx w) (run_tx (exec c) cx w)
  | refunds_other t paid w w' :
      refunds id x t paid w -> st_get w' = st_get w -> refunds id x t paid w'.

(** The listing took in too little and takes in no more. *)
Definition fell_short (w : W) (id : u64) (now : u64) : Prop :=
  exists l, listing_of w id = Some l /\ l_funded_amount l < l_asking_price l /\
    (l_is_active l = false \/ l_funding_deadline l < now).

Lemma fell_short_step c cx w w' id t :
  fees_ok w -> exec c cx w = Ret tt w' -> fell_short w id t -> t <= cx_now cx ->
  fell_short w' id (cx_now cx) /\ forall x, contribution w' id x = contribution w id x.
Proof.
  intros Hf H (l & El & Hs & Hd) Ht. split.
  - pose proof (listing_evolves _ _ _ _ Hf H id) as Hl. unfold fell_short. rewrite El in *.
    remember (Some l) as o eqn:Eo.
    destruct Hl as [o| |v n l0 _ _ Ha Hn _|who l0 _ _ _ _]; simplify_eq/=.
    + eexists. split_and!; [done|done|]. destruct Hd; [by left|right; lia].
    + exfalso. destruct Hd; [congruence|lia].
    + eexists. split_and!; [done|done|by left].
  - intros x. destruct (contribution_evolves _ _ _ _ id x Hf H)
      as [->|(n & net & l0 & _ & _ & El0 & Ha & Hn & _)]; [done|].
    rewrite El in El0. injection El0 as <-. destruct Hd; [congruence|lia].
Qed.

#[export] Instance call_eq_dec : EqDecision Call.
Proof. solve_decision. Defined.

Lemma refunded_by_Ret id x c cx w w' :
  not_payer x w -> exec c cx w = Ret tt w' ->
  refunded_by id x c cx w = if decide (c = CClaimRefund x id) then contribution w id x else 0.
Proof.
  intros Hnp E. destruct c; cbn [refunded_by]; try by rewrite decide_False.
  unfold run_tx. rewrite E. apply claim_refund_effect in E as (l & cfg & E).
  pose proof (rf_listing _ _ _ _ _ _ _ E) as El. pose proof (Hnp _ (rf_config _ _ _ _ _ _ _ E)) as Hne.
  destruct (Z.eqb_spec invoice_id id) as [->|Hi];
    [|rewrite decide_False by (intros [= _ ?]; done); by case_match].
  rewrite El, (rf_balances _ _ _ _ _ _ _ E), N.eqb_refl. unfold moved.
  destruct (N.eqb_spec x (mc_financing_pool cfg)) as [->|_]; [done|].
  destruct (N.eqb_spec x investor) as [->|Hx].
  - rewrite decide_True by done. destruct (mc_financing_pool cfg =? investor)%N; lia.
  - rewrite decide_False by (intros [= ?]; done). destruct (mc_financing_pool cfg =? investor)%N; lia.
Qed.

(** A call that fails pays nothing. *)
Lemma refunded_by_no id x c cx w : run_tx (exec c) cx w = w -> refunded_by id x c cx w = 0.
Proof.
  intros E. unfold refunded_by. destruct c; try done. destruct (listing_of w id); [|done].
  rewrite E. case_match; lia.
Qed.

(** One more call: a refund is the whole contribution, and it is the last. *)
Lemma refund_step id x t paid c cx w w' :
  wf w -> exec c cx w = Ret tt w' -> t <= cx_now cx ->
  (refund_claimed w id x = false /\ paid = 0) \/
  (refund_claimed w id x = true /\ paid = contribution w id x /\ fell_short w id t) ->
  let paid' := paid + (if decide (c = CClaimRefund x id) then contribution w id x else 0) in
  (refund_claimed w' id x = false /\ paid' = 0) \/
  (refund_claimed w' id x = true /\ paid' = contribution w' id x /\ fell_short w' id (cx_now cx)).
Proof.
  intros Hw H Ht IH. cbv zeta. pose proof (wf_fees _ Hw) as Hf.
  destruct (decide (c = CClaimRefund x id)) as [->|Hne].
  - apply claim_refund_effect in H as (l & cfg & H). destruct IH as [[_ ->]|[Hc _]];
      [|pose proof (rf_fresh _ _ _ _ _ _ _ H); congruence].
    right. split_and!; [by destruct H|by rewrite (rf_contributions _ _ _ _ _ _ _ H)|].
    exists l. rewrite (rf_listings _ _ _ _ _ _ _ H). split_and!; [by destruct H..|].
    destruct (rf_open _ _ _ _ _ _ _ H) as [Hc|?]; [left|by right].
    apply (wf_confirmed _ Hw) in Hc as (l' & El' & ?).
    pose proof (rf_listing _ _ _ _ _ _ _ H). congruence.
  - rewrite Z.add_0_r. destruct (claims_evolve _ _ _ _ id x H) as [->|?]; [|done].
    destruct IH as [?|(? & -> & Hs)]; [by left|]. right.
    by destruct (fell_short_step _ _ _ _ _ _ Hf H Hs Ht) as [? ->].
Qed.

Lemma refunds_invariant id x t paid w :
  refunds id x t paid w ->
  wf w /\
  ((refund_claimed w id x = false /\ paid = 0) \/
   (refund_claimed w id x = true /\ paid = contribution w id x /\ fell_short w id t)).
Proof.
  induction 1 as [w E|t paid w cx c _ [Hw IH] Ht Hty Hnp|t paid w w' _ [Hw IH] E].
  - split; [by apply mp_wf_empty|]. left. unfold refund_claimed. by rewrite E.
  - assert (Hno : run_tx (exec c) cx w = w ->
      wf (run_tx (exec c) cx w) /\
      ((refund_claimed (run_tx (exec c) cx w) id x = false /\ paid + refunded_by id x c cx w = 0) \/
       (refund_claimed (run_tx (exec c) cx w) id x = true /\
        paid + refunded_by id x c cx w = contribution (run_tx (exec c) cx w) id x /\
        fell_short (run_tx (exec c) cx w) id (cx_now cx)))).
    { intros E. rewrite (refunded_by_no _ _ _ _ _ E), E, Z.add_0_r. split; [done|].
      destruct IH as [?|(? & ? & l & ? & ? & Hd)]; [by left|]. right.
      split_and!; [done..|]. exists l. split_and!; [done..|]. destruct Hd; [by left|right; lia]. }
    destruct (run_tx_cases (exec c) cx w) as [Heq|([] & w' & E & Heq)]; [by apply Hno|]. clear Hno.
    rewrite Heq. split; [by eapply mp_wf_step|]. rewrite (refunded_by_Ret _ _ _ _ _ _ Hnp E).
    eapply refund_step; eauto.
  - split; [by eapply wf_frame|]. unfold refund_claimed, contribution, fell_short, listing_of in *.
    by rewrite E.
Qed.

(** ** Properties *)

(** C1: A successful [fund_invoice]: the investor authorized it, the protocol runs,
    the invoice is not frozen, the listing is active, before its deadline and short
    of its target by at least [n]; the investor pays exactly [n], of which the
    treasury gets the fee, the rate of the invoice's tier rounded down, and the
    financing pool all the rest; the listing grows by [n], closing when it reaches
    its target, and the investor's refundable contribution by what the pool got. *)
Theorem fund_invoice_correct investor id n cx w w' :
  reachable w -> fund_invoice investor id n cx w = Ret tt w' ->
  (exists fee l c, funding investor id n fee l c cx w w') /\
  (forall i, i <> id -> listing_of w' i = listing_of w i) /\
  (forall i x, i <> id \/ x <> investor -> contribution w' i x = contribution w i x).
Proof.
  intros Hr H. split; [|by eapply fund_others].
  eapply fund_invoice_effect; [|done]. by apply wf_fees, mp_wf_reachable.
Qed.

(** C20: In every reachable state each listing is well formed: its asking price is
    positive and below the face value, its funded amount between nothing and the
    asking price, and an active listing is not fully funded; and what any set of
    investors could claim back for an invoice is never more than the listing took. *)
Theorem listings_are_well_formed w :
  reachable w ->
  (forall id l, listing_of w id = Some l -> listing_ok id l) /\
  (forall id xs, NoDup xs -> owed w id xs <= funded_of w id).
Proof. intros Hr. by destruct (mp_wf_reachable _ Hr). Qed.

(** C21: The life of a listing, over every call of the contract: it is created only
    by its authorized seller's [list_invoice], never removed and its terms never
    change; its funded amount grows only by [fund_invoice], while it is active and
    before its deadline; it is deactivated by being fully funded or by an
    authorized cancellation of the seller or the admin, and never activated again. *)
Theorem listing_lifecycle c cx w w' id :
  reachable w -> exec c cx w = Ret tt w' ->
  listing_change c cx w id (listing_of w id) (listing_of w' id).
Proof. intros Hr H. apply listing_evolves; [|done]. by apply wf_fees, mp_wf_reachable. Qed.

(** C8: Refunds over time: in any history from the deployment on, whatever calls are
    made and by whom, the refunds of a listing have added to the balance of an investor
    (other than the financing pool, which pays them), in the listing's token, nothing
    as long as the investor's refund is not claimed, and once it is, exactly the whole
    net contribution, no matter how often it is claimed; and a refund is claimed only
    when the listing fell short of its asking price and can take no more money. *)
Theorem refunds_are_exact id x t paid w :
  refunds id x t paid w ->
  (refund_claimed w id x = false /\ paid = 0) \/
  (refund_claimed w id x = true /\ paid = contribution w id x /\ fell_short w id t).
Proof. intros H. by apply refunds_invariant in H as [_ ?]. Qed.

(** A successful [claim_refund]: the investor authorized it, the listing fell
    short, its cancellation was confirmed or its deadline has passed, the refund
    was not claimed before; exactly the positive net contribution moves from the
    financing pool to the investor, and nothing else of the listings changes. *)
Theorem claim_refund_correct x id cx w w' :
  claim_refund x id cx w = Ret tt w' -> exists l c, refunding x id l c cx w w'.
Proof. apply claim_refund_effect. Qed.

(** Once the config is stored, the configuration changes only by the stored
    admin, authorized, who can only set the fee and the referrer split, each at
    most 100%: the admin and the linked contracts stay for good. *)
Theorem config_changes_are_authorized c cx w w' :
  exec c cx w = Ret tt w' -> iget (st_get w) DataKey.Config <> None ->
  iget (st_get w') DataKey.Config <> None /\
  (config_of w' = config_of w \/
   exists cfg cfg', config_of w = Some cfg /\ config_of w' = Some cfg' /\
     admin_update c cx cfg cfg').
Proof.
  intros H Hc. split; [by eapply mp_config_kept|].
  apply mp_config_evolves in H as [?|[(a & n & p & t & ac & r & f & _ & ? & _)|?]]; by auto.
Qed.

(** A deployment that still has the legacy keys only, its config not yet
    consolidated, can be initialized again by anyone: whoever calls [initialize]
    first becomes the admin and chooses the linked contracts. *)
Theorem legacy_deployment_can_be_taken_over cfg a n p t ac r f cx w :
  iget (st_get w) DataKey.Config = None -> legacy_config w = Some cfg -> 0 <= f <= 10000 ->
  exists w', initialize a n p t ac r f cx w = Ret tt w' /\
    config_of w' = Some (mkMarketplaceConfig a n p t ac r f 0).
Proof.
  intros Hc _ Hf. eexists. split.
  - unfold initialize. unfold mbind, M_bind, instance_has. rewrite Hc. cbn [fail_if].
    unfold lift, require_valid_fee_bps, reject_if.
    destruct (f >? 10000) eqn:E; [lia|]. reflexivity.
  - apply config_of_stored. by store_simpl.
Qed.

(** A partially funded listing cancelled by [cancel_listing], without the two
    phases, gives its investors nothing back before the funding deadline, and no
    confirmation can open their refunds any more: every [claim_refund] until then
    and every [admin_confirm_cancellation] fails. *)
Theorem cancel_listing_locks_refunds caller id cx w w' :
  reachable w -> cancel_listing caller id cx w = Ret tt w' -> 
  exists l, listing_of w' id = Some l /\ confirmed w' id = false /\
    (forall x cx2, authorized cx2 x = true -> cx_now cx2 <= l_funding_deadline l ->
       claim_refund x id cx2 w' = Fail FundingNotExpired w') /\
    (forall a cx2 w2, admin_confirm_cancellation a id cx2 w' <> Ret tt w2).
Proof.
  intros Hr H. pose proof (mp_wf_reachable _ Hr) as Hw.
  change (exec (CCancelListing caller id) cx w = Ret tt w') in H.
  pose proof (confirmed_evolves _ _ _ _ id H) as Hc.
  pose proof (cancel_change _ _ id _ _ _ (or_introl eq_refl) H id) as Hl.
  assert (exists l, listing_of w id = Some l /\ l_is_active l = true /\
    listing_of w' id = Some (with_is_active false l)) as (l & El & Ha & El').
  { unfold listing_of. run_call H; guards; eexists; split_and!; try done; by store_simpl. }
  assert (confirmed w' id = false) as Hn.
  { destruct Hc as [->|(? & ? & [=] & _)]. destruct (confirmed w id) eqn:E; [|done].
    apply (wf_confirmed _ Hw) in E as (? & ? & ?). congruence. }
  pose proof (wf_listing _ Hw _ _ El) as [_ _ _ _ Hlt]. specialize (Hlt Ha).
  exists (with_is_active false l). split_and!; [done|done| |].
  - intros x cx2 Hx Hd. unfold claim_refund.
    rewrite (bind_run _ _ _ _ tt w') by (unfold require_auth; by rewrite Hx).
    rewrite (bind_run _ _ _ _ (with_is_active false l) w')
      by (unfold persistent_get_or; unfold listing_of in El'; by rewrite El').
    rewrite (bind_run _ _ _ _ tt w')
      by (unfold fail_if; cbn [l_funded_amount l_asking_price with_is_active];
          destruct (_ >=? _) eqn:E; [lia|done]).
    rewrite (bind_run _ _ _ _ false w') by (unfold persistent_get_default; f_equal; exact Hn).
    rewrite (bind_run _ _ _ _ (cx_now cx2) w') by done.
    apply bind_fail. unfold fail_if. by rewrite (proj2 (Z.leb_le _ _) Hd).
  - intros a cx2 w2 H2. change (exec (CConfirmCancellation a id) cx2 w' = Ret tt w2) in H2.
    unfold listing_of in El'. run_call H2; guards;
      match goal with E : l_is_active ?l' = true |- _ =>
        assert (l' = with_is_active false l) by congruence; by subst end.
Qed.
End Properties.
