(* ===== verification/World.v ===== *)
(** * World: the deployed protocol

    All seven contracts at their addresses over one ledger: the storages, the
    event log and the token balances. Every client method of Interfaces.v is the
    body its contract has, run in the callee's context; the laws the contracts'
    theorems rely on are proved of these bodies, and of a reference token that
    behaves as SEP-41 documents. *)

From S2P Require Import Prelude Errors SortedMap Types Host Events Reentrancy Validation Interfaces AuditLog AccessControl PriceOracle RiskRegistry Treasury InvoiceNft FinancingPool Marketplace.

(** The last ledger of every persistent entry, by contract. *)
Record Lives := mkLives {
  lv_access : AccessControl.DataKey.t -> u32;
  lv_oracle : PriceOracle.DataKey.t -> u32;
  lv_registry : RiskRegistry.DataKey.t -> u32;
  lv_treasury : Treasury.DataKey.t -> u32;
  lv_nft : InvoiceNft.DataKey.t -> u32;
  lv_pool : FinancingPool.DataKey.t -> u32;
  lv_market : Marketplace.DataKey.t -> u32 }.

Record World := mkWorld {
  w_access : Storage AccessControl.DataKey.t;
  w_oracle : Storage PriceOracle.DataKey.t;
  w_registry : Storage RiskRegistry.DataKey.t;
  w_treasury : Storage Treasury.DataKey.t;
  w_nft : Storage InvoiceNft.DataKey.t;
  w_pool : Storage FinancingPool.DataKey.t;
  w_market : Storage Marketplace.DataKey.t;
  w_log : list Event;
  w_bal : Address -> Address -> i128;
  w_dec : Address -> u32;
  w_lives : Lives }.

(** The addresses the contracts are deployed at. *)
Definition ACCESS : Address := 1%N.
Definition ORACLE : Address := 2%N.
Definition REGISTRY : Address := 3%N.
Definition TREASURY : Address := 4%N.
Definition NFT : Address := 5%N.
Definition POOL : Address := 6%N.
Definition MARKET : Address := 7%N.

#[export] Instance world_events : HasEvents World := {|
  w_events := w_log;
  w_emit e w := mkWorld (w_access w) (w_oracle w) (w_registry w) (w_treasury w) (w_nft w)
    (w_pool w) (w_market w) (w_log w ++ [e]) (w_bal w) (w_dec w) (w_lives w) |}.

Definition with_lives (l : Lives) (w : World) : World :=
  mkWorld (w_access w) (w_oracle w) (w_registry w) (w_treasury w) (w_nft w)
    (w_pool w) (w_market w) (w_log w) (w_bal w) (w_dec w) l.

#[export] Instance world_access : HasStorage World AccessControl.DataKey.t := {|
  st_get := w_access;
  st_put s w := mkWorld s (w_oracle w) (w_registry w) (w_treasury w) (w_nft w)
    (w_pool w) (w_market w) (w_log w) (w_bal w) (w_dec w) (w_lives w);
  st_live w := lv_access (w_lives w);
  st_keep f w := with_lives (mkLives f (lv_oracle (w_lives w)) (lv_registry (w_lives w)) (lv_treasury (w_lives w))
    (lv_nft (w_lives w)) (lv_pool (w_lives w)) (lv_market (w_lives w))) w |}.
#[export] Instance world_oracle : HasStorage World PriceOracle.DataKey.t := {|
  st_get := w_oracle;
  st_put s w := mkWorld (w_access w) s (w_registry w) (w_treasury w) (w_nft w)
    (w_pool w) (w_market w) (w_log w) (w_bal w) (w_dec w) (w_lives w);
  st_live w := lv_oracle (w_lives w);
  st_keep f w := with_lives (mkLives (lv_access (w_lives w)) f (lv_registry (w_lives w)) (lv_treasury (w_lives w))
    (lv_nft (w_lives w)) (lv_pool (w_lives w)) (lv_market (w_lives w))) w |}.
#[export] Instance world_registry : HasStorage World RiskRegistry.DataKey.t := {|
  st_get := w_registry;
  st_put s w := mkWorld (w_access w) (w_oracle w) s (w_treasury w) (w_nft w)
    (w_pool w) (w_market w) (w_log w) (w_bal w) (w_dec w) (w_lives w);
  st_live w := lv_registry (w_lives w);
  st_keep f w := with_lives (mkLives (lv_access (w_lives w)) (lv_oracle (w_lives w)) f (lv_treasury (w_lives w))
    (lv_nft (w_lives w)) (lv_pool (w_lives w)) (lv_market (w_lives w))) w |}.
#[export] Instance world_treasury : HasStorage World Treasury.DataKey.t := {|
  st_get := w_treasury;
  st_put s w := mkWorld (w_access w) (w_oracle w) (w_registry w) s (w_nft w)
    (w_pool w) (w_market w) (w_log w) (w_bal w) (w_dec w) (w_lives w);
  st_live w := lv_treasury (w_lives w);
  st_keep f w := with_lives (mkLives (lv_access (w_lives w)) (lv_oracle (w_lives w)) (lv_registry (w_lives w)) f
    (lv_nft (w_lives w)) (lv_pool (w_lives w)) (lv_market (w_lives w))) w |}.
#[export] Instance world_nft : HasStorage World InvoiceNft.DataKey.t := {|
  st_get := w_nft;
  st_put s w := mkWorld (w_access w) (w_oracle w) (w_registry w) (w_treasury w) s
    (w_pool w) (w_market w) (w_log w) (w_bal w) (w_dec w) (w_lives w);
  st_live w := lv_nft (w_lives w);
  st_keep f w := with_lives (mkLives (lv_access (w_lives w)) (lv_oracle (w_lives w)) (lv_registry (w_lives w)) (lv_treasury (w_lives w))
    f (lv_pool (w_lives w)) (lv_market (w_lives w))) w |}.
#[export] Instance world_pool : HasStorage World FinancingPool.DataKey.t := {|
  st_get := w_pool;
  st_put s w := mkWorld (w_access w) (w_oracle w) (w_registry w) (w_treasury w) (w_nft w)
    s (w_market w) (w_log w) (w_bal w) (w_dec w) (w_lives w);
  st_live w := lv_pool (w_lives w);
  st_keep f w := with_lives (mkLives (lv_access (w_lives w)) (lv_oracle (w_lives w)) (lv_registry (w_lives w)) (lv_treasury (w_lives w))
    (lv_nft (w_lives w)) f (lv_market (w_lives w))) w |}.
#[export] Instance world_market : HasStorage World Marketplace.DataKey.t := {|
  st_get := w_market;
  st_put s w := mkWorld (w_access w) (w_oracle w) (w_registry w) (w_treasury w) (w_nft w)
    (w_pool w) s (w_log w) (w_bal w) (w_dec w) (w_lives w);
  st_live w := lv_market (w_lives w);
  st_keep f w := with_lives (mkLives (lv_access (w_lives w)) (lv_oracle (w_lives w)) (lv_registry (w_lives w)) (lv_treasury (w_lives w))
    (lv_nft (w_lives w)) (lv_pool (w_lives w)) f) w |}.

#[export] Instance world_access_laws : StorageLaws World AccessControl.DataKey.t.
Proof. by split. Qed.
#[export] Instance world_oracle_laws : StorageLaws World PriceOracle.DataKey.t.
Proof. by split. Qed.
#[export] Instance world_registry_laws : StorageLaws World RiskRegistry.DataKey.t.
Proof. by split. Qed.
#[export] Instance world_treasury_laws : StorageLaws World Treasury.DataKey.t.
Proof. by split. Qed.
#[export] Instance world_nft_laws : StorageLaws World InvoiceNft.DataKey.t.
Proof. by split. Qed.
#[export] Instance world_pool_laws : StorageLaws World FinancingPool.DataKey.t.
Proof. by split. Qed.
#[export] Instance world_market_laws : StorageLaws World Marketplace.DataKey.t.
Proof. by split. Qed.

(** ** The reference token *)

Definition with_balances (b : Address -> Address -> i128) (w : World) : World :=
  mkWorld (w_access w) (w_oracle w) (w_registry w) (w_treasury w) (w_nft w)
    (w_pool w) (w_market w) (w_log w) b (w_dec w) (w_lives w).

#[export] Instance world_ledger : TokenLedger World := {|
  tok_bal := w_bal;
  tok_dec w t := w_dec w t |}.

Definition token_transfer (t from to : Address) (n : i128) : M World unit := fun cx w =>
  if ((from =? cx_self cx)%N || cx_signed cx from) && (0 <=? n) && (n <=? w_bal w t from)
  then Ret tt (with_balances (fun t' x =>
         if (t' =? t)%N then moved from to x n (w_bal w t' x) else w_bal w t' x) w)
  else Trap.

Definition token_balance (t a : Address) : M World i128 := fun cx w => Ret (w_bal w t a) w.

Definition token_decimals (t : Address) : M World u32 := fun cx w =>
  if 0 <=? w_dec w t then Ret (w_dec w t) w else Trap.

#[export] Instance world_token : TokenClient World := {|
  tok_transfer := token_transfer;
  tok_balance := token_balance;
  tok_decimals := token_decimals |}.

#[export] Instance world_token_laws : TokenLaws World.
Proof.
  assert (Hinv : forall t from to n cx w u w', token_transfer t from to n cx w = Ret u w' ->
    (from = cx_self cx \/ cx_signed cx from = true) /\ 0 <= n <= w_bal w t from /\
    w' = with_balances (fun t' x =>
         if (t' =? t)%N then moved from to x n (w_bal w t' x) else w_bal w t' x) w).
  { intros * H. unfold token_transfer in H. destruct (_ && _) eqn:E; [|done].
    injection H as _ <-. apply andb_true_iff in E as [E ?]. apply andb_true_iff in E as [E ?].
    apply orb_true_iff in E as [E|E]; [apply N.eqb_eq in E|]; split_and!; auto; lia. }
  split.
  - by intros * [= <- <-].
  - intros t cx w d w' H. change (token_decimals t cx w = Ret d w') in H. unfold token_decimals in H.
    destruct (0 <=? w_dec w t) eqn:E; [|done]. injection H as <- <-. split_and!; [done|lia|done].
  - by intros * (? & _ & _)%Hinv.
  - by intros * (_ & ? & _)%Hinv.
  - by intros * (_ & _ & ->)%Hinv.
  - by intros * (_ & _ & ->)%Hinv.
Qed.

Lemma token_transfer_keeps t from to n cx w u w' :
  token_transfer t from to n cx w = Ret u w' -> exists b, w' = with_balances b w.
Proof. unfold token_transfer. destruct (_ && _); [|done]. intros [= _ <-]. eauto. Qed.

Lemma token_decimals_ro t cx w d w' : token_decimals t cx w = Ret d w' -> w' = w.
Proof. unfold token_decimals. destruct (_ <=? _); [|done]. by intros [= _ <-]. Qed.

Ltac token_frame :=
  split;
  [ by intros t f to n cx w u w' (b & ->)%token_transfer_keeps
  | by intros t a cx w b w' [= _ <-]
  | by intros t cx w d w' ->%token_decimals_ro
  | done.. ].

#[export] Instance token_frame_oracle : TokenFrame World PriceOracle.DataKey.t.
Proof. token_frame. Qed.
#[export] Instance token_frame_registry : TokenFrame World RiskRegistry.DataKey.t.
Proof. token_frame. Qed.
#[export] Instance token_frame_treasury : TokenFrame World Treasury.DataKey.t.
Proof. token_frame. Qed.
#[export] Instance token_frame_pool : TokenFrame World FinancingPool.DataKey.t.
Proof. token_frame. Qed.
#[export] Instance token_frame_market : TokenFrame World Marketplace.DataKey.t.
Proof. token_frame. Qed.

(** ** Calls between the contracts *)

(** A call of the contract deployed at [addr]; there is nothing to call elsewhere. *)
Definition call_at {A} (addr c : Address) (m : M World A) : M World A :=
  if (c =? addr)%N then call c m else trap.

Definition try_call_at {A} (addr c : Address) (m : M World A) : M World (option A) :=
  if (c =? addr)%N then try_call c m else mret None.

#[export] Instance world_ac_client : AccessControlClient World := {|
  ac_is_paused c := call_at ACCESS c AccessControl.is_paused |}.

#[export] Instance world_rr_client : RiskRegistryClient World := {|
  rr_is_compliance_attested c s := call_at REGISTRY c (RiskRegistry.is_compliance_attested s);
  rr_try_get_sme_profile c s := try_call_at REGISTRY c (RiskRegistry.get_sme_profile s);
  rr_try_record_default c a s := try_call_at REGISTRY c (RiskRegistry.record_default a s) |}.

#[export] Instance world_nft_client : InvoiceNftClient World := {|
  nft_get_invoice c i := call_at NFT c (InvoiceNft.get_invoice i);
  nft_is_invoice_frozen c i := call_at NFT c (InvoiceNft.is_invoice_frozen i);
  nft_set_listed c a i := call_at NFT c (InvoiceNft.set_listed a i);
  nft_set_funded c a i := call_at NFT c (InvoiceNft.set_funded a i);
  nft_set_repaid c a i := call_at NFT c (InvoiceNft.set_repaid a i);
  nft_set_defaulted c a i := call_at NFT c (InvoiceNft.set_defaulted a i) |}.

#[export] Instance world_oracle_client : PriceOracleClient World := {|
  oracle_convert c n f t := call_at ORACLE c (PriceOracle.convert n f t) |}.

#[export] Instance world_treasury_client : TreasuryClient World := {|
  treasury_collect_fee c t n := call_at TREASURY c (Treasury.collect_fee t n) |}.

#[export] Instance world_pool_client : FinancingPoolClient World := {|
  pool_release_funds c m i t := call_at POOL c (FinancingPool.release_funds m i t) |}.

(** ** The laws of the clients *)

Lemma call_at_Ret {A} addr c (m : M World A) cx w a w' :
  call_at addr c m cx w = Ret a w' -> m (callee_ctx c cx) w = Ret a w'.
Proof.
  unfold call_at. destruct (c =? addr)%N; [|done]. by intros [H _]%call_Ret.
Qed.

Lemma try_call_at_Ret {A} addr c (m : M World A) cx w (o : option A) w' :
  try_call_at addr c m cx w = Ret o w' ->
  w' = w \/ exists a, m (callee_ctx c cx) w = Ret a w'.
Proof.
  unfold try_call_at. destruct (c =? addr)%N; [|intros [= _ ->]; by left].
  unfold try_call. destruct (call c m cx w) as [a w1|e w1|] eqn:E; intros [= _ <-]; auto.
  right. exists a. by apply call_Ret in E as [E _].
Qed.

Lemma call_at_ro {A} addr c (m : M World A) : ReadOnly m -> ReadOnly (call_at addr c m).
Proof. intros Hm cx w a w' H%call_at_Ret. by eapply Hm. Qed.

Lemma try_call_at_ro {A} addr c (m : M World A) :
  ReadOnly m -> ReadOnly (try_call_at addr c m).
Proof. intros Hm cx w a w' [?|[b H]]%try_call_at_Ret; [done|]. by eapply Hm. Qed.

(** What a contract's own run can change: [keep] reads of the world that its writes
    and events do not touch. *)
Ltac ro := intros cx w a w' H; minv H; done.

#[export] Instance world_ac_laws : AccessControlLaws World.
Proof. split. intros c. apply call_at_ro. unfold AccessControl.is_paused. ro. Qed.

#[export] Instance world_rr_laws : RiskRegistryLaws World.
Proof.
  split. intros c s. apply call_at_ro. unfold RiskRegistry.is_compliance_attested. ro.
Qed.

#[export] Instance world_profile_frame : ProfileFrame World InvoiceNft.DataKey.t.
Proof.
  split. intros c s cx w a w' [->|[b H]]%try_call_at_Ret; [done|].
  unfold RiskRegistry.get_sme_profile, RiskRegistry.bump_persistent in H. by minv H.
Qed.

#[export] Instance world_nft_laws' : InvoiceNftLaws World.
Proof.
  split; intros c i; apply call_at_ro.
  - unfold InvoiceNft.get_invoice, InvoiceNft.load_invoice. ro.
  - unfold InvoiceNft.is_invoice_frozen. ro.
Qed.

#[export] Instance world_oracle_laws' : PriceOracleLaws World.
Proof.
  split.
  - intros c x f t. apply call_at_ro. unfold PriceOracle.convert, PriceOracle.get_price,
      PriceOracle.convert_at. ro.
  - intros c n f t cx w r w' H%call_at_Ret Hn. unfold PriceOracle.convert,
      PriceOracle.convert_at in H. minv H; [done|]. lia.
Qed.

(** What a call leaves alone, seen from the pool and the marketplace. *)
Definition aside (w w' : World) : Prop :=
  w_pool w' = w_pool w /\ w_market w' = w_market w /\ w_bal w' = w_bal w /\ w_dec w' = w_dec w.

Class Aside {A} (m : M World A) : Prop := run_aside : forall cx w a w', m cx w = Ret a w' -> aside w w'.

Lemma aside_refl w : aside w w.
Proof. by split_and!. Qed.

Lemma call_at_aside {A} addr c (m : M World A) : Aside m -> Aside (call_at addr c m).
Proof. intros Hm cx w a w' H%call_at_Ret. by eapply Hm. Qed.

Lemma try_call_at_aside {A} addr c (m : M World A) : Aside m -> Aside (try_call_at addr c m).
Proof.
  intros Hm cx w a w' [->|[b H]]%try_call_at_Ret; [apply aside_refl|]. by eapply Hm.
Qed.

Lemma nft_aside a i :
  Aside (InvoiceNft.set_listed a i) /\ Aside (InvoiceNft.set_funded a i) /\
  Aside (InvoiceNft.set_repaid a i) /\ Aside (InvoiceNft.set_defaulted a i).
Proof.
  split_and!; intros cx w u w' H; autounfold with invoice_nft in H; minv H;
    InvoiceNft.learn_callers; learn_views. all: by split_and!.
Qed.

Lemma record_default_aside a s : Aside (RiskRegistry.record_default a s).
Proof.
  intros cx w u w' H. unfold RiskRegistry.record_default, RiskRegistry.append_audit_entry in H.
  autounfold with risk_registry in H. minv H;
    match goal with HA : AuditLog.append_audit_entry _ _ _ _ _ = Ret _ _ |- _ =>
      apply (append_audit_entry_keeps (K:=RiskRegistry.DataKey.t) aside) in HA;
        [destruct HA as (? & ? & ? & ?); by split_and!|unfold aside; intuition congruence|..];
        intros; by split_and! end.
Qed.

Lemma collect_fee_aside t n : Aside (Treasury.collect_fee t n).
Proof.
  intros cx w u w' H. unfold Treasury.collect_fee in H. autounfold with treasury in H.
  minv H; by split_and!.
Qed.

Section Aside.
Context {A : Type} (m : M World A) `{!Aside m}.

Lemma aside_frames_pool : Frames FinancingPool.DataKey.t m.
Proof. intros cx w a w' H. by destruct (run_aside _ _ _ _ H). Qed.
Lemma aside_frames_market : Frames Marketplace.DataKey.t m.
Proof. intros cx w a w' H. by destruct (run_aside _ _ _ _ H) as (_ & ? & _). Qed.
Lemma aside_keeps_tokens : KeepsTokens m.
Proof.
  intros cx w a w' H. destruct (run_aside _ _ _ _ H) as (_ & _ & Hb & Hd).
  split; intros; simpl; congruence.
Qed.
End Aside.

Create HintDb world.

(** The state-changing client methods the pool and the marketplace call. *)
Lemma set_listed_aside c a i : Aside (nft_set_listed c a i : M World unit).
Proof. apply call_at_aside. by destruct (nft_aside a i) as (? & ? & ? & ?). Qed.
Lemma set_funded_aside c a i : Aside (nft_set_funded c a i : M World unit).
Proof. apply call_at_aside. by destruct (nft_aside a i) as (? & ? & ? & ?). Qed.
Lemma set_repaid_aside c a i : Aside (nft_set_repaid c a i : M World unit).
Proof. apply call_at_aside. by destruct (nft_aside a i) as (? & ? & ? & ?). Qed.
Lemma set_defaulted_aside c a i : Aside (nft_set_defaulted c a i : M World unit).
Proof. apply call_at_aside. by destruct (nft_aside a i) as (? & ? & ? & ?). Qed.
Lemma try_record_default_aside c a s : Aside (rr_try_record_default c a s : M World (option unit)).
Proof. apply try_call_at_aside, record_default_aside. Qed.
Lemma treasury_collect_aside c t n : Aside (treasury_collect_fee c t n : M World unit).
Proof. apply call_at_aside, collect_fee_aside. Qed.
#[export] Hint Resolve set_listed_aside set_funded_aside set_repaid_aside set_defaulted_aside
  try_record_default_aside treasury_collect_aside
  aside_frames_pool aside_frames_market aside_keeps_tokens : world.

#[export] Instance nft_frame_pool : NftFrame World FinancingPool.DataKey.t.
Proof. split; auto with world. Qed.
#[export] Instance nft_frame_market : NftFrame World Marketplace.DataKey.t.
Proof. split; auto with world. Qed.
#[export] Instance registry_frame_pool : RegistryFrame World FinancingPool.DataKey.t.
Proof. split; auto with world. Qed.
#[export] Instance treasury_frame_market : TreasuryFrame World Marketplace.DataKey.t.
Proof. split; auto with world. Qed.

Lemma release_funds_aside m i t cx (w : World) u w' :
  FinancingPool.release_funds m i t cx w = Ret u w' ->
  w_market w' = w_market w /\ w_bal w' = w_bal w /\ w_dec w' = w_dec w.
Proof.
  intros H. autounfold with financing_pool in H. minv H. learn_views.
  match goal with HN : nft_set_funded _ _ _ _ _ = Ret _ _ |- _ =>
    apply set_funded_aside in HN as (_ & Hm & Hb & Hd) end.
  done.
Qed.

#[export] Instance pool_frame_market : PoolFrame World Marketplace.DataKey.t.
Proof.
  split; intros c m i t cx w u w' H; apply call_at_Ret in H;
    apply release_funds_aside in H as (Hm & Hb & Hd); first [done|split; intros; simpl; congruence].
Qed.
