(* ===== verification/System.v ===== *)
(** * System: the contracts together

    A step of the deployed protocol is one transaction: a call of any of the
    seven contracts, with all the calls between contracts it makes, or a token
    transfer. Seen from each contract, every run of the system is a run of that
    contract, so what its own file proves of its reachable states and its runs
    holds of the protocol; on top of it, the states of the marketplace, the
    financing pool and the invoice registry agree with one another. *)

From S2P Require Import Prelude Errors SortedMap Types Host Events Reentrancy Validation Interfaces AuditLog Moves AccessControl PriceOracle RiskRegistry Treasury InvoiceNft FinancingPool Marketplace World.

Definition CONTRACTS : list Address := [ACCESS; ORACLE; REGISTRY; TREASURY; NFT; POOL; MARKET].

Lemma registry_in : REGISTRY ∈ CONTRACTS.
Proof. by right; right; left. Qed.

(** No contract of the protocol signs a transaction. *)
Definition honest (cx : Ctx) : Prop := forall a, a ∈ CONTRACTS -> cx_signed cx a = false.
Definition runs_at (a : Address) (cx : Ctx) : Prop := cx_self cx = a /\ honest cx.

Lemma runs_at_callee a b cx : runs_at a cx -> runs_at b (callee_ctx b cx).
Proof. intros [_ H]. by split. Qed.

(** ** What each contract's calls can do, given what the contracts it calls can do *)

Section Components.
Context (R : World -> World -> Prop) `{!PreOrder R} `{!Emits R}.

(** The calls of a contract at [a] stay within [R]. *)
Record covers {Call} (a : Address) (ok : Call -> Prop) (exec : Call -> M World unit) : Prop := {
  covers_run : forall c, ok c -> Moves R (runs_at a) (exec c) }.

Definition tokens_move (a : Address) : Prop :=
  forall t f to n, Moves R (runs_at a) (tok_transfer t f to n : M World unit).

(** A successful run of [m] is one of the entry point [p], which has no result. *)
Definition entered_by {A} (m : M World A) (p : M World unit) : Prop :=
  forall cx w x w', m cx w = Ret x w' -> p cx w = Ret tt w'.

Lemma entered_self (m : M World unit) : entered_by m m.
Proof. by intros cx w []. Qed.
Lemma entered_drop {A} (m : M World A) : entered_by m (m;; mret tt).
Proof. intros cx w x w' H. by rewrite (bind_run _ _ _ _ _ _ H). Qed.
Hint Resolve entered_self entered_drop : core.

Lemma covers_call {A Call} a b ok (exec : Call -> M World unit) c k (m : M World A) :
  covers b ok exec -> ok k -> entered_by m (exec k) -> Moves R (runs_at a) (call_at b c m).
Proof.
  intros Hb Hok Hm cx w u w' Ha H. unfold call_at in H. destruct (N.eqb_spec c b) as [->|]; [|done].
  apply call_Ret in H as [H%Hm _]. eapply (covers_run _ _ _ Hb k Hok); [|done].
  by eapply runs_at_callee.
Qed.

Lemma covers_try_call {A Call} a b ok (exec : Call -> M World unit) c k (m : M World A) :
  covers b ok exec -> ok k -> entered_by m (exec k) -> Moves R (runs_at a) (try_call_at b c m).
Proof.
  intros Hb Hok Hm cx w u w' Ha H. unfold try_call_at in H.
  destruct (N.eqb_spec c b) as [->|]; [|injection H as _ <-; reflexivity].
  unfold try_call in H. destruct (call b m cx w) as [x w1|e w1|] eqn:E;
    injection H as _ <-; try reflexivity.
  apply call_Ret in E as [E%Hm _]. eapply (covers_run _ _ _ Hb k Hok); [|done].
  by eapply runs_at_callee.
Qed.

Lemma access_covered `{!Writes AccessControl.DataKey.t R} a ok : covers a ok AccessControl.exec.
Proof.
  split. intros c _. destruct c; cbn [AccessControl.exec]; autounfold with access_control;
    unfold AccessControl.append_audit_entry; moves.
Qed.

Lemma oracle_covered `{!Writes PriceOracle.DataKey.t R} a ok : covers a ok PriceOracle.exec.
Proof. split. intros c _. destruct c; cbn [PriceOracle.exec]; autounfold with price_oracle; moves. Qed.

(** Token views read only. *)
Lemma tok_balance_moves C t a : Moves R C (tok_balance t a : M World i128).
Proof. apply moves_read_only; [apply _|]. by intros ???? [= _ <-]. Qed.
Lemma tok_decimals_moves C t : Moves R C (tok_decimals t : M World u32).
Proof. apply moves_read_only; [apply _|]. by intros ???? ->%token_decimals_ro. Qed.
Hint Resolve tok_balance_moves tok_decimals_moves : moves.
Hint Extern 4 (Moves _ _ (tok_transfer _ _ _ _)) =>
  match goal with H : tokens_move _ |- _ => apply H end : moves.

Lemma registry_covered `{!Writes RiskRegistry.DataKey.t R} a ok :
  tokens_move a -> covers a ok RiskRegistry.exec.
Proof.
  intros Ht. split. intros c _. destruct c; cbn [RiskRegistry.exec]; autounfold with risk_registry;
    unfold RiskRegistry.append_audit_entry, RiskRegistry.require_cooldown; moves.
Qed.

Lemma treasury_covered `{!Writes Treasury.DataKey.t R} a ok :
  tokens_move a -> covers a ok Treasury.exec.
Proof.
  intros Ht. split. intros c _. destruct c; cbn [Treasury.exec]; autounfold with treasury;
    unfold Treasury.append_audit_entry; moves.
Qed.

Lemma migrate_moves `{!Writes InvoiceNft.DataKey.t R} C n id :
  Moves R C (InvoiceNft.migrate_loop n id : M World unit).
Proof.
  revert id. induction n as [|n IH]; intros id; cbn [InvoiceNft.migrate_loop].
  - moves.
  - unfold InvoiceNft.migrate_one, InvoiceNft.save_invoice. moves; apply IH.
Qed.

Lemma authorized_caller_moves C caller allowed :
  (forall m, m ∈ allowed -> Moves R C m) ->
  Moves R C (InvoiceNft.require_authorized_caller caller allowed : M World unit).
Proof.
  induction allowed as [|m l IH]; intros Hm; unfold InvoiceNft.require_authorized_caller;
    fold (@InvoiceNft.require_authorized_caller World);
    moves; first [apply Hm; by left | apply IH; intros m' Hm'; apply Hm; by right].
Qed.

(** Of the other contracts, only the calls made to them have to be covered. *)
Context (okR : RiskRegistry.Call -> Prop) (okR_default : forall x s, okR (RiskRegistry.CRecordDefault x s))
  (okR_profile : forall s, okR (RiskRegistry.CGetSmeProfile s))
  (registry : covers REGISTRY okR RiskRegistry.exec).

Lemma try_record_default_moves a c x s :
  Moves R (runs_at a) (rr_try_record_default c x s : M World (option unit)).
Proof. by apply (covers_try_call _ _ _ _ c (RiskRegistry.CRecordDefault x s) _ registry); auto. Qed.
Lemma try_profile_moves a c s :
  Moves R (runs_at a) (rr_try_get_sme_profile c s : M World (option SmeProfile)).
Proof. by apply (covers_try_call _ _ _ _ c (RiskRegistry.CGetSmeProfile s) _ registry); auto. Qed.
Hint Resolve try_record_default_moves try_profile_moves : moves.

Lemma nft_covered `{!Writes InvoiceNft.DataKey.t R} a ok : covers a ok InvoiceNft.exec.
Proof.
  split. intros c _. destruct c; cbn [InvoiceNft.exec]; autounfold with invoice_nft; moves;
    first [apply migrate_moves | apply authorized_caller_moves];
    intros m ->%list_elem_of_singleton; unfold InvoiceNft.marketplace_key, InvoiceNft.financing_pool_key;
    moves.
Qed.

Context (nft : covers NFT (fun _ => True) InvoiceNft.exec).

Lemma set_listed_moves a c x i : Moves R (runs_at a) (nft_set_listed c x i : M World unit).
Proof. apply (covers_call _ _ _ _ c (InvoiceNft.CSetListed x i) _ nft); auto. Qed.
Lemma set_funded_moves a c x i : Moves R (runs_at a) (nft_set_funded c x i : M World unit).
Proof. apply (covers_call _ _ _ _ c (InvoiceNft.CSetFunded x i) _ nft); auto. Qed.
Lemma set_repaid_moves a c x i : Moves R (runs_at a) (nft_set_repaid c x i : M World unit).
Proof. apply (covers_call _ _ _ _ c (InvoiceNft.CSetRepaid x i) _ nft); auto. Qed.
Lemma set_defaulted_moves a c x i : Moves R (runs_at a) (nft_set_defaulted c x i : M World unit).
Proof. apply (covers_call _ _ _ _ c (InvoiceNft.CSetDefaulted x i) _ nft); auto. Qed.
Hint Resolve set_listed_moves set_funded_moves set_repaid_moves set_defaulted_moves : moves.

Lemma distribute_moves `{!Writes FinancingPool.DataKey.t R} a id t total f :
  tokens_move a -> Moves R (runs_at a) (FinancingPool.distribute_yield id t total f : M World unit).
Proof.
  intros Ht.
  assert (forall d l acc, Moves R (runs_at a)
    (FinancingPool.pay_investors id t d total l acc : M World i128)) as Hpay.
  { intros d l. induction l as [|[v p] l IH]; intros acc;
      unfold FinancingPool.pay_investors; fold (@FinancingPool.pay_investors World);
      moves; apply IH. }
  unfold FinancingPool.distribute_yield, FinancingPool.load_positions. moves; apply Hpay.
Qed.

Lemma pool_covered `{!Writes FinancingPool.DataKey.t R} a ok :
  tokens_move a -> covers a ok FinancingPool.exec.
Proof.
  intros Ht. split. intros c _. destruct c; cbn [FinancingPool.exec]; autounfold with financing_pool;
    unfold FinancingPool.apply_late_penalty; moves; by apply distribute_moves.
Qed.

Context (okT : Treasury.Call -> Prop) (okT_collect : forall t n, okT (Treasury.CCollectFee t n))
  (treasury : covers TREASURY okT Treasury.exec).
Context (okP : FinancingPool.Call -> Prop) (okP_release : forall m i t, okP (FinancingPool.CReleaseFunds m i t))
  (pool : covers POOL okP FinancingPool.exec).

Lemma release_moves a c m i t : Moves R (runs_at a) (pool_release_funds c m i t : M World unit).
Proof. by apply (covers_call _ _ _ _ c (FinancingPool.CReleaseFunds m i t) _ pool); auto. Qed.
Lemma collect_moves a c t n : Moves R (runs_at a) (treasury_collect_fee c t n : M World unit).
Proof. by apply (covers_call _ _ _ _ c (Treasury.CCollectFee t n) _ treasury); auto. Qed.
Hint Resolve release_moves collect_moves : moves.

Lemma load_config_moves `{!Writes Marketplace.DataKey.t R} C :
  Moves R C (Marketplace.load_config : M World _).
Proof. unfold Marketplace.load_config. moves. Qed.

Lemma flat_fee_moves `{!Writes Marketplace.DataKey.t R} C :
  Moves R C (Marketplace.flat_fee_bps : M World _).
Proof.
  intros cx w f w' HC [->|[c H]]%Marketplace.flat_fee_bps_Ret; [reflexivity|].
  by eapply (load_config_moves C).
Qed.
Hint Resolve load_config_moves flat_fee_moves : moves.

Lemma market_covered `{!Writes Marketplace.DataKey.t R} a ok :
  tokens_move a -> covers a ok Marketplace.exec.
Proof.
  intros Ht. split. intros c _. destruct c; cbn [Marketplace.exec]; autounfold with marketplace; moves.
Qed.
End Components.

(** ** The system as a step relation *)

Inductive SysCall :=
  | ToAccess (c : AccessControl.Call)
  | ToOracle (c : PriceOracle.Call)
  | ToRegistry (c : RiskRegistry.Call)
  | ToTreasury (c : Treasury.Call)
  | ToNft (c : InvoiceNft.Call)
  | ToPool (c : FinancingPool.Call)
  | ToMarket (c : Marketplace.Call).

Definition sys_at (c : SysCall) : Address :=
  match c with
  | ToAccess _ => ACCESS | ToOracle _ => ORACLE | ToRegistry _ => REGISTRY
  | ToTreasury _ => TREASURY | ToNft _ => NFT | ToPool _ => POOL | ToMarket _ => MARKET
  end.

Definition sys_exec (c : SysCall) : M World unit :=
  match c with
  | ToAccess c => AccessControl.exec c
  | ToOracle c => PriceOracle.exec c
  | ToRegistry c => RiskRegistry.exec c
  | ToTreasury c => Treasury.exec c
  | ToNft c => InvoiceNft.exec c
  | ToPool c => FinancingPool.exec c
  | ToMarket c => Marketplace.exec c
  end.

(** The integer arguments are in range. *)
Definition sys_typed (c : SysCall) : Prop :=
  match c with
  | ToPool c => FinancingPool.typed c
  | ToMarket c => Marketplace.typed c
  | _ => True
  end.

(** A call from outside the protocol: of a user, or of another contract. *)
Definition from_outside (cx : Ctx) : Prop :=
  honest cx /\ forall a, a ∈ cx_stack cx -> ~ a ∈ CONTRACTS.

(** A transaction: a call of one of the contracts, a transfer of tokens between
    others, or the issue of tokens. *)
Inductive sys_step : World -> World -> Prop :=
  | sys_call c cx w :
      cx_self cx = sys_at c -> from_outside cx -> sys_typed c ->
      sys_step w (run_tx (sys_exec c) cx w)
  | sys_transfer t f to n cx w :
      ~ cx_self cx ∈ CONTRACTS -> from_outside cx ->
      sys_step w (run_tx (tok_transfer t f to n) cx w)
  | sys_issue t x n w :
      0 <= n ->
      sys_step w (with_balances (fun t' y =>
        if (t' =? t)%N then if (y =? x)%N then w_bal w t' y + n else w_bal w t' y
        else w_bal w t' y) w).

(** A call that succeeds is a step. *)
Lemma sys_ret c cx w w' :
  cx_self cx = sys_at c -> from_outside cx -> sys_typed c ->
  sys_exec c cx w = Ret tt w' -> sys_step w w'.
Proof.
  intros Ha Ho Hty H. pose proof (sys_call c cx w Ha Ho Hty) as Hc. unfold run_tx in Hc. by rewrite H in Hc.
Qed.

(** The ledger before the contracts are initialized. *)
Record sys_deployed (w : World) : Prop := {
  sd_access : w_access w = empty_storage;
  sd_oracle : w_oracle w = empty_storage;
  sd_registry : w_registry w = empty_storage;
  sd_treasury : w_treasury w = empty_storage;
  sd_nft : w_nft w = empty_storage;
  sd_pool : w_pool w = empty_storage;
  sd_market : w_market w = empty_storage;
  sd_balances : forall t x, 0 <= w_bal w t x }.

Definition sys_reachable (w : World) : Prop := exists w0, sys_deployed w0 /\ rtc sys_step w0 w.

(** ** From one step of the system to steps of one contract *)

Section Covered.
Context (R : World -> World -> Prop) `{!PreOrder R} `{!Emits R}.

(** All the calls of the system, and the token's, stay within [R]. *)
Record covered : Prop := {
  cov_call : forall c, sys_typed c -> Moves R (runs_at (sys_at c)) (sys_exec c);
  cov_token : forall a, ~ a ∈ CONTRACTS -> tokens_move R a;
  cov_issue : forall b w, (forall t x, w_bal w t x <= b t x) -> R w (with_balances b w) }.

Definition own_or_writes K `{StorageKey K} `{!HasStorage World K} {Call}
    (a : Address) (ok : Call -> Prop) (exec : Call -> M World unit) : Prop :=
  Writes K R \/ covers R a ok exec.

Lemma covered_intro :
  own_or_writes AccessControl.DataKey.t ACCESS (fun _ => True) AccessControl.exec ->
  own_or_writes PriceOracle.DataKey.t ORACLE (fun _ => True) PriceOracle.exec ->
  (Writes RiskRegistry.DataKey.t R /\ tokens_move R REGISTRY \/
   covers R REGISTRY (fun _ => True) RiskRegistry.exec) ->
  own_or_writes Treasury.DataKey.t TREASURY (fun _ => True) Treasury.exec ->
  own_or_writes InvoiceNft.DataKey.t NFT (fun _ => True) InvoiceNft.exec ->
  own_or_writes FinancingPool.DataKey.t POOL FinancingPool.typed FinancingPool.exec ->
  own_or_writes Marketplace.DataKey.t MARKET Marketplace.typed Marketplace.exec ->
  (forall a, a <> REGISTRY -> tokens_move R a) ->
  (forall b w, (forall t x, w_bal w t x <= b t x) -> R w (with_balances b w)) ->
  covered.
Proof.
  intros HA HO HR HT HN HP HM Ht Hi.
  assert (covers R REGISTRY (fun _ => True) RiskRegistry.exec) as CR.
  { destruct HR as [[HR Hr]|]; [|done]. exact (registry_covered R REGISTRY _ Hr). }
  assert (covers R TREASURY (fun _ => True) Treasury.exec) as CT.
  { destruct HT as [HT|]; [|done]. apply treasury_covered; try apply _. by apply Ht. }
  assert (covers R NFT (fun _ => True) InvoiceNft.exec) as CN.
  { destruct HN as [HN|]; [|done]. apply (nft_covered R) with (okR := fun _ => True); try apply _; done. }
  assert (covers R POOL FinancingPool.typed FinancingPool.exec) as CP.
  { destruct HP as [HP|]; [|done]. apply (pool_covered R) with (okR := fun _ => True); try apply _; try done. by apply Ht. }
  assert (covers R MARKET Marketplace.typed Marketplace.exec) as CM.
  { destruct HM as [HM|]; [|done]. apply (market_covered R) with (okT := fun _ => True) (okP := FinancingPool.typed); try apply _; try done. by apply Ht. }
  split.
  - intros c Hc. destruct c as [c|c|c|c|c|c|c]; cbn [sys_at sys_exec].
    + destruct HA as [HA|HA]; [|by apply HA].
      by apply (access_covered R ACCESS (fun _ => True)).
    + destruct HO as [HO|HO]; [|by apply HO].
      by apply (oracle_covered R ORACLE (fun _ => True)).
    + by apply CR.
    + by apply CT.
    + by apply CN.
    + by apply CP.
    + by apply CM.
  - intros a Ha. apply Ht. intros ->. apply Ha, registry_in.
  - done.
Qed.

Lemma covered_step w w' : covered -> sys_step w w' -> R w w'.
Proof.
  intros [Hc Ht Hi] Hs. destruct Hs as [c cx w Ha [Ho _] Hty|t f to n cx w Ha [Ho _]|t x n w Hn].
  - destruct (run_tx_cases (sys_exec c) cx w) as [->|([] & w' & E & ->)]; [reflexivity|].
    eapply (Hc c Hty); [|done]. by split.
  - destruct (run_tx_cases (tok_transfer t f to n) cx w) as [->|([] & w' & E & ->)]; [reflexivity|].
    eapply (Ht _ Ha); [|done]. by split.
  - apply Hi. intros t' y. repeat case_match; lia.
Qed.

Lemma covered_steps w w' : covered -> rtc sys_step w w' -> R w w'.
Proof.
  intros Hc. induction 1 as [w|w w1 w2 Hs _ IH]; [reflexivity|].
  transitivity w1; [by apply covered_step|done].
Qed.
End Covered.

(** ** Every run of the system is a run of each contract *)

(** A relation that holds of whatever leaves one contract's storage alone. *)
Section Other.
Context {K : Type} `{StorageKey K} `{!HasStorage World K} (R : World -> World -> Prop).

Definition ignores_others : Prop := forall w w', st_get (K:=K) w' = st_get w -> R w w'.

Lemma ignores_writes {K'} `{StorageKey K'} `{!HasStorage World K'} :
  ignores_others ->
  (forall (s : Storage K') w, st_get (K:=K) (st_put s w) = st_get w) ->
  (forall (f : K' -> u32) w, st_get (K:=K) (st_keep f w) = st_get w) -> Writes K' R.
Proof. intros Ho Hs Hf. split; intros; apply Ho; [apply Hs|apply Hf]. Qed.

Lemma ignores_emits :
  ignores_others -> (forall e w, st_get (K:=K) (w_emit e w) = st_get w) -> Emits R.
Proof. intros Ho He e w. apply Ho, He. Qed.

Lemma ignores_tokens a :
  ignores_others -> (forall b w, st_get (K:=K) (with_balances b w) = st_get w) -> tokens_move R a.
Proof. intros Ho Hb t f to n cx w u w' _ (b & ->)%token_transfer_keeps. apply Ho, Hb. Qed.
End Other.

(** The calls of the contract itself are steps of it. *)
Lemma own_steps {Call} (step : World -> World -> Prop) a ok (exec : Call -> M World unit) :
  (forall cx c w, cx_self cx = a -> ok c -> step w (run_tx (exec c) cx w)) ->
  covers (rtc step) a ok exec.
Proof.
  intros Hs. split. intros c Hok cx w [] w' [Ha _] E. apply rtc_once.
  pose proof (Hs cx c w Ha Hok) as H. unfold run_tx in H. by rewrite E in H.
Qed.

Ltac others Ho :=
  first [ left; apply (ignores_writes _ Ho); done
        | left; split; [by apply (ignores_writes _ Ho)|by apply (ignores_tokens _ _ Ho)]
        | intros; apply (ignores_tokens _ _ Ho); done
        | intros; by apply Ho ].

(** What leaves the contract's storage alone is covered; its own calls remain. *)
Ltac run_of Ho := apply covered_intro; try apply _; try others Ho.

Lemma access_steps : covered (rtc AccessControl.step).
Proof.
  assert (ignores_others (K:=AccessControl.DataKey.t) (rtc AccessControl.step)) as Ho.
  { intros v v' E. by apply rtc_once, AccessControl.step_other. }
  assert (Emits (rtc AccessControl.step)) by by apply (ignores_emits _ Ho).
  run_of Ho. right. apply own_steps. intros. apply AccessControl.step_call.
Qed.
Lemma access_run w w' : rtc sys_step w w' -> rtc AccessControl.step w w'.
Proof. apply covered_steps; [apply _|apply access_steps]. Qed.

(** The price oracle's states are given by its [reachable]. *)
Definition oracle_follows (w w' : World) : Prop := PriceOracle.reachable w -> PriceOracle.reachable w'.

#[export] Instance oracle_follows_po : PreOrder oracle_follows.
Proof. split; [by intros w Hw|]. intros w1 w2 w3 H1 H2 Hw. exact (H2 (H1 Hw)). Qed.

Lemma oracle_steps : covered oracle_follows.
Proof.
  assert (ignores_others (K:=PriceOracle.DataKey.t) oracle_follows) as Ho.
  { intros v v' E Hv. by eapply PriceOracle.reach_other. }
  assert (Emits oracle_follows) by by apply (ignores_emits _ Ho).
  run_of Ho. right. split. intros c _ cx v [] v' _ E Hv.
  pose proof (PriceOracle.reach_call v cx c Hv) as Hn. unfold run_tx in Hn. by rewrite E in Hn.
Qed.
Lemma oracle_run w w' : rtc sys_step w w' -> oracle_follows w w'.
Proof. apply covered_steps; [apply _|apply oracle_steps]. Qed.

Lemma treasury_steps : covered (rtc Treasury.step).
Proof.
  assert (ignores_others (K:=Treasury.DataKey.t) (rtc Treasury.step)) as Ho.
  { intros v v' E. by apply rtc_once, Treasury.step_other. }
  assert (Emits (rtc Treasury.step)) by by apply (ignores_emits _ Ho).
  run_of Ho. right. apply own_steps. intros. apply Treasury.step_call.
Qed.
Lemma treasury_run w w' : rtc sys_step w w' -> rtc Treasury.step w w'.
Proof. apply covered_steps; [apply _|apply treasury_steps]. Qed.

Lemma nft_steps : covered (rtc InvoiceNft.step).
Proof.
  assert (ignores_others (K:=InvoiceNft.DataKey.t) (rtc InvoiceNft.step)) as Ho.
  { intros v v' E. by apply rtc_once, InvoiceNft.step_other. }
  assert (Emits (rtc InvoiceNft.step)) by by apply (ignores_emits _ Ho).
  run_of Ho. right. apply own_steps. intros. apply InvoiceNft.step_call.
Qed.
Lemma nft_run w w' : rtc sys_step w w' -> rtc InvoiceNft.step w w'.
Proof. apply covered_steps; [apply _|apply nft_steps]. Qed.

Lemma pool_steps : covered (rtc FinancingPool.step).
Proof.
  assert (ignores_others (K:=FinancingPool.DataKey.t) (rtc FinancingPool.step)) as Ho.
  { intros v v' E. by apply rtc_once, FinancingPool.step_other. }
  assert (Emits (rtc FinancingPool.step)) by by apply (ignores_emits _ Ho).
  run_of Ho. right. apply own_steps. intros. by apply FinancingPool.step_call.
Qed.
Lemma pool_run w w' : rtc sys_step w w' -> rtc FinancingPool.step w w'.
Proof. apply covered_steps; [apply _|apply pool_steps]. Qed.

Lemma market_steps : covered (rtc Marketplace.step).
Proof.
  assert (ignores_others (K:=Marketplace.DataKey.t) (rtc Marketplace.step)) as Ho.
  { intros v v' E. by apply rtc_once, Marketplace.step_other. }
  assert (Emits (rtc Marketplace.step)) by by apply (ignores_emits _ Ho).
  run_of Ho. right. apply own_steps. intros. by apply Marketplace.step_call.
Qed.
Lemma market_run w w' : rtc sys_step w w' -> rtc Marketplace.step w w'.
Proof. apply covered_steps; [apply _|apply market_steps]. Qed.

(** The registry holds tokens: no one else spends them. *)
Lemma transfer_spares a t f to n cx w u w' b :
  runs_at a cx -> a <> b -> b ∈ CONTRACTS -> tok_transfer t f to n cx w = Ret u w' ->
  forall t', w_bal w t' b <= w_bal w' t' b.
Proof.
  intros [<- Hh] Hab Hb H t'.
  assert (f <> b) as Hf.
  { intros ->. destruct (tok_transfer_auth _ _ _ _ _ _ _ _ H) as [->|E]; [done|].
    by rewrite (Hh b Hb) in E. }
  pose proof (tok_transfer_amount _ _ _ _ _ _ _ _ H) as Hn.
  pose proof (tok_transfer_bal _ _ _ _ _ _ _ _ H t' b) as Ht. cbn [tok_bal world_ledger] in *.
  rewrite Ht. destruct (t' =? t)%N; [|lia]. unfold moved.
  destruct (N.eqb_spec b f) as [->|]; [done|]. destruct (b =? to)%N; lia.
Qed.

Lemma registry_steps : covered (rtc (RiskRegistry.step REGISTRY)).
Proof.
  assert (forall v v' : World, w_registry v' = w_registry v ->
    (forall t, w_bal v t REGISTRY <= w_bal v' t REGISTRY) ->
    rtc (RiskRegistry.step REGISTRY) v v') as Ho.
  { intros v v' E Eb. by apply rtc_once, RiskRegistry.step_other. }
  assert (Emits (rtc (RiskRegistry.step REGISTRY))) by (intros e v; apply Ho; [done|reflexivity]).
  apply covered_intro; try apply _.
  all: try (left; split; intros s v; apply Ho; (done || reflexivity)).
  - right. apply own_steps. intros. by apply RiskRegistry.step_call.
  - intros a Ha t f to n cx v u v' Hc E. apply Ho.
    + by apply token_transfer_keeps in E as [b ->].
    + eapply transfer_spares; [done|done|apply registry_in|done].
  - intros b v Hb. by apply Ho.
Qed.
Lemma registry_run w w' : rtc sys_step w w' -> rtc (RiskRegistry.step REGISTRY) w w'.
Proof. apply covered_steps; [apply _|apply registry_steps]. Qed.

(** ** Reachability *)

Section Reachable.
Context (w : World) (Hr : sys_reachable w).

Lemma sys_access : AccessControl.reachable w.
Proof.
  destruct Hr as (w0 & [] & Hs). apply access_run in Hs.
  assert (AccessControl.reachable w0) as H0 by by constructor.
  clear -H0 Hs. induction Hs as [|v v1 v2 Hv _ IH]; [done|].
  by eapply IH, AccessControl.ac_step_reachable.
Qed.
Lemma sys_oracle : PriceOracle.reachable w.
Proof. destruct Hr as (w0 & [] & Hs). apply (oracle_run _ _ Hs). by constructor. Qed.
Lemma sys_registry : RiskRegistry.reachable REGISTRY w.
Proof. destruct Hr as (w0 & [] & Hs). exists w0. split; [by split|by apply registry_run]. Qed.
Lemma sys_treasury : Treasury.reachable w.
Proof. destruct Hr as (w0 & [] & Hs). exists w0. split; [done|by apply treasury_run]. Qed.
Lemma sys_nft : InvoiceNft.reachable w.
Proof. destruct Hr as (w0 & [] & Hs). exists w0. split; [done|by apply nft_run]. Qed.
Lemma sys_pool : FinancingPool.reachable w.
Proof. destruct Hr as (w0 & [] & Hs). exists w0. split; [done|by apply pool_run]. Qed.
Lemma sys_market : Marketplace.reachable w.
Proof. destruct Hr as (w0 & [] & Hs). exists w0. split; [done|by apply market_run]. Qed.
End Reachable.

Lemma sys_reachable_steps w w' : sys_reachable w -> rtc sys_step w w' -> sys_reachable w'.
Proof. intros (w0 & Hd & Hs) H. exists w0. split; [done|]. by etransitivity. Qed.

(** C6: Composition: whatever transactions the deployed protocol runs, with all the
    calls its contracts make to each other, the state is one each of the seven
    contracts reaches by its own calls alone, and the run is, seen from each
    contract, a run of that contract: every property proved of the reachable states
    and the runs of one contract holds of the deployed protocol. *)
Theorem system_refines_contracts w w' :
  sys_reachable w -> rtc sys_step w w' ->
  (AccessControl.reachable w' /\ PriceOracle.reachable w' /\ RiskRegistry.reachable REGISTRY w' /\
   Treasury.reachable w' /\ InvoiceNft.reachable w' /\ FinancingPool.reachable w' /\
   Marketplace.reachable w') /\
  rtc AccessControl.step w w' /\ rtc (RiskRegistry.step REGISTRY) w w' /\
  rtc Treasury.step w w' /\ rtc InvoiceNft.step w w' /\ rtc FinancingPool.step w w' /\
  rtc Marketplace.step w w'.
Proof.
  intros Hr Hs. pose proof (sys_reachable_steps _ _ Hr Hs) as Hr'. split.
  - split_and!; [by apply sys_access|by apply sys_oracle|by apply sys_registry
      |by apply sys_treasury|by apply sys_nft|by apply sys_pool|by apply sys_market].
  - split_and!; [by apply access_run|by apply registry_run|by apply treasury_run
      |by apply nft_run|by apply pool_run|by apply market_run].
Qed.
