(* ===== verification/Lifetimes.v ===== *)
(** * Lifetimes: how long what the contracts write lives

    Soroban archives a persistent entry whose life time has run out. The contracts
    extend the entries they write to about a month; the calls of each contract are
    checked for which entries they leave without. A run is read from its end: every
    entry written must be extended after it was written, or be one of the listed
    exemptions ([holds]). The financing pool extends nothing: its records keep the
    life they start with ([ages]); and the keeper script, scripts/ttl_keeper.sh, only
    calls views, which extend nothing either. *)

From S2P Require Import Prelude Errors SortedMap Types Host Events Reentrancy Validation Interfaces AuditLog Moves AccessControl PriceOracle RiskRegistry Treasury InvoiceNft FinancingPool Marketplace World System.

(** [m] changes neither the entries of the contract with keys [K] nor their lives. *)
Class KeepsEntries {W A : Type} (K : Type) `{StorageKey K} `{!HasStorage W K} (m : M W A) : Prop :=
  keeps_entries : forall cx w a w', m cx w = Ret a w' ->
    (forall k, pget (st_get w') k = pget (st_get w) k) /\ forall k : K, st_live w' k = st_live w k.

Section Kept.
Context {W K : Type} `{!HasEvents W} `{HK : StorageKey K} `{!HasStorage W K} `{!StorageLaws W K}.
Implicit Types (cx : Ctx) (w : W).
Context (T : u32) (exempt : forall k : K, sk_val k -> Prop).

(** Between [w] and [w'] the entry under [k] has not been touched, other than to
    extend it, or it lives for [T] ledgers, or is removed, or holds an exemption. *)
Definition kept cx w w' (k : K) : Prop :=
  (pget (st_get w') k = pget (st_get w) k /\ st_live w k <= st_live w' k) \/
  cx_ledger cx + T <= st_live w' k \/
  pget (st_get w') k = None \/
  (exists v, pget (st_get w') k = Some v /\ exempt k v).

(** The same for all keys but those still to be extended. *)
Definition holds cx (X : list K) w w' : Prop := forall k, k ∉ X -> kept cx w w' k.

Context (cx : Ctx) (X : list K) (w w0 : W).

Lemma holds_refl : holds cx X w w.
Proof. intros k _. left. split; [done|lia]. Qed.

Lemma holds_frame w1 :
  (forall k, pget (st_get w1) k = pget (st_get w0) k) -> (forall k : K, st_live w1 k = st_live w0 k) ->
  holds cx X w w0 -> holds cx X w w1.
Proof. intros Hp Hl Hh k Hk. unfold kept. rewrite Hp, Hl. by apply Hh. Qed.

Lemma holds_emit e : holds cx X w w0 -> holds cx X w (w_emit e w0).
Proof. apply holds_frame; intros; by rewrite ?st_get_emit, ?st_live_emit. Qed.

Lemma holds_put s :
  (forall k, pget s k = pget (st_get w0) k) -> holds cx X w w0 -> holds cx X w (st_put s w0).
Proof. intros Hs. apply holds_frame; intros; by rewrite ?st_get_put, ?st_live_put. Qed.

Lemma holds_iset k v : holds cx X w w0 -> holds cx X w (st_put (iset k v (st_get w0)) w0).
Proof. apply holds_put. intros. apply pget_iset. Qed.
Lemma holds_irem k : holds cx X w w0 -> holds cx X w (st_put (irem k (st_get w0)) w0).
Proof. apply holds_put. intros. apply pget_irem. Qed.
Lemma holds_lock b : holds cx X w w0 -> holds cx X w (st_put (set_lock b (st_get w0)) w0).
Proof. apply holds_put. intros. apply pget_lock. Qed.
Lemma holds_wasm h : holds cx X w w0 -> holds cx X w (st_put (set_wasm h (st_get w0)) w0).
Proof. apply holds_put. intros. apply pget_wasm. Qed.

Lemma holds_prem k : holds cx X w w0 -> holds cx X w (st_put (prem k (st_get w0)) w0).
Proof.
  intros Hh k' Hk. destruct (decide (k = k')) as [<-|Hne].
  { right; right; left. by store_simpl. }
  specialize (Hh k' Hk). unfold kept in *. rewrite st_live_put, st_get_put, pget_prem_ne; done.
Qed.

(** A write, to be extended by what follows. *)
Lemma holds_wset k v : k ∈ X -> holds cx X w w0 -> holds cx X w (wset cx k v w0).
Proof.
  intros Hin Hh k' Hk. assert (k <> k') as Hne by by intros ->.
  specialize (Hh k' Hk). unfold kept in *.
  rewrite st_live_wset, st_get_wset, pget_pset_ne by done. unfold created_live.
  by rewrite decide_False.
Qed.

(** A write that is exempt. *)
Lemma holds_exempt k v : exempt k v -> holds cx X w w0 -> holds cx X w (wset cx k v w0).
Proof.
  intros He Hh k' Hk. destruct (decide (k = k')) as [<-|Hne].
  { right; right; right. exists v. by store_simpl. }
  specialize (Hh k' Hk). unfold kept in *.
  rewrite st_live_wset, st_get_wset, pget_pset_ne by done. unfold created_live.
  by rewrite decide_False.
Qed.
End Kept.

Section Extend.
Context {W K : Type} `{!HasEvents W} `{HK : StorageKey K} `{!HasStorage W K} `{!StorageLaws W K}.
Implicit Types (cx : Ctx) (w : W).
Context (T : u32) (exempt : forall k : K, sk_val k -> Prop).

(** An extension settles every earlier write to the entry. *)
Lemma holds_wextend cx X k t b w w0 :
  T <= t -> t <= b -> holds T exempt cx (k :: X) w w0 -> holds T exempt cx X w (wextend cx k t b w0).
Proof.
  intros Ht Hb Hh k' Hk. unfold kept. rewrite st_get_wextend, st_live_wextend.
  destruct (decide (k = k')) as [<-|Hne].
  { right; left. pose proof (extended_live_ge cx k t b w0 Hb). lia. }
  pose proof (extended_live_grows cx k t b w0 k' Hb).
  assert (k' ∉ k :: X) as Hk' by (apply not_elem_of_cons; by split).
  destruct (Hh k' Hk') as [[Hp Hl]|[Hl|Hp]]; [left|right; left|by right; right]; [split; [done|]|]; lia.
Qed.

Lemma holds_weaken cx X Y w w0 : X ⊆ Y -> holds T exempt cx X w w0 -> holds T exempt cx Y w w0.
Proof. intros Hs Hh k Hk. apply Hh. set_solver. Qed.
End Extend.

(** Reads the world a run left, from its last operation to its first. *)
Ltac in_pending := apply elem_of_cons; first [left; reflexivity | right; in_pending].
Ltac lives_step :=
  lazymatch goal with
  | |- holds _ _ _ _ ?w ?w => apply holds_refl
  | |- holds _ _ _ _ _ (w_emit _ _) => apply holds_emit
  | |- holds _ _ _ _ _ (released _ _) => unfold released
  | |- holds _ _ _ _ _ (st_put (iset _ _ _) _) => apply holds_iset
  | |- holds _ _ _ _ _ (st_put (irem _ _) _) => apply holds_irem
  | |- holds _ _ _ _ _ (st_put (set_lock _ _) _) => apply holds_lock
  | |- holds _ _ _ _ _ (st_put (set_wasm _ _) _) => apply holds_wasm
  | |- holds _ _ _ _ _ (st_put (prem _ _) _) => apply holds_prem
  | |- holds _ _ _ _ _ (wextend _ _ _ _ _) => apply holds_wextend; [done|done|]
  | |- holds _ _ _ _ _ (wset _ _ _ _) =>
      first [apply holds_wset; [in_pending|] | apply holds_exempt; [solve [cbn; auto]|]]
  end.
Ltac lives := repeat lives_step.

(** ** The audit log *)

Section Audit.
Context {W K : Type} `{AuditLaws K} `{!HasEvents W} `{!HasStorage W K} `{!StorageLaws W K}.
Context (T : u32) (exempt : forall k : K, sk_val k -> Prop).
Implicit Types (cx : Ctx) (w : W).

Lemma set_entry_lives cx X w w0 i e :
  al_key i ∈ X -> holds T exempt cx X w w0 ->
  holds T exempt cx X w (st_put (al_set_entry i e (st_get w0)) (st_keep (created_live cx (al_key i) w0) w0)).
Proof.
  intros Hin Hh k Hk. assert (al_key i <> k) as Hne by by intros <-.
  specialize (Hh k Hk). unfold kept in *.
  rewrite st_live_put, st_live_keep, st_get_put, al_pget_entry by done. unfold created_live.
  by rewrite decide_False.
Qed.

Lemma append_lives src actor action cx w w0 u w1 :
  T <= al_ttl_threshold -> al_ttl_threshold <= al_ttl_bump ->
  AuditLog.append_audit_entry (K:=K) src actor action cx w0 = Ret u w1 ->
  holds T exempt cx [] w w0 -> holds T exempt cx [] w w1.
Proof.
  intros Ht Hb Happ Hh. unfold AuditLog.append_audit_entry, read_store, modify_store, set_entry in Happ.
  minv Happ. apply holds_put; [intros; apply al_pget_total|].
  apply holds_put; [intros; apply al_pget_head|]. apply holds_emit, holds_wextend; [done|done|].
  apply set_entry_lives; [by apply elem_of_cons; left|]. eapply holds_weaken; [|exact Hh]. by intros ? ?%elem_of_nil.
Qed.
End Audit.

(** ** The contracts *)

Definition MONTH : u32 := 518400.

Section AccessControl.
Import AccessControl.
Context {W : Type} `{!HasEvents W} `{!HasStorage W DataKey.t} `{!StorageLaws W DataKey.t}.
Implicit Types (cx : Ctx) (w : W).

(** Left without an extension: the proposal counters and executed proposals. *)
Definition access_exempt (k : DataKey.t) : sk_val k -> Prop :=
  match k with
  | DataKey.NextProposalId | DataKey.NextParamProposalId => fun _ => True
  | DataKey.Proposal _ => fun p => pr_executed p = true
  | DataKey.ParameterProposal _ => fun p => pp_executed p = true
  | _ => fun _ => False
  end.

Lemma access_lives c cx w w' : exec c cx w = Ret tt w' -> holds MONTH access_exempt cx [] w w'.
Proof.
  intros Hx. destruct c; cbn [exec] in Hx; autounfold with access_control in Hx; minv Hx; lives.
  all: eapply append_lives; [done|done|eassumption|]; lives.
Qed.
End AccessControl.

(** ** Calls that keep the entries *)

Section Keeps.
Context {W K : Type} `{HK : StorageKey K} `{!HasStorage W K}.

#[export] Instance read_only_keeps {A} (m : M W A) : ReadOnly m -> KeepsEntries K m.
Proof. intros Hm cx w a w' E. by rewrite (Hm _ _ _ _ E). Qed.

Lemma keeps_bind {A B} (m : M W A) (k : A -> M W B) :
  KeepsEntries K m -> (forall a, KeepsEntries K (k a)) -> KeepsEntries K (m ≫= k).
Proof.
  intros Hm Hk cx w b w' (a & w1 & R1 & R2)%bind_Ret.
  destruct (Hm _ _ _ _ R1) as [P1 L1], (Hk _ _ _ _ _ R2) as [P2 L2].
  split; intros j; [by rewrite P2|by rewrite L2].
Qed.

Lemma keeps_when c (m : M W unit) : KeepsEntries K m -> KeepsEntries K (when c m).
Proof. intros Hm cx w u w' [[_ ->]|[_ R]]%when_Ret; [done|by eapply Hm]. Qed.
End Keeps.

(** Uses that a call into a token or another contract keeps the entries. *)
Lemma holds_call {W K A : Type} `{!HasEvents W} `{StorageKey K} `{!HasStorage W K} (m : M W A)
    T (exempt : forall k : K, sk_val k -> Prop) cx0 X w cx w0 a w1 :
  KeepsEntries K m -> m cx w0 = Ret a w1 ->
  holds T exempt cx0 X w w0 -> holds T exempt cx0 X w w1.
Proof.
  intros Hm E Hh. destruct (keeps_entries cx w0 a w1 E) as [Es El].
  intros k Hk. unfold kept. rewrite Es, El. by apply Hh.
Qed.

Ltac lives_call :=
  match goal with
  | E : ?m _ ?w1 = Ret _ ?w2 |- holds _ _ _ _ _ ?w2 =>
      assert_fails (constr_eq w1 w2); first [eapply append_lives; [done|done|exact E|] | eapply (holds_call m); [apply _|exact E|]]
  end.
Ltac lives_run := repeat first [lives_step | lives_call].

Section RiskRegistry.
Import RiskRegistry.
Context {W : Type} `{!HasEvents W} `{!HasStorage W DataKey.t} `{!StorageLaws W DataKey.t}
  `{!TokenClient W} `{!TokenLedger W}.
Context `{!forall t f to n, KeepsEntries DataKey.t (tok_transfer t f to n : M W unit)}.
Implicit Types (cx : Ctx) (w : W).

(** Left without an extension: the terms of the stakes, set at initialization. *)
Definition registry_exempt (k : DataKey.t) : sk_val k -> Prop :=
  match k with
  | DataKey.InvoiceNft | DataKey.StakingToken | DataKey.MinimumStake | DataKey.SlashPercentage =>
      fun _ => True
  | _ => fun _ => False
  end.

Lemma registry_lives c cx w w' : exec c cx w = Ret tt w' -> holds MONTH registry_exempt cx [] w w'.
Proof.
  intros Hx. destruct c; cbn [exec] in Hx; autounfold with risk_registry in Hx; minv Hx; lives_run.
Qed.
End RiskRegistry.

Section Treasury.
Import Treasury.
Context {W : Type} `{!HasEvents W} `{!HasStorage W DataKey.t} `{!StorageLaws W DataKey.t}
  `{!TokenClient W} `{!TokenLedger W}.
Context `{!forall t f to n, KeepsEntries DataKey.t (tok_transfer t f to n : M W unit)}
  `{!forall t a, KeepsEntries DataKey.t (tok_balance t a : M W i128)}.
Implicit Types (cx : Ctx) (w : W).

Definition no_exempt {K} `{StorageKey K} (k : K) : sk_val k -> Prop := fun _ => False.

Lemma treasury_lives c cx w w' :
  exec c cx w = Ret tt w' -> holds PERSISTENT_LIFETIME_THRESHOLD no_exempt cx [] w w'.
Proof.
  intros Hx. destruct c; cbn [exec] in Hx; autounfold with treasury in Hx; minv Hx; lives_run.
Qed.
End Treasury.

Section InvoiceNft.
Import InvoiceNft.
Context {W : Type} `{!HasEvents W} `{!HasStorage W DataKey.t} `{!StorageLaws W DataKey.t}
  `{!AccessControlClient W} `{!RiskRegistryClient W} `{!AccessControlLaws W}.
Context `{!forall c s, KeepsEntries DataKey.t (rr_try_get_sme_profile c s : M W (option SmeProfile))}.
Implicit Types (cx : Ctx) (w : W).

(** Left without an extension: the exposures, the invoices repaid, and the ones
    whose metadata hash has just been committed or that have just been migrated. *)
Definition nft_exempt (k : DataKey.t) : sk_val k -> Prop :=
  match k with
  | DataKey.OutstandingExposure _ => fun _ => True
  | DataKey.Invoice _ => fun s => exists i, s = StoredV2 i /\
      (inv_status i = Repaid \/ (inv_status i = Created /\ inv_metadata_hash i <> []))
  | _ => fun _ => False
  end.

(** Without records of the first version there is nothing to migrate. *)
Lemma migrate_loop_noop n id cx w u w' :
  (forall j old, slot w j <> Some (StoredV1 old)) -> migrate_loop n id cx w = Ret u w' -> w' = w.
Proof.
  intros Hno. revert id. induction n as [|n IH]; intros id Hx; cbn [migrate_loop] in Hx; [by apply mret_Ret in Hx as [_ ->]|].
  unfold migrate_one in Hx. minv Hx; [|by eapply IH].
  match goal with E : as_v1 ?s = Some _, E' : pget _ _ = Some ?s |- _ =>
    destruct s as [old|]; [by destruct (Hno _ _ E')|done] end.
Qed.

Lemma nft_lives c cx w w' :
  (forall j old, slot w j <> Some (StoredV1 old)) ->
  exec c cx w = Ret tt w' -> holds MONTH nft_exempt cx [] w w'.
Proof.
  intros Hno Hx. destruct c; try done; cbn [exec] in Hx; autounfold with invoice_nft in Hx; minv Hx;
    try match goal with H : migrate_loop _ _ _ _ = Ret _ _ |- _ => apply migrate_loop_noop in H as ->; [|by intros j old; unfold slot; store_simpl; apply Hno] end;
    learn_callers; learn_views; lives_run.
  - apply holds_exempt; [|lives]. eexists. split; [done|]. right. guards.
    split; [done|]. cbn. by intros ->.
  - apply holds_exempt; [|lives]. eexists. split; [done|]. by left.
Qed.
End InvoiceNft.

Section Marketplace.
Import Marketplace.
Context {W : Type} `{!HasEvents W} `{!HasStorage W DataKey.t} `{!StorageLaws W DataKey.t}
  `{!AccessControlClient W} `{!RiskRegistryClient W} `{!InvoiceNftClient W} `{!TreasuryClient W}
  `{!FinancingPoolClient W} `{!TokenClient W}
  `{!AccessControlLaws W} `{!RiskRegistryLaws W} `{!InvoiceNftLaws W}.
Context `{!forall t f to n, KeepsEntries DataKey.t (tok_transfer t f to n : M W unit)}
  `{!forall t, KeepsEntries DataKey.t (tok_decimals t : M W u32)}
  `{!forall c a i, KeepsEntries DataKey.t (nft_set_listed c a i : M W unit)}
  `{!forall c t n, KeepsEntries DataKey.t (treasury_collect_fee c t n : M W unit)}
  `{!forall c m i t, KeepsEntries DataKey.t (pool_release_funds c m i t : M W unit)}.
Implicit Types (cx : Ctx) (w : W).

(** Left without an extension: what the investors contributed and were refunded. *)
Definition market_exempt (k : DataKey.t) : sk_val k -> Prop :=
  match k with
  | DataKey.Contribution _ _ | DataKey.RefundClaimed _ _ => fun _ => True
  | _ => fun _ => False
  end.

#[export] Instance load_config_keeps : KeepsEntries DataKey.t (load_config : M W _).
Proof.
  intros cx w c w' Hx. unfold load_config in Hx. minv Hx; [done|].
  split; intros k; [by store_simpl|by rewrite st_live_put].
Qed.

#[export] Instance flat_fee_keeps : KeepsEntries DataKey.t (flat_fee_bps : M W _).
Proof.
  intros cx w f w' [->|[c Hx]]%flat_fee_bps_Ret; [done|]. by apply (load_config_keeps _ _ _ _ Hx).
Qed.

#[export] Instance take_payment_keeps c t v fee net :
  KeepsEntries DataKey.t (take_payment c t v fee net : M W unit).
Proof.
  unfold take_payment. apply (keeps_bind (K:=DataKey.t)); [apply keeps_when, keeps_bind; intros; apply _|].
  intros _. apply keeps_when, _.
Qed.

#[export] Instance running_keeps : KeepsEntries DataKey.t (require_not_paused : M W unit).
Proof. intros cx w u w' [_ ->]%require_not_paused_Ret. done. Qed.

Lemma market_lives c cx w w' : exec c cx w = Ret tt w' -> holds MONTH market_exempt cx [] w w'.
Proof.
  intros Hx. destruct c; cbn [exec] in Hx; autounfold with marketplace in Hx; minv Hx;
    learn_views; lives_run.
Qed.
End Marketplace.

(** ** Entries that are never extended *)

Section Ages.
Context {W K : Type} `{!HasEvents W} `{HK : StorageKey K} `{!HasStorage W K} `{!StorageLaws W K}.
Context (P : K -> Prop).
Implicit Types (cx : Ctx) (w : W).

(** The entries of [P] stay, and die when they would have. *)
Definition ages w w' : Prop := forall k, P k -> is_Some (pget (st_get w) k) ->
  is_Some (pget (st_get w') k) /\ st_live w' k = st_live w k.

#[export] Instance ages_po : PreOrder ages.
Proof.
  split; [by intros w k _ Hk|]. intros w1 w2 w3 H12 H23 k HP Hk.
  destruct (H12 k HP Hk) as [Hk' <-]. by apply H23.
Qed.

Lemma ages_frame w w0 w1 :
  (forall k, pget (st_get w1) k = pget (st_get w0) k) -> (forall k : K, st_live w1 k = st_live w0 k) ->
  ages w w0 -> ages w w1.
Proof. intros Hp Hl Hh k HP Hk. rewrite Hp, Hl. by apply Hh. Qed.

Lemma ages_emit w w0 e : ages w w0 -> ages w (w_emit e w0).
Proof. apply ages_frame; intros; by rewrite ?st_get_emit, ?st_live_emit. Qed.
Lemma ages_put w w0 s : (forall k, pget s k = pget (st_get w0) k) -> ages w w0 -> ages w (st_put s w0).
Proof. intros Hs. apply ages_frame; intros; by rewrite ?st_get_put, ?st_live_put. Qed.
Lemma ages_iset w w0 k v : ages w w0 -> ages w (st_put (iset k v (st_get w0)) w0).
Proof. apply ages_put. intros. apply pget_iset. Qed.
Lemma ages_irem w w0 k : ages w w0 -> ages w (st_put (irem k (st_get w0)) w0).
Proof. apply ages_put. intros. apply pget_irem. Qed.
Lemma ages_wasm w w0 h : ages w w0 -> ages w (st_put (set_wasm h (st_get w0)) w0).
Proof. apply ages_put. intros. apply pget_wasm. Qed.

Lemma ages_prem w w0 k : ~ P k -> ages w w0 -> ages w (st_put (prem k (st_get w0)) w0).
Proof.
  intros Hn Hh k' HP Hk. assert (k <> k') as Hne by by intros ->.
  rewrite st_get_put, st_live_put, pget_prem_ne by done. by apply Hh.
Qed.

Lemma ages_wset w w0 cx k v : ages w w0 -> ages w (wset cx k v w0).
Proof.
  intros Hh k' HP Hk. destruct (Hh k' HP Hk) as [[v' Hv] Hl].
  rewrite st_live_wset, st_get_wset. unfold created_live.
  destruct (decide (k = k')) as [<-|Hne]; [|by rewrite pget_pset_ne].
  rewrite pget_pset, Hv. by split.
Qed.

Lemma ages_call {A} (m : M W A) w w0 cx a w1 :
  KeepsEntries K m -> m cx w0 = Ret a w1 -> ages w w0 -> ages w w1.
Proof. intros Hm E. destruct (keeps_entries cx w0 a w1 E) as [Es El]. by apply ages_frame. Qed.
End Ages.

Ltac ages_step :=
  lazymatch goal with
  | |- ages _ ?w ?w => reflexivity
  | |- ages _ _ (w_emit _ _) => apply ages_emit
  | |- ages _ _ (st_put (iset _ _ _) _) => apply ages_iset
  | |- ages _ _ (st_put (irem _ _) _) => apply ages_irem
  | |- ages _ _ (st_put (set_wasm _ _) _) => apply ages_wasm
  | |- ages _ _ (st_put (prem _ _) _) => apply ages_prem; [solve [cbn; tauto]|]
  | |- ages _ _ (wset _ _ _ _) => apply ages_wset
  | |- ages _ _ ?w2 =>
      match goal with E : ?m _ ?w1 = Ret _ w2 |- _ =>
        assert_fails (constr_eq w1 w2); eapply (ages_call _ m); [apply _|exact E|] end
  end.

Section FinancingPool.
Import FinancingPool.
Context {W : Type} `{!HasEvents W} `{!HasStorage W DataKey.t} `{!StorageLaws W DataKey.t}
  `{!AccessControlClient W} `{!RiskRegistryClient W} `{!InvoiceNftClient W} `{!PriceOracleClient W}
  `{!TokenClient W} `{!AccessControlLaws W} `{!InvoiceNftLaws W} `{!PriceOracleLaws W}.
Context `{!forall t f to n, KeepsEntries DataKey.t (tok_transfer t f to n : M W unit)}
  `{!forall t, KeepsEntries DataKey.t (tok_decimals t : M W u32)}
  `{!forall c a i, KeepsEntries DataKey.t (nft_set_funded c a i : M W unit)}
  `{!forall c a i, KeepsEntries DataKey.t (nft_set_repaid c a i : M W unit)}
  `{!forall c a i, KeepsEntries DataKey.t (nft_set_defaulted c a i : M W unit)}
  `{!forall c a s, KeepsEntries DataKey.t (rr_try_record_default c a s : M W (option unit))}.
Implicit Types (cx : Ctx) (w : W).

(** The records of the pools: what was funded and who holds which share of it. *)
Definition pool_record (k : DataKey.t) : Prop :=
  match k with DataKey.Pool _ | DataKey.Positions _ => True | _ => False end.

#[export] Instance publish_keeps t d : KeepsEntries DataKey.t (publish t d : M W unit).
Proof. intros cx w u w' ->%publish_Ret. split; intros; by rewrite ?st_get_emit, ?st_live_emit. Qed.
#[export] Instance emit_keeps t d : KeepsEntries DataKey.t (events.emit t d : M W unit).
Proof. apply (keeps_bind (K:=DataKey.t)); intros; apply _. Qed.

Lemma pay_investors_keeps id t d total l acc :
  KeepsEntries DataKey.t (pay_investors id t d total l acc : M W i128).
Proof.
  revert acc. induction l as [|[v p] l IH]; intros acc; unfold pay_investors; fold (@pay_investors W).
  - apply _.
  - repeat (apply (keeps_bind (K:=DataKey.t)); [|intros [] || intros ?]); try apply _; try apply IH.
Qed.

#[export] Instance distribute_keeps id t total f :
  KeepsEntries DataKey.t (distribute_yield id t total f : M W unit).
Proof.
  intros cx w u w' Hx. unfold distribute_yield, load_positions in Hx. minv Hx.
  all: repeat match goal with E : pay_investors _ _ _ _ _ _ _ _ = Ret _ _ |- _ =>
      apply pay_investors_keeps in E as [P1 L1]
    | E : tok_decimals _ _ _ = Ret _ _ |- _ => apply (keeps_entries (K:=DataKey.t)) in E as [P2 L2] end.
  all: split; intros k; rewrite ?st_get_put, ?st_live_put, ?pget_iset; congruence.
Qed.

#[export] Instance penalty_keeps id due p : KeepsEntries DataKey.t (apply_late_penalty id due p : M W Pool).
Proof.
  intros cx w p' w' Hx. unfold apply_late_penalty in Hx. autounfold with kora_events in Hx. minv Hx; [|done].
  split; intros; by rewrite ?st_get_emit, ?st_live_emit.
Qed.

Lemma pool_ages c cx w w' : exec c cx w = Ret tt w' -> ages pool_record w w'.
Proof.
  intros Hx. destruct c; cbn [exec] in Hx; autounfold with financing_pool in Hx; minv Hx;
    learn_views; repeat ages_step.
Qed.
End FinancingPool.

(** ** The deployed protocol *)

Implicit Types (cx : Ctx) (w : World).

(** [m] leaves the marketplace's entries and their lives alone. *)
Lemma market_entries_kept {A} (m : M World A) :
  (forall cx w a w', m cx w = Ret a w' ->
    w_market w' = w_market w /\ lv_market (w_lives w') = lv_market (w_lives w)) ->
  KeepsEntries Marketplace.DataKey.t m.
Proof. intros Hm cx w a w' E. destruct (Hm _ _ _ _ E) as [Es El]. split; intros k; cbn; by rewrite ?Es, ?El. Qed.

Ltac token_keeps := intros cx w u w' (b & ->)%token_transfer_keeps; by split.

#[export] Instance transfer_keeps_registry t f to n :
  KeepsEntries RiskRegistry.DataKey.t (tok_transfer t f to n : M World unit).
Proof. token_keeps. Qed.
#[export] Instance transfer_keeps_treasury t f to n :
  KeepsEntries Treasury.DataKey.t (tok_transfer t f to n : M World unit).
Proof. token_keeps. Qed.
#[export] Instance transfer_keeps_market t f to n :
  KeepsEntries Marketplace.DataKey.t (tok_transfer t f to n : M World unit).
Proof. token_keeps. Qed.
#[export] Instance balance_keeps_treasury t a :
  KeepsEntries Treasury.DataKey.t (tok_balance t a : M World i128).
Proof. by intros cx w b w' [= _ <-]. Qed.
#[export] Instance decimals_keeps_market t :
  KeepsEntries Marketplace.DataKey.t (tok_decimals t : M World u32).
Proof. by intros cx w d w' ->%token_decimals_ro. Qed.

#[export] Instance profile_keeps_nft c s :
  KeepsEntries InvoiceNft.DataKey.t (rr_try_get_sme_profile c s : M World (option SmeProfile)).
Proof.
  intros cx w o w' [->|[a E]]%try_call_at_Ret; [done|].
  unfold RiskRegistry.get_sme_profile, RiskRegistry.bump_persistent in E. by minv E.
Qed.

#[export] Instance set_listed_keeps_market c a i :
  KeepsEntries Marketplace.DataKey.t (nft_set_listed c a i : M World unit).
Proof.
  apply market_entries_kept. intros cx w u w' H%call_at_Ret. autounfold with invoice_nft in H. minv H;
    InvoiceNft.learn_callers; learn_views. all: by split.
Qed.
#[export] Instance set_funded_keeps_market c a i :
  KeepsEntries Marketplace.DataKey.t (nft_set_funded c a i : M World unit).
Proof.
  apply market_entries_kept. intros cx w u w' H%call_at_Ret. autounfold with invoice_nft in H. minv H;
    InvoiceNft.learn_callers; learn_views. all: by split.
Qed.
#[export] Instance collect_fee_keeps_market c t n :
  KeepsEntries Marketplace.DataKey.t (treasury_collect_fee c t n : M World unit).
Proof.
  apply market_entries_kept. intros cx w u w' H%call_at_Ret. unfold Treasury.collect_fee in H.
  autounfold with treasury in H. minv H; by split.
Qed.
#[export] Instance release_keeps_market c m i t :
  KeepsEntries Marketplace.DataKey.t (pool_release_funds c m i t : M World unit).
Proof.
  intros cx w u w' H%call_at_Ret. autounfold with financing_pool in H. minv H. learn_views.
  match goal with HN : nft_set_funded _ _ _ _ _ = Ret _ _ |- _ =>
    by apply (keeps_entries (K:=Marketplace.DataKey.t)) in HN end.
Qed.

(** What a call leaves behind of each contract that extends its entries. *)
Definition extended_by (c : SysCall) cx w w' : Prop :=
  match c with
  | ToAccess _ => holds MONTH access_exempt cx [] w w'
  | ToRegistry _ => holds MONTH registry_exempt cx [] w w'
  | ToTreasury _ => holds Treasury.PERSISTENT_LIFETIME_THRESHOLD (no_exempt (K:=Treasury.DataKey.t)) cx [] w w'
  | ToNft _ => holds MONTH nft_exempt cx [] w w'
  | ToMarket _ => holds MONTH market_exempt cx [] w w'
  | ToOracle _ | ToPool _ => True
  end.

(** C18: Life times: every call of the access control, the risk registry, the treasury,
    the invoice registry or the marketplace leaves each of the contract's persistent
    entries untouched and with no less time to live, or good for another month (half
    a month in the treasury), or removed: nothing a call writes can be archived
    before then. The exemptions are listed: the proposal counters and executed
    proposals, the terms of the stakes, exposures, repaid and just committed invoices,
    contributions and refund marks. *)
Theorem written_entries_are_extended c cx w w' :
  sys_reachable w -> sys_exec c cx w = Ret tt w' -> extended_by c cx w w'.
Proof.
  intros Hr H. destruct c as [c|c|c|c|c|c|c]; cbn [sys_exec extended_by] in *; try done.
  - by apply (access_lives c).
  - by apply (registry_lives c).
  - by apply (treasury_lives c).
  - apply (nft_lives c); [|done]. intros j old Hj.
    destruct (InvoiceNft.wf_slot _ (nft_wf_reachable _ (sys_nft _ Hr)) _ _ Hj) as (_ & i & [=] & _).
  - by apply (market_lives c).
Qed.

(** *** The pools *)

(** [m] leaves the pools' entries and their lives alone. *)
Lemma pool_entries_kept {A} (m : M World A) :
  (forall cx w a w', m cx w = Ret a w' ->
    w_pool w' = w_pool w /\ lv_pool (w_lives w') = lv_pool (w_lives w)) ->
  KeepsEntries FinancingPool.DataKey.t m.
Proof. intros Hm cx w a w' E. destruct (Hm _ _ _ _ E) as [Es El]. split; intros k; cbn; by rewrite ?Es, ?El. Qed.

#[export] Instance transfer_keeps_pool t f to n :
  KeepsEntries FinancingPool.DataKey.t (tok_transfer t f to n : M World unit).
Proof. token_keeps. Qed.
#[export] Instance decimals_keeps_pool t :
  KeepsEntries FinancingPool.DataKey.t (tok_decimals t : M World u32).
Proof. by intros cx w d w' ->%token_decimals_ro. Qed.

Ltac nft_keeps_pool :=
  apply pool_entries_kept; intros cx w u w' H%call_at_Ret; autounfold with invoice_nft in H; minv H;
    InvoiceNft.learn_callers; learn_views; by split.
#[export] Instance set_funded_keeps_pool c a i :
  KeepsEntries FinancingPool.DataKey.t (nft_set_funded c a i : M World unit).
Proof. nft_keeps_pool. Qed.
#[export] Instance set_repaid_keeps_pool c a i :
  KeepsEntries FinancingPool.DataKey.t (nft_set_repaid c a i : M World unit).
Proof. nft_keeps_pool. Qed.
#[export] Instance set_defaulted_keeps_pool c a i :
  KeepsEntries FinancingPool.DataKey.t (nft_set_defaulted c a i : M World unit).
Proof. nft_keeps_pool. Qed.

(** The pools' entries and their lives, seen from the registry. *)
Definition same_pools w w' : Prop :=
  w_pool w' = w_pool w /\ lv_pool (w_lives w') = lv_pool (w_lives w).

#[export] Instance same_pools_po : PreOrder same_pools.
Proof. split; [by intros w|]. intros w1 w2 w3 [??] [??]. split; congruence. Qed.

#[export] Instance record_default_keeps_pool c a s :
  KeepsEntries FinancingPool.DataKey.t (rr_try_record_default c a s : M World (option unit)).
Proof.
  apply pool_entries_kept. intros cx w o w' [->|[u H]]%try_call_at_Ret; [done|].
  assert (Moves same_pools (fun _ => True) (RiskRegistry.record_default a s)) as Hm.
  { assert (Writes RiskRegistry.DataKey.t same_pools) by done.
    assert (Emits same_pools) by done.
    unfold RiskRegistry.record_default, RiskRegistry.append_audit_entry.
    autounfold with risk_registry. moves. }
  by apply (Hm _ _ _ _ I) in H.
Qed.

Lemma pools_are_covered : covered (ages (W:=World) pool_record).
Proof.
  assert (forall v v' : World, same_pools v v' -> ages pool_record v v') as Ho.
  { intros v v' [Es El]. apply (ages_frame _ v v v'); [..|reflexivity]; intros k; cbn; by rewrite ?Es, ?El. }
  assert (Emits (ages (W:=World) pool_record)) by by intros e v; apply Ho.
  assert (forall a, tokens_move (ages pool_record) a) as Ht
    by by intros a t f to n cx w u w' _ (b & ->)%token_transfer_keeps; apply Ho.
  apply covered_intro; try apply _.
  all: try (left; split; intros s v; by apply Ho).
  - left. split; [split; intros s v; by apply Ho|apply Ht].
  - right. split. intros c _ cx w [] w' _ E. by apply (pool_ages c cx).
  - by intros a _.
  - intros b w _. by apply Ho.
Qed.

(** C19: Life times: no run of the protocol extends the record of a pool or of its
    positions: once recorded it stays, and its last ledger is for ever the one it had,
    the one the network gave it when it was first written, however long the invoice
    still runs and whatever is repaid, sold or settled in the meantime. *)
Theorem pool_records_are_never_extended w w' (k : FinancingPool.DataKey.t) :
  rtc sys_step w w' -> pool_record k -> is_Some (pget (st_get w) k) ->
  is_Some (pget (st_get w') k) /\ st_live w' k = st_live w k.
Proof. intros Hs. by apply (covered_steps _ _ _ pools_are_covered Hs). Qed.

(** ** The keeper

    scripts/ttl_keeper.sh calls views of the contracts, expecting them to extend the
    entries they read. *)

Inductive Touch :=
  | TouchAccessAdmin
  | TouchInvoice (invoice_id : u64)
  | TouchRegistryAdmin
  | TouchTreasuryAdmin
  | TouchFeeBps
  | TouchListing (invoice_id : u64)
  | TouchPool (invoice_id : u64)
  | TouchPositions (invoice_id : u64).

Definition touch_key (t : Touch) : M World unit :=
  match t with
  | TouchAccessAdmin => _ ← AccessControl.get_admin; mret tt
  | TouchInvoice id => _ ← InvoiceNft.get_invoice id; mret tt
  | TouchRegistryAdmin => _ ← RiskRegistry.get_admin; mret tt
  | TouchTreasuryAdmin => _ ← Treasury.get_admin; mret tt
  | TouchFeeBps => _ ← Treasury.get_fee_bps; mret tt
  | TouchListing id => _ ← Marketplace.get_listing id; mret tt
  | TouchPool id => _ ← FinancingPool.get_pool id; mret tt
  | TouchPositions id => _ ← FinancingPool.get_positions id; mret tt
  end.

(** The keys it touches, for the invoices below [next]. *)
Definition keeper_touches (next : u64) : list Touch :=
  let ids := seqZ 1 (next - 1) in
  [TouchAccessAdmin] ++ map TouchInvoice ids ++ [TouchRegistryAdmin; TouchTreasuryAdmin; TouchFeeBps] ++
  map TouchListing ids ++ concat (map (fun id => [TouchPool id; TouchPositions id]) ids).

(** A run of the script; [txs t] is the transaction that touches [t]. *)
Definition ttl_keeper (txs : Touch -> Ctx) (cx : Ctx) (w : World) : World :=
  let next := match InvoiceNft.next_id cx w with Ret n _ => n | _ => 1 end in
  foldl (fun w t => run_tx (touch_key t) (txs t) w) w (keeper_touches next).

Lemma touch_read_only t : ReadOnly (touch_key t).
Proof.
  intros cx w u w' H. destruct t; cbn [touch_key] in H;
    unfold AccessControl.get_admin, RiskRegistry.get_admin, Treasury.get_admin, Treasury.get_fee_bps,
      InvoiceNft.get_invoice, InvoiceNft.load_invoice, Marketplace.get_listing, FinancingPool.get_pool,
      FinancingPool.load_pool, FinancingPool.get_positions, FinancingPool.load_positions in H;
    by minv H.
Qed.

(** Life times: the keeper extends nothing. The views it calls to have the contracts
    extend the entries they read extend none, whatever the invoices and the order of
    the calls: the ledger a run of the script leaves is the one it found, life times
    included. *)
Theorem ttl_keeper_extends_nothing txs cx w : ttl_keeper txs cx w = w.
Proof.
  unfold ttl_keeper. generalize (keeper_touches (match InvoiceNft.next_id cx w with Ret n _ => n | _ => 1 end)).
  intros l. revert w. induction l as [|t l IH]; intros w; cbn [foldl]; [done|].
  rewrite IH. destruct (run_tx_cases (touch_key t) (txs t) w) as [E|(u & w' & E & ->)]; [done|].
  by eapply touch_read_only.
Qed.
