(* ===== verification/Protocol.v ===== *)
(** * Protocol: the marketplace, the financing pool and the invoice registry agree *)

From S2P Require Import Prelude Errors SortedMap Types Host Events Reentrancy Validation Interfaces AuditLog Moves AccessControl PriceOracle RiskRegistry Treasury InvoiceNft FinancingPool Marketplace World System.

Implicit Types (cx : Ctx) (w : World).

Abbreviation slot := InvoiceNft.slot.
Abbreviation pool_of := FinancingPool.pool_of.
Abbreviation listing_of := Marketplace.listing_of.

(** ** What the calls between the three contracts do *)

(** A status change of the registry, run by a call from another contract. *)
Definition restatus (f : Invoice -> Invoice) (from : InvoiceStatus) id w w' : Prop :=
  exists i, slot w id = Some (StoredV2 i) /\ inv_status i = from /\
    slot w' id = Some (StoredV2 (f i)) /\ forall j, j <> id -> slot w' j = slot w j.

Ltac restatus H :=
  apply call_at_Ret in H; unfold restatus, InvoiceNft.slot in *;
  autounfold with invoice_nft in H; minv H; InvoiceNft.learn_callers; learn_views;
  InvoiceNft.learn_slots; guards; store_facts; store_simpl;
  eexists; split_and!; [done|done|done|intros; by store_simpl].

Lemma set_listed_effect c a id cx w w' :
  nft_set_listed c a id cx w = Ret tt w' ->
  restatus (with_status Listed) Created id w w'.
Proof. intros H. restatus H. Qed.
Lemma set_funded_effect c a id cx w w' :
  nft_set_funded c a id cx w = Ret tt w' ->
  restatus (fun i => with_funded_at (Some (cx_now cx)) (with_status Funded i)) Listed id w w'.
Proof. intros H. restatus H. Qed.

Lemma set_repaid_effect c a id cx w w' :
  nft_set_repaid c a id cx w = Ret tt w' ->
  restatus (fun i => with_repaid_at (Some (cx_now cx)) (with_status Repaid i)) Funded id w w'.
Proof. intros H. restatus H. Qed.

Lemma get_invoice_effect c id cx w i w' :
  nft_get_invoice c id cx w = Ret i w' -> slot w id = Some (StoredV2 i) /\ w' = w.
Proof.
  intros H. apply call_at_Ret in H. unfold InvoiceNft.slot, InvoiceNft.get_invoice in *.
  autounfold with invoice_nft in H. minv H. InvoiceNft.learn_slots. done.
Qed.

(** The pool a successful [release_funds] opens, and what else it does. *)
Record opened (m : Address) (id : u64) (t : Address) cx w w' : Prop := {
  op_auth : authorized cx m = true;
  op_fresh : pool_of w id = None;
  op_invoice : exists i late,
    slot w id = Some (StoredV2 i) /\ inv_status i = Listed /\ 0 < inv_amount i <= MAX_AMOUNT /\
    iget (w_pool w) FinancingPool.DataKey.LatePenaltyBps = Some late /\
    pool_of w' id = Some (mkPool id t 0 (inv_amount i) 0 false late (inv_amount i) false) /\
    slot w' id = Some (StoredV2 (with_funded_at (Some (cx_now cx)) (with_status Funded i)));
  op_others : forall j, j <> id -> pool_of w' j = pool_of w j /\ slot w' j = slot w j;
  op_market : w_market w' = w_market w;
  op_balances : w_bal w' = w_bal w;
  op_nft_store : (forall k, iget (w_nft w') k = iget (w_nft w) k) /\
    forall k, k <> InvoiceNft.DataKey.Invoice id -> pget (w_nft w') k = pget (w_nft w) k;
  op_pool_store : (forall k, iget (w_pool w') k = iget (w_pool w) k) /\
    forall k, k <> FinancingPool.DataKey.Pool id -> pget (w_pool w') k = pget (w_pool w) k }.

(** A call that moves the status writes the invoice and nothing else of the registry. *)
Lemma set_funded_store c a id cx w w' :
  nft_set_funded c a id cx w = Ret tt w' ->
  (forall k, iget (w_nft w') k = iget (w_nft w) k) /\
  forall k, k <> InvoiceNft.DataKey.Invoice id -> pget (w_nft w') k = pget (w_nft w) k.
Proof.
  intros H. apply call_at_Ret in H. autounfold with invoice_nft in H. minv H.
  InvoiceNft.learn_callers. learn_views. change w_nft with (st_get (K:=InvoiceNft.DataKey.t) (W:=World)).
  split; intros; by store_simpl.
Qed.

Lemma release_effect m id t cx w w' :
  FinancingPool.release_funds m id t cx w = Ret tt w' -> opened m id t cx w w'.
Proof.
  intros H. pose proof (release_funds_aside _ _ _ _ _ _ _ H) as (Hm & Hb & _).
  autounfold with financing_pool in H. minv H. learn_views.
  repeat match goal with
  | H : nft_get_invoice _ _ _ _ = Ret _ _ |- _ => apply get_invoice_effect in H as [Hi _]
  | H : nft_set_funded _ _ _ _ _ = Ret _ _ |- _ =>
      pose proof (set_funded_aside _ _ _ _ _ _ _ H) as (Hp & _);
      pose proof (set_funded_store _ _ _ _ _ _ H) as [Hni Hnp]; apply set_funded_effect in H
  end.
  destruct H as (i & Hs & Hl & Hs' & Ho). unfold InvoiceNft.slot in *. cbn in *.
  assert (x5 = i) as -> by congruence. guards.
  apply Marketplace.has_false in E0. split; [done|done| | |done|done|done|];
    unfold FinancingPool.pool_of, InvoiceNft.slot; cbn.
  - exists i, x7. split_and!; try done; try lia; rewrite ?Hp; by store_simpl.
  - intros j Hj. rewrite Hp. split; [by store_simpl|by apply Ho].
  - rewrite Hp. split; intros; by store_simpl.
Qed.

(** What the calls outside the registry and the pool leave alone. *)
Definition same_books w w' : Prop := w_nft w' = w_nft w /\ w_pool w' = w_pool w.

#[export] Instance same_books_po : PreOrder same_books.
Proof. split; [by intros w|]. intros w1 w2 w3 [? ?] [? ?]. split; congruence. Qed.
#[export] Instance same_books_emits : Emits same_books.
Proof. done. Qed.

Lemma tokens_same_books a : tokens_move same_books a.
Proof. by intros t f to n cx w u w' _ (b & ->)%token_transfer_keeps. Qed.

Lemma collect_fee_same_books c t n cx w u w' :
  honest cx -> treasury_collect_fee c t n cx w = Ret u w' -> same_books w w'.
Proof.
  intros Hh H. assert (Writes Treasury.DataKey.t same_books) by done.
  eapply (collect_moves same_books (fun _ => True)); [done| |by split|done].
  apply treasury_covered; try apply _. apply tokens_same_books.
Qed.

Lemma take_payment_same_books c t v fee net cx w u w' :
  honest cx -> Marketplace.take_payment c t v fee net cx w = Ret u w' -> same_books w w'.
Proof.
  unfold Marketplace.take_payment. intros Hh H. minv H;
    repeat match goal with
    | H : tok_transfer _ _ _ _ _ _ = Ret _ _ |- _ => apply token_transfer_keeps in H as (? & ->)
    | H : treasury_collect_fee _ _ _ _ _ = Ret _ _ |- _ => apply (collect_fee_same_books _ _ _ _ _ _ _ Hh) in H
    end; unfold same_books in *; cbn in *; intuition congruence.
Qed.

Lemma call_at_addr {A} addr c (m : M World A) cx w a w' :
  call_at addr c m cx w = Ret a w' -> c = addr /\ m (callee_ctx addr cx) w = Ret a w'.
Proof.
  intros H. pose proof (call_at_Ret _ _ _ _ _ _ _ H) as E. unfold call_at in H.
  by destruct (N.eqb_spec c addr) as [->|].
Qed.

Lemma load_config_same_books cx w c w' :
  Marketplace.load_config cx w = Ret c w' -> same_books w w'.
Proof.
  assert (Writes Marketplace.DataKey.t same_books) by done.
  by apply (load_config_moves same_books (fun _ => True) cx).
Qed.

(** A contribution that fills the listing opens the pool of the invoice; any other
    leaves the registry and the pools alone. *)
Lemma fund_books v id n cx w w' :
  honest cx -> Marketplace.fund_invoice v id n cx w = Ret tt w' ->
  exists l, listing_of w id = Some l /\
    if l_funded_amount l + n >=? l_asking_price l
    then exists wl, same_books w wl /\ opened (cx_self cx) id (l_token l) (callee_ctx POOL cx) wl w'
    else same_books w w'.
Proof.
  intros Hh H. unfold Marketplace.fund_invoice, Marketplace.bump_persistent in H. minv H.
  all: repeat match goal with
  | H : Marketplace.require_not_paused _ _ = Ret _ _ |- _ => apply Marketplace.require_not_paused_Ret in H as [Hrun ->]
  | H : Marketplace.effective_fee _ _ _ _ = Ret _ _ |- _ => apply Marketplace.effective_fee_Ret in H as [-> ->]
  | H : Marketplace.take_payment _ _ _ _ _ _ _ = Ret _ _ |- _ => apply (take_payment_same_books _ _ _ _ _ _ _ _ _ Hh) in H
  end.
  all: learn_views; repeat match goal with
  | H : Marketplace.load_config _ _ = Ret _ _ |- _ => apply load_config_same_books in H
  | H : tok_decimals _ _ _ = Ret _ _ |- _ => apply token_decimals_ro in H as ->
  | H : pool_release_funds _ _ _ _ _ _ = Ret _ _ |- _ =>
      apply call_at_addr in H as [_ H]; apply release_effect in H
  end.
  all: guards; subst; match goal with H : pget _ _ = Some ?l |- _ =>
    exists l; split; [exact H|]; rewrite Z.geb_leb in *; case_match; try lia end.
  1,3: etransitivity; done.
  all: eexists; split; [|done]; etransitivity; [done|]; done.
Qed.

Definition same_nft w w' : Prop := w_nft w' = w_nft w.

#[export] Instance same_nft_po : PreOrder same_nft.
Proof. split; [by intros w|]. intros w1 w2 w3 ??. unfold same_nft in *. congruence. Qed.
#[export] Instance same_nft_emits : Emits same_nft.
Proof. done. Qed.

Lemma distribute_same_nft id t total f cx w u w' :
  honest cx -> FinancingPool.distribute_yield id t total f cx w = Ret u w' -> same_nft w w'.
Proof.
  intros Hh. assert (Writes FinancingPool.DataKey.t same_nft) by done.
  apply (distribute_moves same_nft (cx_self cx)); [|by split].
  by intros t' f' to n cx' v x v' _ (b & ->)%token_transfer_keeps.
Qed.

(** A pool that closes takes its invoice from Funded to Repaid with it. *)
Definition settled id w w' : Prop :=
  (exists f, restatus f Funded id w w' /\
     (forall i, inv_status (f i) = Repaid /\ inv_amount (f i) = inv_amount i) /\
     exists p, pool_of w' id = Some p /\ p_is_closed p = true) \/
  (same_nft w w' /\ forall p, pool_of w' id = Some p -> p_is_closed p = false).

Lemma settled_intro id w v w' w'' nft a cx u :
  same_nft w v -> nft_set_repaid nft a id cx v = Ret u w' -> same_nft w' w'' ->
  (exists p, pool_of w'' id = Some p /\ p_is_closed p = true) -> settled id w w''.
Proof.
  unfold same_nft. destruct u. intros Hv (i & Hi & Hs & Hi' & Ho)%set_repaid_effect Hw Hp. left.
  exists (fun i => with_repaid_at (Some (cx_now cx)) (with_status Repaid i)).
  split; [|done]. clear Hp. unfold InvoiceNft.slot in *. cbn in *. rewrite Hv in *.
  exists i. unfold InvoiceNft.slot. cbn. rewrite Hw. split_and!; try done.
Qed.

(** Collects what the two calls of a settlement leave alone. *)
Ltac learn_settlement Hh :=
  FinancingPool.learn_distribute;
  repeat match goal with
  | H : FinancingPool.distribute_yield _ _ _ _ _ _ = Ret _ _ |- _ =>
      apply (distribute_same_nft _ _ _ _ _ _ _ _ Hh) in H
  | H : nft_set_repaid _ _ _ _ ?v = Ret _ ?v' |- _ =>
      lazymatch goal with
      | _ : w_pool v' = w_pool v |- _ => fail
      | _ => let Hp := fresh "Hpool" in pose proof (set_repaid_aside _ _ _ _ _ _ _ H) as [Hp _]
      end
  end.

Lemma repay_settles payer id t n cx w w' :
  honest cx -> FinancingPool.repay payer id t n cx w = Ret tt w' -> settled id w w'.
Proof.
  intros Hh H. autounfold with financing_pool in H. unfold FinancingPool.apply_late_penalty in H.
  minv H. all: learn_views; repeat match goal with
  | H : tok_transfer _ _ _ _ _ _ = Ret _ _ |- _ => apply token_transfer_keeps in H as (? & ->)
  end; learn_settlement Hh.
  2,4: eapply settled_intro; [ |eassumption|done| ]; [done|]; unfold FinancingPool.pool_of; cbn in *;
    rewrite Hpool, Hdist; store_simpl; eexists; split; [done|]; unfold close_if_repaid in *; case_match; [done|]; cbn in *; congruence.
  all: right; split; [done|]; unfold FinancingPool.pool_of; cbn; store_simpl; intros p [= <-];
    unfold close_if_repaid in *; case_match; [|done]; cbn in *; congruence.
Qed.

Lemma accept_settles v id cx w w' :
  honest cx -> FinancingPool.accept_early_settlement v id cx w = Ret tt w' -> settled id w w'.
Proof.
  intros Hh H. autounfold with financing_pool in H. minv H. all: learn_views.
  - learn_settlement Hh. eapply settled_intro; [ |eassumption|done| ]; [done|]. unfold FinancingPool.pool_of. cbn in *.
    rewrite Hpool, Hdist. store_simpl. by eexists.
  - right. split; [done|]. unfold FinancingPool.pool_of. cbn. store_simpl. intros p. congruence.
Qed.

Lemma list_books seller id asking face t d r cx w w' :
  Marketplace.list_invoice seller id asking face t d r cx w = Ret tt w' ->
  restatus (with_status Listed) Created id w w' /\
  exists i, slot w id = Some (StoredV2 i) /\ inv_amount i = face.
Proof.
  intros H. autounfold with marketplace in H; minv H; learn_config; learn_views.
  all: repeat match goal with
  | H : nft_get_invoice _ _ _ _ = Ret _ _ |- _ => apply get_invoice_effect in H as [Hi _]
  | u : unit |- _ => destruct u
  | H : nft_set_listed _ _ _ _ _ = Ret _ _ |- _ => apply set_listed_effect in H
  | H : negb (_ =? _) = false |- _ => apply negb_false_iff, Z.eqb_eq in H
  end.
  all: split; [match goal with H : restatus _ _ _ _ _ |- _ => exact H end|].
  all: eexists; split; [exact Hi|done].
Qed.

(** ** The books of the three contracts agree *)

(** A pool stands for a funded invoice: same face value, and Repaid once closed. *)
Definition pool_agrees w (id : u64) (p : Pool) : Prop :=
  exists i, slot w id = Some (StoredV2 i) /\ p_face_value p = inv_amount i /\
    2 <= rank (inv_status i) /\ (p_is_closed p = true -> inv_status i = Repaid).

(** A listing stands for a listed invoice, and has its pool once fully funded. *)
Definition listing_agrees w (id : u64) (l : Listing) : Prop :=
  exists i, slot w id = Some (StoredV2 i) /\ l_face_value l = inv_amount i /\
    inv_status i <> Created /\ (l_asking_price l <= l_funded_amount l -> is_Some (pool_of w id)).

(** *** What the runs of one contract keep *)

Lemma listed_run w w' id i :
  InvoiceNft.reachable w -> rtc InvoiceNft.step w w' ->
  slot w id = Some (StoredV2 i) -> inv_status i <> Created ->
  InvoiceNft.reachable w' /\
  exists i', slot w' id = Some (StoredV2 i') /\ inv_amount i' = inv_amount i /\
    inv_status i' <> Created /\ rank (inv_status i) <= rank (inv_status i') /\
    (final (inv_status i) = true -> i' = i).
Proof.
  intros Hr Hs. revert i. induction Hs as [w|w w1 w2 Hs _ IH]; intros i Ei Hst.
  { split; [done|]. exists i. split_and!; done || lia. }
  destruct (listed_step _ _ _ _ (nft_wf_reachable _ Hr) Hs Ei Hst) as (i1 & E1 & Ht & Hst1 & Hrk & Hf).
  destruct (IH (nft_step_reachable _ _ Hr Hs) _ E1 Hst1) as (Hr2 & i2 & E2 & Ht2 & Hst2 & Hrk2 & Hf2).
  split; [done|]. exists i2. injection Ht as ? ? ? Ha. split_and!; [done|congruence|done|lia|].
  intros Hfin. rewrite (Hf Hfin) in *. by apply Hf2.
Qed.

Lemma nft_run_reachable w w' : InvoiceNft.reachable w -> rtc InvoiceNft.step w w' -> InvoiceNft.reachable w'.
Proof. intros (w0 & ? & ?) Hs. exists w0. split; [done|]. by etransitivity. Qed.
Lemma pool_run_reachable w w' : FinancingPool.reachable w -> rtc FinancingPool.step w w' -> FinancingPool.reachable w'.
Proof. intros (w0 & ? & ?) Hs. exists w0. split; [done|]. by etransitivity. Qed.

(** The books of the pool and of the registry, as an invariant. *)
Record pool_books w : Prop := {
  pb_nft : InvoiceNft.reachable w;
  pb_pool : FinancingPool.reachable w;
  pb_agree : forall id p, pool_of w id = Some p -> pool_agrees w id p }.

Definition keeps_books w w' : Prop := pool_books w -> pool_books w'.

#[export] Instance keeps_books_po : PreOrder keeps_books.
Proof. split; [by intros w Hw|]. intros w1 w2 w3 H1 H2 Hw. exact (H2 (H1 Hw)). Qed.

(** A pool that stays as it is goes on agreeing with its invoice. *)
Lemma pool_agrees_run w w' id p :
  pool_books w -> rtc InvoiceNft.step w w' -> pool_of w id = Some p -> pool_agrees w' id p.
Proof.
  intros [Hn _ Ha] Hs Hp. destruct (Ha _ _ Hp) as (i & Hi & Hf & Hr & Hc).
  assert (inv_status i <> Created) as Hst by by destruct (inv_status i).
  destruct (listed_run _ _ _ _ Hn Hs Hi Hst) as (_ & i' & Hi' & Ham & _ & Hrk & Hfin).
  exists i'. split_and!; [done|congruence|lia|]. intros Hcl. pose proof (Hc Hcl) as Er.
  by rewrite (Hfin ltac:(by rewrite Er)).
Qed.

Lemma books_other w w' : w_nft w' = w_nft w -> w_pool w' = w_pool w -> keeps_books w w'.
Proof.
  intros En Ep [Hn Hp Ha]. split.
  - eapply nft_run_reachable; [done|]. by apply rtc_once, InvoiceNft.step_other.
  - eapply pool_run_reachable; [done|]. by apply rtc_once, FinancingPool.step_other.
  - intros id p. unfold FinancingPool.pool_of, pool_agrees, InvoiceNft.slot in *. cbn in *.
    rewrite Ep, En. apply Ha.
Qed.

Definition same_pools w w' : Prop := w_pool w' = w_pool w.

#[export] Instance same_pools_po : PreOrder same_pools.
Proof. split; [by intros w|]. intros w1 w2 w3 ??. unfold same_pools in *. congruence. Qed.
#[export] Instance same_pools_emits : Emits same_pools.
Proof. done. Qed.

Lemma token_same_pools a : tokens_move same_pools a.
Proof. by intros t f to n cx w u w' _ (b & ->)%token_transfer_keeps. Qed.

Lemma same_pools_nft : covers same_pools NFT (fun _ => True) InvoiceNft.exec.
Proof.
  assert (Writes InvoiceNft.DataKey.t same_pools) by done.
  assert (Writes RiskRegistry.DataKey.t same_pools) by done.
  apply (nft_covered same_pools) with (okR := fun _ => True); try apply _; try done.
  apply (registry_covered same_pools REGISTRY), token_same_pools.
Qed.

(** Calls of the registry: the pools stay, the invoices move on. *)
Lemma books_nft : covers keeps_books NFT (fun _ => True) InvoiceNft.exec.
Proof.
  split. intros c _ cx w [] w' Hc H Hb.
  assert (rtc InvoiceNft.step w w') as Hs by by eapply (cov_call _ nft_steps (ToNft c) I).
  assert (w_pool w' = w_pool w) as Ep.
  { exact (covers_run _ _ _ _ same_pools_nft c I cx w tt w' Hc H). }
  split.
  - by eapply nft_run_reachable, Hs; destruct Hb.
  - destruct Hb as [_ Hp _]. eapply pool_run_reachable; [done|]. by apply rtc_once, FinancingPool.step_other.
  - intros id p Hp. eapply pool_agrees_run; [done..|].
    unfold FinancingPool.pool_of in *. cbn in *. congruence.
Qed.

(** Calls of the pool: a pool opens with its invoice Funded, closes with it Repaid. *)
Lemma settled_agrees id w w' p p' :
  settled id w w' -> pool_agrees w id p -> pool_of w' id = Some p' ->
  p_face_value p' = p_face_value p -> pool_agrees w' id p'.
Proof.
  intros [(f & (i & Hi & Hs & Hi' & _) & Hf & _)|[En Ho]] (i0 & Hi0 & Ha & Hr & _) Hp' Hv.
  - assert (i0 = i) as -> by congruence. destruct (Hf i) as [Er Em].
    exists (f i). rewrite Er. split_and!; [done|congruence|done|done].
  - exists i0. unfold InvoiceNft.slot, same_nft in *. cbn in *. rewrite En.
    split_and!; [done|congruence|done|]. intros Hc. by rewrite (Ho _ Hp') in Hc.
Qed.

Lemma books_pool : covers keeps_books POOL FinancingPool.typed FinancingPool.exec.
Proof.
  split. intros c Hty cx w [] w' Hc H Hb. pose proof Hb as [Hn Hp Ha].
  assert (rtc InvoiceNft.step w w') as Hs by by eapply (cov_call _ nft_steps (ToPool c) Hty).
  assert (rtc FinancingPool.step w w') as Hs' by by eapply (cov_call _ pool_steps (ToPool c) Hty).
  split; [by eapply nft_run_reachable|by eapply pool_run_reachable|].
  intros id p' Hp'. pose proof (late_ok_wf _ (fp_wf_reachable _ Hp)) as Hlate.
  pose proof (pool_evolves _ _ _ _ id Hlate H) as Hch. rewrite Hp' in Hch.
  destruct Hc as [_ Hh]. inversion Hch as [o E1 E2|m t face late Ec|payer t n due eff p Ec|v o p Ec]; subst.
  - eapply pool_agrees_run; try done. 
  - destruct (op_invoice _ _ _ _ _ _ (release_effect _ _ _ _ _ _ H)) as (i & l & _ & _ & _ & _ & Ep & Ei).
    rewrite Hp' in Ep. injection Ep as -> -> _. by eexists.
  - apply repay_settles in H; [|done]. eapply settled_agrees; [done|by apply Ha|done|].
    rewrite repaid_pool_eq. unfold close_if_repaid, penalised. by repeat case_match.
  - apply accept_settles in H; [|done]. by eapply settled_agrees; [done|by apply Ha|done|].
Qed.

Ltac other_books := try apply writes_intro; intros ??; by apply books_other.

Lemma books_steps : covered keeps_books.
Proof.
  assert (Emits keeps_books) by other_books.
  assert (forall a, tokens_move keeps_books a) as Ht.
  { intros a t f to n cx w u w' _ (b & ->)%token_transfer_keeps. by apply books_other. }
  apply covered_intro; try apply _; try done; try (left; other_books).
  - left. split; [other_books|done].
  - right. exact books_nft.
  - right. exact books_pool.
  - intros b w _. by apply books_other.
Qed.

(** *** The listings *)

Record market_books w : Prop := {
  mb_pool : pool_books w;
  mb_market : Marketplace.reachable w;
  mb_agree : forall id l, listing_of w id = Some l -> listing_agrees w id l }.

Definition keeps_market w w' : Prop := market_books w -> market_books w'.

#[export] Instance keeps_market_po : PreOrder keeps_market.
Proof. split; [by intros w Hw|]. intros w1 w2 w3 H1 H2 Hw. exact (H2 (H1 Hw)). Qed.

Lemma market_run_reachable w w' : Marketplace.reachable w -> rtc Marketplace.step w w' -> Marketplace.reachable w'.
Proof. intros (w0 & ? & ?) Hs. exists w0. split; [done|]. by etransitivity. Qed.

Lemma pool_persists w w' id :
  FinancingPool.reachable w -> rtc FinancingPool.step w w' -> is_Some (pool_of w id) -> is_Some (pool_of w' id).
Proof.
  intros Hr Hs. induction Hs as [w|w w1 w2 Hs _ IH]; [done|]. intros [p Hp].
  apply IH; [by eapply fp_step_reachable|].
  destruct (pool_step _ _ _ _ (fp_wf_reachable _ Hr) Hs Hp) as (p' & -> & _). by eexists.
Qed.

(** A listing that keeps its terms goes on agreeing with its invoice and pool. *)
Lemma listing_agrees_run w w' id l l' :
  pool_books w -> rtc InvoiceNft.step w w' -> rtc FinancingPool.step w w' ->
  listing_agrees w id l -> l_face_value l' = l_face_value l ->
  (l_asking_price l' <= l_funded_amount l' ->
     l_asking_price l <= l_funded_amount l \/ is_Some (pool_of w' id)) ->
  listing_agrees w' id l'.
Proof.
  intros [Hn Hp _] Hs Hs' (i & Hi & Ha & Hst & Hfull) Hface Hl.
  destruct (listed_run _ _ _ _ Hn Hs Hi Hst) as (_ & i' & Hi' & Ham & Hst' & _).
  exists i'. split_and!; [done|congruence|done|].
  intros [H|H]%Hl; [|done]. eapply pool_persists; [done..|by apply Hfull].
Qed.

Lemma market_other w w' :
  w_market w' = w_market w -> rtc InvoiceNft.step w w' -> rtc FinancingPool.step w w' ->
  keeps_books w w' -> keeps_market w w'.
Proof.
  intros Em Hs Hs' Hb [Hp Hm Ha]. split; [by apply Hb| |].
  - eapply market_run_reachable; [done|]. by apply rtc_once, Marketplace.step_other.
  - intros id l Hl. assert (listing_of w id = Some l) as Hl'.
    { unfold Marketplace.listing_of in *. cbn in *. congruence. }
    eapply listing_agrees_run; eauto.
Qed.

Definition same_market w w' : Prop := w_market w' = w_market w.

#[export] Instance same_market_po : PreOrder same_market.
Proof. split; [by intros w|]. intros w1 w2 w3 ??. unfold same_market in *. congruence. Qed.
#[export] Instance same_market_emits : Emits same_market.
Proof. done. Qed.

(** A call the marketplace has no part in. *)
Lemma market_other_call c :
  sys_typed c -> Moves same_market (runs_at (sys_at c)) (sys_exec c) ->
  Moves keeps_market (runs_at (sys_at c)) (sys_exec c).
Proof.
  intros Hty Hm cx w u w' Hc H. apply market_other.
  - by eapply Hm.
  - by eapply (cov_call _ nft_steps c Hty).
  - by eapply (cov_call _ pool_steps c Hty).
  - by eapply (cov_call _ books_steps c Hty).
Qed.

Lemma tokens_same_market a : tokens_move same_market a.
Proof. by intros t f to n cx w u w' _ (b & ->)%token_transfer_keeps. Qed.

Lemma same_market_registry : covers same_market REGISTRY (fun _ => True) RiskRegistry.exec.
Proof.
  assert (Writes RiskRegistry.DataKey.t same_market) by done.
  apply (registry_covered same_market REGISTRY), tokens_same_market.
Qed.

Lemma same_market_nft : covers same_market NFT (fun _ => True) InvoiceNft.exec.
Proof.
  assert (Writes InvoiceNft.DataKey.t same_market) by done.
  apply (nft_covered same_market) with (okR := fun _ => True); try apply _; try done.
  apply same_market_registry.
Qed.

Lemma same_market_pool : covers same_market POOL FinancingPool.typed FinancingPool.exec.
Proof.
  assert (Writes FinancingPool.DataKey.t same_market) by done.
  apply (pool_covered same_market) with (okR := fun _ => True); try apply _; try done.
  - apply same_market_registry.
  - apply same_market_nft.
  - apply tokens_same_market.
Qed.

Lemma market_own : covers keeps_market MARKET Marketplace.typed Marketplace.exec.
Proof.
  split. intros c Hty cx w [] w' Hc H [Hp Hm Ha].
  assert (rtc InvoiceNft.step w w') as Hs by by eapply (cov_call _ nft_steps (ToMarket c) Hty).
  assert (rtc FinancingPool.step w w') as Hs' by by eapply (cov_call _ pool_steps (ToMarket c) Hty).
  assert (rtc Marketplace.step w w') as Hs'' by by eapply (cov_call _ market_steps (ToMarket c) Hty).
  split; [by eapply (cov_call _ books_steps (ToMarket c) Hty)|by eapply market_run_reachable|].
  intros id l' Hl'. pose proof (listing_evolves _ _ _ _ (wf_fees _ (mp_wf_reachable _ Hm)) H id) as Hch.
  rewrite Hl' in Hch. destruct Hc as [_ Hh].
  inversion Hch as [o E1 E2|s asking face t d r Ec ? ? ? ? ? E1 E2|v n l Ec ? ? ? Hn E1 E2|who l ? ? ? ? E1 E2]; subst.
  - eapply listing_agrees_run; eauto.
  - destruct (list_books _ _ _ _ _ _ _ _ _ _ H) as [(i & Hi & _ & Hi' & _) (i0 & Hi0 & Em)].
    assert (i0 = i) as -> by congruence.
    exists (with_status Listed i). split_and!; [done|by subst|done|cbn; lia].
  - destruct (fund_books _ _ _ _ _ _ Hh H) as (l0 & El & Hb).
    assert (l0 = l) as -> by congruence.
    eapply (listing_agrees_run w w' id l); try done; [by apply Ha| |].
    + unfold funded_with. by case_match.
    + unfold funded_with. case_match; cbn; [|lia]. intros _. right.
      destruct Hb as (wl & _ & Ho). destruct (op_invoice _ _ _ _ _ _ Ho) as (? & ? & _ & _ & _ & _ & Ep & _).
      by eexists.
  - eapply (listing_agrees_run w w' id l); try done; [by apply Ha|by left].
Qed.

Lemma market_books_steps : covered keeps_market.
Proof.
  assert (forall w w' : World, w_nft w' = w_nft w -> w_pool w' = w_pool w -> w_market w' = w_market w ->
    keeps_market w w') as Ho.
  { intros w w' En Ep Em. apply market_other; [done|..].
    - by apply rtc_once, InvoiceNft.step_other.
    - by apply rtc_once, FinancingPool.step_other.
    - by apply books_other. }
  assert (Emits keeps_market) by (intros ??; by apply Ho).
  assert (forall a, tokens_move keeps_market a) as Ht.
  { intros a t f to n cx w u w' _ (b & ->)%token_transfer_keeps. by apply Ho. }
  apply covered_intro; try apply _; try done; try (left; apply writes_intro; intros ??; by apply Ho).
  - left. split; [apply writes_intro; intros ??; by apply Ho|done].
  - right. split. intros c _. apply (market_other_call (ToNft c)); [done|by apply same_market_nft].
  - right. split. intros c Hc. apply (market_other_call (ToPool c)); [done|by apply same_market_pool].
  - right. exact market_own.
  - intros b w _. by apply Ho.
Qed.

Lemma deployed_books w : sys_deployed w -> market_books w.
Proof.
  intros []. split; [split| |].
  - by exists w.
  - by exists w.
  - intros id p. unfold FinancingPool.pool_of. cbn. by rewrite sd_pool.
  - by exists w.
  - intros id l. unfold Marketplace.listing_of. cbn. by rewrite sd_market.
Qed.

Lemma sys_books w : sys_reachable w -> market_books w.
Proof.
  intros (w0 & Hd & Hs).
  exact (covered_steps keeps_market _ _ market_books_steps Hs (deployed_books _ Hd)).
Qed.

(** ** The status of an invoice is the state of its pool *)

(** Calls that do not call the registry leave the invoices alone. *)
Lemma token_same_nft a : tokens_move same_nft a.
Proof. by intros t f to n cx w u w' _ (b & ->)%token_transfer_keeps. Qed.

Lemma set_defaulted_effect c a id cx w w' :
  nft_set_defaulted c a id cx w = Ret tt w' -> restatus (with_status Defaulted) Funded id w w'.
Proof. intros H. restatus H. Qed.

Lemma record_default_same_nft c a s cx w o w' :
  honest cx -> rr_try_record_default c a s cx w = Ret o w' -> same_nft w w'.
Proof.
  intros Hh. assert (Writes RiskRegistry.DataKey.t same_nft) by done.
  eapply (try_record_default_moves same_nft (fun _ => True)); [done| |by split].
  apply (registry_covered same_nft REGISTRY), token_same_nft.
Qed.

Lemma default_books a id t cx w w' :
  honest cx -> FinancingPool.mark_default a id t cx w = Ret tt w' ->
  restatus (with_status Defaulted) Funded id w w'.
Proof.
  intros Hh H. autounfold with financing_pool in H. minv H. all: learn_views.
  all: repeat match goal with
  | u : unit |- _ => destruct u
  | H : FinancingPool.distribute_yield _ _ _ _ _ _ = Ret _ _ |- _ =>
      apply (distribute_same_nft _ _ _ _ _ _ _ _ Hh) in H
  | H : rr_try_record_default _ _ _ _ _ = Ret _ _ |- _ =>
      apply (record_default_same_nft _ _ _ _ _ _ _ Hh) in H
  | H : nft_set_defaulted _ _ _ _ _ = Ret _ _ |- _ => apply set_defaulted_effect in H
  end.
  all: unfold restatus, same_nft, InvoiceNft.slot in *; cbn in *.
  all: repeat match goal with
    | E : w_nft _ = w_nft _ |- _ => rewrite E in *; clear E end; done.
Qed.

(** Which invoices a call of the pool moves, and how. *)
Inductive pool_moves_slot (c : FinancingPool.Call) (id : u64) w w' : Prop :=
  | ps_same : slot w' id = slot w id -> pool_moves_slot c id w w'
  | ps_open m t cx : opened m id t cx w w' -> pool_moves_slot c id w w'
  | ps_settle : settled id w w' -> pool_moves_slot c id w w'
  | ps_default : restatus (with_status Defaulted) Funded id w w' -> pool_moves_slot c id w w'.

Lemma settled_others id w w' j : settled id w w' -> j <> id -> slot w' j = slot w j.
Proof.
  intros [(f & (i & _ & _ & _ & Ho) & _)|[En _]] Hj; [by apply Ho|].
  unfold InvoiceNft.slot, same_nft in *. cbn in *. by rewrite En.
Qed.

Lemma pool_slots c cx w w' id :
  honest cx -> FinancingPool.exec c cx w = Ret tt w' -> pool_moves_slot c id w w'.
Proof.
  intros Hh H. assert (Writes FinancingPool.DataKey.t same_nft) by done.
  assert (forall (m : M World unit), Moves same_nft (runs_at (cx_self cx)) m ->
    m cx w = Ret tt w' -> pool_moves_slot c id w w') as Hsame.
  { intros m Hm Hr. apply ps_same. unfold InvoiceNft.slot. cbn.
    by rewrite (Hm _ _ _ _ (conj eq_refl Hh) Hr). }
  pose proof (token_same_nft (cx_self cx)) as Ht.
  destruct c; try (refine (Hsame _ _ H); cbn [FinancingPool.exec]; autounfold with financing_pool; by moves).
  all: cbn [FinancingPool.exec] in H; destruct (decide (id = invoice_id)) as [->|Hj].
  - by eapply ps_open, release_effect.
  - apply ps_same. by apply (op_others _ _ _ _ _ _ (release_effect _ _ _ _ _ _ H)).
  - by eapply ps_settle, repay_settles.
  - apply ps_same. by eapply settled_others; [by eapply repay_settles|].
  - by eapply ps_default, default_books.
  - apply ps_same. destruct (default_books _ _ _ _ _ _ Hh H) as (i & _ & _ & _ & Ho). by apply Ho.
  - by eapply ps_settle, accept_settles.
  - apply ps_same. by eapply settled_others; [by eapply accept_settles|].
Qed.

(** The same for a call of the marketplace. *)
Inductive market_moves_slot (id : u64) w w' : Prop :=
  | ms_same : slot w' id = slot w id -> market_moves_slot id w w'
  | ms_open m t cx wl : same_books w wl -> opened m id t cx wl w' -> market_moves_slot id w w'
  | ms_list : restatus (with_status Listed) Created id w w' -> market_moves_slot id w w'.

Lemma market_slots c cx w w' id :
  honest cx -> Marketplace.exec c cx w = Ret tt w' -> market_moves_slot id w w'.
Proof.
  intros Hh H. assert (Writes Marketplace.DataKey.t same_nft) by done.
  assert (forall (m : M World unit), Moves same_nft (runs_at (cx_self cx)) m ->
    m cx w = Ret tt w' -> market_moves_slot id w w') as Hsame.
  { intros m Hm Hr. apply ms_same. unfold InvoiceNft.slot. cbn.
    by rewrite (Hm _ _ _ _ (conj eq_refl Hh) Hr). }
  pose proof (token_same_nft (cx_self cx)) as Ht.
  pose proof (load_config_moves same_nft (runs_at (cx_self cx))) as Hc.
  pose proof (flat_fee_moves same_nft (runs_at (cx_self cx))) as Hf.
  destruct c; try (refine (Hsame _ _ H); cbn [Marketplace.exec]; autounfold with marketplace; by moves).
  all: cbn [Marketplace.exec] in H; destruct (decide (id = invoice_id)) as [->|Hj].
  - by eapply ms_list, list_books.
  - apply ms_same. destruct (list_books _ _ _ _ _ _ _ _ _ _ H) as [(i & _ & _ & _ & Ho) _]. by apply Ho.
  - destruct (fund_books _ _ _ _ _ _ Hh H) as (l & _ & Hb). case_match.
    + destruct Hb as (wl & Hs & Ho). by eapply ms_open.
    + apply ms_same. unfold InvoiceNft.slot. cbn. by rewrite (proj1 Hb).
  - destruct (fund_books _ _ _ _ _ _ Hh H) as (l & _ & Hb). apply ms_same. case_match.
    + destruct Hb as (wl & [En _] & Ho). destruct (op_others _ _ _ _ _ _ Ho _ Hj) as [_ ->].
      unfold InvoiceNft.slot. cbn. by rewrite En.
    + unfold InvoiceNft.slot. cbn. by rewrite (proj1 Hb).
Qed.

(** The registry takes status changes from the pool contract only. *)
Definition wired w : Prop := forall a,
  iget (w_nft w) InvoiceNft.DataKey.FinancingPool = Some a -> a = POOL.

Definition wired_step w w' : Prop := sys_step w w' /\ wired w'.

Lemma wired_run w w' : rtc wired_step w w' -> rtc sys_step w w'.
Proof. apply rtc_subrel. by intros ?? []. Qed.

Lemma outsider_is_not a cx : from_outside cx -> a ∈ CONTRACTS -> authorized cx a = false.
Proof.
  intros [Hh Hs] Ha. unfold authorized. rewrite (Hh a Ha).
  destruct (cx_stack cx) as [|b l]; [done|]. rewrite orb_false_r. apply N.eqb_neq. intros ->.
  eapply Hs; [by left|done].
Qed.

Lemma closed_persists w w' id p :
  FinancingPool.reachable w -> rtc FinancingPool.step w w' -> pool_of w id = Some p ->
  exists p', pool_of w' id = Some p' /\ (p_is_closed p = true -> p_is_closed p' = true).
Proof.
  intros Hr Hs. revert p. induction Hs as [w|w w1 w2 Hs _ IH]; intros p Hp; [by exists p|].
  destruct (pool_step _ _ _ _ (fp_wf_reachable _ Hr) Hs Hp) as (p1 & H1 & _ & _ & _ & _ & _ & Hc1).
  destruct (IH (fp_step_reachable _ _ Hr Hs) _ H1) as (p2 & H2 & Hc2).
  exists p2. split; [done|]. intros Hc. apply Hc2. by rewrite (Hc1 Hc).
Qed.

(** A funded invoice has its pool, and a repaid one has it closed. *)
Definition status_ok w (id : u64) : Prop := forall i,
  slot w id = Some (StoredV2 i) -> 2 <= rank (inv_status i) ->
  exists p, pool_of w id = Some p /\ (inv_status i = Repaid -> p_is_closed p = true).

Section StatusStep.
Context (w w' : World) (Hr : sys_reachable w) (Hstep : sys_step w w') (Hok : forall id, status_ok w id).

Lemma status_same id : slot w' id = slot w id -> status_ok w' id.
Proof.
  intros Es i Hi Hrk. rewrite Es in Hi. destruct (Hok _ _ Hi Hrk) as (p & Hp & Hc).
  destruct (closed_persists w w' id p (sys_pool _ Hr) (pool_run _ _ (rtc_once _ _ Hstep)) Hp) as (p' & Hp' & Hc').
  exists p'. auto.
Qed.

Lemma status_opened m id t cx wl : opened m id t cx wl w' -> status_ok w' id.
Proof.
  intros [_ _ (i0 & l & _ & _ & _ & _ & Hp & Hs) _ _ _] i Hi _. rewrite Hs in Hi.
  injection Hi as <-. by eexists.
Qed.

Lemma status_settled id : settled id w w' -> status_ok w' id.
Proof.
  intros [(f & (i0 & _ & _ & Hi' & _) & _ & (p & Hp & Hc))|[En _]].
  - intros i _ _. exists p. auto.
  - apply status_same. unfold InvoiceNft.slot, same_nft in *. cbn in *. by rewrite En.
Qed.

Lemma status_defaulted id i0 :
  slot w id = Some (StoredV2 i0) -> inv_status i0 = Funded ->
  slot w' id = Some (StoredV2 (with_status Defaulted i0)) -> status_ok w' id.
Proof.
  intros Hi0 Es Hs i Hi _. rewrite Hs in Hi. injection Hi as <-.
  destruct (Hok _ _ Hi0) as (p & Hp & _); [by rewrite Es|].
  destruct (closed_persists w w' id p (sys_pool _ Hr) (pool_run _ _ (rtc_once _ _ Hstep)) Hp) as (p' & Hp' & _).
  by exists p'.
Qed.

Lemma status_listed id : restatus (with_status Listed) Created id w w' -> status_ok w' id.
Proof. intros (i0 & _ & _ & Hs & _) i Hi Hrk. rewrite Hs in Hi. by injection Hi as <-. Qed.

Lemma status_nft c cx id :
  wired w -> from_outside cx -> InvoiceNft.exec c cx w = Ret tt w' -> status_ok w' id.
Proof.
  intros Hw Ho H. pose proof (invoice_evolves _ _ _ _ id H) as Hl.
  assert (forall i, Some (StoredV2 i) = slot w' id -> inv_status i = Created \/ inv_status i = Listed ->
    status_ok w' id) as Hlow.
  { intros i E Hs j Hj. rewrite <- E in Hj. injection Hj as <-. by destruct Hs as [-> | ->]. }
  assert (forall p, iget (st_get w) InvoiceNft.DataKey.FinancingPool = Some p ->
    authorized cx p = true -> status_ok w' id) as Hpool.
  { intros p Hp Ha. rewrite (Hw p Hp) in Ha. rewrite outsider_is_not in Ha; [done|done|].
    by do 5 right; left. }
  inversion Hl; try (solve [eapply Hlow; [done|cbn; eauto]]); try (solve [by eapply Hpool]).
  - by apply status_same.
  - intros i' Hi'. congruence.
  - by eapply status_defaulted.
  - match goal with E : Some (StoredV1 _) = _ |- _ => symmetry in E;
      destruct (wf_slot _ (nft_wf_reachable _ (sys_nft _ Hr)) _ _ E) as (_ & ? & ? & _) end. done.
Qed.

Lemma status_pool c cx id :
  honest cx -> FinancingPool.exec c cx w = Ret tt w' -> status_ok w' id.
Proof.
  intros Hh H. destruct (pool_slots _ _ _ _ id Hh H) as [Es|m t cx' Ho|Hs|(i & Hi & Es & Hs & _)].
  - by apply status_same.
  - by eapply status_opened.
  - by apply status_settled.
  - by eapply status_defaulted.
Qed.

Lemma status_market c cx id :
  honest cx -> Marketplace.exec c cx w = Ret tt w' -> status_ok w' id.
Proof.
  intros Hh H. destruct (market_slots _ _ _ _ id Hh H) as [Es|m t cx' wl _ Ho|Hs].
  - by apply status_same.
  - by eapply status_opened.
  - by apply status_listed.
Qed.

Lemma status_other id : same_nft w w' -> status_ok w' id.
Proof. intros En. apply status_same. unfold InvoiceNft.slot, same_nft in *. cbn in *. by rewrite En. Qed.
End StatusStep.

Lemma status_step w w' id :
  sys_reachable w -> wired w -> (forall j, status_ok w j) -> sys_step w w' -> status_ok w' id.
Proof.
  intros Hr Hw Hok Hs. pose proof Hs as Hs0.
  assert (Writes AccessControl.DataKey.t same_nft) by done.
  assert (Writes PriceOracle.DataKey.t same_nft) by done.
  assert (Writes RiskRegistry.DataKey.t same_nft) by done.
  assert (Writes Treasury.DataKey.t same_nft) by done.
  destruct Hs as [c cx w Ha Ho Hty|t f to n cx w Ha Ho|t x n w Hn].
  - destruct (run_tx_cases (sys_exec c) cx w) as [E|([] & v & Hrun & E)]; rewrite E in *; [done|].
    assert (Hc : runs_at (sys_at c) cx) by (split; [done|by destruct Ho]).
    destruct Ho as [Hh Hst].
    destruct c as [c|c|c|c|c|c|c]; cbn [sys_exec sys_at] in *.
    + apply (status_other _ _ Hr Hs0 Hok).
      by apply (covers_run _ _ _ _ (access_covered same_nft ACCESS (fun _ => True)) c I cx w tt v).
    + apply (status_other _ _ Hr Hs0 Hok).
      by apply (covers_run _ _ _ _ (oracle_covered same_nft ORACLE (fun _ => True)) c I cx w tt v).
    + apply (status_other _ _ Hr Hs0 Hok).
      by apply (covers_run _ _ _ _ (registry_covered same_nft REGISTRY (fun _ => True) (token_same_nft _)) c I cx w tt v).
    + apply (status_other _ _ Hr Hs0 Hok).
      by apply (covers_run _ _ _ _ (treasury_covered same_nft TREASURY (fun _ => True) (token_same_nft _)) c I cx w tt v).
    + by apply (status_nft _ _ Hr Hs0 Hok c cx id Hw (conj Hh Hst)).
    + by apply (status_pool _ _ Hr Hs0 Hok c cx id Hh).
    + by apply (status_market _ _ Hr Hs0 Hok c cx id Hh).
  - apply (status_other _ _ Hr Hs0 Hok). unfold same_nft.
    destruct (run_tx_cases (tok_transfer t f to n) cx w) as [->|([] & v & E & ->)]; [done|].
    by apply token_transfer_keeps in E as (b & ->).
  - by apply (status_other _ _ Hr Hs0 Hok).
Qed.

Lemma status_run w0 w id : sys_deployed w0 -> rtc wired_step w0 w -> status_ok w id.
Proof.
  intros Hd Hs.
  assert (sys_reachable w0 /\ wired w0 /\ forall j, status_ok w0 j) as H0.
  { split_and!; [by exists w0| |]; destruct Hd.
    - intros a. by rewrite sd_nft.
    - intros j i. unfold InvoiceNft.slot. cbn. by rewrite sd_nft. }
  clear Hd. revert id. induction Hs as [w|w w1 w2 [Hs Hw1] _ IH]; intros id; [by apply H0|].
  apply IH. destruct H0 as (Hr & Hw & Hok). split_and!; [|done|].
  - eapply sys_reachable_steps; [done|by apply rtc_once].
  - intros j. by eapply status_step.
Qed.

(** ** Properties *)

(** C2: The books of the protocol agree, in every state the deployed contracts reach
    together: every pool stands for an invoice of the same face value that has been
    funded (Funded, Repaid or Defaulted), Repaid once the pool is closed; every
    listing stands for an invoice of its face value that has left Created, and a
    fully funded listing has its pool. *)
Theorem protocol_books_agree w :
  sys_reachable w ->
  (forall id p, pool_of w id = Some p -> pool_agrees w id p) /\
  (forall id l, listing_of w id = Some l -> listing_agrees w id l).
Proof.
  intros Hr. by destruct (sys_books _ Hr) as [[_ _ Hp] _ Hl].
Qed.

(** C4: As long as the registry takes status changes from the pool contract only, the
    status of an invoice is exactly the state of its pool: none while Created or
    Listed, an open one while Funded or Defaulted, a closed one once Repaid. *)
Theorem invoice_status_is_pool_state w0 w id i :
  sys_deployed w0 -> rtc wired_step w0 w -> slot w id = Some (StoredV2 i) ->
  match inv_status i with
  | Created | Listed => pool_of w id = None
  | Funded | Defaulted => exists p, pool_of w id = Some p /\ p_is_closed p = false
  | Repaid => exists p, pool_of w id = Some p /\ p_is_closed p = true
  end.
Proof.
  intros Hd Hs Hi.
  assert (Hr : sys_reachable w) by (exists w0; split; [done|by apply wired_run]).
  pose proof (mb_pool _ (sys_books _ Hr)) as [_ _ Ha].
  assert (forall p, pool_of w id = Some p -> 2 <= rank (inv_status i) /\
    (p_is_closed p = true -> inv_status i = Repaid)) as Hp.
  { intros p Hp. destruct (Ha _ _ Hp) as (i' & Hi' & _ & Hrk & Hc).
    assert (i' = i) as -> by congruence. done. }
  pose proof (status_run _ _ id Hd Hs i Hi) as Hok.
  assert (forall p, pool_of w id = Some p -> inv_status i <> Repaid -> p_is_closed p = false) as Hopen.
  { intros p Ep Hne. destruct (p_is_closed p) eqn:Ec; [|done]. by destruct (Hp p Ep) as [_ Hc], Hne, (Hc Ec). }
  destruct (inv_status i); cbn in *.
  1,2: destruct (pool_of w id) as [p|]; [|done]; destruct (Hp p eq_refl); lia.
  all: destruct (Hok ltac:(lia)) as (p & Ep & Hc); exists p; split; [done|]; by auto.
Qed.

(** The attestation the marketplace asks for is the one of the registry's profile. *)
Lemma attested_profile c s cx c0 w :
  rr_is_compliance_attested c s cx (Marketplace.configured c0 w) = Ret true (Marketplace.configured c0 w) ->
  exists p, RiskRegistry.profile w s = Some p /\ sp_compliance_attested p = true.
Proof.
  intros H%call_at_Ret. unfold RiskRegistry.is_compliance_attested, RiskRegistry.profile in *. minv H.
  assert (w_registry (Marketplace.configured c0 w) = w_registry w) as E
    by (unfold Marketplace.configured; by case_match).
  cbn in *. rewrite E in *. destruct (pget _ _) as [p|]; [by exists p|done].
Qed.

(** C25: A successful [list_invoice]: the seller authorized it, the protocol's risk
    registry has the seller attested, the token is whitelisted, the price is a true
    discount on the face value, the deadline is ahead and the invoice had no listing;
    the invoice registry held it as [Created] with that face value, holds it as
    [Listed] and otherwise unchanged afterwards, and no other invoice has changed; the
    listing is stored, active and unfunded, no other has changed, and the referrer is
    recorded and not the seller. (That the seller is the SME of the invoice is not
    checked.) *)
Theorem list_invoice_correct seller i asking face t d r cx w w' :
  Marketplace.list_invoice seller i asking face t d r cx w = Ret tt w' ->
  Marketplace.listed seller i asking face t d r cx w w' /\
  (exists p, RiskRegistry.profile w seller = Some p /\ sp_compliance_attested p = true) /\
  (exists inv, slot w i = Some (StoredV2 inv) /\ inv_status inv = Created /\ inv_amount inv = face /\
     slot w' i = Some (StoredV2 (with_status Listed inv))) /\
  forall j, j <> i -> slot w' j = slot w j.
Proof.
  intros H. destruct (list_books _ _ _ _ _ _ _ _ _ _ H) as [(inv & Hi & Hst & Hi' & Ho) (inv' & Hi2 & Ha)].
  assert (inv' = inv) as -> by congruence. apply Marketplace.list_invoice_effect in H.
  destruct (Marketplace.ld_attested _ _ _ _ _ _ _ _ _ _ H) as (c & _ & Hatt).
  split; [done|]. split; [by eapply attested_profile|]. split; [by exists inv|done].
Qed.

(** C5: Funding completes atomically across three contracts: the contribution that
    fills a listing opens, in the same transaction, the pool of the invoice, for its
    amount and in the listing's token, and takes the invoice from Listed to Funded;
    any other contribution leaves the pools and the invoices as they are. *)
Theorem funding_completion_is_atomic v id n cx w w' :
  runs_at MARKET cx -> Marketplace.fund_invoice v id n cx w = Ret tt w' ->
  exists l, listing_of w id = Some l /\
    if l_funded_amount l + n >=? l_asking_price l then
      exists i late,
        pool_of w id = None /\ slot w id = Some (StoredV2 i) /\ inv_status i = Listed /\
        iget (w_pool w) FinancingPool.DataKey.LatePenaltyBps = Some late /\
        pool_of w' id = Some (mkPool id (l_token l) 0 (inv_amount i) 0 false late (inv_amount i) false) /\
        slot w' id = Some (StoredV2 (with_funded_at (Some (cx_now cx)) (with_status Funded i))) /\
        (forall j, j <> id -> pool_of w' j = pool_of w j /\ slot w' j = slot w j)
    else w_nft w' = w_nft w /\ w_pool w' = w_pool w.
Proof.
  intros [_ Hh] H. destruct (fund_books _ _ _ _ _ _ Hh H) as (l & El & Hb). exists l.
  split; [done|]. case_match; [|done]. destruct Hb as (wl & [En Ep] & Ho).
  destruct Ho as [_ Hf (i & late & Ei & Es & _ & El' & Hp & Hs) Hj _ _].
  unfold FinancingPool.pool_of, InvoiceNft.slot in *. cbn in *. rewrite En, Ep in *.
  exists i, late. split_and!; try done.
Qed.

(** C37: [release_funds] does not check that its caller is the marketplace: once anyone
    has called it with success on a listing that is not full yet, no contribution
    that would fill the listing ever succeeds, whatever transactions follow. *)
Theorem premature_release_blocks_funding m id t cx w w1 w2 v n l cx2 w3 :
  sys_reachable w -> runs_at POOL cx -> from_outside cx ->
  FinancingPool.release_funds m id t cx w = Ret tt w1 -> rtc sys_step w1 w2 ->
  runs_at MARKET cx2 -> listing_of w2 id = Some l ->
  l_asking_price l <= l_funded_amount l + n ->
  Marketplace.fund_invoice v id n cx2 w2 <> Ret tt w3.
Proof.
  intros Hr [Ha _] Ho Hrel Hs [_ Hh] Hl Hn H.
  assert (sys_step w w1) as Hs1 by by apply (sys_ret (ToPool (FinancingPool.CReleaseFunds m id t)) cx).
  assert (is_Some (pool_of w2 id)) as [p Hp].
  { eapply pool_persists; [|by apply pool_run, Hs|].
    - apply sys_pool. eapply sys_reachable_steps; [done|by apply rtc_once].
    - apply release_effect in Hrel. destruct (op_invoice _ _ _ _ _ _ Hrel) as (? & ? & _ & _ & _ & _ & Ep & _).
      by eexists. }
  destruct (fund_books _ _ _ _ _ _ Hh H) as (l0 & El & Hb). assert (l0 = l) as -> by congruence.
  case_match; [|lia]. destruct Hb as (wl & [_ Ep] & [_ Hf _ _ _ _]).
  unfold FinancingPool.pool_of in *. cbn in *. congruence.
Qed.

(** A defaulted invoice stays so. *)
Lemma default_is_final w w' id i :
  sys_reachable w -> slot w id = Some (StoredV2 i) -> inv_status i = Defaulted ->
  rtc sys_step w w' -> slot w' id = Some (StoredV2 i).
Proof.
  intros Hr Ei Hst Hs.
  destruct (InvoiceNft.listed_invoices_run w w' id i (sys_nft _ Hr) (nft_run _ _ Hs) Ei ltac:(by rewrite Hst))
    as (i2 & E2 & _ & _ & Hf). rewrite Hst in Hf. by rewrite (Hf eq_refl) in E2.
Qed.

(** C35: A defaulted invoice strands its pool: [mark_default] leaves the pool open, but
    the invoice never leaves Defaulted again, so the pool never closes whatever
    transactions follow; repayments are still taken, and pay no investor any more. *)
Theorem defaulted_pools_are_stranded w w' id i :
  sys_reachable w -> slot w id = Some (StoredV2 i) -> inv_status i = Defaulted ->
  rtc sys_step w w' ->
  slot w' id = Some (StoredV2 i) /\
  (forall p, pool_of w' id = Some p -> p_is_closed p = false) /\
  forall payer t n cx w'', runs_at POOL cx -> from_outside cx ->
    FinancingPool.repay payer id t n cx w' = Ret tt w'' ->
    forall t' x, w_bal w'' t' x =
      if (t' =? t)%N then moved payer POOL x n (w_bal w' t' x) else w_bal w' t' x.
Proof.
  intros Hr Ei Hst Hs.
  assert (forall v p, rtc sys_step w v -> pool_of v id = Some p -> p_is_closed p = false) as Hopen.
  { intros v p Hwv Hp. pose proof (sys_reachable_steps _ _ Hr Hwv) as Hv.
    destruct (mb_pool _ (sys_books _ Hv)) as [_ _ Ha].
    destruct (Ha _ _ Hp) as (i' & Ei' & _ & _ & Hc). rewrite (default_is_final _ _ _ _ Hr Ei Hst Hwv) in Ei'.
    injection Ei' as <-. destruct (p_is_closed p); [|done]. by specialize (Hc eq_refl); rewrite Hst in Hc. }
  pose proof (sys_reachable_steps _ _ Hr Hs) as Hr'. split_and!.
  - exact (default_is_final _ _ _ _ Hr Ei Hst Hs).
  - intros p. by apply Hopen.
  - intros payer t n cx w'' [Hself Hh] Ho H.
    assert (sys_step w' w'') as Hs1 by by apply (sys_ret (ToPool (FinancingPool.CRepay payer id t n)) cx).
    pose proof (FinancingPool.fp_wf_reachable _ (sys_pool _ Hr')) as Hwf.
    apply FinancingPool.repay_effect in H as
      (p & nft & inv & eff & wl & _ & _ & _ & _ & _ & _ & _ & _ & _ & _ & _ & _ & Hp' & _ & Hb);
      [|by apply FinancingPool.late_ok_wf|by apply FinancingPool.shares_of_wf].
    assert (p_is_closed (FinancingPool.repaid_pool (cx_now cx) (inv_due_date inv) eff p) = false) as Hc.
    { apply (Hopen w''); [by eapply rtc_r|done]. }
    intros t' x. specialize (Hb t' x). cbn in Hb. rewrite Hb, Hc, Hself.
    destruct (N.eqb_spec t' t) as [->|]; [lia|done].
Qed.

(** C38: No refund is ever paid by the deployed protocol: [claim_refund] moves tokens out
    of the financing pool's address, which only the pool can authorize and which it
    never does; with the pool stored in the config a contract of the protocol, every
    [claim_refund] fails. *)
Theorem refunds_are_never_paid x id cfg cx w w' :
  runs_at MARKET cx -> Marketplace.config_of w = Some cfg ->
  mc_financing_pool cfg ∈ CONTRACTS -> mc_financing_pool cfg <> MARKET ->
  Marketplace.claim_refund x id cx w <> Ret tt w'.
Proof.
  intros [Ha Hh] Hc Hp Hm H. autounfold with marketplace in H. minv H; learn_config.
  all: match goal with H : tok_transfer _ _ _ _ _ _ = Ret _ _ |- _ =>
    apply (tok_transfer_auth (W:=World)) in H end.
  all: assert (x7 = cfg) as ->
    by (unfold Marketplace.config_of, Marketplace.legacy_config in *; cbn in *; store_facts; congruence).
  all: rewrite (Hh _ Hp) in *; destruct E6; congruence.
Qed.
