(* ===== verification/Custody.v ===== *)
(** * Custody: who can take tokens out of the protocol's contracts

    The financing pool, the treasury and the risk registry hold tokens of others.
    Whatever transaction the protocol runs, with all the calls between contracts it
    makes, each of them keeps what it holds, unless the transaction is one of seven
    calls, made by whom and paying whom the contract owes. *)

From S2P Require Import Prelude Errors SortedMap Types Host Events Reentrancy Validation Interfaces AuditLog Moves AccessControl PriceOracle RiskRegistry Treasury InvoiceNft FinancingPool Marketplace World System Protocol.

Implicit Types (cx : Ctx) (w : World).

Definition HOLDERS : list Address := [POOL; TREASURY; REGISTRY].

Lemma holder_contract b : b ∈ HOLDERS -> b ∈ CONTRACTS.
Proof. unfold HOLDERS, CONTRACTS. rewrite !elem_of_cons. intuition. Qed.

Definition keeps_funds (b : Address) w w' : Prop := forall t, w_bal w t b <= w_bal w' t b.

#[export] Instance keeps_funds_po b : PreOrder (keeps_funds b).
Proof. split; [by intros w t|]. intros w1 w2 w3 H1 H2 t. specialize (H1 t). specialize (H2 t). lia. Qed.
#[export] Instance keeps_funds_emits b : Emits (keeps_funds b).
Proof. by intros e w t. Qed.

Lemma writes_keep b {K} `{StorageKey K} `{!HasStorage World K} :
  (forall (s : Storage K) w, w_bal (st_put s w) = w_bal w) ->
  (forall (f : K -> u32) w, w_bal (st_keep f w) = w_bal w) -> Writes K (keeps_funds b).
Proof. intros E E'. apply writes_intro; intros ? w t; [by rewrite E|by rewrite E']. Qed.
#[export] Instance access_writes_keep b : Writes AccessControl.DataKey.t (keeps_funds b).
Proof. by apply writes_keep. Qed.
#[export] Instance oracle_writes_keep b : Writes PriceOracle.DataKey.t (keeps_funds b).
Proof. by apply writes_keep. Qed.
#[export] Instance registry_writes_keep b : Writes RiskRegistry.DataKey.t (keeps_funds b).
Proof. by apply writes_keep. Qed.
#[export] Instance treasury_writes_keep b : Writes Treasury.DataKey.t (keeps_funds b).
Proof. by apply writes_keep. Qed.
#[export] Instance nft_writes_keep b : Writes InvoiceNft.DataKey.t (keeps_funds b).
Proof. by apply writes_keep. Qed.
#[export] Instance pool_writes_keep b : Writes FinancingPool.DataKey.t (keeps_funds b).
Proof. by apply writes_keep. Qed.
#[export] Instance market_writes_keep b : Writes Marketplace.DataKey.t (keeps_funds b).
Proof. by apply writes_keep. Qed.

Section Quiet.
Context (b : Address) (Hb : b ∈ CONTRACTS).

Lemma others_spare a : a <> b -> tokens_move (keeps_funds b) a.
Proof.
  intros Ha t f to n cx w u w' Hc H t'. exact (transfer_spares a t f to n cx w u w' b Hc Ha Hb H t').
Qed.

(** The calls of a contract that transfer no tokens out of, or into, its balance. *)
Definition registry_quiet (c : RiskRegistry.Call) : Prop :=
  match c with RiskRegistry.CAddVerifier _ _ _ | RiskRegistry.CRemoveVerifier _ _ => b <> REGISTRY | _ => True end.
Definition treasury_quiet (c : Treasury.Call) : Prop :=
  match c with Treasury.CWithdraw _ _ _ _ | Treasury.CEmergencyWithdraw _ _ _ => b <> TREASURY | _ => True end.
Definition pool_quiet (c : FinancingPool.Call) : Prop :=
  match c with
  | FinancingPool.CRepay _ _ _ _ | FinancingPool.CMarkDefault _ _ _
  | FinancingPool.CProposeSettlement _ _ _ | FinancingPool.CAcceptSettlement _ _
  | FinancingPool.CCancelSettlement _ _ | FinancingPool.CBuyPosition _ _ _ => b <> POOL
  | _ => True
  end.

Lemma registry_keeps : covers (keeps_funds b) REGISTRY registry_quiet RiskRegistry.exec.
Proof.
  destruct (decide (b = REGISTRY)) as [Heq|Hne].
  - split. intros c Hc. destruct c; try (by destruct (Hc Heq)); cbn [RiskRegistry.exec]; autounfold with risk_registry;
      unfold RiskRegistry.append_audit_entry, RiskRegistry.require_cooldown; moves.
  - apply registry_covered; try apply _. by apply others_spare.
Qed.

Lemma nft_keeps : covers (keeps_funds b) NFT (fun _ => True) InvoiceNft.exec.
Proof. apply (nft_covered (keeps_funds b)) with (okR := registry_quiet); try apply _; [done|apply registry_keeps]. Qed.

Lemma treasury_keeps : covers (keeps_funds b) TREASURY treasury_quiet Treasury.exec.
Proof.
  destruct (decide (b = TREASURY)) as [Heq|Hne].
  - split. intros c Hc. destruct c; try (by destruct (Hc Heq)); cbn [Treasury.exec]; autounfold with treasury;
      unfold Treasury.append_audit_entry; moves.
  - apply treasury_covered; try apply _. by apply others_spare.
Qed.

Lemma pool_keeps : covers (keeps_funds b) POOL pool_quiet FinancingPool.exec.
Proof.
  destruct (decide (b = POOL)) as [Heq|Hne].
  - pose proof (set_funded_moves (keeps_funds b) nft_keeps POOL) as Hf.
    split. intros c Hc. destruct c; try (by destruct (Hc Heq)); cbn [FinancingPool.exec]; autounfold with financing_pool; moves.
  - eapply pool_covered with (okR := registry_quiet);
      [apply _|apply _|done|apply registry_keeps|apply nft_keeps|apply _|by apply others_spare].
Qed.

Lemma market_keeps : b <> MARKET -> covers (keeps_funds b) MARKET (fun _ => True) Marketplace.exec.
Proof.
  intros Hne. eapply market_covered with (okT := treasury_quiet) (okP := pool_quiet);
    [apply _|apply _|apply nft_keeps|done|apply treasury_keeps|done|apply pool_keeps|apply _|by apply others_spare].
Qed.

Definition quiet (c : SysCall) : Prop :=
  match c with
  | ToRegistry c => registry_quiet c
  | ToTreasury c => treasury_quiet c
  | ToPool c => pool_quiet c
  | _ => True
  end.

Lemma quiet_keeps c cx w w' :
  b <> MARKET -> quiet c -> runs_at (sys_at c) cx -> sys_exec c cx w = Ret tt w' -> keeps_funds b w w'.
Proof.
  intros Hm Hq Ha H. destruct c as [c|c|c|c|c|c|c]; cbn [sys_at sys_exec quiet] in *.
  - by eapply (covers_run _ _ _ _ (access_covered (keeps_funds b) ACCESS (fun _ => True)) c).
  - by eapply (covers_run _ _ _ _ (oracle_covered (keeps_funds b) ORACLE (fun _ => True)) c).
  - by eapply (covers_run _ _ _ _ registry_keeps c).
  - by eapply (covers_run _ _ _ _ treasury_keeps c).
  - by eapply (covers_run _ _ _ _ nft_keeps c).
  - by eapply (covers_run _ _ _ _ pool_keeps c).
  - by eapply (covers_run _ _ _ _ (market_keeps Hm) c).
Qed.
End Quiet.

(** ** The calls that pay *)

(** Whoever is paid is paid in [t], for its position in the pool of [id], and at most
    its share of what the pool has recorded as repaid. *)
Definition yields (id : u64) (t : Address) w w' : Prop :=
  exists p, FinancingPool.pool_of w' id = Some p /\
    forall t' x, x <> POOL -> w_bal w t' x < w_bal w' t' x ->
      t' = t /\ exists pos, map_get x (FinancingPool.positions_of w id) = Some pos /\
        w_bal w' t x <= w_bal w t x + FinancingPool.payout (p_repaid_amount p) (w_dec w t) pos.

(** [b] pays [n] of [t] to [x], and no other balance of any token changes. *)
Definition pays_out (b x t : Address) (n : Z) w w' : Prop :=
  forall t' y, w_bal w' t' y = if (t' =? t)%N then moved b x y n (w_bal w t' y) else w_bal w t' y.

Lemma pays_out_loses b x t n w w' u :
  pays_out b x t n w w' -> w_bal w' u b < w_bal w u b -> u = t /\ x <> b.
Proof.
  intros H Hl. rewrite H in Hl. destruct (N.eqb_spec u t) as [->|]; [|lia]. split; [done|].
  intros ->. unfold moved in Hl. rewrite N.eqb_refl in Hl. lia.
Qed.

(** Whom the contract [b] pays tokens [t] to in a call, how much, and on whose authority. *)
Definition pays (c : SysCall) (b t : Address) cx w w' : Prop :=
  match c with
  | ToPool (FinancingPool.CRepay _ id t' _) | ToPool (FinancingPool.CMarkDefault _ id t') =>
      b = POOL /\ t = t' /\ yields id t w w'
  | ToPool (FinancingPool.CAcceptSettlement _ id) =>
      b = POOL /\ yields id t w w'
  | ToPool (FinancingPool.CCancelSettlement s id) =>
      b = POOL /\ exists o i, FinancingPool.settlement_of w id = Some o /\
        slot w id = Some (StoredV2 i) /\ inv_sme i = s /\ authorized cx s = true /\
        pays_out POOL s t (es_amount o) w w'
  | ToTreasury (Treasury.CWithdraw a t' r n) =>
      b = TREASURY /\ t = t' /\ pget (w_treasury w) Treasury.DataKey.Admin = Some a /\
      authorized cx a = true /\ pays_out TREASURY r t n w w'
  | ToTreasury (Treasury.CEmergencyWithdraw a t' r) =>
      b = TREASURY /\ t = t' /\ pget (w_treasury w) Treasury.DataKey.Admin = Some a /\
      authorized cx a = true /\ pays_out TREASURY r t (w_bal w t TREASURY) w w'
  | ToRegistry (RiskRegistry.CRemoveVerifier a v) =>
      b = REGISTRY /\ pget (w_registry w) RiskRegistry.DataKey.Admin = Some a /\
      authorized cx a = true /\ RiskRegistry.staking_token w = Some t /\
      pays_out REGISTRY v t (RiskRegistry.stake_of w v) w w'
  | _ => False
  end.

Lemma outsider cx x : from_outside cx -> authorized cx x = true -> ~ x ∈ CONTRACTS.
Proof.
  intros [Hh Hs] Ha Hx. specialize (Hh x Hx). unfold authorized in Ha.
  destruct (cx_stack cx) as [|y l]; [congruence|]. rewrite Hh, orb_false_r in Ha.
  apply N.eqb_eq in Ha as ->. by eapply Hs; [left|].
Qed.

(** A transfer from an outsider takes from no contract. *)
Lemma moved_spares from to n v b :
  0 <= n -> from <> b -> v <= moved from to b n v.
Proof. intros Hn Hf. unfold moved. repeat case_match; rewrite ?N.eqb_eq in *; subst; lia || done. Qed.

Lemma moved_loses from to n v b : moved from to b n v < v -> 0 <= n -> b = from.
Proof. intros Hl Hn. destruct (decide (from = b)); [done|]. pose proof (moved_spares from to n v b Hn). lia. Qed.

(** Balances that are, but for what a payer gave, those of a distribution. *)
Lemma yields_intro id t p w w' :
  FinancingPool.pool_of w' id = Some p ->
  (forall t' x, x <> POOL -> w_bal w t' x < w_bal w' t' x -> w_bal w' t' x <= w_bal w t' x +
    (if (t' =? t)%N
     then FinancingPool.paid_to (p_repaid_amount p) (w_dec w t) x
            (entries (FinancingPool.positions_of w id)) else 0)) ->
  yields id t w w'.
Proof.
  intros Hp H. exists p. split; [done|]. intros t' x Hx Hgain. specialize (H t' x Hx Hgain).
  destruct (N.eqb_spec t' t) as [->|]; [|lia]. split; [done|].
  rewrite FinancingPool.paid_to_position in H by apply entries_sorted.
  unfold map_get. destruct (raw_get x _) as [pos|]; cbn in H; [by exists pos|lia].
Qed.

Lemma distributed_yields id t p cx w w' :
  cx_self cx = POOL -> FinancingPool.pool_of w' id = Some p ->
  FinancingPool.distributed id t (p_repaid_amount p) cx w w' -> yields id t w w'.
Proof.
  intros Hself Hp Hd. apply yields_intro with (p := p); [done|]. intros t' x Hx _.
  specialize (Hd t' x). cbn in Hd. rewrite Hd, Hself.
  destruct (t' =? t)%N; [|lia]. destruct (N.eqb_spec x POOL); [done|lia].
Qed.

Lemma distributed_token id t total cx w w' x t' :
  FinancingPool.distributed id t total cx w w' -> w_bal w' t' x <> w_bal w t' x -> t' = t.
Proof. intros Hd Hne. specialize (Hd t' x). cbn in Hd. rewrite Hd in Hne. by destruct (N.eqb_spec t' t). Qed.

(** ** Call by call *)

Section Calls.
Context (cx : Ctx) (w w' : World) (t : Address).
Context (Hr : sys_reachable w) (Ho : from_outside cx).

Lemma not_contract a x : a ∈ CONTRACTS -> authorized cx x = true -> x <> a.
Proof. intros Ha Hx ->. by eapply outsider. Qed.

Lemma pool_in : POOL ∈ CONTRACTS.
Proof. unfold CONTRACTS. rewrite !elem_of_cons. intuition. Qed.
Lemma treasury_in : TREASURY ∈ CONTRACTS.
Proof. unfold CONTRACTS. rewrite !elem_of_cons. intuition. Qed.

Lemma repay_custody payer id u n :
  cx_self cx = POOL -> FinancingPool.repay payer id u n cx w = Ret tt w' ->
  w_bal w' t POOL < w_bal w t POOL -> t = u /\ yields id u w w'.
Proof.
  intros Hself H Hl. pose proof (FinancingPool.fp_wf_reachable _ (sys_pool _ Hr)) as Hwf.
  apply FinancingPool.repay_effect in H as
    (p & nft & inv & eff & wl & _ & _ & _ & Hau & Hn & _ & _ & _ & _ & _ & _ & _ & Hp' & _ & Hb);
    [|by apply FinancingPool.late_ok_wf|by apply FinancingPool.shares_of_wf].
  pose proof (not_contract POOL payer pool_in Hau) as Hne. rewrite <- Hself in *. split.
  - specialize (Hb t (cx_self cx)). cbn in Hb. by destruct (N.eqb_spec t u); [|lia].
  - apply yields_intro with (1 := Hp'). intros t' x Hx Hgain. specialize (Hb t' x). cbn in Hb.
    destruct (N.eqb_spec t' u) as [->|]; [|lia]. rewrite Hb in Hgain |- *. unfold moved in *.
    rewrite Hself in *. destruct (N.eqb_spec x POOL); [done|]. repeat case_match; lia.
Qed.

Lemma default_custody a id u :
  cx_self cx = POOL -> FinancingPool.mark_default a id u cx w = Ret tt w' ->
  w_bal w' t POOL < w_bal w t POOL -> t = u /\ yields id u w w'.
Proof.
  intros Hself H Hl. apply (FinancingPool.default_pays _ _ _ _ _ _ (sys_pool _ Hr)) in H
    as (p & _ & Hp' & [Hd|Hb]).
  - split; [|by eapply distributed_yields]. eapply (distributed_token _ _ _ _ _ _ POOL); [done|lia].
  - specialize (Hb t POOL). cbn in Hb. lia.
Qed.

Lemma accept_custody v id :
  cx_self cx = POOL -> FinancingPool.accept_early_settlement v id cx w = Ret tt w' ->
  w_bal w' t POOL < w_bal w t POOL -> yields id t w w'.
Proof.
  intros Hself H Hl. apply (FinancingPool.accept_effect _ _ _ _ _ (sys_pool _ Hr)) in H
    as (o & p & pos & _ & _ & _ & _ & _ & _ & _ & [(_ & _ & _ & Hb)|(_ & _ & Hp' & Hd)]).
  - specialize (Hb t POOL). cbn in Hb. lia.
  - assert (t = p_token p) as -> by (eapply (distributed_token _ _ _ _ _ _ POOL); [done|lia]).
    by eapply distributed_yields.
Qed.

Lemma cancel_custody s id :
  cx_self cx = POOL -> FinancingPool.cancel_early_settlement s id cx w = Ret tt w' ->
  w_bal w' t POOL < w_bal w t POOL ->
  exists o i, FinancingPool.settlement_of w id = Some o /\
    slot w id = Some (StoredV2 i) /\ inv_sme i = s /\ authorized cx s = true /\
    pays_out POOL s t (es_amount o) w w'.
Proof.
  intros Hself (o & p & nft & i & Eo & _ & Hau & Hi & Hs & Hb)%FinancingPool.cancel_pays Hl.
  apply get_invoice_effect in Hi as [Hi _]. rewrite Hself in Hb.
  change (pays_out POOL s (p_token p) (es_amount o) w w') in Hb.
  destruct (pays_out_loses _ _ _ _ _ _ _ Hb Hl) as [-> _]. by exists o, i.
Qed.

(** What a call takes from an outsider. *)
Lemma payment_spares b x y n tk :
  b ∈ CONTRACTS -> authorized cx x = true -> 0 <= n ->
  (forall t x', w_bal w' t x' = if (t =? tk)%N then moved x y x' n (w_bal w t x') else w_bal w t x') ->
  w_bal w t b <= w_bal w' t b.
Proof.
  intros Hb Hau Hn H. rewrite H. destruct (t =? tk)%N; [|done]. apply moved_spares; [done|].
  by apply not_contract.
Qed.

Lemma remove_custody a v :
  cx_self cx = REGISTRY -> RiskRegistry.remove_verifier a v cx w = Ret tt w' ->
  w_bal w' t REGISTRY < w_bal w t REGISTRY ->
  pget (w_registry w) RiskRegistry.DataKey.Admin = Some a /\ authorized cx a = true /\
  RiskRegistry.staking_token w = Some t /\ pays_out REGISTRY v t (RiskRegistry.stake_of w v) w w'.
Proof.
  intros Hself (Ha & Hau & [Hb|(u & Eu & Hs & Hb)])%RiskRegistry.remove_verifier_pays Hl;
    [specialize (Hb t REGISTRY); cbn in Hb; lia|]. rewrite Hself in Hb.
  change (pays_out REGISTRY v u (RiskRegistry.stake_of w v) w w') in Hb.
  by destruct (pays_out_loses _ _ _ _ _ _ _ Hb Hl) as [-> _].
Qed.

Lemma withdraw_custody a u r n :
  cx_self cx = TREASURY -> Treasury.withdraw a u r n cx w = Ret tt w' ->
  w_bal w' t TREASURY < w_bal w t TREASURY ->
  t = u /\ pget (w_treasury w) Treasury.DataKey.Admin = Some a /\ authorized cx a = true /\
  pays_out TREASURY r t n w w'.
Proof.
  intros Hself (Ha & Hau & _ & _ & _ & _ & _ & Hb)%Treasury.withdraw_effect Hl. rewrite Hself in Hb.
  change (pays_out TREASURY r u n w w') in Hb.
  by destruct (pays_out_loses _ _ _ _ _ _ _ Hb Hl) as [-> _].
Qed.

(** Everything the treasury holds of the token leaves. *)
Lemma emergency_custody a u r :
  cx_self cx = TREASURY -> Treasury.emergency_withdraw a u r cx w = Ret tt w' ->
  w_bal w' t TREASURY < w_bal w t TREASURY ->
  t = u /\ pget (w_treasury w) Treasury.DataKey.Admin = Some a /\ authorized cx a = true /\
  pays_out TREASURY r t (w_bal w t TREASURY) w w'.
Proof.
  intros Hself (Ha & Hau & _ & Hb)%Treasury.emergency_effect Hl. rewrite Hself in Hb.
  change (pays_out TREASURY r u (Z.max 0 (w_bal w u TREASURY)) w w') in Hb.
  destruct (pays_out_loses _ _ _ _ _ _ _ Hb Hl) as [-> Hr'].
  assert (Z.max 0 (w_bal w u TREASURY) = w_bal w u TREASURY) as <-; [|done].
  rewrite Hb, N.eqb_refl in Hl. unfold moved in Hl. rewrite N.eqb_refl in Hl. case_match; lia.
Qed.
End Calls.

Lemma quiet_dec b c : quiet b c \/
  match c with
  | ToRegistry (RiskRegistry.CAddVerifier _ _ _ | RiskRegistry.CRemoveVerifier _ _) => b = REGISTRY
  | ToTreasury (Treasury.CWithdraw _ _ _ _ | Treasury.CEmergencyWithdraw _ _ _) => b = TREASURY
  | ToPool (FinancingPool.CRepay _ _ _ _ | FinancingPool.CMarkDefault _ _ _
    | FinancingPool.CProposeSettlement _ _ _ | FinancingPool.CAcceptSettlement _ _
    | FinancingPool.CCancelSettlement _ _ | FinancingPool.CBuyPosition _ _ _) => b = POOL
  | _ => False
  end.
Proof.
  destruct c as [c|c|c|c|c|c|c]; try (by left); destruct c; try (by left); cbn;
    first [destruct (decide (b = REGISTRY)); tauto | destruct (decide (b = TREASURY)); tauto
          | destruct (decide (b = POOL)); tauto].
Qed.

(** ** Property *)

(** C7: Custody: the financing pool, the treasury and the risk registry keep every
    token they hold through every transaction of the protocol, with all the calls
    between contracts it makes, except these: in a repayment, a default or a settlement
    of an invoice the pool pays the holders of positions in it, and no one else, each at
    most its share of what the pool recorded as repaid; it returns an escrow, exactly,
    to the SME of the invoice, who cancels its offer; the treasury pays exactly the
    amount its admin withdraws, or in an emergency all it holds of a token, to the
    recipient the admin names; and the registry, on its admin's authority, returns
    exactly the stake of a removed verifier to that verifier. In all but the payments to
    holders, no other balance of any token changes. *)
Theorem contracts_pay_only_whom_they_owe c cx w w' b t :
  sys_reachable w -> from_outside cx -> cx_self cx = sys_at c ->
  sys_exec c cx w = Ret tt w' -> b ∈ HOLDERS -> w_bal w' t b < w_bal w t b ->
  pays c b t cx w w'.
Proof.
  intros Hr Ho Hself H Hb Hl. pose proof (holder_contract b Hb) as Hbc.
  assert (b <> MARKET) as Hm by (intros ->; by apply elem_of_cons in Hb as [?|[?|[?|?%not_elem_of_nil]%elem_of_cons]%elem_of_cons]).
  destruct (quiet_dec b c) as [Hq|Hloud].
  { pose proof (quiet_keeps b Hbc c cx w w' Hm Hq (conj Hself (proj1 Ho)) H t). lia. }
  destruct c as [c|c|c|c|c|c|c]; try done; destruct c; try done; subst b; cbn in Hself, H.
  - apply RiskRegistry.add_verifier_moves in H as (u & _ & _ & Hn & _ & _ & Hbal).
    specialize (Hbal t). cbn in Hbal. rewrite Hself in Hbal. case_match; lia.
  - split; [done|]. by apply (remove_custody cx).
  - split; [done|]. by apply (withdraw_custody cx).
  - split; [done|]. by apply (emergency_custody cx).
  - by destruct (repay_custody cx w w' t Hr Ho payer invoice_id token amount Hself H Hl) as [-> ?].
  - by destruct (default_custody cx w w' t Hr admin invoice_id token Hself H Hl) as [-> ?].
  - apply FinancingPool.propose_pays in H as (p & _ & Hau & Hn & Hbal).
    pose proof (payment_spares cx w w' t Ho POOL _ _ _ _ pool_in Hau Hn Hbal). lia.
  - split; [done|]. by eapply (accept_custody cx).
  - split; [done|]. by apply (cancel_custody cx w w' t sme).
  - apply FinancingPool.buy_effect in H as (o & pos & _ & Hau & _ & _ & _ & _ & Hn & Hbal).
    pose proof (payment_spares cx w w' t Ho POOL _ _ _ _ pool_in Hau Hn Hbal). lia.
Qed.
