(* ===== verification/Progress.v ===== *)
(** * Progress: what the users of the protocol can bring about

    The other files say what a transaction that returns [Ok] has done. Here it is
    shown that the transactions the protocol exists for do return [Ok]. The records
    [can_fund], [can_repay] and [can_settle] list what that needs of a state the
    protocol reaches, with its contracts wired to one another and running: among
    others an invoice that no one has funded early, defaulted or frozen, and amounts
    and decimals for which no share overflows. Under them an open listing can be
    filled, its pool can be repaid, and two transactions end with the invoice Repaid. *)

From S2P Require Import Prelude Errors SortedMap Types Host Events Reentrancy Validation Interfaces AuditLog Moves Succeeds AccessControl PriceOracle RiskRegistry Treasury InvoiceNft FinancingPool Marketplace World System Protocol.

Implicit Types (cx : Ctx) (w : World).

(** ** The circumstances *)

(** A transaction of the user [v], calling the contract at [a]. *)
Record user_tx (a v : Address) cx : Prop := {
  ut_self : cx_self cx = a;
  ut_stack : cx_stack cx = [];
  ut_signed : cx_signed cx v = true;
  ut_honest : honest cx }.

Definition sys_paused w : bool := default false (iget (st_get w) AccessControl.DataKey.Paused).
Definition frozen w (id : u64) : bool :=
  default false (pget (st_get w) (InvoiceNft.DataKey.InvoiceFrozen id)).

(** The pool and the registry know one another, and the protocol is not paused. *)
Record wired w : Prop := {
  wi_running : sys_paused w = false;
  wi_nft_access : iget (st_get w) InvoiceNft.DataKey.AccessControl = Some ACCESS;
  wi_nft_pool : iget (st_get w) InvoiceNft.DataKey.FinancingPool = Some POOL;
  wi_pool_access : iget (st_get w) FinancingPool.DataKey.AccessControl = Some ACCESS;
  wi_pool_nft : iget (st_get w) FinancingPool.DataKey.InvoiceNft = Some NFT;
  wi_pool_oracle : iget (st_get w) FinancingPool.DataKey.PriceOracle = Some ORACLE;
  wi_pool_late : is_Some (iget (st_get w) FinancingPool.DataKey.LatePenaltyBps) }.

(** The marketplace knows the others. *)
Record market_wired w : Prop := {
  wm_access : iget (st_get w) Marketplace.DataKey.AccessControl = Some ACCESS;
  wm_config : exists c, iget (st_get w) Marketplace.DataKey.Config = Some c /\
    mc_invoice_nft c = NFT /\ mc_financing_pool c = POOL /\ mc_treasury c = TREASURY }.

(** No contract on the call stack is the one at [a]: the host lets it be called. *)
Definition callable (a : Address) cx : Prop := list_mem a (cx_self cx :: cx_stack cx) = false.

Lemma callable_user a b v cx : user_tx a v cx -> b <> a -> callable b cx.
Proof.
  intros [<- Hst _ _] Hne. apply list_mem_false. rewrite Hst, elem_of_cons, elem_of_nil. intuition.
Qed.

Lemma callable_callee a b cx : callable b cx -> b <> a -> callable b (callee_ctx a cx).
Proof.
  intros H%list_mem_false Hne. apply list_mem_false. by apply not_elem_of_cons.
Qed.

Lemma user_outside a v cx : user_tx a v cx -> from_outside cx.
Proof. intros [_ Hst _ Hh]. split; [done|]. rewrite Hst. by intros b ?%elem_of_nil. Qed.

Lemma user_authorized a v cx : user_tx a v cx -> authorized cx v = true.
Proof. intros [_ Hst Hs _]. unfold authorized. by rewrite Hst. Qed.

Lemma self_authorized a cx : authorized (callee_ctx a cx) (cx_self cx) = true.
Proof. unfold authorized. cbn. by rewrite N.eqb_refl. Qed.

(** ** Calls between the contracts *)

Lemma call_at_run {A} a (m : M World A) cx w x w' :
  callable a cx -> m (callee_ctx a cx) w = Ret x w' -> call_at a a m cx w = Ret x w'.
Proof. unfold callable, call_at, call. intros Hc E. by rewrite N.eqb_refl, Hc, E. Qed.

Lemma call_at_succeeds {A} a (m : M World A) cx w :
  callable a cx -> succeeds m (callee_ctx a cx) w -> succeeds (call_at a a m) cx w.
Proof. intros Hc (x & w' & E). exists x, w'. by apply call_at_run. Qed.

Lemma paused_run cx w : callable ACCESS cx -> ac_is_paused ACCESS cx w = Ret (sys_paused w) w.
Proof. intros Hc. by apply call_at_run. Qed.
Lemma frozen_run id cx w : callable NFT cx -> nft_is_invoice_frozen NFT id cx w = Ret (frozen w id) w.
Proof. intros Hc. by apply call_at_run. Qed.
Lemma invoice_run id i cx w :
  callable NFT cx -> slot w id = Some (StoredV2 i) -> nft_get_invoice NFT id cx w = Ret i w.
Proof.
  intros Hc Hi. apply call_at_run; [done|]. unfold InvoiceNft.get_invoice, InvoiceNft.load_invoice.
  exact (bind_run _ _ _ _ _ _ (persistent_get_or_run (InvoiceNft.DataKey.Invoice id) _ _ _ _ Hi)).
Qed.

(** *** The registry's transitions *)

Lemma nft_running_run cx w :
  sys_paused w = false -> iget (st_get w) InvoiceNft.DataKey.AccessControl = Some ACCESS ->
  callable ACCESS cx -> InvoiceNft.require_not_paused cx w = Ret tt w.
Proof.
  intros Hp Hac Hc. unfold InvoiceNft.require_not_paused.
  run_walk. eapply run_step; [by apply paused_run|]. by apply fail_if_run.
Qed.

Lemma pool_caller_run a cx w :
  iget (st_get w) InvoiceNft.DataKey.FinancingPool = Some a ->
  require_authorized_caller a [financing_pool_key] cx w = Ret tt w.
Proof.
  intros H. cbn [require_authorized_caller]. unfold financing_pool_key.
  run_walk. by rewrite bool_decide_true.
Qed.

(** What a transition asks of the registry; only the registry and the pause count. *)
Record registry_ready w : Prop := {
  ry_running : sys_paused w = false;
  ry_access : iget (st_get w) InvoiceNft.DataKey.AccessControl = Some ACCESS;
  ry_pool : iget (st_get w) InvoiceNft.DataKey.FinancingPool = Some POOL;
  ry_lock : st_lock (st_get (K:=InvoiceNft.DataKey.t) w) = false }.

Lemma wired_ready w : wired w -> sys_reachable w -> registry_ready w.
Proof. intros [] Hr. split; [done..|]. by apply InvoiceNft.nft_lock_reachable, sys_nft. Qed.

(** The part of the ledger a transition reads. *)
Definition same_registry w w' : Prop := w_access w' = w_access w /\ w_nft w' = w_nft w.

Lemma registry_ready_same w w' : same_registry w w' -> registry_ready w -> registry_ready w'.
Proof.
  intros [Ea En] [Hp Hac Hpo Hl]. unfold sys_paused in *. split; unfold sys_paused; cbn in *; by rewrite ?Ea, ?En.
Qed.

Lemma slot_same id w w' : same_registry w w' -> slot w' id = slot w id.
Proof. intros [_ En]. unfold InvoiceNft.slot. cbn. by rewrite En. Qed.

Section Transitions.
Context (id : u64) (i : Invoice) (cx : Ctx) (w : World).
Context (Hw : registry_ready w) (Hself : cx_self cx = POOL)
  (Hn : callable NFT cx) (Ha : callable ACCESS cx) (Hi : slot w id = Some (StoredV2 i)).

Lemma pool_authorized : authorized (callee_ctx NFT cx) POOL = true.
Proof using Hself. rewrite <- Hself. apply self_authorized. Qed.

Lemma set_funded_succeeds : inv_status i = Listed -> succeeds (nft_set_funded NFT POOL id) cx w.
Proof using All.
  intros Hst. apply call_at_succeeds; [done|]. pose proof pool_authorized. destruct Hw.
  unfold InvoiceNft.slot in Hi. unfold InvoiceNft.set_funded, InvoiceNft.load_invoice, save_invoice, bump_invoice_ttl.
  walk. eapply succeeds_step; [by apply pool_caller_run|].
  eapply succeeds_step; [by apply nft_running_run, callable_callee|].
  walk; [done|by rewrite bool_decide_true].
Qed.

Lemma set_repaid_succeeds : inv_status i = Funded -> succeeds (nft_set_repaid NFT POOL id) cx w.
Proof using All.
  intros Hst. apply call_at_succeeds; [done|]. pose proof pool_authorized. destruct Hw.
  unfold InvoiceNft.slot in Hi.
  unfold InvoiceNft.set_repaid, InvoiceNft.load_invoice, save_invoice, release_exposure.
  walk. eapply succeeds_step; [by apply pool_caller_run|].
  eapply succeeds_step; [by apply nft_running_run, callable_callee|].
  walk. by rewrite bool_decide_true.
Qed.
End Transitions.

(** ** The pool opens *)

(** What [release_funds] asks of the pool contract. *)
Record pool_ready w : Prop := {
  py_registry : registry_ready w;
  py_access : iget (st_get w) FinancingPool.DataKey.AccessControl = Some ACCESS;
  py_nft : iget (st_get w) FinancingPool.DataKey.InvoiceNft = Some NFT;
  py_late : is_Some (iget (st_get w) FinancingPool.DataKey.LatePenaltyBps) }.

Lemma pool_ready_same w w' :
  same_registry w w' -> w_pool w' = w_pool w -> pool_ready w -> pool_ready w'.
Proof.
  intros Hs Ep [Hr Ha Hn Hl]. split; [by eapply registry_ready_same|..]; cbn in *; by rewrite Ep.
Qed.

Lemma release_succeeds m id t i cx w :
  pool_ready w -> cx_self cx = POOL -> authorized cx m = true ->
  callable NFT cx -> callable ACCESS cx -> pool_of w id = None -> t <> POOL ->
  slot w id = Some (StoredV2 i) -> inv_status i = Listed -> 0 < inv_amount i <= MAX_AMOUNT ->
  succeeds (FinancingPool.release_funds m id t) cx w.
Proof.
  intros [Hy Hac Hnft [late Hlate]] Hself Hau Hn Ha Hpool Ht Hi Hst Hamt.
  unfold FinancingPool.release_funds, FinancingPool.require_not_paused, FinancingPool.pool_of in *.
  walk. eapply succeeds_step; [apply paused_run; done|]. walk.
  - apply ry_running, Hy.
  - by rewrite Hpool.
  - rewrite Hself. by apply N.eqb_neq.
  - eapply succeeds_step; [by apply invoice_run|]. walk; [lia|].
    rewrite Hself. eapply set_funded_succeeds; try done. by apply (registry_ready_same w).
Qed.

(** ** A contribution goes through *)

Lemma transfer_run t f to n cx w :
  f = cx_self cx \/ cx_signed cx f = true -> 0 <= n <= w_bal w t f ->
  tok_transfer t f to n cx w = Ret tt (with_balances (fun t' x =>
    if (t' =? t)%N then moved f to x n (w_bal w t' x) else w_bal w t' x) w).
Proof.
  intros Hf Hn. change (token_transfer t f to n cx w = Ret tt (with_balances (fun t' x =>
    if (t' =? t)%N then moved f to x n (w_bal w t' x) else w_bal w t' x) w)).
  unfold token_transfer. rewrite !(proj2 (Z.leb_le _ _)) by lia.
  destruct Hf as [-> | ->]; [by rewrite N.eqb_refl|by rewrite orb_true_r].
Qed.

(** The treasury accepts a fee of [n] in [t]. *)
Record fee_accepted t (n : i128) w : Prop := {
  fa_whitelisted : pget (st_get w) (Treasury.DataKey.WhitelistedToken t) = Some true;
  fa_room : i128_min <= default 0 (pget (st_get w) (Treasury.DataKey.Collected t)) + n <= i128_max }.

Lemma collect_fee_succeeds t n cx w :
  callable TREASURY cx -> 0 < n -> fee_accepted t n w -> succeeds (treasury_collect_fee TREASURY t n) cx w.
Proof.
  intros Hc Hn [Hw Hr]. apply call_at_succeeds; [done|].
  unfold Treasury.collect_fee, Treasury.require_whitelisted_token, Treasury.bump_persistent.
  walk; [lia|by rewrite Hw|]. by apply ok_or_Ok, checked_add_Some.
Qed.

(** A contribution reads the registry and the pools only when it opens a pool. *)
Definition same_core w w' : Prop := same_registry w w' /\ w_pool w' = w_pool w.

#[export] Instance same_core_po : PreOrder same_core.
Proof. split; [by intros w|]. intros w1 w2 w3 [[??] ?] [[??] ?]. split; [split|]; congruence. Qed.
#[export] Instance same_core_emits : Emits same_core.
Proof. done. Qed.

Lemma token_same_core a : tokens_move same_core a.
Proof. by intros t f to n cx w u w' _ (b & ->)%token_transfer_keeps. Qed.

Lemma take_payment_same_core c t v fee net cx w u w' :
  honest cx -> Marketplace.take_payment c t v fee net cx w = Ret u w' -> same_core w w'.
Proof.
  intros Hh. assert (Writes Treasury.DataKey.t same_core) by done.
  pose proof (token_same_core (cx_self cx)) as Ht.
  pose proof (collect_moves same_core (fun _ => True) (fun _ _ => I)
    (treasury_covered same_core TREASURY _ (token_same_core _))) as Hc.
  assert (Moves same_core (runs_at (cx_self cx)) (Marketplace.take_payment c t v fee net)) as Hm.
  { unfold Marketplace.take_payment. moves; apply Ht. }
  by apply Hm.
Qed.

Lemma take_payment_succeeds c t v fee net cx w :
  mc_treasury c = TREASURY -> callable TREASURY cx -> cx_signed cx v = true -> v <> TREASURY ->
  0 <= fee -> 0 <= net -> fee + net <= w_bal w t v -> (0 < fee -> fee_accepted t fee w) ->
  succeeds (Marketplace.take_payment c t v fee net) cx w.
Proof.
  intros Htr Hc Hs Hv Hf Hn Hb Hfee. unfold Marketplace.take_payment. rewrite Htr.
  apply succeeds_bind.
  - apply succeeds_when. intros Hpos. eapply succeeds_step; [apply transfer_run; [by right|lia]|].
    apply collect_fee_succeeds; [done|lia|]. destruct Hfee as [? ?]; [lia|]. by split.
  - intros u w1 H. apply succeeds_when. intros Hpos. eapply succeeds_now, transfer_run; [by right|].
    split; [lia|]. apply when_Ret in H as [[_ ->]|[Hgt H]]; [lia|].
    apply bind_Ret in H as (u1 & w2 & H1 & H2). rewrite transfer_run in H1; [|by right|lia].
    injection H1 as _ <-. apply treasury_collect_aside in H2 as (_ & _ & -> & _). cbn.
    rewrite N.eqb_refl. unfold moved. rewrite N.eqb_refl.
    destruct (N.eqb_spec v TREASURY); [done|lia].
Qed.

(** What a contribution of [n] by [v] to the listing [l] of [id] needs. *)
Record can_fund (v : Address) (id : u64) (n : i128) (l : Listing) cx w : Prop := {
  cf_tx : user_tx MARKET v cx;
  cf_listing : listing_of w id = Some l;
  cf_active : l_is_active l = true;
  cf_deadline : cx_now cx <= l_funding_deadline l;
  cf_amount : 0 < n <= l_asking_price l - l_funded_amount l;
  cf_safe : n <= SHARE_SAFE;
  cf_funds : n <= w_bal w (l_token l) v;
  cf_decimals : 0 <= w_dec w (l_token l) <= 7;
  cf_token : l_token l <> POOL;
  cf_fee : forall fee, 0 < fee <= n -> fee_accepted (l_token l) fee w;
  cf_frozen : frozen w id = false;
  cf_invoice : exists i, slot w id = Some (StoredV2 i) /\ inv_status i = Listed }.

(** A listed invoice has no pool yet. *)
Lemma listed_no_pool w id i :
  sys_reachable w -> slot w id = Some (StoredV2 i) -> inv_status i = Listed -> pool_of w id = None.
Proof.
  intros Hr Hi Hst. destruct (pool_of w id) as [p|] eqn:Ep; [|done].
  destruct (mb_pool _ (sys_books _ Hr)) as [_ _ Ha].
  destruct (Ha _ _ Ep) as (i' & Hi' & _ & Hrk & _).
  assert (i' = i) as -> by congruence. rewrite Hst in Hrk. cbn in Hrk. lia.
Qed.

Lemma invoice_amount_ok w id i l :
  sys_reachable w -> slot w id = Some (StoredV2 i) -> listing_of w id = Some l -> 0 < inv_amount i <= MAX_AMOUNT.
Proof.
  intros Hr Hi Hl. destruct (mb_agree _ (sys_books _ Hr) _ _ Hl) as (i' & Hi' & Hf & _).
  assert (i' = i) as -> by congruence.
  pose proof (lo_face _ _ (Marketplace.wf_listing _ (mp_wf_reachable _ (sys_market _ Hr)) _ _ Hl)).
  destruct (InvoiceNft.wf_slot _ (nft_wf_reachable _ (sys_nft _ Hr)) _ _ Hi) as (_ & i' & [= <-] & Hok).
  pose proof (ok_amount _ _ Hok). lia.
Qed.

Lemma contribution_room w id v l :
  sys_reachable w -> listing_of w id = Some l -> 0 <= contribution w id v <= l_funded_amount l.
Proof.
  intros Hr Hl. pose proof (mp_wf_reachable _ (sys_market _ Hr)) as Hwf.
  pose proof (wf_contribution _ Hwf id v). pose proof (wf_owed _ Hwf id [v] (NoDup_singleton v)) as Ho.
  unfold Marketplace.owed, funded_of in Ho. rewrite Hl in Ho. cbn in Ho. lia.
Qed.

Lemma market_running_run cx w :
  market_wired w -> sys_paused w = false -> callable ACCESS cx ->
  Marketplace.require_not_paused cx w = Ret tt w.
Proof.
  intros [Hac _] Hp Hc. unfold Marketplace.require_not_paused. run_walk. rewrite Hac.
  eapply run_step; [by apply paused_run|]. by apply fail_if_run.
Qed.

Lemma reject_if_pass c e : c = false -> reject_if c e = Ok tt.
Proof. by intros ->. Qed.

Lemma decimals_run t cx w : 0 <= w_dec w t -> tok_decimals t cx w = Ret (w_dec w t) w.
Proof.
  intros H. change (token_decimals t cx w = Ret (w_dec w t) w). unfold token_decimals.
  by rewrite (proj2 (Z.leb_le _ _) H).
Qed.

Lemma load_config_run c cx w :
  iget (st_get w) Marketplace.DataKey.Config = Some c -> Marketplace.load_config cx w = Ret c w.
Proof. intros H. unfold Marketplace.load_config. run_walk. by rewrite H. Qed.

(** The contribution that fills a listing opens the pool. *)
Lemma opening_succeeds v id t i cx w w' :
  sys_reachable w -> wired w -> user_tx MARKET v cx -> same_core w w' -> t <> POOL ->
  slot w id = Some (StoredV2 i) -> inv_status i = Listed -> 0 < inv_amount i <= MAX_AMOUNT ->
  succeeds (pool_release_funds POOL (cx_self cx) id t) cx w'.
Proof.
  intros Hr Hw Htx [Hs Hp] Ht Hi Hst Ha.
  apply call_at_succeeds; [by eapply callable_user|].
  apply (release_succeeds _ _ _ i); try done.
  - eapply pool_ready_same; [done..|]. pose proof Hw as []. split; [by apply wired_ready|done..].
  - apply self_authorized.
  - apply callable_callee; [by eapply callable_user|done].
  - apply callable_callee; [by eapply callable_user|done].
  - unfold FinancingPool.pool_of. cbn. rewrite Hp. exact (listed_no_pool _ _ _ Hr Hi Hst).
  - by rewrite (slot_same _ _ _ Hs).
Qed.

(** The fee of a contribution of a safe amount is at most the contribution. *)
Lemma contribution_fee w c tier n d :
  Marketplace.fees_ok w -> iget (st_get w) Marketplace.DataKey.Config = Some c ->
  0 < n -> n <= SHARE_SAFE -> 0 <= d <= 7 ->
  exists fee, bps_of_normalized n (fee_rate w c tier) d = Ok fee /\ 0 <= fee <= n.
Proof.
  intros Hfees Hcfg Hn Hs Hd. assert (SHARE_SAFE <= i128_max) by done.
  assert (0 <= fee_rate w c tier <= 10000) as Hrate.
  { pose proof (fee_rate_ok w c tier Hfees) as [? ?]; [|done]. unfold config_of. by rewrite Hcfg. }
  pose proof (bps_of_normalized_total n _ d ltac:(lia) Hrate Hd) as Hbps.
  pose proof (bps_of_normalized_le n _ _ _ ltac:(lia) (proj1 Hrate) (proj1 Hd) Hbps) as [Hf0 Hf1].
  eexists. split; [exact Hbps|]. nia.
Qed.

Lemma fund_succeeds v id n l cx w :
  sys_reachable w -> wired w -> market_wired w -> can_fund v id n l cx w ->
  succeeds (Marketplace.fund_invoice v id n) cx w.
Proof.
  intros Hr Hw Hm Hf. pose proof Hf as [Htx Hl Hact Hdl Hn Hsafe Hfunds Hdec Htok Hfee Hfr (i & Hi & Hst)].
  pose proof Hm as [_ (c & Hcfg & Hnft & Hpool & Htre)].
  pose proof (wf_fees _ (mp_wf_reachable _ (sys_market _ Hr))) as Hfees.
  pose proof (Marketplace.wf_listing _ (mp_wf_reachable _ (sys_market _ Hr)) _ _ Hl) as [_ Hfu Hpr Hface _].
  assert (callable NFT cx /\ callable ACCESS cx /\ callable TREASURY cx /\ callable POOL cx) as (HcN & HcA & HcT & HcP).
  { by split_and!; eapply callable_user. }
  assert (SHARE_SAFE <= MAX_AMOUNT /\ MAX_AMOUNT <= i128_max) as [??] by done.
  pose proof (user_authorized _ _ _ Htx) as Hau.
  unfold Marketplace.fund_invoice, Marketplace.effective_fee, Marketplace.bump_persistent,
    Marketplace.listing_of in *.
  walk. eapply succeeds_step; [apply market_running_run; [done|apply Hw|done]|]. walk.
  1,2: apply reject_if_pass; lia.
  1: by rewrite Hact.
  1: lia.
  1: apply safe_sub_Ok; split; [done|unfold i128_min; lia].
  1: lia.
  eapply succeeds_step; [by apply load_config_run|]. rewrite Hnft.
  eapply succeeds_step; [by apply frozen_run|]. walk.
  eapply succeeds_step; [apply decimals_run; lia|].
  eapply succeeds_step; [by apply invoice_run|].
  destruct (contribution_fee w c (inv_risk_tier i) n (w_dec w (l_token l))) as (fee & Hbps & Hfn); [done..|lia|done|done|].
  walk; [apply ok_or_Ok, checked_sub_Some; split; [done|unfold i128_min; lia]|].
  apply succeeds_bind.
  { apply take_payment_succeeds; try done; try lia; [apply Htx| |intros; apply Hfee; lia].
    intros ->. pose proof (ut_honest _ _ _ Htx TREASURY ltac:(by repeat constructor)) as Hh.
    by rewrite (ut_signed _ _ _ Htx) in Hh. }
  intros u w1 Hpay. pose proof (take_payment_same_core _ _ _ _ _ _ _ _ _ (ut_honest _ _ _ Htx) Hpay) as [Hsr Hsp].
  pose proof (take_payment_store _ _ _ _ _ _ _ _ _ Hpay) as Hsm.
  pose proof (contribution_room w id v l Hr Hl) as Hcon.
  walk.
  1: apply safe_add_Ok; split; [done|unfold i128_min; lia].
  1: { apply safe_add_Ok. split; [done|]. rewrite Hsm.
       change (i128_min <= contribution w id v + (n - fee) <= i128_max). unfold i128_min. lia. }
  apply succeeds_bind; [apply succeeds_when; intros _; walk|]. intros u1 w2 Hev. walk.
  apply succeeds_when. intros _. rewrite Hpool. eapply (opening_succeeds v id _ i _ w); try done.
  - destruct Hsr. split; [|by apply when_Ret in Hev as [[_ ->]|[_ ->%emit_Ret]]].
    by apply when_Ret in Hev as [[_ ->]|[_ ->%emit_Ret]].
  - by apply (invoice_amount_ok w id i l).
Qed.

(** ** A repayment goes through *)

Lemma convert_run n t cx w :
  iget (st_get w) FinancingPool.DataKey.PriceOracle = Some ORACLE -> callable ORACLE cx ->
  FinancingPool.convert_if_needed n "USDC"%string t cx w = Ret n w.
Proof.
  intros Ho Hc. unfold FinancingPool.convert_if_needed. run_walk. rewrite Ho. cbv iota beta.
  apply call_at_run; [done|]. done.
Qed.

(** The late penalty of a pool of a safe face value can be charged. *)
Lemma late_penalty_run id due p cx w :
  pool_ok id p -> p_face_value p <= SHARE_SAFE ->
  exists w', FinancingPool.apply_late_penalty id due p cx w = Ret (penalised (cx_now cx) due p) w' /\
    (w' = w \/ exists e, w' = w_emit e w).
Proof.
  intros [_ _ Hf Hl Ho _ _] Hs. unfold FinancingPool.apply_late_penalty, penalised.
  assert (SHARE_SAFE * 10000 <= i128_max /\ SHARE_SAFE + SHARE_SAFE <= i128_max) as [??] by done.
  destruct (negb (p_penalty_applied p) && (0 <? p_late_penalty_bps p) && (cx_now cx >? due)) eqn:E;
    [|exists w; split; [|by left]; run_walk; by rewrite E].
  pose proof E as [[E1 _]%andb_true_iff _]%andb_true_iff.
  rewrite (proj1 (negb_true_iff _) E1) in Ho.
  assert (p_face_value p * p_late_penalty_bps p / 10000 <= p_face_value p) as Hp.
  { apply Z.div_le_upper_bound; nia. }
  pose proof (Z.div_pos (p_face_value p * p_late_penalty_bps p) 10000 ltac:(nia) ltac:(lia)).
  eexists. split; [|by right; eexists]. run_walk. rewrite E.
  unfold events.late_penalty_applied. run_walk.
  - rewrite bps_of_cases by lia. destruct (_ <? 0) eqn:E0; [lia|].
    by rewrite (proj2 (Z.leb_le _ _)) by nia.
  - apply ok_or_Ok, checked_add_Some. split; [done|unfold i128_min; lia].
Qed.

(** What [total] pays the holders of the positions [l]. *)
Definition due_to_holders (total : i128) (d : u32) (l : list (Address * Position)) : Z :=
  sum_of (fun e => share_value total (pos_share_bps e.2) d) l.

Lemma payout_run total d id p :
  0 <= total <= SHARE_SAFE -> 0 <= d <= 7 -> position_ok id p ->
  payout_of total d p = Ok (share_value total (pos_share_bps p) d, share_value total (pos_share_bps p) d - pos_contributed p).
Proof.
  intros Ht Hd [_ Hc Hs]. unfold payout_of.
  pose proof (bps_of_normalized_total total _ d Ht Hs Hd) as Hb. rewrite Hb. cbn.
  assert (SHARE_SAFE <= i128_max /\ MAX_AMOUNT <= i128_max) as [??] by done.
  destruct (bps_of_normalized_le total _ d _ ltac:(lia) (proj1 Hs) (proj1 Hd) Hb).
  set (v := share_value _ _ _) in *. assert (v <= total) by nia.
  assert (i128_min <= - MAX_AMOUNT) by done.
  unfold checked_sub. rewrite fit_i128_in; [done|lia].
Qed.

Lemma pay_investors_succeeds id t total d l : forall acc cx w,
  cx_self cx = POOL -> 0 <= total <= SHARE_SAFE -> 0 <= d <= 7 ->
  Forall (fun e => position_ok id e.2) l -> due_to_holders total d l <= w_bal w t POOL ->
  succeeds (FinancingPool.pay_investors id t d total l acc) cx w.
Proof.
  induction l as [|[v p] l IH]; intros acc cx w Hself Ht Hd Hl Hb;
    unfold FinancingPool.pay_investors; fold (@FinancingPool.pay_investors World).
  { by walk. }
  apply Forall_cons in Hl as [Hp Hl]. cbn in Hp. unfold due_to_holders in *. rewrite sum_of_cons in Hb. cbn [snd] in Hb.
  pose proof (payout_run total d id p Ht Hd Hp) as Hpay.
  pose proof (share_value_le total (pos_share_bps p) d (proj1 Ht) (proj1 (pp_share _ _ Hp)) (proj1 Hd)) as [Hv _].
  assert (0 <= sum_of (fun e => share_value total (pos_share_bps e.2) d) l) as Hrest.
  { clear -Hl Ht Hd. induction Hl as [|e l He _ IH]; [done|]. rewrite sum_of_cons.
    pose proof (share_value_le total (pos_share_bps e.2) d (proj1 Ht) (proj1 (pp_share _ _ He)) (proj1 Hd)). lia. }
  walk. eapply succeeds_step; [apply transfer_run; [by left|rewrite Hself; lia]|]. walk.
  apply IH; try done. cbn. rewrite N.eqb_refl, Hself. unfold moved. rewrite N.eqb_refl.
  case_match; lia.
Qed.

#[export] Instance same_registry_po : PreOrder same_registry.
Proof. split; [by intros w|]. intros w1 w2 w3 [??] [??]. split; congruence. Qed.
#[export] Instance same_registry_emits : Emits same_registry.
Proof. done. Qed.

Lemma distribute_same_registry id t total f cx w u w' :
  honest cx -> FinancingPool.distribute_yield id t total f cx w = Ret u w' -> same_registry w w'.
Proof.
  intros Hh. assert (Writes FinancingPool.DataKey.t same_registry) by done.
  apply (distribute_moves same_registry (cx_self cx)); [|by split].
  by intros t' f' to n cx' v x v' _ (b & ->)%token_transfer_keeps.
Qed.

Lemma distribute_succeeds id t total f cx w :
  cx_self cx = POOL -> 0 <= total <= SHARE_SAFE -> 0 <= w_dec w t <= 7 ->
  map_all (position_ok id) (positions_of w id) ->
  due_to_holders total (w_dec w t) (entries (positions_of w id)) <= w_bal w t POOL ->
  succeeds (FinancingPool.distribute_yield id t total f) cx w.
Proof.
  intros Hself Ht Hd Hp Hb. unfold FinancingPool.distribute_yield, FinancingPool.load_positions.
  walk. eapply succeeds_step; [apply decimals_run; lia|].
  apply succeeds_bind; [by apply pay_investors_succeeds|]. intros a w1 _. by walk.
Qed.

(** What a repayment of [n] in [t] by [v], against the pool [p] of the invoice [i],
    needs. Only if it closes the pool, the pool has to hold what the holders of
    positions are due then, in a token of at most 7 decimals. *)
Record can_repay (v : Address) (id : u64) (t : Address) (n : i128) (p : Pool) (i : Invoice) cx w : Prop := {
  cr_tx : user_tx POOL v cx;
  cr_pool : pool_of w id = Some p;
  cr_open : p_is_closed p = false;
  cr_invoice : slot w id = Some (StoredV2 i);
  cr_status : inv_status i = Funded;
  cr_currency : inv_currency i = "USDC"%string;
  cr_frozen : frozen w id = false;
  cr_amount : 0 < n <= w_bal w t v;
  cr_safe : p_face_value p <= SHARE_SAFE /\ p_repaid_amount p + n <= SHARE_SAFE;
  cr_solvent : p_total_owed (penalised (cx_now cx) (inv_due_date i) p) <= p_repaid_amount p + n ->
    0 <= w_dec w t <= 7 /\
    due_to_holders (p_repaid_amount p + n) (w_dec w t) (entries (positions_of w id)) <= w_bal w t POOL + n }.

(** The end of a repayment in full: the holders are paid, the invoice is Repaid. *)
Lemma closing_succeeds id t total f i cx w :
  cx_self cx = POOL -> honest cx -> callable NFT cx -> callable ACCESS cx ->
  registry_ready w -> iget (st_get w) FinancingPool.DataKey.InvoiceNft = Some NFT ->
  slot w id = Some (StoredV2 i) -> inv_status i = Funded ->
  0 <= total <= SHARE_SAFE -> 0 <= w_dec w t <= 7 -> map_all (position_ok id) (positions_of w id) ->
  due_to_holders total (w_dec w t) (entries (positions_of w id)) <= w_bal w t POOL ->
  succeeds (FinancingPool.distribute_yield id t total f;;
    nft_contract ← instance_get_or FinancingPool.DataKey.InvoiceNft NotInitialized;
    nft_set_repaid nft_contract POOL id) cx w.
Proof.
  intros Hself Hh HcN HcA Hy Hnft Hi Hst Ht Hd Hp Hb.
  apply succeeds_bind; [by apply distribute_succeeds|]. intros u w1 H.
  pose proof (distribute_same_registry _ _ _ _ _ _ _ _ Hh H) as Hsame.
  apply distribute_store in H as (agg & Hst1).
  assert (iget (st_get w1) FinancingPool.DataKey.InvoiceNft = Some NFT) as Hnft1.
  { rewrite Hst1. by store_simpl. }
  walk. eapply set_repaid_succeeds; try done; [by eapply registry_ready_same|by rewrite (slot_same _ _ _ Hsame)].
Qed.

Lemma positions_moved w w' id :
  pget (st_get w') (FinancingPool.DataKey.Positions id) = pget (st_get w) (FinancingPool.DataKey.Positions id) ->
  positions_of w' id = positions_of w id.
Proof. unfold positions_of. by intros ->. Qed.

Lemma repay_succeeds v id t n p i cx w :
  sys_reachable w -> wired w -> can_repay v id t n p i cx w -> succeeds (FinancingPool.repay v id t n) cx w.
Proof.
  intros Hr Hw Hc. pose proof Hc as [Htx Hp Hopen Hi Hst Hcur Hfr Hn [Hs1 Hs2] Hsol].
  pose proof (fp_wf_reachable _ (sys_pool _ Hr)) as Hwf.
  pose proof (wf_pool _ Hwf _ _ Hp) as Hok. pose proof Hok as [_ _ _ _ _ Hrep _].
  pose proof (wf_lock _ Hwf id) as Hlock. unfold FinancingPool.lock_free in Hlock.
  pose proof Hw as [].
  assert (callable NFT cx /\ callable ACCESS cx /\ callable ORACLE cx) as (HcN & HcA & HcO).
  { by split_and!; eapply callable_user. }
  assert (SHARE_SAFE <= MAX_AMOUNT /\ MAX_AMOUNT <= i128_max) as [??] by done.
  pose proof (user_authorized _ _ _ Htx) as Hau.
  unfold FinancingPool.repay, FinancingPool.require_not_frozen, FinancingPool.load_pool,
    FinancingPool.load_invoice, FinancingPool.pool_of in *.
  walk.
  1: lia.
  eapply succeeds_step; [by apply frozen_run|]. walk; [by rewrite Hlock|].
  eapply succeeds_step; [by apply when_false_run|]. walk.
  eapply succeeds_step; [by apply invoice_run|]. rewrite Hcur.
  eapply succeeds_step; [apply convert_run; [by store_simpl|done]|].
  edestruct late_penalty_run as (w1 & Hrun & Hw1); [done|done|].
  eapply succeeds_step; [apply Hrun|].
  set (q := penalised _ _ p) in *. assert (p_repaid_amount q = p_repaid_amount p) as Hq by apply penalised_repaid.
  walk; [apply ok_or_Ok, checked_add_Some; split; [done|unfold i128_min; lia]|].
  assert (v <> POOL) as Hv.
  { intros ->. pose proof (ut_honest _ _ _ Htx POOL ltac:(by repeat constructor)) as Hh.
    by rewrite (ut_signed _ _ _ Htx) in Hh. }
  assert (w_bal w1 = w_bal w /\ w_dec w1 = w_dec w /\ same_registry w w1 /\
    w_pool w1 = pset (FinancingPool.DataKey.RepaymentLock id) true (w_pool w)) as (Hb1 & Hd1 & Hs & Hp1).
  { by destruct Hw1 as [-> | [e ->]]. }
  eapply succeeds_step; [apply transfer_run; [right; apply Htx|cbn; rewrite Hb1; lia]|]. walk.
  apply succeeds_bind; [|intros; by walk]. apply succeeds_when. intros Hclose.
  destruct Hsol as [Hd Hsol].
  { rewrite close_repaid, close_owed in Hclose. cbn [p_repaid_amount p_total_owed with_repaid_amount] in Hclose. lia. }
  rewrite close_repaid. cbn [p_repaid_amount with_repaid_amount]. rewrite Hq, (ut_self _ _ _ Htx).
  eapply (closing_succeeds _ _ _ _ i); try done; try apply Htx.
  - apply (registry_ready_same w); [exact Hs|by apply wired_ready].
  - cbn. rewrite Hp1. store_simpl. exact wi_pool_nft0.
  - by rewrite (slot_same id w).
  - lia.
  - cbn. by rewrite Hd1.
  - rewrite positions_moved with (w := w); [apply (wf_positions _ Hwf)|]. cbn. rewrite Hp1. by store_simpl.
  - rewrite positions_moved with (w := w); [|cbn; rewrite Hp1; by store_simpl].
    cbn. rewrite Hd1, Hb1, N.eqb_refl. unfold moved. rewrite N.eqb_refl.
    destruct (N.eqb_spec POOL v); [by subst|lia].
Qed.

(** ** From an open listing to a repaid invoice *)

(** What a call of the marketplace leaves alone, besides the balances. *)
Definition same_frame w w' : Prop := w_access w' = w_access w /\ w_dec w' = w_dec w.

#[export] Instance same_frame_po : PreOrder same_frame.
Proof. split; [by intros w|]. intros w1 w2 w3 [??] [??]. split; congruence. Qed.
#[export] Instance same_frame_emits : Emits same_frame.
Proof. done. Qed.

Lemma token_same_frame a : tokens_move same_frame a.
Proof. by intros t f to n cx w u w' _ (b & ->)%token_transfer_keeps. Qed.

Lemma market_same_frame : covers same_frame MARKET (fun _ => True) Marketplace.exec.
Proof.
  assert (Writes RiskRegistry.DataKey.t same_frame) by done.
  assert (Writes Treasury.DataKey.t same_frame) by done.
  assert (Writes InvoiceNft.DataKey.t same_frame) by done.
  assert (Writes FinancingPool.DataKey.t same_frame) by done.
  assert (Writes Marketplace.DataKey.t same_frame) by done.
  pose proof token_same_frame as Ht.
  pose proof (registry_covered same_frame REGISTRY (fun _ => True) (Ht _)) as HR.
  pose proof (treasury_covered same_frame TREASURY (fun _ => True) (Ht _)) as HT.
  assert (covers same_frame NFT (fun _ => True) InvoiceNft.exec) as HN
    by (by apply (nft_covered same_frame) with (okR := fun _ => True); try apply _).
  assert (covers same_frame POOL (fun _ => True) FinancingPool.exec) as HP
    by (apply (pool_covered same_frame) with (okR := fun _ => True); try apply _; done).
  apply (market_covered same_frame) with (okT := fun _ => True) (okP := fun _ => True); try apply _; done.
Qed.

(** No balance is ever negative. *)
Definition no_debts w w' : Prop := (forall t x, 0 <= w_bal w t x) -> forall t x, 0 <= w_bal w' t x.

#[export] Instance no_debts_po : PreOrder no_debts.
Proof. split; [by intros w Hw|]. intros w1 w2 w3 H1 H2 Hw. exact (H2 (H1 Hw)). Qed.

Lemma no_debts_covered : covered no_debts.
Proof.
  assert (Emits no_debts) by (intros e v Hv; exact Hv).
  assert (forall a, tokens_move no_debts a) as Ht.
  { intros a t f to n cx w u w' _ Hrun Hw t' x.
    pose proof (tok_transfer_amount _ _ _ _ _ _ _ _ Hrun) as Hn.
    pose proof (tok_transfer_bal _ _ _ _ _ _ _ _ Hrun t' x) as E. cbn in *. rewrite E.
    specialize (Hw t' x). unfold moved. destruct (N.eqb_spec t' t) as [->|]; [|done].
    destruct (N.eqb_spec x f) as [->|]; case_match; lia. }
  apply covered_intro; try apply _; try done; try (left; apply writes_intro; intros ? v Hv; exact Hv).
  { left. split; [apply writes_intro; intros ? v Hv; exact Hv|done]. }
  intros b w Hb Hw t x. specialize (Hb t x). specialize (Hw t x). cbn. lia.
Qed.

Lemma balances_nonneg w t x : sys_reachable w -> 0 <= w_bal w t x.
Proof.
  intros (w0 & [_ _ _ _ _ _ _ Hb] & Hs). exact (covered_steps no_debts _ _ no_debts_covered Hs Hb t x).
Qed.

(** The pool a filled listing opens. *)
Definition fresh_pool (id : u64) (t : Address) (face : i128) (late : u32) : Pool :=
  mkPool id t 0 face 0 false late face false.

(** What filling the listing [l] of [id] leaves behind. *)
Record filled (id : u64) (l : Listing) (i : Invoice) cx w w' : Prop := {
  fl_invoice : slot w' id = Some (StoredV2 (with_funded_at (Some (cx_now cx)) (with_status Funded i)));
  fl_pool : exists late, iget (st_get w) FinancingPool.DataKey.LatePenaltyBps = Some late /\
    pool_of w' id = Some (fresh_pool id (l_token l) (inv_amount i) late);
  fl_positions : positions_of w' id = positions_of w id;
  fl_frozen : frozen w' id = frozen w id;
  fl_wired : wired w -> wired w';
  fl_decimals : w_dec w' = w_dec w }.

Lemma fund_fills v id n l i cx w w' :
  user_tx MARKET v cx -> Marketplace.fund_invoice v id n cx w = Ret tt w' ->
  listing_of w id = Some l -> n = l_asking_price l - l_funded_amount l ->
  slot w id = Some (StoredV2 i) -> filled id l i cx w w'.
Proof.
  intros Htx H Hl Hn Hi. pose proof (ut_honest _ _ _ Htx) as Hh.
  pose proof (covers_run _ _ _ _ market_same_frame (Marketplace.CFundInvoice v id n) I cx w tt w'
    (conj (ut_self _ _ _ Htx) Hh) H) as [Ea Ed].
  destruct (fund_books _ _ _ _ _ _ Hh H) as (l0 & Hl0 & Hb).
  assert (l0 = l) as -> by congruence. rewrite Hn in Hb.
  destruct (_ >=? _) eqn:E; [|lia]. destruct Hb as (wl & [En Ep] & Ho).
  destruct (op_invoice _ _ _ _ _ _ Ho) as (i0 & late & Hi0 & _ & _ & Hlate & Hp & Hs).
  assert (i0 = i) as ->.
  { unfold InvoiceNft.slot in *. cbn in *. rewrite En in Hi0. congruence. }
  destruct (op_nft_store _ _ _ _ _ _ Ho) as [Ni Np], (op_pool_store _ _ _ _ _ _ Ho) as [Pi Pp].
  rewrite En in Ni, Np. rewrite Ep in Pi, Pp, Hlate.
  split; [done|by exists late| | | |done].
  - apply positions_moved. exact (Pp (FinancingPool.DataKey.Positions id) ltac:(done)).
  - exact (f_equal (default false) (Np (InvoiceNft.DataKey.InvoiceFrozen id) ltac:(done))).
  - intros []. split; unfold sys_paused in *; cbn in *; by rewrite ?Ea, ?Ni, ?Pi.
Qed.

(** Progress, under the conditions of [can_fund]: in a state the protocol reaches, wired
    and running, a user with the tokens can contribute to an active listing before its
    deadline, up to what is missing, while its invoice is still Listed and not frozen,
    and the call succeeds; the contribution that fills the listing opens the pool and
    takes the invoice to Funded. *)
Theorem listing_can_be_filled v id n l cx w :
  sys_reachable w -> wired w -> market_wired w -> can_fund v id n l cx w ->
  exists w', Marketplace.fund_invoice v id n cx w = Ret tt w' /\
    listing_of w' id = Some (funded_with n l) /\
    (n = l_asking_price l - l_funded_amount l ->
     exists p i, pool_of w' id = Some p /\ p_token p = l_token l /\ p_is_closed p = false /\
       slot w' id = Some (StoredV2 i) /\ inv_status i = Funded).
Proof.
  intros Hr Hw Hm Hf. destruct (fund_succeeds _ _ _ _ _ _ Hr Hw Hm Hf) as ([] & w' & H).
  exists w'. split; [done|]. pose proof Hf as [Htx Hl _ _ _ _ _ _ _ _ _ (i & Hi & _)].
  pose proof (wf_fees _ (mp_wf_reachable _ (sys_market _ Hr))) as Hfees.
  destruct (fund_invoice_effect _ _ _ _ _ _ Hfees H) as (fee & l0 & c & He).
  assert (l0 = l) as -> by (pose proof (fd_listing _ _ _ _ _ _ _ _ _ He); congruence).
  split; [by apply (fd_listing' _ _ _ _ _ _ _ _ _ He)|].
  intros Hn. destruct (fund_fills _ _ _ _ _ _ _ _ Htx H Hl Hn Hi) as [Hs (late & _ & Hp) _ _ _ _].
  do 2 eexists. by split_and!.
Qed.

(** What a repayment that succeeds does, in the deployed protocol. *)
Record repaying (v : Address) (id : u64) (t : Address) (n : i128) (p : Pool) (i : Invoice) cx w w' : Prop := {
  rp_pool : pool_of w' id = Some (repaid_pool (cx_now cx) (inv_due_date i) n p);
  rp_balances : repay_balances v t n id (repaid_pool (cx_now cx) (inv_due_date i) n p) cx w w';
  rp_closed : p_total_owed (penalised (cx_now cx) (inv_due_date i) p) <= p_repaid_amount p + n ->
    p_is_closed (repaid_pool (cx_now cx) (inv_due_date i) n p) = true /\
    exists i', slot w' id = Some (StoredV2 i') /\ inv_status i' = Repaid }.

Lemma repay_run v id t n p i cx w w' :
  sys_reachable w -> wired w -> can_repay v id t n p i cx w ->
  FinancingPool.repay v id t n cx w = Ret tt w' -> repaying v id t n p i cx w w'.
Proof.
  intros Hr Hw Hc H. pose proof Hc as [Htx Hp Hopen Hi _ Hcur _ _ _ _].
  pose proof (fp_wf_reachable _ (sys_pool _ Hr)) as Hwf. pose proof Hw as [].
  pose proof (repay_settles _ _ _ _ _ _ _ (ut_honest _ _ _ Htx) H) as Hset.
  apply FinancingPool.repay_effect in H as
    (p0 & nft & inv & eff & wl & Hp0 & _ & _ & _ & _ & Hnft & _ & Hg & Hcv & _ & _ & -> & Hp' & _ & Hb);
    [|by apply FinancingPool.late_ok_wf|by apply FinancingPool.shares_of_wf].
  assert (p0 = p) as -> by congruence. assert (nft = NFT) as -> by congruence.
  apply get_invoice_effect in Hg as [Hi' _]. change (slot w id = Some (StoredV2 inv)) in Hi'.
  assert (inv = i) as -> by congruence. rewrite Hcur in Hcv.
  rewrite convert_run in Hcv; [|by store_simpl|by eapply callable_user].
  injection Hcv as <-. cbv zeta in *. split; [done|done|]. intros Hle.
  assert (p_is_closed (repaid_pool (cx_now cx) (inv_due_date i) n p) = true) as Hcl.
  { rewrite repaid_pool_eq, close_closed by (cbn; by rewrite penalised_closed). cbn. lia. }
  split; [done|]. destruct Hset as [(f & (i0 & _ & _ & Hi0 & _) & Hf & _)|[_ Hno]].
  - exists (f i0). split; [done|]. apply Hf.
  - by rewrite (Hno _ Hp') in Hcl.
Qed.

(** C17: Progress, under the conditions of [can_repay]: in a state the protocol
    reaches, wired and running, a user with the tokens can repay an open pool, in part
    or in full, and the call succeeds, if the invoice is Funded (not Defaulted), not
    frozen and in USDC, so that no rate is needed; the face value and what is then
    repaid are at most [SHARE_SAFE] (2^127 / 10^11); and, only if the repayment closes
    the pool, its token has at most 7 decimals and the pool holds, with the repayment,
    what the holders of positions are due of it. The pool has then counted the
    repayment, and once that covers what is owed, late penalty included, it is closed,
    every holder of a position has its share of all that was repaid, and the invoice
    is Repaid. *)
Theorem pool_can_be_repaid v id t n p i cx w :
  sys_reachable w -> wired w -> can_repay v id t n p i cx w ->
  exists w', FinancingPool.repay v id t n cx w = Ret tt w' /\ repaying v id t n p i cx w w'.
Proof.
  intros Hr Hw Hc. destruct (repay_succeeds _ _ _ _ _ _ _ _ Hr Hw Hc) as ([] & w' & H).
  exists w'. split; [done|by apply repay_run].
Qed.

(** The transaction of the user [v] calling the contract at [a], at [now]. *)
Definition call_of (a v : Address) (now : u64) : Ctx := mkCtx a [] (fun x => (x =? v)%N) now 0 0.

Lemma call_of_tx a v now : ~ v ∈ CONTRACTS -> user_tx a v (call_of a v now).
Proof.
  intros Hv. split; [done|done|apply N.eqb_refl|]. intros b Hb. cbn.
  destruct (N.eqb_spec b v) as [->|]; done.
Qed.

(** What the payer of a listing filled at [now] owes at [now]. *)
Definition owed_at (now : u64) (id : u64) (l : Listing) (i : Invoice) (late : u32) : i128 :=
  p_total_owed (penalised now (inv_due_date i) (fresh_pool id (l_token l) (inv_amount i) late)).

(** An open listing of a listed invoice, an investor [v] and a payer [s]. *)
Record can_settle (v s : Address) (id : u64) (l : Listing) (i : Invoice) (late : u32) (now : u64) w : Prop := {
  st_open : forall cx, user_tx MARKET v cx -> cx_now cx = now ->
    can_fund v id (l_asking_price l - l_funded_amount l) l cx w;
  st_users : ~ v ∈ CONTRACTS /\ ~ s ∈ CONTRACTS /\ s <> v;
  st_invoice : slot w id = Some (StoredV2 i);
  st_currency : inv_currency i = "USDC"%string;
  st_late : iget (st_get w) FinancingPool.DataKey.LatePenaltyBps = Some late;
  st_funds : owed_at now id l i late <= w_bal w (l_token l) s;
  st_safe : owed_at now id l i late <= SHARE_SAFE }.

Lemma run_tx_Ret {A} (m : M World A) cx w a w' : m cx w = Ret a w' -> run_tx m cx w = w'.
Proof. unfold run_tx. by intros ->. Qed.

Lemma owed_at_face now id l i late :
  pool_ok id (fresh_pool id (l_token l) (inv_amount i) late) ->
  0 < owed_at now id l i late /\ inv_amount i <= owed_at now id l i late.
Proof.
  intros Hok. pose proof (penalised_ok now (inv_due_date i) _ _ Hok) as [_ _ Hf Hl Ho _ _].
  unfold owed_at. rewrite Ho. unfold penalised in *. cbn in *.
  pose proof (Z.div_pos (inv_amount i * late) 10000).
  destruct (_ && _) in *; cbn in *; lia.
Qed.

(** Filling the listing makes the pool it opens repayable by [s]. *)
Lemma filled_can_repay v s id l i late now w w1 :
  sys_reachable w -> can_settle v s id l i late now w ->
  Marketplace.fund_invoice v id (l_asking_price l - l_funded_amount l) (call_of MARKET v now) w = Ret tt w1 ->
  sys_reachable w1 -> filled id l i (call_of MARKET v now) w w1 ->
  can_repay s id (l_token l) (owed_at now id l i late) (fresh_pool id (l_token l) (inv_amount i) late)
    (with_funded_at (Some now) (with_status Funded i)) (call_of POOL s now) w1.
Proof.
  intros Hr Hs H Hr1 [Hi1 (late' & Hlate & Hp1) Hpos Hfr _ Hdec].
  pose proof Hs as [Ho (Hv & Hsv & Hne) Hi Hcur Hl Hf Hsafe].
  assert (late' = late) as -> by (cbn in *; congruence).
  destruct (Ho (call_of MARKET v now) (call_of_tx _ _ _ Hv) eq_refl)
    as [Htx Hli _ _ _ _ _ Hd _ _ Hfrz (i0 & Hi0 & Hst)].
  assert (i0 = i) as -> by congruence.
  pose proof (wf_fees _ (mp_wf_reachable _ (sys_market _ Hr))) as Hfees.
  destruct (fund_invoice_effect _ _ _ _ _ _ Hfees H) as (fee & l0 & c & He).
  assert (l0 = l) as -> by (pose proof (fd_listing _ _ _ _ _ _ _ _ _ He); congruence).
  pose proof (fd_balances _ _ _ _ _ _ _ _ _ He (l_token l) s) as Hbs. cbn in Hbs. rewrite N.eqb_refl in Hbs.
  pose proof (fd_fee_range _ _ _ _ _ _ _ _ _ He) as Hfee.
  assert (w_bal w (l_token l) s <= w_bal w1 (l_token l) s) as Hge.
  { rewrite Hbs. unfold moved. destruct (N.eqb_spec s v); [done|]. repeat case_match; lia. }
  destruct (owed_at_face now id l i late) as [Hpos0 Hface].
  { apply (wf_pool _ (fp_wf_reachable _ (sys_pool _ Hr1)) _ _ Hp1). }
  split; try done; [by apply call_of_tx|by rewrite Hfr|lia|cbn; lia|].
  intros _. split; [by rewrite Hdec|]. rewrite Hpos, (orphans_reachable w) by (by apply sys_pool || by eapply listed_no_pool).
  pose proof (balances_nonneg w1 (l_token l) POOL Hr1). unfold due_to_holders. cbn. lia.
Qed.

(** C3: Liveness, under the conditions of [can_settle]: from a state the protocol
    reaches, wired and running, with an active listing before its deadline of an
    invoice that is still Listed (no one has opened its pool early), not frozen and in
    USDC, two transactions bring the invoice to Repaid, its pool closed: an investor
    pays what the listing lacks, a payer repays what is then owed. They need the
    tokens; the token has at most 7 decimals and is not the pool contract, the
    treasury accepts it and has room for the fee, the amounts are at most [SHARE_SAFE]
    (2^127 / 10^11), and investor and payer are two users and no contracts of the
    protocol. *)
Theorem open_listing_can_be_settled v s id l i late now w :
  sys_reachable w -> wired w -> market_wired w -> can_settle v s id l i late now w ->
  let w1 := run_tx (Marketplace.fund_invoice v id (l_asking_price l - l_funded_amount l))
              (call_of MARKET v now) w in
  let w2 := run_tx (FinancingPool.repay s id (l_token l) (owed_at now id l i late))
              (call_of POOL s now) w1 in
  rtc sys_step w w2 /\
  (exists i', slot w2 id = Some (StoredV2 i') /\ inv_status i' = Repaid) /\
  exists p, pool_of w2 id = Some p /\ p_is_closed p = true.
Proof.
  intros Hr Hw Hm Hs. pose proof Hs as [Ho (Hv & Hsv & _) Hi _ _ _ _].
  pose proof (call_of_tx MARKET v now Hv) as Htx. pose proof (Ho _ Htx eq_refl) as Hf.
  destruct (fund_succeeds _ _ _ _ _ _ Hr Hw Hm Hf) as ([] & w1 & H1).
  pose proof (fund_fills _ _ _ _ _ _ _ _ Htx H1 (cf_listing _ _ _ _ _ _ Hf) eq_refl Hi) as Hfl.
  assert (sys_step w w1) as Hs1.
  { by apply (sys_ret (ToMarket (Marketplace.CFundInvoice v id (l_asking_price l - l_funded_amount l)))
      (call_of MARKET v now)); [|eapply user_outside| |]. }
  assert (sys_reachable w1) as Hr1 by (eapply sys_reachable_steps; [done|by apply rtc_once]).
  pose proof (filled_can_repay _ _ _ _ _ _ _ _ _ Hr Hs H1 Hr1 Hfl) as Hc.
  pose proof (fl_wired _ _ _ _ _ _ Hfl Hw) as Hw1.
  destruct (repay_succeeds _ _ _ _ _ _ _ _ Hr1 Hw1 Hc) as ([] & w2 & H2).
  pose proof (repay_run _ _ _ _ _ _ _ _ _ Hr1 Hw1 Hc H2) as [Hp _ Hcl].
  assert (sys_step w1 w2) as Hs2.
  { apply (sys_ret (ToPool (FinancingPool.CRepay s id (l_token l) (owed_at now id l i late)))
      (call_of POOL s now)); [done|by eapply user_outside, call_of_tx|done|done]. }
  rewrite (run_tx_Ret _ _ _ _ _ H1). cbv zeta. rewrite (run_tx_Ret _ _ _ _ _ H2).
  destruct Hcl as [Hcl Hrep]; [cbn; unfold owed_at; cbn; lia|].
  split_and!; [by eapply rtc_l, rtc_once|done|by eexists].
Qed.
