(* ===== verification/Scenario.v ===== *)
(** * Scenario: a deployment of the protocol on a concrete ledger

    The seven contracts set up by their own calls, with one invoice financed and
    repaid: the states and transactions the witnesses of the theorems use, and the
    evidence that they are reachable. *)

From S2P Require Import Prelude Errors SortedMap Types Host Events Reentrancy Validation Interfaces AuditLog AccessControl PriceOracle RiskRegistry Treasury InvoiceNft FinancingPool Marketplace World System Protocol.

(** ** Running a list of calls *)

Section Runs.
Context {C : Type} (exec : C -> M World unit).

Fixpoint run_calls (l : list (Ctx * C)) (w : World) : World :=
  match l with
  | [] => w
  | (cx, c) :: rest => run_calls rest (run_tx (exec c) cx w)
  end.

(** Do all of them succeed? *)
Fixpoint all_succeed (l : list (Ctx * C)) (w : World) : bool :=
  match l with
  | [] => true
  | (cx, c) :: rest => is_ret (exec c cx w) && all_succeed rest (run_tx (exec c) cx w)
  end.

Lemma run_calls_app l1 l2 w : run_calls (l1 ++ l2) w = run_calls l2 (run_calls l1 w).
Proof. revert w. induction l1 as [|[cx c] l1 IH]; intros w; [done|]. apply IH. Qed.

Lemma run_calls_rtc (R : World -> World -> Prop) (P : Ctx * C -> Prop) l w :
  (forall w cx c, P (cx, c) -> R w (run_tx (exec c) cx w)) -> Forall P l ->
  rtc R w (run_calls l w).
Proof.
  intros HR Hl. revert w. induction Hl as [|[cx c] l Hc _ IH]; intros w; [constructor|].
  eapply rtc_l; [by apply HR|apply IH].
Qed.
End Runs.

(** ** Who is who *)

Definition ADMIN : Address := 100%N.
Definition VERIFIER : Address := 101%N.
Definition SME : Address := 102%N.
Definition ALICE : Address := 103%N.
Definition BOB : Address := 104%N.
Definition CAROL : Address := 105%N.
Definition USD : Address := 200%N.
Definition STAKE : Address := 201%N.

(** The ledger closes every five seconds; a new entry lives 4096 ledgers at least. *)
Definition MIN_TTL : u32 := 4096.

(** A transaction of [signers] at [now], calling the contract at [self]. *)
Definition tx (self : Address) (signers : list Address) (now : u64) : Ctx :=
  mkCtx self [] (fun a => list_mem a signers) now (now / 5) MIN_TTL.

(** A call the contract at [caller] makes. *)
Definition from (caller self : Address) (now : u64) : Ctx :=
  mkCtx self [caller] (fun _ => false) now (now / 5) MIN_TTL.

Definition start_balances (t x : Address) : i128 :=
  if (t =? USD)%N && list_mem x [SME; ALICE; BOB; CAROL] then 10000000000
  else if (t =? STAKE)%N && (x =? VERIFIER)%N then 1000000 else 0.

(** Nothing deployed. *)
Definition no_lives : Lives :=
  mkLives (fun _ => 0) (fun _ => 0) (fun _ => 0) (fun _ => 0) (fun _ => 0) (fun _ => 0) (fun _ => 0).
Definition blank : World :=
  mkWorld empty_storage empty_storage empty_storage empty_storage empty_storage empty_storage
    empty_storage [] start_balances (fun _ => 7) no_lives.

(** ** The contracts set up *)

Definition access_calls : list (Ctx * AccessControl.Call) :=
  [ (tx ACCESS [ADMIN] 1000, AccessControl.CInitialize ADMIN) ].
Definition access_ready : World := run_calls AccessControl.exec access_calls blank.

Definition oracle_calls : list (Ctx * PriceOracle.Call) :=
  [ (tx ORACLE [ADMIN] 1000, PriceOracle.CInitialize ADMIN);
    (tx ORACLE [ADMIN] 1000, PriceOracle.CSetPrice ADMIN "EUR" "USDC" 11000000) ].
Definition oracle_ready : World := run_calls PriceOracle.exec oracle_calls blank.

Definition registry_calls : list (Ctx * RiskRegistry.Call) :=
  [ (tx REGISTRY [ADMIN] 1000, RiskRegistry.CInitialize ADMIN NFT STAKE 1000 2000);
    (tx REGISTRY [ADMIN; VERIFIER] 1000, RiskRegistry.CAddVerifier ADMIN VERIFIER 5000);
    (tx REGISTRY [VERIFIER] 1000, RiskRegistry.CRegisterSme VERIFIER SME 30 true) ].
Definition registry_ready : World := run_calls RiskRegistry.exec registry_calls blank.

Definition treasury_calls : list (Ctx * Treasury.Call) :=
  [ (tx TREASURY [ADMIN] 1000, Treasury.CInitialize ADMIN 50);
    (tx TREASURY [ADMIN] 1000, Treasury.CWhitelistToken ADMIN USD) ].
Definition treasury_ready : World := run_calls Treasury.exec treasury_calls blank.

(** The life times of the contracts set up so far. *)
Definition lives_ready : Lives :=
  mkLives (lv_access (w_lives access_ready)) (lv_oracle (w_lives oracle_ready))
    (lv_registry (w_lives registry_ready)) (lv_treasury (w_lives treasury_ready))
    (fun _ => 0) (fun _ => 0) (fun _ => 0).

(** The world the invoice contract is deployed in. *)
Definition nft_blank : World :=
  mkWorld (w_access access_ready) (w_oracle oracle_ready) (w_registry registry_ready)
    (w_treasury treasury_ready) empty_storage empty_storage empty_storage []
    start_balances (fun _ => 7) lives_ready.

Definition DEBTOR : Bytes := repeat "a"%byte 32.
Definition CID : string := "QmYwAPJzv5CZsnA625s3Xf2nemtYgPpHdWEz79ojWKPbdG".
Definition FACE : i128 := 1000000000.
Definition DUE : u64 := 2000000.

Definition nft_setup : list (Ctx * InvoiceNft.Call) :=
  [ (tx NFT [ADMIN] 1000, InvoiceNft.CInitialize ADMIN ACCESS);
    (tx NFT [ADMIN] 1000, InvoiceNft.CSetAuthorizedCallers ADMIN MARKET POOL);
    (tx NFT [ADMIN] 1000, InvoiceNft.CSetRiskRegistry ADMIN REGISTRY) ].
Definition mint_call : Ctx * InvoiceNft.Call :=
  (tx NFT [SME] 2000, InvoiceNft.CMint SME DEBTOR FACE "USDC" DUE CID 30 None).
Definition nft_ready : World := run_calls InvoiceNft.exec nft_setup nft_blank.
Definition nft_minted : World := run_calls InvoiceNft.exec (nft_setup ++ [mint_call]) nft_blank.
Definition list_call : Ctx * InvoiceNft.Call :=
  (from MARKET NFT 3000, InvoiceNft.CSetListed MARKET 1).
Definition nft_listed : World :=
  run_calls InvoiceNft.exec (nft_setup ++ [mint_call; list_call]) nft_blank.

Example setup_succeeds :
  all_succeed AccessControl.exec access_calls blank &&
  all_succeed PriceOracle.exec oracle_calls blank &&
  all_succeed RiskRegistry.exec registry_calls blank &&
  all_succeed Treasury.exec treasury_calls blank &&
  all_succeed InvoiceNft.exec (nft_setup ++ [mint_call; list_call]) nft_blank = true.
Proof. vm_compute. reflexivity. Qed.

(** ** The financing pool, with the invoice listed *)

Definition pool_blank : World :=
  mkWorld (w_access access_ready) (w_oracle oracle_ready) (w_registry registry_ready)
    (w_treasury treasury_ready) (w_nft nft_listed) empty_storage empty_storage []
    start_balances (fun _ => 7) (w_lives nft_listed).

Definition pool_setup : list (Ctx * FinancingPool.Call) :=
  [ (tx POOL [ADMIN] 1000,
      FinancingPool.CInitialize ADMIN NFT REGISTRY TREASURY ACCESS 500 ORACLE 6000);
    (from MARKET POOL 4000, FinancingPool.CReleaseFunds MARKET 1 USD) ].
Definition record_calls : list (Ctx * FinancingPool.Call) :=
  [ (tx POOL [ADMIN] 5000, FinancingPool.CRecordPosition ADMIN 1 ALICE 540000000 900000000);
    (tx POOL [ADMIN] 5000, FinancingPool.CRecordPosition ADMIN 1 BOB 360000000 900000000) ].
Definition repay_call (payer t : Address) (n : i128) : Ctx * FinancingPool.Call :=
  (tx POOL [payer] 6000, FinancingPool.CRepay payer 1 t n).

Definition pool_open : World := run_calls FinancingPool.exec pool_setup pool_blank.
Definition pool_recorded : World :=
  run_calls FinancingPool.exec (pool_setup ++ record_calls) pool_blank.
Definition pool_repaid : World :=
  run_calls FinancingPool.exec (pool_setup ++ record_calls ++ [repay_call SME USD FACE]) pool_blank.

Example pool_succeeds :
  all_succeed FinancingPool.exec (pool_setup ++ record_calls ++ [repay_call SME USD FACE])
    pool_blank = true.
Proof. vm_compute. reflexivity. Qed.

(** The investors get their shares of the repayment, the pool keeps nothing. *)
Example pool_pays :
  (w_bal pool_repaid USD ALICE, w_bal pool_repaid USD BOB, w_bal pool_repaid USD POOL,
   w_bal pool_repaid USD SME) = (10600000000, 10400000000, 0, 9000000000).
Proof. vm_compute. reflexivity. Qed.

(** ** The marketplace, with the pool deployed and the invoice minted *)

Definition market_blank : World :=
  mkWorld (w_access access_ready) (w_oracle oracle_ready) (w_registry registry_ready)
    (w_treasury treasury_ready) (w_nft nft_minted)
    (w_pool (run_calls FinancingPool.exec (take 1 pool_setup) pool_blank)) empty_storage []
    start_balances (fun _ => 7) (w_lives nft_minted).

Definition market_setup : list (Ctx * Marketplace.Call) :=
  [ (tx MARKET [ADMIN] 1000,
      Marketplace.CInitialize ADMIN NFT POOL TREASURY ACCESS REGISTRY 100);
    (tx MARKET [ADMIN] 1000, Marketplace.CWhitelistToken ADMIN USD) ].
Definition offer_call : Ctx * Marketplace.Call :=
  (tx MARKET [SME] 3000, Marketplace.CListInvoice SME 1 900000000 FACE USD 100000 None).
Definition fund_call (who : Address) (n : i128) : Ctx * Marketplace.Call :=
  (tx MARKET [who] 4000, Marketplace.CFundInvoice who 1 n).
Definition refund_call (who : Address) (now : u64) : Ctx * Marketplace.Call :=
  (tx MARKET [who; POOL] now, Marketplace.CClaimRefund who 1).

Definition market_ready : World := run_calls Marketplace.exec market_setup market_blank.
Definition market_offered : World :=
  run_calls Marketplace.exec (market_setup ++ [offer_call]) market_blank.
Definition market_half : World :=
  run_calls Marketplace.exec (market_setup ++ [offer_call; fund_call ALICE 540000000]) market_blank.
Definition market_full : World :=
  run_calls Marketplace.exec
    (market_setup ++ [offer_call; fund_call ALICE 540000000; fund_call BOB 360000000]) market_blank.
Definition market_refunded : World :=
  run_calls Marketplace.exec
    (market_setup ++ [offer_call; fund_call ALICE 540000000; refund_call ALICE 200000]) market_blank.

Example market_succeeds :
  all_succeed Marketplace.exec
    (market_setup ++ [offer_call; fund_call ALICE 540000000; fund_call BOB 360000000]) market_blank &&
  all_succeed Marketplace.exec
    (market_setup ++ [offer_call; fund_call ALICE 540000000; refund_call ALICE 200000]) market_blank
  = true.
Proof. vm_compute. reflexivity. Qed.

(** ** Governance: a two-of-two multisig *)

Definition gov_setup : list (Ctx * AccessControl.Call) :=
  [ (tx ACCESS [ADMIN] 1000, AccessControl.CInitialize ADMIN);
    (tx ACCESS [ADMIN] 1000, AccessControl.CConfigureMultisig ADMIN [ALICE; BOB] 2);
    (tx ACCESS [ALICE] 2000, AccessControl.CProposeAction ALICE (TransferAdmin CAROL));
    (tx ACCESS [BOB] 2000, AccessControl.CApproveAction BOB 1);
    (tx ACCESS [ALICE] 2000, AccessControl.CProposeParameter ALICE FeeBps 75);
    (tx ACCESS [BOB] 2000, AccessControl.CVoteParameter BOB 1);
    (tx ACCESS [ADMIN] 2000, AccessControl.CProposeUpgrade ADMIN DEBTOR) ].
Definition gov_ready : World := run_calls AccessControl.exec gov_setup blank.

Example gov_succeeds : all_succeed AccessControl.exec gov_setup blank = true.
Proof. vm_compute. reflexivity. Qed.

(** ** Every state above is reachable *)

Lemma access_reachable w0 l :
  w_access w0 = empty_storage -> AccessControl.reachable (run_calls AccessControl.exec l w0).
Proof.
  intros E. assert (H : AccessControl.reachable w0) by (by apply AccessControl.reach_deploy). clear E. revert w0 H.
  induction l as [|[cx c] l IH]; intros w0 H; [done|]. apply IH. by apply AccessControl.reach_call.
Qed.

Lemma oracle_reachable w0 l :
  w_oracle w0 = empty_storage -> PriceOracle.reachable (run_calls PriceOracle.exec l w0).
Proof.
  intros E. assert (H : PriceOracle.reachable w0) by (by apply PriceOracle.reach_deploy). clear E. revert w0 H.
  induction l as [|[cx c] l IH]; intros w0 H; [done|]. apply IH. by apply PriceOracle.reach_call.
Qed.

Lemma registry_reachable self w0 l :
  RiskRegistry.deployed self w0 -> Forall (fun e => cx_self e.1 = self) l ->
  RiskRegistry.reachable self (run_calls RiskRegistry.exec l w0).
Proof.
  intros Hd Hl. exists w0. split; [done|]. eapply run_calls_rtc; [|done].
  intros w cx c ?. by constructor.
Qed.

Lemma treasury_reachable w0 l :
  w_treasury w0 = empty_storage -> Treasury.reachable (run_calls Treasury.exec l w0).
Proof.
  intros E. exists w0. split; [done|]. apply run_calls_rtc with (P := fun _ => True);
    [intros; by econstructor|by apply Forall_true].
Qed.

Lemma nft_reachable w0 l :
  w_nft w0 = empty_storage -> InvoiceNft.reachable (run_calls InvoiceNft.exec l w0).
Proof.
  intros E. exists w0. split; [done|]. apply run_calls_rtc with (P := fun _ => True);
    [intros; by econstructor|by apply Forall_true].
Qed.

Lemma pool_reachable w0 l :
  w_pool w0 = empty_storage -> Forall (fun e => FinancingPool.typed e.2) l ->
  FinancingPool.reachable (run_calls FinancingPool.exec l w0).
Proof.
  intros E Hl. exists w0. split; [done|]. eapply run_calls_rtc; [|done].
  intros w cx c ?. by constructor.
Qed.

Lemma market_reachable w0 l :
  w_market w0 = empty_storage -> Forall (fun e => Marketplace.typed e.2) l ->
  Marketplace.reachable (run_calls Marketplace.exec l w0).
Proof.
  intros E Hl. exists w0. split; [done|]. eapply run_calls_rtc; [|done].
  intros w cx c ?. by constructor.
Qed.

(** What the refunds of a list of calls add up to. *)
Fixpoint refunds_of (id : u64) (x : Address) (l : list (Ctx * Marketplace.Call)) (w : World) : Z :=
  match l with
  | [] => 0
  | (cx, c) :: rest =>
      refunded_by id x c cx w + refunds_of id x rest (run_tx (Marketplace.exec c) cx w)
  end.

Definition not_payer_b (x : Address) (w : World) : bool :=
  match config_of w with Some cfg => negb (mc_financing_pool cfg =? x)%N | None => true end.

Lemma not_payer_b_ok x w : not_payer_b x w = true -> not_payer x w.
Proof.
  unfold not_payer_b, not_payer. intros H cfg E. rewrite E in H. by apply N.eqb_neq, negb_true_iff.
Qed.

(** The calls come in the order of the clock, from [t] on, and [x] never pays refunds. *)
Fixpoint in_order (x : Address) (t : u64) (l : list (Ctx * Marketplace.Call)) (w : World) : Prop :=
  match l with
  | [] => True
  | (cx, c) :: rest => t <= cx_now cx /\ Marketplace.typed c /\ not_payer_b x w = true /\
      in_order x (cx_now cx) rest (run_tx (Marketplace.exec c) cx w)
  end.

Lemma market_refunds id x l t paid w :
  refunds id x t paid w -> in_order x t l w ->
  exists t', refunds id x t' (paid + refunds_of id x l w) (run_calls Marketplace.exec l w).
Proof.
  revert t paid w. induction l as [|[cx c] l IH]; intros t paid w H Hl.
  - exists t. by rewrite Z.add_0_r.
  - destruct Hl as (Ht & Hc & Hx & Hl). cbn [refunds_of run_calls]. rewrite Z.add_assoc.
    apply (IH (cx_now cx)); [|done]. eapply refunds_call; [done|done|done|by apply not_payer_b_ok].
Qed.

(** ** The whole protocol, from nothing deployed to the invoice repaid *)

Definition on {C} (to : C -> SysCall) (l : list (Ctx * C)) : list (Ctx * SysCall) :=
  map (fun e => (e.1, to e.2)) l.

Definition sys_setup : list (Ctx * SysCall) :=
  on ToAccess access_calls ++ on ToOracle oracle_calls ++ on ToRegistry registry_calls ++
  on ToTreasury treasury_calls ++ on ToNft (nft_setup ++ [mint_call]) ++
  on ToPool (take 1 pool_setup) ++ on ToMarket market_setup.
Definition sys_half_calls : list (Ctx * SysCall) :=
  sys_setup ++ on ToMarket [offer_call; fund_call ALICE 540000000].
Definition sys_full_calls : list (Ctx * SysCall) :=
  sys_half_calls ++ on ToMarket [fund_call BOB 360000000].
Definition sys_repaid_calls : list (Ctx * SysCall) :=
  sys_full_calls ++ on ToPool (record_calls ++ [repay_call SME USD FACE]).

Definition default_call : Ctx * FinancingPool.Call :=
  (tx POOL [ADMIN] 2000001, FinancingPool.CMarkDefault ADMIN 1 USD).
(** A tenth is repaid, then the invoice defaults. *)
Definition sys_partial_calls : list (Ctx * SysCall) :=
  sys_full_calls ++ on ToPool (record_calls ++ [repay_call SME USD 100000000]).
Definition sys_defaulted_calls : list (Ctx * SysCall) :=
  sys_partial_calls ++ on ToPool [default_call].

Definition sys_half : World := run_calls sys_exec sys_half_calls blank.
Definition sys_full : World := run_calls sys_exec sys_full_calls blank.
Definition sys_repaid : World := run_calls sys_exec sys_repaid_calls blank.
Definition sys_partial : World := run_calls sys_exec sys_partial_calls blank.
Definition sys_defaulted : World := run_calls sys_exec sys_defaulted_calls blank.

Example system_succeeds :
  all_succeed sys_exec sys_repaid_calls blank && all_succeed sys_exec sys_defaulted_calls blank = true.
Proof. vm_compute. reflexivity. Qed.

(** What the system expects of a transaction, as a test. *)
Definition outside_b (cx : Ctx) : bool :=
  forallb (fun a => negb (cx_signed cx a)) CONTRACTS &&
  forallb (fun a => negb (list_mem a CONTRACTS)) (cx_stack cx).

Definition proper (e : Ctx * SysCall) : Prop :=
  cx_self e.1 = sys_at e.2 /\ outside_b e.1 = true /\ sys_typed e.2.

Lemma outside_b_ok cx : outside_b cx = true -> from_outside cx.
Proof.
  intros [Hs Hk]%andb_true_iff. rewrite forallb_forall in Hs, Hk. split.
  - intros a Ha%list_elem_of_In. by apply negb_true_iff, Hs.
  - intros a Ha%list_elem_of_In Hc. specialize (Hk a Ha). apply negb_true_iff in Hk.
    by apply list_mem_false in Hk.
Qed.

Lemma sys_runs l w : Forall proper l -> rtc sys_step w (run_calls sys_exec l w).
Proof.
  apply run_calls_rtc. intros v cx c (Ha & Ho & Hty). cbn in *.
  apply sys_call; [done|by apply outside_b_ok|done].
Qed.

Lemma blank_deployed : sys_deployed blank.
Proof.
  split; try done. intros t x. cbn. unfold start_balances. repeat case_match; lia.
Qed.

Lemma sys_run_reachable l : Forall proper l -> sys_reachable (run_calls sys_exec l blank).
Proof. intros Hl. exists blank. split; [apply blank_deployed|by apply sys_runs]. Qed.

(** A run that keeps the registry wired to the pool. *)
Definition wired_b (w : World) : bool :=
  match iget (w_nft w) InvoiceNft.DataKey.FinancingPool with
  | Some a => (a =? POOL)%N
  | None => true
  end.

Fixpoint wired_along (l : list (Ctx * SysCall)) (w : World) : bool :=
  match l with
  | [] => true
  | (cx, c) :: rest =>
      let w1 := run_tx (sys_exec c) cx w in wired_b w1 && wired_along rest w1
  end.

Lemma wired_runs l w :
  Forall proper l -> wired_along l w = true -> rtc wired_step w (run_calls sys_exec l w).
Proof.
  revert w. induction l as [|[cx c] l IH]; intros w Hl Hw; [constructor|].
  apply Forall_cons in Hl as [(Ha & Ho & Hty) Hl]. cbn in *. apply andb_true_iff in Hw as [Hw Hws].
  eapply rtc_l; [|by apply IH]. split; [apply sys_call; [done|by apply outside_b_ok|done]|].
  unfold wired, wired_b in *. intros a E. rewrite E in Hw. by apply N.eqb_eq.
Qed.
