(* ===== verification/Witnesses.v ===== *)
(** * Witnesses: the theorems applied

    Each theorem with hypotheses, applied to a concrete state and transaction of
    Scenario.v where its hypotheses hold, by evaluation. *)

From S2P Require Import Prelude Errors SortedMap Types Host Events Reentrancy Validation Interfaces AuditLog AccessControl PriceOracle RiskRegistry Treasury InvoiceNft FinancingPool Marketplace World System Lifetimes Protocol Custody Progress Scenario.

Lemma run_tx_ret (m : M World unit) cx w :
  is_ret (m cx w) = true -> m cx w = Ret tt (run_tx m cx w).
Proof. unfold run_tx. by destruct (m cx w) as [[]| |]. Qed.

(** A run that evaluates to success. *)
Ltac runs := apply run_tx_ret; vm_compute; reflexivity.
Ltac evaluates := vm_compute; reflexivity.
Ltac typed_calls := repeat constructor; vm_compute; intuition discriminate.

(** ** Shared library *)

Lemma shares_are_exact_and_bounded_witness :
  bps_of_normalized 1234567 125 6 = Ok 15432 /\ 15432 * 10000 <= 1234567 * 125.
Proof.
  assert (H : bps_of_normalized 1234567 125 6 = Ok 15432) by evaluates. split; [exact H|].
  by destruct (shares_are_exact_and_bounded 1234567 125 6 15432 ltac:(by vm_compute)
    ltac:(lia) ltac:(lia) H) as (_ & _ & ? & _).
Defined.

Lemma normalize_roundtrip_witness :
  normalize_amount 123456789 9 = Ok 1234567 /\ denormalize_amount 1234567 9 = Ok 123456700.
Proof.
  assert (H : normalize_amount 123456789 9 = Ok 1234567) by evaluates. split; [exact H|].
  exact (normalize_roundtrip 123456789 9 1234567 ltac:(split; by vm_compute) ltac:(lia) H).
Defined.

(** ** Marketplace *)

Lemma market_offered_reachable : Marketplace.reachable market_offered.
Proof. apply market_reachable; [done|typed_calls]. Qed.
Lemma market_half_reachable : Marketplace.reachable market_half.
Proof. apply market_reachable; [done|typed_calls]. Qed.

Lemma fund_invoice_correct_witness :
  let cx := tx MARKET [ALICE] 4000 in
  let w' := run_tx (Marketplace.fund_invoice ALICE 1 540000000) cx market_offered in
  exists fee l c, funding ALICE 1 540000000 fee l c cx market_offered w'.
Proof.
  cbv zeta.
  exact (proj1 (fund_invoice_correct ALICE 1 540000000 (tx MARKET [ALICE] 4000) market_offered _
    market_offered_reachable ltac:(runs))).
Defined.

Lemma listings_are_well_formed_witness :
  owed market_half 1 [ALICE; BOB] <= funded_of market_half 1 /\ 0 < owed market_half 1 [ALICE; BOB].
Proof.
  split; [|evaluates].
  refine (proj2 (listings_are_well_formed market_half market_half_reachable) 1 [ALICE; BOB] _).
  by apply (bool_decide_unpack _).
Defined.

Lemma listing_lifecycle_witness :
  let cx := tx MARKET [ALICE] 4000 in
  let c := Marketplace.CFundInvoice ALICE 1 540000000 in
  let w' := run_tx (Marketplace.exec c) cx market_offered in
  listing_change c cx market_offered 1 (listing_of market_offered 1) (listing_of w' 1) /\
  listing_of w' 1 <> listing_of market_offered 1.
Proof.
  cbv zeta. split; [|by vm_compute].
  exact (listing_lifecycle (Marketplace.CFundInvoice ALICE 1 540000000) (tx MARKET [ALICE] 4000)
    market_offered _ 1 market_offered_reachable ltac:(runs)).
Defined.

Lemma refunds_are_exact_witness :
  exists t paid, refunds 1 ALICE t paid market_refunded /\ 0 < paid /\
    paid = contribution market_refunded 1 ALICE.
Proof.
  destruct (market_refunds 1 ALICE
    (market_setup ++ [offer_call; fund_call ALICE 540000000; refund_call ALICE 200000]) 0 0
    market_blank ltac:(by apply refunds_start) ltac:(vm_compute; intuition discriminate)) as [t H].
  exists t. eexists. split; [exact H|].
  destruct (refunds_are_exact _ _ _ _ _ H) as [[_ E]|(_ & E & _)]; [vm_compute in E; discriminate E|].
  split; [evaluates|exact E].
Defined.

Lemma claim_refund_correct_witness :
  let cx := tx MARKET [ALICE; POOL] 200000 in
  let w' := run_tx (Marketplace.claim_refund ALICE 1) cx market_half in
  exists l c, refunding ALICE 1 l c cx market_half w'.
Proof.
  cbv zeta. exact (claim_refund_correct ALICE 1 (tx MARKET [ALICE; POOL] 200000) market_half _
    ltac:(runs)).
Defined.

Lemma list_invoice_correct_witness :
  let cx := tx MARKET [SME] 3000 in
  let w' := run_tx (Marketplace.list_invoice SME 1 900000000 FACE USD 100000 (Some CAROL)) cx
              market_ready in
  listed SME 1 900000000 FACE USD 100000 (Some CAROL) cx market_ready w' /\
  exists inv, slot w' 1 = Some (StoredV2 (with_status Listed inv)) /\ inv_amount inv = FACE.
Proof.
  cbv zeta. destruct (list_invoice_correct SME 1 900000000 FACE USD 100000 (Some CAROL)
    (tx MARKET [SME] 3000) market_ready _ ltac:(runs)) as (Hl & _ & (inv & _ & _ & Ha & Hs) & _).
  split; [exact Hl|]. exists inv. split; [exact Hs|exact Ha].
Defined.

Lemma config_changes_are_authorized_witness :
  let cx := tx MARKET [ADMIN] 3000 in
  let c := Marketplace.CSetFeeBps ADMIN 200 in
  let w' := run_tx (Marketplace.exec c) cx market_ready in
  config_of w' <> config_of market_ready /\
  exists cfg cfg', config_of market_ready = Some cfg /\ config_of w' = Some cfg' /\
    admin_update c cx cfg cfg'.
Proof.
  cbv zeta.
  assert (Hne : config_of (run_tx (Marketplace.exec (Marketplace.CSetFeeBps ADMIN 200))
    (tx MARKET [ADMIN] 3000) market_ready) <> config_of market_ready) by by vm_compute.
  split; [exact Hne|].
  destruct (config_changes_are_authorized (Marketplace.CSetFeeBps ADMIN 200)
    (tx MARKET [ADMIN] 3000) market_ready _ ltac:(runs) ltac:(by vm_compute)) as [_ [E|H]];
    [by destruct Hne|exact H].
Defined.

(** A deployment of the first version: the keys, and no config yet. *)
Definition legacy_world : World :=
  st_put (irem Marketplace.DataKey.Config (w_market market_ready)) market_ready.

Lemma legacy_deployment_can_be_taken_over_witness :
  exists w', Marketplace.initialize CAROL NFT POOL TREASURY ACCESS REGISTRY 10000
      (tx MARKET [CAROL] 5000) legacy_world = Ret tt w' /\
    config_of w' = Some (mkMarketplaceConfig CAROL NFT POOL TREASURY ACCESS REGISTRY 10000 0).
Proof.
  assert (H1 : iget (w_market legacy_world) Marketplace.DataKey.Config = None) by evaluates.
  assert (H2 : legacy_config legacy_world =
    Some (mkMarketplaceConfig ADMIN NFT POOL TREASURY ACCESS REGISTRY 100 0)) by evaluates.
  exact (legacy_deployment_can_be_taken_over _ CAROL NFT POOL TREASURY ACCESS REGISTRY 10000
    (tx MARKET [CAROL] 5000) legacy_world H1 H2 ltac:(lia)).
Defined.

Lemma cancel_listing_locks_refunds_witness :
  let w' := run_tx (Marketplace.cancel_listing SME 1) (tx MARKET [SME] 5000) market_half in
  exists l, listing_of w' 1 = Some l /\
    forall x cx2, authorized cx2 x = true -> cx_now cx2 <= l_funding_deadline l ->
      Marketplace.claim_refund x 1 cx2 w' = Fail FundingNotExpired w'.
Proof.
  cbv zeta.
  destruct (cancel_listing_locks_refunds SME 1 (tx MARKET [SME] 5000) market_half _
    market_half_reachable ltac:(runs)) as (l & El & _ & Hr & _).
  exists l. split; [exact El|exact Hr].
Defined.

(** ** Financing pool *)

Lemma pool_recorded_reachable : FinancingPool.reachable pool_recorded.
Proof. apply pool_reachable; [done|typed_calls]. Qed.
Lemma pool_open_reachable : FinancingPool.reachable pool_open.
Proof. apply pool_reachable; [done|typed_calls]. Qed.

(** The repayment is late: after the due date, so it does not close the pool. *)
Lemma repay_correct_witness :
  let cx := tx POOL [SME] 2000001 in
  let w' := run_tx (repay SME 1 USD FACE) cx pool_recorded in
  exists p inv eff, pool_of pool_recorded 1 = Some p /\
    let p' := repaid_pool 2000001 (inv_due_date inv) eff p in
    pool_of w' 1 = Some p' /\ repay_balances SME USD FACE 1 p' cx pool_recorded w'.
Proof.
  cbv zeta.
  destruct (repay_correct SME 1 USD FACE (tx POOL [SME] 2000001) pool_recorded _
    pool_recorded_reachable ltac:(runs))
    as (p & _ & inv & eff & _ & Ep & _ & _ & _ & _ & _ & _ & _ & _ & _ & Ep' & _ & _ & _ & _ & Hb).
  exists p, inv, eff. split; [exact Ep|]. split; [exact Ep'|exact Hb].
Defined.

Lemma pools_are_accounted_witness :
  exists p, pool_of pool_recorded 1 = Some p /\ pool_ok 1 p.
Proof.
  eexists. split; [evaluates|].
  refine (pools_are_accounted pool_recorded 1 _ pool_recorded_reachable _). evaluates.
Defined.

Lemma pool_recorded_steps : rtc FinancingPool.step pool_recorded pool_repaid.
Proof.
  unfold pool_repaid, pool_recorded. rewrite app_assoc, (run_calls_app _ (pool_setup ++ record_calls)).
  apply (run_calls_rtc _ _ (fun e => FinancingPool.typed e.2));
    [intros w cx c Hc; apply FinancingPool.step_call, Hc|by repeat constructor].
Qed.

Lemma pools_are_permanent_witness :
  exists p p', pool_of pool_recorded 1 = Some p /\ pool_of pool_repaid 1 = Some p' /\
    p_is_closed p' = true /\ p_face_value p' = p_face_value p.
Proof.
  assert (E : exists p, pool_of pool_recorded 1 = Some p) by (eexists; evaluates).
  destruct E as [p E].
  destruct (pools_are_permanent pool_recorded pool_repaid 1 p pool_recorded_reachable
    pool_recorded_steps E) as (p' & E' & _ & Ef & _).
  exists p, p'. split; [exact E|]. split; [exact E'|]. split; [|exact Ef].
  vm_compute in E'. by injection E' as <-.
Defined.

Definition pool_part : World :=
  run_calls FinancingPool.exec
    (pool_setup ++ record_calls ++ [repay_call SME USD 500000000]) pool_blank.
Lemma pool_part_reachable : FinancingPool.reachable pool_part.
Proof. apply pool_reachable; [done|typed_calls]. Qed.

Lemma distribution_is_bounded_witness :
  let cx := tx POOL [] 7000 in
  let w' := run_tx (distribute_yield 1 USD 500000000 FACE) cx pool_part in
  w_bal pool_part USD POOL - 500000000 <= w_bal w' USD POOL /\
  w_bal w' USD ALICE = w_bal pool_part USD ALICE + 300000000.
Proof.
  cbv zeta.
  destruct (distribution_is_bounded 1 USD 500000000 FACE (tx POOL [] 7000) pool_part _
    pool_part_reachable ltac:(split; by vm_compute) ltac:(runs)) as (Hx & _ & Hb).
  split; [apply Hb; by vm_compute|]. refine (eq_trans (Hx USD ALICE ltac:(by vm_compute)) _). evaluates.
Defined.

Lemma recorded_shares_fit_witness :
  let cx := tx POOL [ADMIN] 5000 in
  let w' := run_tx (record_position ADMIN 1 ALICE 540000000 900000000) cx pool_open in
  map_sum pos_share_bps (positions_of w' 1) <= 10000 /\
  map_get ALICE (positions_of w' 1) <> None.
Proof.
  cbv zeta.
  destruct (recorded_shares_fit ADMIN 1 ALICE 540000000 900000000 (tx POOL [ADMIN] 5000) pool_open _
    pool_open_reachable ltac:(runs)) as (_ & _ & (p & Ep & _) & Hsum).
  split; [|by rewrite Ep].
  assert (He : entries (positions_of pool_open 1) = []) by evaluates.
  assert (Hr : recorded_against 900000000 (positions_of pool_open 1))
    by (unfold recorded_against, map_all; rewrite He; constructor).
  refine (proj2 (Hsum Hr _)). by vm_compute.
Defined.

Definition settlement_calls : list (Ctx * FinancingPool.Call) :=
  [ (tx POOL [SME] 6000, FinancingPool.CProposeSettlement SME 1 950000000) ].
Definition pool_settling : World :=
  run_calls FinancingPool.exec (pool_setup ++ record_calls ++ settlement_calls) pool_blank.
Lemma pool_settling_reachable : FinancingPool.reachable pool_settling.
Proof. apply pool_reachable; [done|typed_calls]. Qed.

Lemma accept_settlement_correct_witness :
  let cx := tx POOL [ALICE] 7000 in
  let w' := run_tx (accept_early_settlement ALICE 1) cx pool_settling in
  exists o p, settlement_of pool_settling 1 = Some o /\ pool_of pool_settling 1 = Some p /\
    p_is_closed p = false /\ ~ ALICE ∈ es_accepted o.
Proof.
  cbv zeta.
  destruct (accept_settlement_correct ALICE 1 (tx POOL [ALICE] 7000) pool_settling _
    pool_settling_reachable ltac:(runs))
    as (o & p & _ & Eo & Ep & Hc & _ & _ & Hin & _).
  exists o, p. split; [exact Eo|]. split; [exact Ep|]. split; [exact Hc|exact Hin].
Defined.

(** Alice holds 60% of the pool, has put the position up for sale, and an early
    settlement is offered. *)
Definition pool_contested : World :=
  run_calls FinancingPool.exec (pool_setup ++ record_calls ++ settlement_calls ++
    [(tx POOL [ALICE] 6000, FinancingPool.CListPosition ALICE 1 USD 550000000)]) pool_blank.
Lemma pool_contested_reachable : FinancingPool.reachable pool_contested.
Proof. apply pool_reachable; [done|typed_calls]. Qed.

(** Her 60% accept, twice, and Bob is never asked. *)
Lemma sold_share_accepts_twice_witness :
  let w1 := run_tx (accept_early_settlement ALICE 1) (tx POOL [ALICE] 7000) pool_contested in
  let w2 := run_tx (buy_position CAROL 1 ALICE) (tx POOL [CAROL] 7000) w1 in
  let w3 := run_tx (accept_early_settlement CAROL 1) (tx POOL [CAROL] 7000) w2 in
  exists o pos, es_accepted o = [] /\ pos_share_bps pos = 6000 /\ settlement_of w3 1 = None /\
    exists p, pool_of w3 1 = Some (with_is_closed true (with_repaid_amount (es_amount o) p)).
Proof.
  cbv zeta.
  destruct (sold_share_accepts_twice ALICE CAROL 1 (tx POOL [ALICE] 7000) (tx POOL [CAROL] 7000)
    (tx POOL [CAROL] 7000) pool_contested _ _ _ pool_contested_reachable ltac:(runs) ltac:(runs) ltac:(runs))
    as (o & pos & Eo & Epos & H).
  assert (Ho : es_accepted o = [] /\ es_accepted_bps o = 0)
    by (clear - Eo; vm_compute in Eo; injection Eo as <-; split; reflexivity).
  assert (Hp : pos_share_bps pos = 6000)
    by (clear - Epos; vm_compute in Epos; injection Epos as <-; reflexivity).
  destruct Ho as [Ho Hb]. cbv zeta in H. rewrite Hb, Hp in H. exists o, pos.
  split; [exact Ho|]. split; [exact Hp|]. destruct H as [[Hlt _]|(_ & Hs & p & _ & Ep)]; [discriminate Hlt|].
  split; [exact Hs|]. exists p. exact Ep.
Defined.

Definition sale_calls : list (Ctx * FinancingPool.Call) :=
  [ (tx POOL [ALICE] 6000, FinancingPool.CListPosition ALICE 1 USD 550000000) ].
Definition pool_selling : World :=
  run_calls FinancingPool.exec (pool_setup ++ record_calls ++ sale_calls) pool_blank.

Lemma buy_position_correct_witness :
  let cx := tx POOL [CAROL] 7000 in
  let w' := run_tx (buy_position CAROL 1 ALICE) cx pool_selling in
  map_get ALICE (positions_of w' 1) = None /\
  exists o, so_price o = 550000000 /\ forall t x, tok_bal w' t x =
    if (t =? so_token o)%N then moved CAROL ALICE x (so_price o) (tok_bal pool_selling t x)
    else tok_bal pool_selling t x.
Proof.
  cbv zeta.
  destruct (buy_position_correct CAROL 1 ALICE (tx POOL [CAROL] 7000) pool_selling _ ltac:(runs))
    as (o & p & pos & Eo & _ & _ & _ & _ & _ & _ & Hs & _ & _ & Hb).
  split; [by apply Hs|]. exists o. split; [|exact Hb].
  vm_compute in Eo. by injection Eo as <-.
Defined.

(** ** Treasury *)

Definition cap_calls : list (Ctx * Treasury.Call) :=
  [ (tx TREASURY [ADMIN] 2000, Treasury.CProposeWithdrawalCap ADMIN 1000);
    (tx TREASURY [ADMIN] 90000, Treasury.CExecuteWithdrawalCap ADMIN) ].

(** The treasury holds 5000 of the token and has a cap of 1000. *)
Definition treasury_blank : World :=
  with_balances (fun t x => if (t =? USD)%N && (x =? TREASURY)%N then 5000 else 0) blank.
Definition treasury_capped : World :=
  run_calls Treasury.exec (treasury_calls ++ cap_calls) treasury_blank.
Definition treasury_proposed : World :=
  run_calls Treasury.exec (treasury_calls ++ take 1 cap_calls) treasury_blank.
Lemma treasury_capped_reachable : Treasury.reachable treasury_capped.
Proof. by apply treasury_reachable. Qed.
Lemma treasury_proposed_reachable : Treasury.reachable treasury_proposed.
Proof. by apply treasury_reachable. Qed.

(** Two withdrawals of the whole cap, one second apart, around an epoch boundary. *)
Definition first_withdrawal : World :=
  run_tx (Treasury.exec (Treasury.CWithdraw ADMIN USD ALICE 1000)) (tx TREASURY [ADMIN] 87399)
    treasury_capped.
Definition second_withdrawal : World :=
  run_tx (Treasury.exec (Treasury.CWithdraw ADMIN USD ALICE 1000)) (tx TREASURY [ADMIN] 87400)
    first_withdrawal.

Lemma withdrawals_are_capped_witness :
  exists total, withdrawals 87399 90000 treasury_capped total second_withdrawal /\
    total = 2000 /\ total <= 2 * cap_of treasury_capped.
Proof.
  assert (H : withdrawals 87399 90000 treasury_capped
    (0 + withdrawn_by (Treasury.CWithdraw ADMIN USD ALICE 1000) (tx TREASURY [ADMIN] 87399) treasury_capped
       + withdrawn_by (Treasury.CWithdraw ADMIN USD ALICE 1000) (tx TREASURY [ADMIN] 87400) first_withdrawal)
    second_withdrawal).
  { apply withdrawals_call; [|cbn; lia|done]. apply withdrawals_call; [|cbn; lia|done].
    apply withdrawals_nil. }
  eexists. split; [exact H|]. split; [evaluates|].
  exact (withdrawals_are_capped 87399 90000 treasury_capped _ second_withdrawal
    treasury_capped_reachable ltac:(by vm_compute) ltac:(lia) H).
Defined.

Lemma withdraw_correct_witness :
  let cx := tx TREASURY [ADMIN] 87399 in
  let w' := run_tx (withdraw ADMIN USD ALICE 1000) cx treasury_capped in
  rate_limited 1000 87399 treasury_capped w' /\ w_bal w' USD ALICE = 1000.
Proof.
  cbv zeta.
  destruct (withdraw_correct ADMIN USD ALICE 1000 (tx TREASURY [ADMIN] 87399) treasury_capped _
    ltac:(runs)) as (_ & _ & _ & _ & Hr & Hb).
  split; [exact Hr|]. refine (eq_trans (Hb USD ALICE) _). evaluates.
Defined.

Lemma tokens_move_only_by_admin_witness :
  let cx := tx TREASURY [ADMIN] 87399 in
  let c := Treasury.CEmergencyWithdraw ADMIN USD ALICE in
  let w' := run_tx (Treasury.exec c) cx treasury_capped in
  exists a r, ((exists n, c = Treasury.CWithdraw a USD r n) \/ c = Treasury.CEmergencyWithdraw a USD r) /\
    authorized cx a = true.
Proof.
  cbv zeta.
  destruct (tokens_move_only_by_admin (Treasury.CEmergencyWithdraw ADMIN USD ALICE)
    (tx TREASURY [ADMIN] 87399) treasury_capped _ USD ALICE ltac:(runs) ltac:(by vm_compute))
    as (a & r & Hc & _ & Ha & _).
  exists a, r. split; [exact Hc|exact Ha].
Defined.

Lemma cap_changes_need_timelock_witness :
  let cx := tx TREASURY [ADMIN] 90000 in
  let c := Treasury.CExecuteWithdrawalCap ADMIN in
  let w' := run_tx (Treasury.exec c) cx treasury_proposed in
  0 <= cap_of w' /\ exists a cap proposed_at, c = Treasury.CExecuteWithdrawalCap a /\
    proposed_at + 86400 <= 90000 /\ cap_of w' = cap.
Proof.
  cbv zeta.
  destruct (cap_changes_need_timelock (Treasury.CExecuteWithdrawalCap ADMIN)
    (tx TREASURY [ADMIN] 90000) treasury_proposed _ treasury_proposed_reachable ltac:(runs)
    ltac:(by vm_compute) ltac:(by vm_compute)) as (H0 & a & cap & p & Hc & _ & _ & _ & Ht & E & _).
  split; [exact H0|]. exists a, cap, p. split; [exact Hc|]. split; [exact Ht|exact E].
Defined.

(** ** Access control *)

Lemma gov_reachable : AccessControl.reachable gov_ready.
Proof. by apply access_reachable. Qed.

(** Two signers make a new admin. *)
Lemma authority_changes_are_authorized_witness :
  let cx := tx ACCESS [BOB] 3000 in
  let c := AccessControl.CExecuteAction BOB 1 in
  let w' := run_tx (AccessControl.exec c) cx gov_ready in
  pget (w_access w') AccessControl.DataKey.Admin = Some CAROL /\
  (authority_unchanged gov_ready w' \/
   pget (st_get gov_ready) AccessControl.DataKey.Admin = None \/
   admin_call cx gov_ready \/ quorum_call c cx gov_ready).
Proof.
  cbv zeta. split; [evaluates|].
  apply (authority_changes_are_authorized (AccessControl.CExecuteAction BOB 1)
    (tx ACCESS [BOB] 3000) gov_ready). runs.
Defined.

Lemma proposal_executed_at_most_once_witness :
  let w1 := run_tx (execute_action BOB 1) (tx ACCESS [BOB] 3000) gov_ready in
  let w2 := run_tx (AccessControl.exec (AccessControl.CPause CAROL)) (tx ACCESS [CAROL] 3001) w1 in
  execute_action BOB 1 (tx ACCESS [BOB] 3000) gov_ready = Ret tt w1 /\
  forall w3, execute_action ALICE 1 (tx ACCESS [ALICE] 3002) w2 <> Ret tt w3.
Proof.
  cbv zeta. split; [runs|]. intros w3.
  exact (proposal_executed_at_most_once BOB 1 (tx ACCESS [BOB] 3000) gov_ready _ _ ALICE
    (tx ACCESS [ALICE] 3002) w3 gov_reachable ltac:(runs)
    (rtc_once _ _ (AccessControl.step_call _ (tx ACCESS [CAROL] 3001) (AccessControl.CPause CAROL)))).
Defined.

Lemma parameter_changes_need_quorum_and_timelock_witness :
  let cx := tx ACCESS [ALICE] 88400 in
  let c := CExecuteParameter ALICE 1 in
  let w' := run_tx (AccessControl.exec c) cx gov_ready in
  exists e id p cfg, c = CExecuteParameter e id /\
    pget (st_get gov_ready) (AccessControl.DataKey.ParameterProposal id) = Some p /\
    pget (st_get gov_ready) AccessControl.DataKey.MultisigConfig = Some cfg /\
    ms_threshold cfg <= len (pp_approvals p) /\ pp_created_at p + 86400 <= 88400.
Proof.
  cbv zeta.
  destruct (parameter_changes_need_quorum_and_timelock (CExecuteParameter ALICE 1)
    (tx ACCESS [ALICE] 88400) gov_ready _ FeeBps 75 gov_reachable ltac:(runs) ltac:(evaluates)
    ltac:(by vm_compute))
    as (e & id & p & cfg & Hc & Hp & Hcfg & _ & _ & _ & _ & Hq & Ht & _).
  exists e, id, p, cfg. split; [exact Hc|]. split; [exact Hp|]. split; [exact Hcfg|].
  split; [exact Hq|exact Ht].
Defined.

Lemma code_changes_need_timelock_witness :
  let cx := tx ACCESS [ADMIN] 88400 in
  let c := AccessControl.CExecuteUpgrade ADMIN in
  let w' := run_tx (AccessControl.exec c) cx gov_ready in
  exists admin hash proposed_at, c = AccessControl.CExecuteUpgrade admin /\
    authorized cx admin = true /\ proposed_at + 86400 <= 88400 /\
    st_wasm (st_get (K:=AccessControl.DataKey.t) w') = Some hash.
Proof.
  cbv zeta.
  destruct (code_changes_need_timelock (AccessControl.CExecuteUpgrade ADMIN)
    (tx ACCESS [ADMIN] 88400) gov_ready _ ltac:(runs) ltac:(by vm_compute))
    as (a & h & p & Hc & _ & Ha & _ & Ht & Hw & _).
  exists a, h, p. split; [exact Hc|]. split; [exact Ha|]. split; [exact Ht|exact Hw].
Defined.

(** ** Price oracle *)

Lemma oracle_ready_reachable : PriceOracle.reachable oracle_ready.
Proof. by apply oracle_reachable. Qed.

Lemma convert_correct_witness :
  PriceOracle.convert 300 "EUR" "USDC" (tx ORACLE [] 2000) oracle_ready = Ret 330 oracle_ready.
Proof.
  assert (E : convert_spec 2000 (pget (st_get oracle_ready) (PriceOracle.DataKey.Price "EUR" "USDC"))
    300 = Ok 330) by evaluates.
  refine (eq_trans (convert_correct 300 "EUR" "USDC" (tx ORACLE [] 2000) oracle_ready
    ltac:(split; by vm_compute) _) _).
  - intros d Ed. vm_compute in Ed. by injection Ed as <-.
  - cbn [cx_now tx]. unfold lift.
    by rewrite E.
Defined.

Lemma convert_uses_fresh_positive_price_witness :
  exists d, pget (st_get oracle_ready) (PriceOracle.DataKey.Price "EUR" "USDC") = Some d /\
    0 < price d /\ 2000 <= timestamp d + 3600.
Proof.
  assert (Hs : is_ret (PriceOracle.convert 300 "EUR" "USDC" (tx ORACLE [] 2000) oracle_ready) = true)
    by evaluates.
  destruct (is_ret_ex _ oracle_ready Hs) as [r H].
  destruct (convert_uses_fresh_positive_price 300 "EUR" "USDC" (tx ORACLE [] 2000) oracle_ready _ _
    oracle_ready_reachable ltac:(split; by vm_compute) ltac:(done) ltac:(lia) H)
    as (d & E & Hp & Ht & _).
  exists d. split; [exact E|]. split; [exact Hp|exact Ht].
Defined.

(** ** Risk registry *)

Lemma registry_ready_reachable : RiskRegistry.reachable REGISTRY registry_ready.
Proof.
  apply registry_reachable; [|by repeat constructor].
  split; [done|]. intros t. unfold tok_bal. cbn. unfold start_balances. by case_match; [|case_match].
Qed.

Lemma stakes_are_backed_witness :
  sum_of (stake_of registry_ready) [VERIFIER] <= tok_bal registry_ready STAKE REGISTRY /\
  sum_of (stake_of registry_ready) [VERIFIER] = 5000.
Proof.
  split; [|evaluates].
  exact (stakes_are_backed REGISTRY registry_ready STAKE [VERIFIER] registry_ready_reachable
    ltac:(evaluates) (NoDup_singleton VERIFIER)).
Defined.

Lemma record_default_slashes_witness :
  let cx := tx REGISTRY [ADMIN] 2000 in
  let w' := run_tx (RiskRegistry.record_default ADMIN SME) cx registry_ready in
  stake_of registry_ready VERIFIER = 5000 /\ stake_of w' VERIFIER = 4000 /\
  exists p, profile w' SME = Some (with_defaults (sp_defaults p + 1) p).
Proof.
  cbv zeta. split; [evaluates|].
  destruct (record_default_slashes ADMIN SME (tx REGISTRY [ADMIN] 2000) registry_ready _ ltac:(runs))
    as (p & pct & _ & _ & _ & _ & Ep & _).
  split; [evaluates|]. exists p. exact Ep.
Defined.

Lemma debtor_score_cooldown_witness :
  let w1 := run_tx (RiskRegistry.set_debtor_score VERIFIER DEBTOR 40) (tx REGISTRY [VERIFIER] 2000)
              registry_ready in
  is_ret (RiskRegistry.set_debtor_score VERIFIER DEBTOR 50 (tx REGISTRY [VERIFIER] 5600) w1) = true /\
  2000 + 3600 <= 5600.
Proof.
  cbv zeta. split; [evaluates|].
  exact (debtor_score_cooldown REGISTRY VERIFIER DEBTOR 40 50 (tx REGISTRY [VERIFIER] 2000)
    (tx REGISTRY [VERIFIER] 5600) registry_ready _ _ _ ltac:(runs) (rtc_refl _ _) ltac:(runs)).
Defined.

(** ** Invoice registry *)

Lemma nft_minted_reachable : InvoiceNft.reachable nft_minted.
Proof. by apply nft_reachable. Qed.
Lemma nft_listed_reachable : InvoiceNft.reachable nft_listed.
Proof. by apply nft_reachable. Qed.
Lemma nft_ready_reachable : InvoiceNft.reachable nft_ready.
Proof. by apply nft_reachable. Qed.

Lemma invoice_lifecycle_witness :
  let cx := from POOL NFT 4000 in
  let c := InvoiceNft.CSetFunded POOL 1 in
  let w' := run_tx (InvoiceNft.exec c) cx nft_listed in
  lifecycle c cx nft_listed 1 (slot nft_listed 1) (slot w' 1).
Proof.
  cbv zeta.
  destruct (invoice_lifecycle (InvoiceNft.CSetFunded POOL 1) (from POOL NFT 4000) nft_listed _ 1
    nft_listed_reachable ltac:(runs) ltac:(by vm_compute)) as [H _].
  exact H.
Defined.

Lemma nft_listed_steps :
  rtc InvoiceNft.step nft_listed
    (run_tx (InvoiceNft.exec (InvoiceNft.CSetFunded POOL 1)) (from POOL NFT 4000) nft_listed).
Proof. apply rtc_once, InvoiceNft.step_call. Qed.

Lemma listed_invoices_are_immutable_witness :
  let w' := run_tx (InvoiceNft.exec (InvoiceNft.CSetFunded POOL 1)) (from POOL NFT 4000) nft_listed in
  exists i i', slot nft_listed 1 = Some (StoredV2 i) /\ slot w' 1 = Some (StoredV2 i') /\
    inv_status i' = Funded /\ terms i' = terms i.
Proof.
  cbv zeta.
  assert (E : exists i, slot nft_listed 1 = Some (StoredV2 i) /\ inv_status i <> Created)
    by (eexists; split; [evaluates|done]).
  destruct E as (i & E & Hs).
  destruct (listed_invoices_are_immutable nft_listed _ 1 i nft_listed_reachable nft_listed_steps E Hs)
    as (i' & E' & Ht & _).
  exists i, i'. split; [exact E|]. split; [exact E'|]. split; [|exact Ht].
  vm_compute in E'. by injection E' as <-.
Defined.

Lemma mint_correct_witness :
  exists id w', mint_invoice SME DEBTOR FACE "USDC" DUE CID 30 None (tx NFT [SME] 2000) nft_ready =
      Ret id w' /\ id = next_invoice_id nft_ready /\ slot nft_ready id = None /\
    next_invoice_id w' = id + 1.
Proof.
  assert (Hs : is_ret (mint_invoice SME DEBTOR FACE "USDC" DUE CID 30 None (tx NFT [SME] 2000)
    nft_ready) = true) by evaluates.
  destruct (is_ret_ex _ nft_ready Hs) as [id H].
  destruct (mint_correct SME DEBTOR FACE "USDC" DUE CID 30 None (tx NFT [SME] 2000) nft_ready id _
    nft_ready_reachable H) as (_ & Ei & En & _ & Ex & _).
  exists id. eexists. split; [exact H|]. split; [exact Ei|]. split; [exact En|exact Ex].
Defined.

Lemma stored_invoices_are_well_formed_witness :
  exists s, slot nft_minted 1 = Some s /\ exists i, s = StoredV2 i /\ invoice_ok 1 i.
Proof.
  assert (E : exists s, slot nft_minted 1 = Some s) by (eexists; evaluates).
  destruct E as [s E]. exists s. split; [exact E|].
  exact (proj2 (stored_invoices_are_well_formed nft_minted 1 s nft_minted_reachable E)).
Defined.

Lemma exposure_is_never_positive_witness : exposure nft_minted SME <= 0.
Proof. exact (exposure_is_never_positive nft_minted SME nft_minted_reachable). Defined.

Lemma migrate_panics_after_minting_witness :
  migrate ADMIN (tx NFT [ADMIN] 3000) nft_minted = Trap.
Proof.
  assert (E : exists s, slot nft_minted 1 = Some s) by (eexists; evaluates).
  destruct E as [s E].
  exact (migrate_panics_after_minting ADMIN (tx NFT [ADMIN] 3000) nft_minted 1 s
    nft_minted_reachable ltac:(evaluates) ltac:(evaluates) ltac:(by vm_compute) E).
Defined.

(** The minted invoice, with the protocol paused. *)
Definition nft_paused : World :=
  run_calls AccessControl.exec [(tx ACCESS [ADMIN] 3000, AccessControl.CPause ADMIN)] nft_minted.

Lemma pause_stops_invoices_witness :
  run_tx (InvoiceNft.exec (InvoiceNft.CSetListed MARKET 1)) (from MARKET NFT 4000) nft_paused =
    nft_paused.
Proof.
  assert (Ha : iget (st_get nft_paused) InvoiceNft.DataKey.AccessControl = Some ACCESS) by evaluates.
  refine (pause_stops_invoices (InvoiceNft.CSetListed MARKET 1) (from MARKET NFT 4000) nft_paused
    ACCESS Ha _ eq_refl).
  intros w' H. 
  assert (E : (match ac_is_paused ACCESS (from MARKET NFT 4000) nft_paused with
    | Ret b _ => b | _ => false end) = true) by evaluates.
  rewrite H in E. discriminate E.
Defined.

(** ** Audit log *)

(** The treasury's log after its first admin action. *)
Definition treasury_history : list AdminAuditEntry :=
  [mkAdminAuditEntry 0 1000 ADMIN ActWhitelistToken SrcTreasury].

Lemma treasury_audit : audit_rel (w_treasury treasury_ready) treasury_history.
Proof.
  split; [evaluates|evaluates|..]; intros [|i] e E; try (destruct i; discriminate E);
    injection E as <-; [intros _; evaluates|done].
Qed.

Lemma append_refines_history_witness :
  exists w', Treasury.append_audit_entry ADMIN ActWithdraw (tx TREASURY [ADMIN] 2000) treasury_ready =
      Ret tt w' /\
    audit_rel (w_treasury w')
      (treasury_history ++ [mkAdminAuditEntry 1 2000 ADMIN ActWithdraw SrcTreasury]).
Proof.
  exact (append_refines_history (K:=Treasury.DataKey.t) SrcTreasury ADMIN ActWithdraw
    (tx TREASURY [ADMIN] 2000) treasury_ready treasury_history treasury_audit ltac:(by vm_compute)).
Defined.

Lemma get_audit_log_refines_history_witness :
  Treasury.get_audit_log 0 10 (tx TREASURY [] 2000) treasury_ready =
    Ret (history_page 0 10 treasury_history) treasury_ready /\
  history_page 0 10 treasury_history = treasury_history.
Proof.
  split; [|evaluates].
  exact (get_audit_log_refines_history (K:=Treasury.DataKey.t) (tx TREASURY [] 2000) treasury_ready
    treasury_history 0 10 treasury_audit ltac:(by vm_compute) ltac:(split; by vm_compute)).
Defined.

(** ** The protocol as a whole *)

Ltac proper_calls := repeat constructor; vm_compute; intuition discriminate.

Lemma sys_half_reachable : sys_reachable sys_half.
Proof. apply sys_run_reachable. proper_calls. Qed.
Lemma sys_full_reachable : sys_reachable sys_full.
Proof. apply sys_run_reachable. proper_calls. Qed.

Lemma sys_half_runs : rtc sys_step sys_half sys_full.
Proof.
  unfold sys_full, sys_full_calls. rewrite run_calls_app. apply sys_runs. proper_calls.
Qed.

Lemma system_refines_contracts_witness :
  FinancingPool.reachable sys_full /\ rtc InvoiceNft.step sys_half sys_full.
Proof.
  destruct (system_refines_contracts sys_half sys_full sys_half_reachable sys_half_runs)
    as [(_ & _ & _ & _ & _ & H1 & _) (_ & _ & _ & H2 & _)].
  split; [exact H1|exact H2].
Defined.

Lemma protocol_books_agree_witness :
  exists p l, pool_of sys_full 1 = Some p /\ pool_agrees sys_full 1 p /\
    listing_of sys_full 1 = Some l /\ listing_agrees sys_full 1 l.
Proof.
  destruct (pool_of sys_full 1) as [p|] eqn:Ep; [|by vm_compute in Ep].
  destruct (listing_of sys_full 1) as [l|] eqn:El; [|by vm_compute in El].
  destruct (protocol_books_agree sys_full sys_full_reachable) as [Hp Hl].
  exists p, l. split_and!; [done|exact (Hp _ _ Ep)|done|exact (Hl _ _ El)].
Defined.

Lemma invoice_status_is_pool_state_witness :
  exists i p, slot sys_repaid 1 = Some (StoredV2 i) /\ inv_status i = Repaid /\
    pool_of sys_repaid 1 = Some p /\ p_is_closed p = true.
Proof.
  assert (Hs : rtc wired_step blank sys_repaid) by (apply wired_runs; [proper_calls|evaluates]).
  assert (Hi : exists i, slot sys_repaid 1 = Some (StoredV2 i) /\ inv_status i = Repaid).
  { eexists. split; [vm_compute; reflexivity|reflexivity]. }
  destruct Hi as (i & Ei & Er).
  pose proof (invoice_status_is_pool_state blank sys_repaid 1 i blank_deployed Hs Ei) as H.
  rewrite Er in H. destruct H as (p & Hp & Hc).
  exact (ex_intro _ i (ex_intro _ p (conj Ei (conj Er (conj Hp Hc))))).
Defined.

Lemma at_market signers now : forallb (fun a => negb (list_mem a signers)) CONTRACTS = true ->
  runs_at MARKET (tx MARKET signers now).
Proof.
  intros H. split; [done|]. intros a Ha%list_elem_of_In. rewrite forallb_forall in H.
  by apply negb_true_iff, H.
Qed.

Lemma funding_completion_is_atomic_witness :
  let w' := run_tx (Marketplace.fund_invoice BOB 1 360000000) (tx MARKET [BOB] 4000) sys_half in
  exists p i, pool_of w' 1 = Some p /\ p_token p = USD /\ p_face_value p = FACE /\
    slot w' 1 = Some (StoredV2 i) /\ inv_status i = Funded.
Proof.
  cbv zeta.
  destruct (funding_completion_is_atomic BOB 1 360000000 (tx MARKET [BOB] 4000) sys_half _
    (at_market [BOB] 4000 ltac:(evaluates)) ltac:(runs)) as (l & El & H).
  assert (Hl : (l_token l, l_funded_amount l + 360000000 >=? l_asking_price l) = (USD, true)).
  { vm_compute in El. by injection El as <-. }
  injection Hl as Ht Hf. rewrite Hf in H. destruct H as (i & late & _ & Ei & _ & _ & Hp & Hs & _).
  assert (Ha : inv_amount i = FACE) by (vm_compute in Ei; by injection Ei as <-).
  rewrite Ht, Ha in Hp. do 2 eexists. split_and!; [exact Hp|done|done|exact Hs|done].
Defined.

(** A stranger opens the pool of an invoice that is funded by 60%. *)
Lemma premature_release_blocks_funding_witness :
  let cx := tx POOL [CAROL] 3500 in
  let w1 := run_tx (FinancingPool.release_funds CAROL 1 STAKE) cx sys_half in
  FinancingPool.release_funds CAROL 1 STAKE cx sys_half = Ret tt w1 /\
  forall w3, Marketplace.fund_invoice BOB 1 360000000 (tx MARKET [BOB] 4000) w1 <> Ret tt w3.
Proof.
  cbv zeta.
  assert (H1 : FinancingPool.release_funds CAROL 1 STAKE (tx POOL [CAROL] 3500) sys_half =
    Ret tt (run_tx (FinancingPool.release_funds CAROL 1 STAKE) (tx POOL [CAROL] 3500) sys_half)) by runs.
  split; [exact H1|]. intros w3.
  destruct (listing_of (run_tx (FinancingPool.release_funds CAROL 1 STAKE) (tx POOL [CAROL] 3500) sys_half) 1)
    as [l|] eqn:El; [|vm_compute in El; discriminate El].
  assert (Hn : l_asking_price l <= l_funded_amount l + 360000000).
  { vm_compute in El. injection El as <-. by vm_compute. }
  assert (Ho : from_outside (tx POOL [CAROL] 3500)) by (apply outside_b_ok; evaluates).
  exact (premature_release_blocks_funding CAROL 1 STAKE (tx POOL [CAROL] 3500) sys_half _ _ BOB
    360000000 l (tx MARKET [BOB] 4000) w3 sys_half_reachable (conj eq_refl (proj1 Ho)) Ho H1
    (rtc_refl _ _) (at_market [BOB] 4000 ltac:(evaluates)) El Hn).
Defined.

(** Alice's refund after the deadline of a listing that fell short. *)
Lemma refunds_are_never_paid_witness :
  contribution sys_half 1 ALICE = 534600000 /\
  forall w', Marketplace.claim_refund ALICE 1 (tx MARKET [ALICE] 200000) sys_half <> Ret tt w'.
Proof.
  split; [evaluates|]. intros w'.
  assert (Hc : config_of sys_half =
    Some (mkMarketplaceConfig ADMIN NFT POOL TREASURY ACCESS REGISTRY 100 0)) by evaluates.
  assert (Hp : POOL ∈ CONTRACTS) by by do 5 right; left.
  exact (refunds_are_never_paid ALICE 1 _ (tx MARKET [ALICE] 200000) sys_half w'
    (at_market [ALICE] 200000 ltac:(evaluates)) Hc Hp ltac:(done)).
Defined.

(** ** Custody *)

Lemma sys_partial_reachable : sys_reachable sys_partial.
Proof. apply sys_run_reachable. proper_calls. Qed.
Lemma sys_defaulted_reachable : sys_reachable sys_defaulted.
Proof. apply sys_run_reachable. proper_calls. Qed.

(** The default of an invoice of which a tenth is repaid: the pool pays it out. *)
Lemma contracts_pay_only_whom_they_owe_witness :
  let w' := run_tx (FinancingPool.mark_default ADMIN 1 USD) (tx POOL [ADMIN] 2000001) sys_partial in
  w_bal w' USD POOL < w_bal sys_partial USD POOL /\ yields 1 USD sys_partial w'.
Proof.
  cbv zeta.
  assert (Hl : w_bal (run_tx (FinancingPool.mark_default ADMIN 1 USD) (tx POOL [ADMIN] 2000001) sys_partial)
    USD POOL < w_bal sys_partial USD POOL) by evaluates.
  split; [exact Hl|].
  assert (Ho : from_outside (tx POOL [ADMIN] 2000001)) by (apply outside_b_ok; evaluates).
  destruct (contracts_pay_only_whom_they_owe (ToPool (FinancingPool.CMarkDefault ADMIN 1 USD))
    (tx POOL [ADMIN] 2000001) sys_partial _ POOL USD sys_partial_reachable Ho eq_refl ltac:(runs)
    ltac:(by left) Hl) as (_ & _ & H).
  exact H.
Defined.

(** The SME pays on after the default; no one is paid. *)
Lemma defaulted_pools_are_stranded_witness :
  FinancingPool.repay SME 1 USD 800000000 (tx POOL [SME] 3000000) sys_defaulted =
    Ret tt (run_tx (FinancingPool.repay SME 1 USD 800000000) (tx POOL [SME] 3000000) sys_defaulted) /\
  w_bal (run_tx (FinancingPool.repay SME 1 USD 800000000) (tx POOL [SME] 3000000) sys_defaulted) USD ALICE =
    w_bal sys_defaulted USD ALICE.
Proof.
  assert (H : FinancingPool.repay SME 1 USD 800000000 (tx POOL [SME] 3000000) sys_defaulted =
    Ret tt (run_tx (FinancingPool.repay SME 1 USD 800000000) (tx POOL [SME] 3000000) sys_defaulted)) by runs.
  split; [exact H|].
  assert (Hi : exists i, slot sys_defaulted 1 = Some (StoredV2 i) /\ inv_status i = Defaulted).
  { eexists. split; [vm_compute; reflexivity|reflexivity]. }
  destruct Hi as (i & Ei & Es).
  assert (Ho : from_outside (tx POOL [SME] 3000000)) by (apply outside_b_ok; evaluates).
  destruct (defaulted_pools_are_stranded sys_defaulted sys_defaulted 1 i sys_defaulted_reachable Ei Es
    (rtc_refl _ _)) as (_ & _ & Hrep).
  generalize (Hrep SME USD 800000000 (tx POOL [SME] 3000000)
    (run_tx (FinancingPool.repay SME 1 USD 800000000) (tx POOL [SME] 3000000) sys_defaulted)
    (conj eq_refl (proj1 Ho)) Ho H USD ALICE).
  generalize (w_bal (run_tx (FinancingPool.repay SME 1 USD 800000000) (tx POOL [SME] 3000000) sys_defaulted) USD ALICE),
    (w_bal sys_defaulted USD ALICE).
  clear. intros a b ->. unfold moved. cbn. lia.
Defined.

(** ** Progress *)

(** The listing of the invoice, funded by 60%. *)
Definition half_listing : Listing := mkListing 1 SME 900000000 FACE USD 540000000 100000 true.

Lemma half_invoice : exists i, slot sys_half 1 = Some (StoredV2 i) /\ inv_status i = Listed /\
  inv_amount i = FACE /\ inv_due_date i = DUE /\ inv_currency i = "USDC"%string.
Proof. eexists. split; [evaluates|]. by split_and!. Qed.

Lemma half_wired : Progress.wired sys_half /\ market_wired sys_half.
Proof. split; split; try (vm_compute; reflexivity); eexists; [|split]; by vm_compute. Qed.

(** The treasury takes any fee of a safe amount. *)
Lemma half_fee fee : 0 < fee <= 360000000 -> fee_accepted USD fee sys_half.
Proof.
  intros Hf. assert (i128_min <= 0 /\ 400000000 <= i128_max) as [??] by by split; vm_compute.
  assert (default 0 (pget (st_get sys_half) (Treasury.DataKey.Collected USD)) = 5400000) as E by evaluates.
  split; [evaluates|]. rewrite E. lia.
Qed.

Lemma half_can_fund cx :
  user_tx MARKET BOB cx -> cx_now cx = 4000 -> can_fund BOB 1 360000000 half_listing cx sys_half.
Proof.
  intros Htx Hnow. destruct half_invoice as (i & Hi & Hst & _).
  split; [exact Htx|evaluates|evaluates| | | | | | |exact half_fee|evaluates|exact (ex_intro _ i (conj Hi Hst))].
  1: rewrite Hnow. all: clear; vm_compute; intuition discriminate.
Qed.

Lemma bob_pays : user_tx MARKET BOB (tx MARKET [BOB] 4000).
Proof. destruct (at_market [BOB] 4000 ltac:(evaluates)). by split. Qed.

Lemma listing_can_be_filled_witness :
  exists w', Marketplace.fund_invoice BOB 1 360000000 (tx MARKET [BOB] 4000) sys_half = Ret tt w' /\
    exists p i, pool_of w' 1 = Some p /\ p_token p = USD /\ p_is_closed p = false /\
      slot w' 1 = Some (StoredV2 i) /\ inv_status i = Funded.
Proof.
  destruct half_wired as [Hw Hm].
  destruct (listing_can_be_filled BOB 1 360000000 half_listing (tx MARKET [BOB] 4000) sys_half
    sys_half_reachable Hw Hm (half_can_fund _ bob_pays eq_refl)) as (w' & H & _ & Hf).
  exists w'. split; [exact H|]. exact (Hf eq_refl).
Defined.

Lemma open_listing_can_be_settled_witness :
  exists i,
  let w1 := run_tx (Marketplace.fund_invoice BOB 1 360000000) (call_of MARKET BOB 4000) sys_half in
  let w2 := run_tx (FinancingPool.repay SME 1 USD (owed_at 4000 1 half_listing i 500))
    (call_of POOL SME 4000) w1 in
  owed_at 4000 1 half_listing i 500 = FACE /\ rtc sys_step sys_half w2 /\
  exists i', slot w2 1 = Some (StoredV2 i') /\ inv_status i' = Repaid.
Proof.
  destruct half_invoice as (i & Hi & _ & Ha & Hd & Hc). exists i. cbv zeta. destruct half_wired as [Hw Hm].
  assert (owed_at 4000 1 half_listing i 500 = FACE) as Ho.
  { unfold owed_at. rewrite Ha, Hd. evaluates. }
  assert (can_settle BOB SME 1 half_listing i 500 4000 sys_half) as Hs.
  { split; [apply half_can_fund| |exact Hi|exact Hc|evaluates|rewrite Ho; by vm_compute|rewrite Ho; by vm_compute].
    split_and!; [by apply list_mem_false..|done]. }
  destruct (open_listing_can_be_settled BOB SME 1 half_listing i 500 4000 sys_half
    sys_half_reachable Hw Hm Hs) as (Hr & Hi' & _).
  exact (conj Ho (conj Hr Hi')).
Defined.

(** A pool of which a tenth is repaid. *)
Definition partial_pool : Pool := mkPool 1 USD 0 FACE 100000000 false 500 FACE false.

Lemma partial_invoice : exists i, slot sys_partial 1 = Some (StoredV2 i) /\ inv_status i = Funded /\
  inv_due_date i = DUE /\ inv_currency i = "USDC"%string.
Proof. eexists. split; [evaluates|]. by split_and!. Qed.

Lemma partial_wired : Progress.wired sys_partial.
Proof. split; try (vm_compute; reflexivity). eexists. evaluates. Qed.

Lemma sme_pays : user_tx POOL SME (tx POOL [SME] 7000).
Proof.
  destruct (outside_b_ok (tx POOL [SME] 7000)) as [Hh _]; [evaluates|]. by split.
Qed.

Lemma partial_can_repay i :
  slot sys_partial 1 = Some (StoredV2 i) -> inv_status i = Funded -> inv_currency i = "USDC"%string ->
  can_repay SME 1 USD 900000000 partial_pool i (tx POOL [SME] 7000) sys_partial.
Proof.
  intros Hi Hst Hc.
  split; [exact sme_pays|evaluates|evaluates|exact Hi|exact Hst|exact Hc|evaluates|..].
  3: intros _.
  all: clear; vm_compute; intuition discriminate.
Qed.

Lemma pool_can_be_repaid_witness :
  exists w', FinancingPool.repay SME 1 USD 900000000 (tx POOL [SME] 7000) sys_partial = Ret tt w' /\
    exists i', slot w' 1 = Some (StoredV2 i') /\ inv_status i' = Repaid.
Proof.
  destruct partial_invoice as (i & Hi & Hst & Hd & Hc).
  destruct (pool_can_be_repaid SME 1 USD 900000000 partial_pool i (tx POOL [SME] 7000) sys_partial
    sys_partial_reachable partial_wired (partial_can_repay i Hi Hst Hc)) as (w' & H & [_ _ Hcl]).
  exists w'. split; [exact H|]. apply Hcl. rewrite Hd. by vm_compute.
Defined.

(** ** Life times *)

(** The contribution that fills the listing: what it wrote lives another month. *)
Lemma written_entries_are_extended_witness :
  let cx := tx MARKET [BOB] 4000 in
  let w' := run_tx (Marketplace.fund_invoice BOB 1 360000000) cx sys_half in
  holds MONTH market_exempt cx [] sys_half w'.
Proof.
  cbv zeta.
  exact (written_entries_are_extended (ToMarket (Marketplace.CFundInvoice BOB 1 360000000))
    (tx MARKET [BOB] 4000) sys_half _ sys_half_reachable ltac:(runs)).
Defined.

(** Repaid, the pool's record still ends where it did when the pool was opened. *)
Lemma pool_records_are_never_extended_witness :
  st_live sys_repaid (FinancingPool.DataKey.Pool 1) = st_live sys_full (FinancingPool.DataKey.Pool 1) /\
  st_live sys_full (FinancingPool.DataKey.Pool 1) = 4000 / 5 + MIN_TTL - 1.
Proof.
  split; [|evaluates].
  assert (rtc sys_step sys_full sys_repaid) as Hs.
  { unfold sys_repaid, sys_repaid_calls. rewrite run_calls_app. apply sys_runs. proper_calls. }
  assert (is_Some (pget (st_get sys_full) (FinancingPool.DataKey.Pool 1))) as Hp by (eexists; evaluates).
  exact (proj2 (pool_records_are_never_extended sys_full sys_repaid (FinancingPool.DataKey.Pool 1) Hs I Hp)).
Defined.
